(* ===== verification/_CoqProject ===== *)
-Q . S2P
Prelude.v
Text.v
Types.v
Parse.v
Effect.v
Timestamp.v
Runtime.v
Docker.v
Scheduler.v
Bus.v
JetStream.v
Reconcile.v
Workflow.v
Find.v
Metrics.v
Store.v
Registry.v
Controller.v
Dispatch.v
Loops.v
Api.v
System.v
Auth.v
Inventory.v
Agent.v
AgentFacts.v
Cluster.v
Outbox.v
Watcher.v
Scrape.v
Followers.v
Taps.v
Mcp.v
Server.v
Generate.v
CliText.v
Snapshot.v
Cli.v
CliRun.v
McpRun.v
CliTools.v
Scaffold.v
Up.v
Tui.v
Startup.v
Portal.v
Queue.v
QueueRun.v
Bench.v
