(* ===== verification/Prelude.v ===== *)
(** * OrionMesh: a verification library

    OrionMesh is a small orchestrator.  Users apply YAML resources (Services, Tasks,
    Schedules, Workflows, Queues, ...) to a controller, which keeps them in SQLite,
    hears from one agent per node over NATS, and runs workloads by publishing control
    messages to the agents.  The agents start processes and containers through runtime
    adapters and report logs, exits and health back.  Around them stand small programs
    that move data into and out of queues.  This library models

    - the control plane: crates/orion-types (the resource model), orion-bus (subjects
      and messages), orion-scheduler (placement), orion-store (the tables),
      orion-controller (decisions.rs and main.rs), orion-auth;
    - the nodes: orion-agent and orion-runtime (the native, docker and wasm adapters and
      the secret resolver);
    - the adapters: orion-file-watcher, orion-prom-scrape, orion-sidecar,
      orion-opensearch-sink, orion-sqlite-tap, orion-kafka-bridge, orion-webhook, and
      the MCP server orion-mcp;
    - the command line orion-cli, and around it orion-devportal, orion-ui and the demo
      programs.

    ** Files, and what they correspond to

    - [Prelude]: results, machine integers, sorting by a Rust comparison ([CmpOrder]),
      hash maps of unknown iteration order ([HashOrder]), and the hint database [orion].
    - [Text]: the string operations of the standard library the code uses, on UTF-8
      bytes.
    - [Types]: orion-types/src: every resource kind with its spec, capability selectors
      and their decoding, [validate], the default subject and stream of a queue.
    - [Parse]: reading text as Rust does: lines, words, integers, floats, UTF-8.
    - [Effect]: the state monad of the stateful code.  An [Oracle] supplies every clock
      reading, every UUID and the failure of every external call, so a theorem for all
      oracles covers all clocks and all failures.
    - [Timestamp]: the RFC 3339 text of an instant as documented by chrono, with fractions of
      varying length, and the order of such texts.
    - [Scheduler]: orion-scheduler/src/lib.rs.
    - [Bus]: orion-bus/src, with NATS subject matching as documented by NATS.
      [JetStream]: client.rs over a broker: the calls the program makes on JetStream (a
      class of operations with the laws [JetStreamLaws], stated on what the streams have
      stored), and a broker in memory that has the laws.
    - [Reconcile], [Workflow], [Find], [Metrics]: the four parts of decisions.rs: the
      reconcile decision, the workflow planner, the capability matcher (and its second
      copy in main.rs), and the Prometheus renderer.
    - [Store]: orion-store/src: the tables [resource], [observed_node] and
      [log_archive]; one definition per method, one [query] per SQL statement.
    - [Registry]: the shared in-memory state of main.rs: log rings, instances with
      their index by workload, schedules, workflow progress, health.
    - [Controller]: [AppState] and the code that runs on it: the message subscribers
      ([on_heartbeat], [on_inventory], [on_log], [on_task_event], [on_service_health]),
      [dispatch_workload] and the node choice, and one pass of the reconcile, workflow
      and schedule loops.  The bus is the list of messages published so far.
    - [Dispatch], [Loops]: the theorems on that code.
    - [Api]: the HTTP handlers of main.rs.
    - [System]: the controller as a transition system, all handlers interleaved.
    - [Auth]: orion-auth/src/lib.rs and the plaintext secret resolver.
    - [Runtime]: orion-runtime/src: the registry, the adapter interface (a record of
      operations, with the laws [AdapterLaws]) and the native adapter: its map of
      children, the spawned wait tasks and the processes of the host, as a transition
      system.  [Docker]: the docker and wasm adapters.
    - [Inventory], [Agent]: orion-agent/src/main.rs: the inventory and GPU parsers; and
      [AgentState] with one definition per handler and loop body ([dispatch_control],
      [forward_exit], [forward_log], [probe_tick], [agent_tick]), over any host of
      adapters.  [AgentFacts]: the theorems on that code.
    - [Cluster]: controller and agent composed, the messages of one being the events of
      the other.
    - [Outbox]: publishing to a queue, and the loops the adapters share.  [Watcher],
      [Scrape]: the file watcher and the Prometheus scraper.  [Followers]: the sidecar
      and the OpenSearch sink, against the archive handler of [Api].  [Taps]: the
      SQLite tap, the Kafka bridge and the webhook.
    - [Mcp]: the route table of the controller and the MCP server's tools.
    - [Server]: the controller as an HTTP server: requests, the extractors, the bearer
      layer, every route with its handler, and the JSON of the answers.
    - [Generate], [CliText], [Snapshot]: orion-cli's resource generators
      (cmd/generate.rs), its tables, the JSON converter and the quoting (output.rs,
      cmd/json.rs, cmd/shell.rs), and cmd/snapshot.rs.
    - [Cli]: its HTTP client (http.rs), the token, the routes its commands reach, and
      cmd/logs.rs.  [CliRun]: the commands themselves, each a request to the server of
      [Server] and the lines it prints.  [CliTools]: find, exec, doctor.
      [McpRun]: the tool calls of [Mcp], sent to the server of [Server].
      [Queue], [QueueRun]: cmd/queue.rs on a broker, and with the controller at the other
      end.  [Bench]: cmd/bench.rs, its publishers interleaved by a schedule.
      [Scaffold]: cmd/init.rs on a disk.  [Up]: cmd/up.rs on a host of processes, and
      the arguments of the programs it starts.  [Tui]: the loop of cmd/tui.rs.
    - [Startup]: [main] of controller and agent up to serving, their subscriptions, the
      delivery of each message to its handler, and the runs of a started controller.
    - [Portal]: the developer portal's client, the page of the web interface, the demo
      publisher and the modes of the demo subscriber.

    Third-party code is a parameter: serde's JSON and YAML ([SerdeJson],
    [ResourceCodec], [ControllerLibs], [ApiLibs], and for snapshots [YamlText] with
    [YamlLaws]), chrono's timestamps ([Rfc3339], with the laws [Rfc3339Laws] that they have
    the documented format and read back; that the archive may compare them as text is a
    theorem of [Timestamp]), the cron crate, UUID parsing, reqwest, the operating system ([HostOs],
    [HostFacts]), the docker command ([DockerCli]), JetStream ([JetStream]), wasmtime, the regex, hmac and hex
    crates, sqlx rows and SQLite's meaning of the tap's queries ([sql_answers]).  Each class has a concrete
    instance, with which the witnesses evaluate.

    ** What the theorems show

    - Decisions.  [decide_reconcile] returns exactly the action its contract allows and
      settles after one round; a workflow tick moves each step only as the contract
      says, workflows with well-founded dependencies finish within two ticks per step
      and the others never do; the capability matcher has the meaning of the selector;
      [pick_best] is optimal among the nodes that pass its filter, complete and independent
      of the order of its input.
    - Storage.  Sequences of resource operations refine an abstract table with
      generations under any failures; the node cache and the log archive refine their
      abstract content; the log rings hold the last 500 lines; the instance index loses
      no instance.
    - The controller.  A dispatch publishes one run to a node that fits or changes
      nothing, and without faults succeeds exactly when there is such a node;
      reconciling a Service, ticking a workflow and ticking a schedule carry out the
      pure decisions; every state reached under any interleaving satisfies the
      controller's invariant; stopping a workload and applying a resource do what they
      answer.
    - The nodes.  A run message launches exactly the slots it asks for; an exit is
      reported once, and reaches the reconciler with the meaning its restart policy
      gives it; a probe loop reports its history; the inventory is refreshed within a
      bounded number of heartbeats; adapters are only given runtimes of their kind; the
      docker command line reads back to the workload.
    - The adapters.  The file watcher, the sidecar and the SQLite tap deliver what they
      follow in order and exactly once, under the conditions their theorems state; the
      scraper reads the controller's own metrics; the webhook publishes only signed
      requests; every MCP tool accepts what its schema says, and its call does and returns
      what its handler does and answers.
    - The processes.  A controller starts only with a token or an explicit opt-out,
      runs what its subscriptions allow, and keeps its invariant under all messages,
      timers and requests; a request changes what one event changes, or nothing; every
      message of one side reaches exactly one handler of the other.
    - The command line.  Each command changes the controller exactly as its handler
      does and prints what the handler answered; [orion run] starts one run or says why
      not; a snapshot of plain documents restores; generated documents decode to what was
      asked for; a printed table with single-word columns reads back as JSON; [orion up]
      starts its programs in order and stops what it started, in reverse;
      [orion init] keeps the user's files; the dashboard shows the controller's state;
      [orion queue] publishes rows in order, shows each delivered message, empties a stream
      only when that was confirmed, and otherwise only looks; the publishers of the
      benchmark send their shares under any interleaving.
    - The edge.  A request passes only with the configured token; a secret reference
      reads only in its directory; distinct nodes and topics have distinct subjects;
      rendered metrics read back.
    - Limits of the code, as theorems: label placement cannot be satisfied, acceleration is
      not looked at, a Service that is wholly down is launched again whatever its policy says
      of single exits, a snapshot loses the last line break of a block scalar, names in tool
      calls are not escaped, the nodes table reads back with one column too many, replicas
      that do not log are launched again by every pass, a native process survives its stop
      message, a burst of more than 1000 lines is lost to the sidecar and a failed batch
      to the sink, a line can be torn by the file watcher, a malformed label block ends
      the scraper, a namespaced resource cannot be read back,
      two racing upserts share a generation, a purged instance can come back, log
      followers stall at 500 lines, stream names collide, node ids with dots lose
      their logs, and others; their doc comments say which statement of the source
      they qualify.

    ** Bounds

    Fixed-width integers are integers of [Z] with the wrap-around written where the
    code can overflow; theorems that need counts to fit say so.  Every definition is a
    total function: loops run over finite lists, so no fuel is needed, and the
    workflow theorem bounds the number of ticks instead.  The few recursive readers of
    text take the length of the text as fuel, which is enough because every step
    consumes a character.

    ** What is not modelled

    The sockets below the HTTP listener and the broker, what other clients do to the broker
    while a command runs, CORS, the periods of the timers
    (when a pass of a loop runs is left open), tracing output, SQLite's own syntax, and
    the printing and parsing of JSON and YAML text, which are parameters with the laws
    that are used.  Of the command line: shell completions, clap's parsing beyond flags
    with values, the colours and layout of the dashboard, the times and rates of bench.  The page of
    orion-ui is HTML and script, and the client libraries under clients/ are in other
    languages. *)

From Stdlib Require Import ZArith Lia Bool Sorted.
From stdpp Require Import base list gmap strings pretty.

(** ** Results

    Rust's [Result]: a fallible operation returns [Ok] or [Err]. *)

Inductive result (A E : Type) : Type :=
| Ok (a : A)
| Err (e : E).
Arguments Ok {A E} a.
Arguments Err {A E} e.

Declare Scope orion_scope.
Delimit Scope orion_scope with orion.
Open Scope orion_scope.

(** The [?] operator. *)
Notation "'let?' x ':=' m 'in' k" :=
  (match m with Ok x => k | Err e => Err e end)
  (at level 10, x pattern, m at level 100, k at level 200) : orion_scope.

(** [Result::ok]. *)
Definition result_ok {A E} (r : result A E) : option A :=
  match r with Ok a => Some a | Err _ => None end.

(** Collecting an iterator of results: the first error wins. *)
Fixpoint result_collect {A B E} (f : A → result B E) (l : list A) : result (list B) E :=
  match l with
  | [] => Ok []
  | x :: l' =>
      match f x with
      | Err e => Err e
      | Ok y => match result_collect f l' with Ok ys => Ok (y :: ys) | Err e => Err e end
      end
  end.

(** [Option::ok_or]. *)
Definition ok_or {A E} (o : option A) (e : E) : result A E :=
  match o with Some a => Ok a | None => Err e end.

(** ** Machine integers

    A [u32] (or [u64], [i64], [usize]) is an integer of [Z]; the operations that
    can leave the range write their wrap-around or saturation out. *)

Definition u32_max : Z := 4294967295.
Definition wrap_u32 (x : Z) : Z := x `mod` 4294967296.
Definition is_u32 (x : Z) : Prop := (0 <= x <= u32_max)%Z.
Definition u64_max : Z := 18446744073709551615.
Definition is_u64 (x : Z) : Prop := (0 <= x <= u64_max)%Z.
Definition saturating_add_u32 (x y : Z) : Z := Z.min (x + y) u32_max.

(** [v.len() as u32]. *)
Definition len_u32 {A} (l : list A) : Z := wrap_u32 (Z.of_nat (length l)).

(** [x as i64] on a [u64]: the two's complement reading. *)
Definition i64_of_u64 (x : Z) : Z :=
  if (x <? 9223372036854775808)%Z then x else (x - 18446744073709551616)%Z.

(** [x + y] on [i64] and [x as u64] on an [i64]: two's complement. *)
Definition add_i64 (x y : Z) : Z :=
  ((x + y + 9223372036854775808) `mod` 18446744073709551616 - 9223372036854775808)%Z.
Definition u64_of_i64 (x : Z) : Z := x `mod` 18446744073709551616.

(** The range [lo..hi] of [u32]s as a list. *)
Definition range_u32 (lo hi : Z) : list Z :=
  (fun k => (lo + Z.of_nat k)%Z) <$> seq 0 (Z.to_nat (hi - lo)).

Create HintDb orion discriminated.

(** ** Tactics of the development *)

(** Case analysis on every [match] and [if] of the goal. *)
Ltac case_all := repeat (case_match; simplify_eq/=; try done).

(** Turn boolean tests of the hypotheses and of the goal into propositions. *)
Ltac bool_prop :=
  repeat match goal with
  | H : (_ && _)%bool = true |- _ => apply andb_true_iff in H as [? ?]
  | H : (_ || _)%bool = false |- _ => apply orb_false_iff in H as [? ?]
  | H : negb _ = true |- _ => apply negb_true_iff in H
  | H : negb _ = false |- _ => apply negb_false_iff in H
  | H : bool_decide _ = true |- _ => apply bool_decide_eq_true in H
  | H : bool_decide _ = false |- _ => apply bool_decide_eq_false in H
  | H : (_ =? _)%Z = true |- _ => apply Z.eqb_eq in H
  | H : (_ =? _)%Z = false |- _ => apply Z.eqb_neq in H
  | H : (_ <? _)%Z = true |- _ => apply Z.ltb_lt in H
  | H : (_ <? _)%Z = false |- _ => apply Z.ltb_ge in H
  | H : (_ <=? _)%Z = true |- _ => apply Z.leb_le in H
  | H : (_ <=? _)%Z = false |- _ => apply Z.leb_gt in H
  end.

(** ** Ranges and lengths *)

Lemma wrap_u32_small x : is_u32 x → wrap_u32 x = x.
Proof. unfold is_u32, wrap_u32, u32_max. intros. apply Z.mod_small. lia. Qed.

Lemma wrap_u32_range x : is_u32 (wrap_u32 x).
Proof.
  unfold is_u32, wrap_u32, u32_max.
  pose proof (Z.mod_pos_bound x 4294967296). lia.
Qed.

Lemma saturating_add_u32_range x y :
  is_u32 x → is_u32 y → is_u32 (saturating_add_u32 x y).
Proof. unfold is_u32, saturating_add_u32, u32_max. lia. Qed.

Lemma len_u32_small {A} (l : list A) :
  (Z.of_nat (length l) <= u32_max)%Z → len_u32 l = Z.of_nat (length l).
Proof. intros. unfold len_u32. apply wrap_u32_small. unfold is_u32. lia. Qed.

Lemma elem_of_range_u32 lo hi x : x ∈ range_u32 lo hi ↔ (lo <= x < hi)%Z.
Proof.
  unfold range_u32. rewrite list_elem_of_fmap. split.
  - intros (k & -> & Hk%elem_of_seq). lia.
  - intros H. exists (Z.to_nat (x - lo)). split; [lia|].
    apply elem_of_seq. lia.
Qed.

Lemma length_range_u32 lo hi : length (range_u32 lo hi) = Z.to_nat (hi - lo).
Proof. unfold range_u32. by rewrite length_fmap, length_seq. Qed.

Lemma NoDup_range_u32 lo hi : NoDup (range_u32 lo hi).
Proof.
  apply NoDup_fmap_2; [intros ??; lia | apply NoDup_seq].
Qed.

#[export] Hint Resolve wrap_u32_range saturating_add_u32_range NoDup_range_u32 : orion.

(** A set built from a list has at most as many elements. *)
Lemma size_list_to_set_le `{Countable A} (l : list A) :
  size (list_to_set l : gset A) ≤ length l.
Proof.
  induction l as [|x l IH]; [done|]. rewrite list_to_set_cons, length_cons.
  rewrite size_union_alt, size_singleton.
  assert (size (list_to_set l ∖ {[x]} : gset A) ≤ size (list_to_set l : gset A)); [|lia].
  apply subseteq_size. set_solver.
Qed.

(** ** Boolean list predicates *)

Lemma forallb_Forall {A} (f : A → bool) l :
  forallb f l = true ↔ Forall (λ x, f x = true) l.
Proof. rewrite forallb_forall, Forall_forall. by setoid_rewrite list_elem_of_In. Qed.

Lemma existsb_Exists {A} (f : A → bool) l :
  existsb f l = true ↔ ∃ x, x ∈ l ∧ f x = true.
Proof. rewrite existsb_exists. by setoid_rewrite list_elem_of_In. Qed.

Lemma elem_of_bfilter {A} (f : A → bool) l x :
  x ∈ List.filter f l ↔ x ∈ l ∧ f x = true.
Proof. rewrite !list_elem_of_In. apply filter_In. Qed.

Lemma NoDup_bfilter {A} (f : A → bool) l : NoDup l → NoDup (List.filter f l).
Proof. rewrite !NoDup_ListNoDup. apply List.NoDup_filter. Qed.

Lemma bfilter_true {A} (f : A → bool) l : (∀ x, x ∈ l → f x = true) → List.filter f l = l.
Proof.
  induction l as [|x l IH]; intros H; [done|]. simpl. rewrite (H x) by (by left).
  rewrite IH; [done|]. intros y Hy. apply H. by right.
Qed.

Lemma bfilter_false {A} (f : A → bool) l : (∀ x, x ∈ l → f x = false) → List.filter f l = [].
Proof.
  induction l as [|x l IH]; intros H; [done|]. simpl. rewrite (H x) by (by left).
  apply IH. intros y Hy. apply H. by right.
Qed.

Lemma bfilter_ext {A} (f g : A → bool) l :
  (∀ x, x ∈ l → f x = g x) → List.filter f l = List.filter g l.
Proof.
  induction l as [|x l IH]; intros H; [done|]. simpl. rewrite (H x) by (by left).
  rewrite IH; [done|]. intros y Hy. apply H. by right.
Qed.

Lemma bfilter_comm {A} (f g : A → bool) l :
  List.filter f (List.filter g l) = List.filter g (List.filter f l).
Proof.
  induction l as [|x l IH]; [done|]. simpl.
  destruct (g x) eqn:Eg, (f x) eqn:Ef; simpl; rewrite ?Eg, ?Ef, IH; done.
Qed.

Lemma bfilter_sorted {A} (R : A → A → Prop) (f : A → bool) l :
  StronglySorted R l → StronglySorted R (List.filter f l).
Proof.
  induction 1 as [|x l Hl IH Hx]; simpl; [constructor|]. destruct (f x); [|done].
  constructor; [done|]. rewrite Forall_forall in *. intros y [Hy _]%elem_of_bfilter. by apply Hx.
Qed.

Lemma bfilter_sublist {A} (f : A → bool) l : List.filter f l `sublist_of` l.
Proof. induction l as [|x l IH]; [done|]. cbn. destruct (f x); by constructor. Qed.

Lemma bfilter_partition {A} (f : A → bool) l :
  length (List.filter f l) = length l - length (List.filter (λ x, negb (f x)) l).
Proof.
  assert (length l = length (List.filter f l) + length (List.filter (λ x, negb (f x)) l)); [|lia].
  induction l as [|x l IH]; [done|]. cbn. destruct (f x); cbn; lia.
Qed.

Lemma bfilter_perm {A} (f : A → bool) l k :
  l ≡ₚ k → List.filter f l ≡ₚ List.filter f k.
Proof.
  induction 1; simpl; repeat case_match; eauto using Permutation_trans, perm_swap.
Qed.

Lemma find_Some {A} (f : A → bool) l x :
  List.find f l = Some x → x ∈ l ∧ f x = true.
Proof. rewrite list_elem_of_In. apply List.find_some. Qed.

Lemma find_None {A} (f : A → bool) l x :
  List.find f l = None → x ∈ l → f x = false.
Proof. rewrite list_elem_of_In. intros H. by apply List.find_none. Qed.

Lemma find_is_Some {A} (f : A → bool) l x :
  x ∈ l → f x = true → is_Some (List.find f l).
Proof.
  intros Hx Hf. destruct (List.find f l) eqn:E; [done|].
  rewrite (find_None _ _ _ E Hx) in Hf. done.
Qed.

(** An early [return false]. *)
Lemma early_false (b c : bool) :
  (if b then false else c) = true ↔ b = false ∧ c = true.
Proof. destruct b; naive_solver. Qed.

(** A list constraint that is vacuous when the list is empty. *)
Lemma any_of_false `{EqDecision A} (x : A) (l : list A) :
  negb (bool_decide (l = [])) && negb (bool_decide (x ∈ l)) = false ↔ l = [] ∨ x ∈ l.
Proof.
  rewrite andb_false_iff, !negb_false_iff, !bool_decide_eq_true. done.
Qed.

(** ** Comparators and sorting

    [sort_by] is Rust's [slice::sort_by]: stable, driven by a three-valued
    comparator.  [CmpOrder] is what a comparator has to satisfy. *)

Class CmpOrder {A} (cmp : A → A → comparison) : Prop := {
  cmp_antisym : ∀ x y, cmp y x = CompOpp (cmp x y);
  cmp_trans : ∀ x y z, cmp x y ≠ Gt → cmp y z ≠ Gt → cmp x z ≠ Gt
}.

Definition cmp_le {A} (cmp : A → A → comparison) (x y : A) : Prop := cmp x y ≠ Gt.

(** [Ordering::then]. *)
Definition cmp_then {A} (c1 c2 : A → A → comparison) (x y : A) : comparison :=
  match c1 x y with Eq => c2 x y | c => c end.

(** [b.cmp(&a)] instead of [a.cmp(&b)]. *)
Definition cmp_rev {A} (c : A → A → comparison) (x y : A) : comparison := c y x.

(** Comparison of a key. *)
Definition cmp_on {A B} (f : A → B) (c : B → B → comparison) (x y : A) : comparison :=
  c (f x) (f y).

#[export] Typeclasses Opaque cmp_then cmp_rev cmp_on.

Fixpoint sort_insert {A} (cmp : A → A → comparison) (x : A) (l : list A) : list A :=
  match l with
  | [] => [x]
  | y :: l' => match cmp x y with
               | Gt => y :: sort_insert cmp x l'
               | _ => x :: y :: l'
               end
  end.

Definition sort_by {A} (cmp : A → A → comparison) (l : list A) : list A :=
  foldr (sort_insert cmp) [] l.

Section sorting.
Context {A : Type} (cmp : A → A → comparison).

Lemma sort_insert_perm x l : sort_insert cmp x l ≡ₚ x :: l.
Proof.
  induction l as [|y l IH]; simpl; [done|].
  case_match; [done|done|]. rewrite IH. apply Permutation_swap.
Qed.

Lemma sort_by_perm l : sort_by cmp l ≡ₚ l.
Proof.
  induction l as [|x l IH]; simpl; [done|]. by rewrite sort_insert_perm, IH.
Qed.

Lemma elem_of_sort_by x l : x ∈ sort_by cmp l ↔ x ∈ l.
Proof. by rewrite sort_by_perm. Qed.

Context `{!CmpOrder cmp}.

Lemma cmp_le_refl x : cmp_le cmp x x.
Proof.
  unfold cmp_le. pose proof (cmp_antisym (cmp:=cmp) x x) as H.
  destruct (cmp x x); done.
Qed.

Lemma cmp_total x y : cmp x y = Gt → cmp_le cmp y x.
Proof. unfold cmp_le. rewrite (cmp_antisym (cmp:=cmp) x y). by intros ->. Qed.

Lemma sort_insert_sorted x l :
  StronglySorted (cmp_le cmp) l → StronglySorted (cmp_le cmp) (sort_insert cmp x l).
Proof.
  induction 1 as [|y l Hl IH Hy]; simpl; [repeat constructor|].
  destruct (cmp x y) eqn:E.
  1,2: assert (cmp_le cmp x y) by (unfold cmp_le; congruence);
    constructor; [by constructor|]; constructor; [done|];
    eapply Forall_impl; [exact Hy|]; intros z ?; by eapply cmp_trans.
  constructor; [done|]. rewrite sort_insert_perm. constructor; [|done].
  by apply cmp_total.
Qed.

Lemma sort_by_sorted l : StronglySorted (cmp_le cmp) (sort_by cmp l).
Proof. induction l; simpl; [constructor | by apply sort_insert_sorted]. Qed.

(** The head of a sorted vector is a minimum of the input. *)
Lemma sort_by_head l x :
  head (sort_by cmp l) = Some x → x ∈ l ∧ ∀ y, y ∈ l → cmp_le cmp x y.
Proof.
  intros H. pose proof (sort_by_sorted l) as Hs.
  setoid_rewrite <- (elem_of_sort_by _ l).
  destruct (sort_by cmp l) as [|z l']; simplify_eq/=.
  apply StronglySorted_inv in Hs as [_ Hz]. split; [by left|].
  intros y [->|Hy]%elem_of_cons; [apply cmp_le_refl|].
  rewrite Forall_forall in Hz. by apply Hz.
Qed.

(** A sorted list stays as it is. *)
Lemma sort_by_id l : StronglySorted (cmp_le cmp) l → sort_by cmp l = l.
Proof.
  induction 1 as [|x l Hl IH Hx]; simpl; [done|]. rewrite IH.
  destruct l as [|y l']; simpl; [done|].
  apply Forall_cons in Hx as [Hx _]. unfold cmp_le in Hx.
  by destruct (cmp x y).
Qed.

End sorting.

Lemma sort_by_nil {A} (cmp : A → A → comparison) l : sort_by cmp l = [] ↔ l = [].
Proof.
  split; [|by intros ->]. intros H.
  apply Permutation_nil_r. by rewrite <- H, sort_by_perm.
Qed.

Lemma length_sort_by {A} (cmp : A → A → comparison) l : length (sort_by cmp l) = length l.
Proof. by rewrite sort_by_perm. Qed.

#[export] Instance cmp_then_order {A} (c1 c2 : A → A → comparison) :
  CmpOrder c1 → CmpOrder c2 → CmpOrder (cmp_then c1 c2).
Proof.
  intros H1 H2. split; unfold cmp_then.
  - intros x y. rewrite (cmp_antisym (cmp:=c1) x y). destruct (c1 x y); simpl; try done.
    apply cmp_antisym.
  - intros x y z. pose proof (cmp_trans (cmp:=c1) x y z) as Ht.
    pose proof (cmp_trans (cmp:=c1) y z x) as Ht2.
    pose proof (cmp_trans (cmp:=c1) z x y) as Ht3.
    rewrite (cmp_antisym (cmp:=c1) x z) in *.
    rewrite (cmp_antisym (cmp:=c1) x y), (cmp_antisym (cmp:=c1) y z) in *.
    pose proof (cmp_trans (cmp:=c2) x y z) as Hs.
    destruct (c1 x y), (c1 y z), (c1 x z); simpl in *; try done; naive_solver.
Qed.

#[export] Instance cmp_rev_order {A} (c : A → A → comparison) :
  CmpOrder c → CmpOrder (cmp_rev c).
Proof.
  intros H. split; unfold cmp_rev.
  - intros x y. apply cmp_antisym.
  - intros x y z ??. by eapply cmp_trans.
Qed.

#[export] Instance cmp_on_order {A B} (f : A → B) (c : B → B → comparison) :
  CmpOrder c → CmpOrder (cmp_on f c).
Proof.
  intros H. split; unfold cmp_on.
  - intros x y. apply cmp_antisym.
  - intros x y z. apply cmp_trans.
Qed.

#[export] Instance Z_compare_order : CmpOrder Z.compare.
Proof.
  split.
  - intros x y. apply Z.compare_antisym.
  - intros x y z. rewrite !Z.compare_le_iff. lia.
Qed.

#[export] Instance string_compare_order : CmpOrder String.compare.
Proof.
  split.
  - intros x y. apply String.compare_antisym.
  - assert (∀ x y z, String.compare x y ≠ Gt → String.compare y z ≠ Gt →
      String.compare x z ≠ Gt) as H; [|exact H].
    induction x as [|a x IH]; intros [|b y] [|c z]; simpl; try done.
    unfold Ascii.compare. intros H1 H2.
    specialize (IH y z).
    destruct (N.compare_spec (Ascii.N_of_ascii a) (Ascii.N_of_ascii b)) as [E|E|E];
    destruct (N.compare_spec (Ascii.N_of_ascii b) (Ascii.N_of_ascii c)) as [E'|E'|E'];
    destruct (N.compare_spec (Ascii.N_of_ascii a) (Ascii.N_of_ascii c)) as [E''|E''|E''];
      try done; try lia; auto.
Qed.

Lemma string_compare_eq x y : String.compare x y = Eq → x = y.
Proof. apply String.compare_eq_iff. Qed.

(** Sorting integers without duplicates gives a strictly increasing list, and
    such a list is determined by its elements. *)
Lemma sort_by_Z_lt l : NoDup l → StronglySorted Z.lt (sort_by Z.compare l).
Proof.
  intros Hnd. pose proof (sort_by_sorted Z.compare l) as Hs.
  rewrite <- (sort_by_perm Z.compare l) in Hnd.
  induction Hs as [|x k Hk IH Hx]; [constructor|].
  apply NoDup_cons in Hnd as [Hnx Hnd]. constructor; [by apply IH|].
  rewrite Forall_forall in *. intros y Hy. specialize (Hx y Hy).
  unfold cmp_le in Hx. rewrite Z.compare_le_iff in Hx.
  assert (x ≠ y) by by intros ->. lia.
Qed.

Lemma StronglySorted_lt_unique l k :
  StronglySorted Z.lt l → StronglySorted Z.lt k → (∀ x, x ∈ l ↔ x ∈ k) → l = k.
Proof.
  intros Hl. revert k. induction Hl as [|x l Hl IH Hx]; intros k Hk Heq.
  - destruct k as [|y k]; [done|].
    assert (y ∈ []) as []%elem_of_nil by (apply Heq; by left).
  - destruct Hk as [|y k Hk Hy].
    { assert (x ∈ []) as []%elem_of_nil by (apply Heq; by left). }
    rewrite Forall_forall in *.
    assert (x = y) as ->.
    { destruct (proj1 (elem_of_cons k x y)) as [?|Hxk]; [apply Heq; by left|done|].
      destruct (proj1 (elem_of_cons l y x)) as [?|Hyl]; [apply Heq; by left|done|].
      specialize (Hx _ Hyl). specialize (Hy _ Hxk). lia. }
    f_equal. apply IH; [done|]. intros z. specialize (Heq z). rewrite !elem_of_cons in Heq.
    split; intros Hz.
    + destruct (proj1 Heq) as [->|]; [by right| |done]. specialize (Hx _ Hz). lia.
    + destruct (proj2 Heq) as [->|]; [by right| |done]. specialize (Hy _ Hz). lia.
Qed.

(** Two minima of a comparator that separates points coincide: the head of a
    sorted vector does not depend on the order of the input. *)
Lemma sort_by_head_perm {A} (cmp : A → A → comparison) `{!CmpOrder cmp} l k :
  (∀ x y, x ∈ l → y ∈ l → cmp x y = Eq → x = y) →
  l ≡ₚ k → head (sort_by cmp l) = head (sort_by cmp k).
Proof.
  intros Hinj Hp.
  destruct (head (sort_by cmp l)) as [x|] eqn:Ex.
  - apply (sort_by_head cmp) in Ex as [Hx Hmin].
    destruct (head (sort_by cmp k)) as [y|] eqn:Ey.
    + apply (sort_by_head cmp) in Ey as [Hy Hmin']. rewrite <- Hp in Hy.
      f_equal. apply Hinj; [done..|].
      pose proof (Hmin y Hy) as H1. rewrite Hp in Hx. pose proof (Hmin' x Hx) as H2.
      unfold cmp_le in *. rewrite (cmp_antisym (cmp:=cmp) x y) in H2. by destruct (cmp x y).
    + destruct (sort_by cmp k) eqn:E; [|done]. apply sort_by_nil in E as ->.
      apply Permutation_nil_r in Hp as ->. by apply elem_of_nil in Hx.
  - destruct (sort_by cmp l) eqn:E; [|done]. apply sort_by_nil in E as ->.
    symmetry in Hp. apply Permutation_nil_r in Hp as ->. done.
Qed.

(** ** Hash maps

    A [HashMap] is a [gmap]; the order in which Rust iterates over one is
    unspecified.  [HashOrder] is an arbitrary iteration order, and every theorem
    holds for each of them. *)

Class HashOrder : Type := {
  hash_iter : ∀ {K : Type} `{Countable K} {A : Type}, gmap K A → list (K * A);
  hash_iter_perm : ∀ {K : Type} `{Countable K} {A : Type} (m : gmap K A),
    hash_iter m ≡ₚ map_to_list m
}.

(** The order stdpp enumerates a map in: the instance the witnesses run with. *)
Definition canonical_order : HashOrder :=
  {| hash_iter := λ K _ _ A m, map_to_list m;
     hash_iter_perm := λ K _ _ A m, Permutation_refl _ |}.

Definition hash_values `{HashOrder} `{Countable K} {A} (m : gmap K A) : list A :=
  snd <$> hash_iter m.

Definition hash_keys `{HashOrder} `{Countable K} {A} (m : gmap K A) : list K :=
  fst <$> hash_iter m.

Lemma elem_of_hash_iter `{HashOrder} `{Countable K} {A} (m : gmap K A) k x :
  (k, x) ∈ hash_iter m ↔ m !! k = Some x.
Proof. rewrite hash_iter_perm. apply elem_of_map_to_list. Qed.

Lemma elem_of_hash_values `{HashOrder} `{Countable K} {A} (m : gmap K A) x :
  x ∈ hash_values m ↔ ∃ k, m !! k = Some x.
Proof.
  unfold hash_values. rewrite list_elem_of_fmap. split.
  - intros ([k y] & -> & Hk%elem_of_hash_iter). eauto.
  - intros [k Hk%elem_of_hash_iter]. by exists (k, x).
Qed.

Lemma length_hash_values `{HashOrder} `{Countable K} {A} (m : gmap K A) :
  length (hash_values m) = size m.
Proof.
  unfold hash_values. rewrite length_fmap, hash_iter_perm.
  apply length_map_to_list.
Qed.

(** A [BTreeMap] is a [gmap] too.  The source iterates over one only to check
    that every entry passes, or to count entries, so the order does not show. *)
Definition map_all `{Countable K} {A} (f : K → A → bool) (m : gmap K A) : bool :=
  forallb (λ kv, f kv.1 kv.2) (map_to_list m).

Definition map_count `{Countable K} {A} (f : K → A → bool) (m : gmap K A) : nat :=
  length (List.filter (λ kv, f kv.1 kv.2) (map_to_list m)).

Lemma map_all_true `{Countable K} {A} (f : K → A → bool) (m : gmap K A) :
  map_all f m = true ↔ ∀ k x, m !! k = Some x → f k x = true.
Proof.
  unfold map_all. rewrite forallb_Forall, Forall_forall. split.
  - intros Hf k x Hk%elem_of_map_to_list. by apply (Hf (k, x)).
  - intros Hf [k x] Hk%elem_of_map_to_list. simpl. by apply Hf.
Qed.

Lemma map_count_none `{Countable K} {A} (f : K → A → bool) (m : gmap K A) :
  (∀ k x, m !! k = Some x → f k x = false) → map_count f m = 0.
Proof.
  intros Hf. unfold map_count. apply length_zero_iff_nil, elem_of_nil_inv.
  intros [k x] [Hk%elem_of_map_to_list Hx]%elem_of_bfilter. simpl in Hx. by rewrite Hf in Hx.
Qed.

Lemma map_count_le `{Countable K} {A} (f : K → A → bool) (m : gmap K A) :
  map_count f m ≤ size m.
Proof.
  unfold map_count. rewrite <- length_map_to_list. apply List.filter_length_le.
Qed.
