(* ===== verification/Text.v ===== *)
(** * Rust string operations

    A [str] is its UTF-8 bytes.  These are the methods of [str] the source calls,
    with the lemmas about them: prefixes, suffixes, substring search, splitting
    and trimming. *)

From Stdlib Require Import ZArith Lia Bool Ascii.
From stdpp Require Import base list strings.
From S2P Require Import Prelude.

(** [s.strip_prefix(p)]. *)
Fixpoint strip_prefix (p s : string) : option string :=
  match p, s with
  | EmptyString, _ => Some s
  | String a p', String b s' => if Ascii.eqb a b then strip_prefix p' s' else None
  | _, EmptyString => None
  end.

Definition starts_with (p s : string) : bool :=
  if strip_prefix p s then true else false.

Fixpoint string_rev_app (s acc : string) : string :=
  match s with
  | EmptyString => acc
  | String a s' => string_rev_app s' (String a acc)
  end.

Definition string_rev (s : string) : string := string_rev_app s EmptyString.

(** [s.ends_with(suf)]. *)
Definition ends_with (suf s : string) : bool :=
  starts_with (string_rev suf) (string_rev s).

(** [s.contains(needle)]. *)
Fixpoint contains (needle s : string) : bool :=
  starts_with needle s ||
  match s with
  | EmptyString => false
  | String _ s' => contains needle s'
  end.

(** [s.split(c)]: always at least one piece. *)
Fixpoint split_on (c : ascii) (s : string) : list string :=
  match s with
  | EmptyString => [EmptyString]
  | String a s' =>
      if Ascii.eqb a c then EmptyString :: split_on c s'
      else match split_on c s' with
           | [] => [String a EmptyString]
           | w :: ws => String a w :: ws
           end
  end.

(** [s.split_once(sep)] for a separator of any length. *)
Fixpoint split_once (sep s : string) : option (string * string) :=
  match strip_prefix sep s with
  | Some rest => Some (EmptyString, rest)
  | None =>
      match s with
      | EmptyString => None
      | String a s' => (λ '(l, r), (String a l, r)) <$> split_once sep s'
      end
  end.

(** The UTF-8 encodings of the characters with the White_Space property. *)
Definition ascii_str (n : N) : string := String (Ascii.ascii_of_N n) EmptyString.
Definition byte_str (l : list N) : string := foldr (λ n, String (Ascii.ascii_of_N n)) EmptyString l.

Definition whitespace_chars : list string :=
  byte_str <$> [[32]; [9]; [10]; [11]; [12]; [13]; [194; 133]; [194; 160];
    [225; 154; 128]; [226; 128; 128]; [226; 128; 129]; [226; 128; 130]; [226; 128; 131];
    [226; 128; 132]; [226; 128; 133]; [226; 128; 134]; [226; 128; 135]; [226; 128; 136];
    [226; 128; 137]; [226; 128; 138]; [226; 128; 168]; [226; 128; 169]; [226; 128; 175];
    [226; 129; 159]; [227; 128; 128]]%N.

(** Strip one of [ws] from the front, when one is there. *)
Fixpoint strip_one (ws : list string) (s : string) : option string :=
  match ws with
  | [] => None
  | w :: ws' => match strip_prefix w s with Some r => Some r | None => strip_one ws' s end
  end.

(** Strip characters of [ws] while there are any: [fuel] is the length. *)
Fixpoint strip_all (fuel : nat) (ws : list string) (s : string) : string :=
  match fuel with
  | O => s
  | S fuel' => match strip_one ws s with
               | Some r => strip_all fuel' ws r
               | None => s
               end
  end.

Definition trim_start (s : string) : string := strip_all (String.length s) whitespace_chars s.
Definition trim_end (s : string) : string :=
  string_rev (strip_all (String.length s) (string_rev <$> whitespace_chars) (string_rev s)).
Definition trim (s : string) : string := trim_end (trim_start s).

(** [s.split_whitespace().count()]: one more word at every non-blank character
    that does not continue one.  Each call consumes a character, so the length is
    enough fuel. *)
Fixpoint count_words (fuel : nat) (in_word : bool) (s : string) : nat :=
  match fuel, s with
  | S fuel', String _ s' =>
      match strip_one whitespace_chars s with
      | Some r => count_words fuel' false r
      | None => if in_word then count_words fuel' true s' else S (count_words fuel' true s')
      end
  | _, _ => 0
  end.

Definition split_whitespace_count (s : string) : nat := count_words (String.length s) false s.

(** ** Lemmas *)

Create Rewrite HintDb orion_str.

Lemma string_app_cons a (s r : string) : String a s +:+ r = String a (s +:+ r).
Proof. done. Qed.

Lemma string_app_empty (s : string) : EmptyString +:+ s = s.
Proof. done. Qed.

#[export] Hint Rewrite string_app_cons string_app_empty : orion_str.

Lemma strip_prefix_Some p s r : strip_prefix p s = Some r ↔ s = p +:+ r.
Proof.
  revert s. induction p as [|a p IH]; intros s; simpl.
  { split; [intros [= ->]|intros ->]; done. }
  destruct s as [|b s]; [done|].
  destruct (Ascii.eqb_spec a b) as [->|Hne].
  - rewrite IH. split; [intros ->|intros [= ->]]; done.
  - split; [done|]. intros [= ? ?]. by destruct Hne.
Qed.

Lemma starts_with_true p s : starts_with p s = true ↔ ∃ r, s = p +:+ r.
Proof.
  unfold starts_with. destruct (strip_prefix p s) as [r|] eqn:E.
  - apply strip_prefix_Some in E. naive_solver.
  - split; [done|]. intros [r Hr%strip_prefix_Some]. congruence.
Qed.

Lemma string_app_assoc (a b c : string) : (a +:+ b) +:+ c = a +:+ (b +:+ c).
Proof. induction a as [|x a IH]; autorewrite with orion_str; simpl; congruence. Qed.

Lemma string_app_nil_r (a : string) : a +:+ EmptyString = a.
Proof. induction a as [|x a IH]; autorewrite with orion_str; simpl; congruence. Qed.

Lemma string_length_app (a b : string) :
  String.length (a +:+ b) = String.length a + String.length b.
Proof. induction a as [|x a IH]; autorewrite with orion_str; simpl; congruence. Qed.

Lemma string_rev_app_spec s acc : string_rev_app s acc = string_rev s +:+ acc.
Proof.
  unfold string_rev. revert acc. induction s as [|a s IH]; intros acc; simpl; [done|].
  rewrite (IH (String a acc)), (IH (String a "")), string_app_assoc. done.
Qed.

Lemma string_rev_cons a s : string_rev (String a s) = string_rev s +:+ String a EmptyString.
Proof. unfold string_rev at 1. simpl. apply string_rev_app_spec. Qed.

Lemma string_rev_distr a b : string_rev (a +:+ b) = string_rev b +:+ string_rev a.
Proof.
  induction a as [|x a IH]; [by rewrite string_app_nil_r|].
  by rewrite string_app_cons, !string_rev_cons, IH, string_app_assoc.
Qed.

Lemma string_rev_involutive s : string_rev (string_rev s) = s.
Proof.
  induction s as [|a s IH]; [done|].
  rewrite string_rev_cons, string_rev_distr, IH. done.
Qed.

Lemma ends_with_true suf s : ends_with suf s = true ↔ ∃ r, s = r +:+ suf.
Proof.
  unfold ends_with. rewrite starts_with_true. split; intros [r Hr].
  - exists (string_rev r). rewrite <- (string_rev_involutive s), Hr, string_rev_distr.
    by rewrite string_rev_involutive.
  - exists (string_rev r). by rewrite Hr, string_rev_distr.
Qed.

(** Cancellation on the right. *)
Lemma string_app_inj_r a b c : a +:+ c = b +:+ c → a = b.
Proof.
  intros H%(f_equal string_rev). rewrite !string_rev_distr in H.
  apply (inj (String.append (string_rev c))) in H.
  by rewrite <- (string_rev_involutive a), H, string_rev_involutive.
Qed.

Lemma contains_app needle a b : contains needle (a +:+ needle +:+ b) = true.
Proof.
  induction a as [|x a IH]; autorewrite with orion_str.
  - destruct (needle +:+ b) eqn:E; simpl; apply orb_true_iff; left;
      apply starts_with_true; rewrite <- E; eauto.
  - simpl. apply orb_true_iff. right. apply IH.
Qed.

Lemma contains_true needle s :
  contains needle s = true ↔ ∃ a b, s = a +:+ needle +:+ b.
Proof.
  split; [|intros (a & b & ->); apply contains_app].
  induction s as [|x s IH]; simpl; intros [H|H]%orb_true_iff; try done.
  - apply starts_with_true in H as [r ->]. by exists "", r.
  - apply starts_with_true in H as [r ->]. by exists "", r.
  - destruct (IH H) as (a & b & ->). by exists (String x a), b.
Qed.

(** Pieces of a split contain no separator, and a string without separator is
    its only piece. *)
Fixpoint has_char (c : ascii) (s : string) : bool :=
  match s with
  | EmptyString => false
  | String a s' => Ascii.eqb a c || has_char c s'
  end.

Lemma split_on_not_nil c s : split_on c s ≠ [].
Proof. destruct s; simpl; [done|]. repeat case_match; done. Qed.

Lemma split_on_pieces c s : Forall (λ w, has_char c w = false) (split_on c s).
Proof.
  induction s as [|a s IH]; simpl; [by repeat constructor|].
  destruct (Ascii.eqb a c) eqn:E; [by constructor|].
  destruct (split_on c s) as [|w ws]; [repeat constructor; simpl; by rewrite E|].
  apply Forall_cons in IH as [??]. constructor; [simpl; by rewrite E|done].
Qed.

Lemma split_on_single c s : has_char c s = false → split_on c s = [s].
Proof.
  induction s as [|a s IH]; simpl; [done|].
  intros [-> H]%orb_false_iff. by rewrite IH.
Qed.

Lemma split_on_length c s : length (split_on c s) = 1 ↔ has_char c s = false.
Proof.
  split; [|intros H; by rewrite split_on_single].
  intros H. pose proof (split_on_pieces c s) as Hp.
  revert H. induction s as [|a s IH]; simpl; [done|].
  destruct (Ascii.eqb a c) eqn:E; simpl.
  - intros H. destruct (split_on c s) eqn:Es; [by apply split_on_not_nil in Es|done].
  - intros H. apply IH; [apply split_on_pieces|].
    destruct (split_on c s) eqn:Es; [by apply split_on_not_nil in Es|done].
Qed.

(** Splitting after a first piece and its separator. *)
Lemma split_on_app c a b :
  has_char c a = false → split_on c (a +:+ String c b) = a :: split_on c b.
Proof.
  induction a as [|x a IH]; autorewrite with orion_str; simpl; [by rewrite Ascii.eqb_refl|].
  intros [-> H]%orb_false_iff. by rewrite IH.
Qed.

Lemma split_on_app_last c a b :
  has_char c b = false → split_on c (a +:+ String c b) = split_on c a ++ [b].
Proof.
  intros Hb. induction a as [|x a IH]; autorewrite with orion_str; simpl.
  - rewrite Ascii.eqb_refl. by rewrite split_on_single.
  - rewrite IH.
    destruct (Ascii.eqb x c); [done|].
    destruct (split_on c a) eqn:E; [by apply split_on_not_nil in E|done].
Qed.
