(* ===== verification/Types.v ===== *)
(** * The resource model (crates/orion-types)

    The data every component exchanges: metadata, placement constraints,
    runtimes, capabilities, the per-kind [spec] records and the [Resource]
    envelope, with the semantic checks of [Resource::validate] and the derived
    names of a queue.  JSON values are a library's type: [SerdeJson] is the part
    of serde_json the source calls. *)

From Stdlib Require Import ZArith Lia Bool Ascii.
From Stdlib Require SpecFloat.
From stdpp Require Import base list gmap strings pretty.
From S2P Require Import Prelude.

(** IEEE 754 double and single precision numbers, and an instant of
    [DateTime<Utc>] counted in nanoseconds. *)
Definition f64 : Type := SpecFloat.spec_float.
Definition f32 : Type := SpecFloat.spec_float.
Definition Instant : Type := Z.

(** A 128-bit UUID, as its number. *)
Definition Uuid : Type := N.

(** ** serde_json, as the source uses it *)

Class SerdeJson : Type := {
  Value : Type;
  Number : Type;
  value_null : Value;
  (** [PartialEq for Value]. *)
  value_eqb : Value → Value → bool;
  (** [Value::get] with a string key. *)
  value_get : Value → string → option Value;
  (** [Value::as_f64], [Number::as_f64]. *)
  value_as_f64 : Value → option f64;
  number_as_f64 : Number → option f64;
  (** [Value::as_str], [Value::as_u64], [Value::as_array], and the entries of an object. *)
  value_as_str : Value → option string;
  value_as_u64 : Value → option Z;
  value_as_array : Value → option (list Value);
  value_as_object : Value → option (list (string * Value));
  (** [Value::is_null]. *)
  value_is_null : Value → bool
}.

(** Building values ([json!] and [Value::from]), and reading one from text. *)
Class JsonMake {J : SerdeJson} : Type := {
  json_bool : bool → Value;
  json_int : Z → Value;
  json_float : f64 → Value;
  json_string : string → Value;
  json_array : list Value → Value;
  json_object : gmap string Value → Value;
  json_from_str : string → option Value
}.

(** What is built is read back. *)
Class JsonLaws `{JsonMake} : Prop := {
  get_object : ∀ m k, value_get (json_object m) k = m !! k;
  as_str_string : ∀ s, value_as_str (json_string s) = Some s;
  as_array_array : ∀ l, value_as_array (json_array l) = Some l
}.

(** ** Metadata (metadata.rs) *)

Definition ResourceName : Type := string.
Definition NodeId : Type := string.

Record Metadata : Type := {
  md_name : ResourceName;
  md_namespace : option string;
  md_labels : gmap string string;
  md_annotations : gmap string string;
  md_generation : option Z
}.

(** ** Status (status.rs) *)

Inductive Phase : Type :=
| PhasePending | PhaseRunning | PhaseSucceeded | PhaseFailed | PhaseUnknown.

Inductive ConditionStatus : Type := CTrue | CFalse | CUnknown.

Record Condition : Type := {
  cond_type : string;
  cond_status : ConditionStatus;
  cond_reason : option string;
  cond_message : option string;
  cond_last_transition : Instant
}.

Record Status : Type := {
  st_phase : Phase;
  st_observed_generation : option Z;
  st_conditions : list Condition;
  st_node : option NodeId;
  st_message : option string
}.

(** ** Placement (placement.rs) *)

Inductive Arch : Type := X86_64 | Arm64.
Inductive OperatingSystem : Type := Linux | Macos.
Inductive GpuVendor : Type := Nvidia | Amd | Apple | Intel.
Inductive Acceleration : Type := ANone | Metal | Cuda | Rocm | Coreml.

#[export] Instance Arch_eq_dec : EqDecision Arch.
Proof. solve_decision. Defined.
#[export] Instance OperatingSystem_eq_dec : EqDecision OperatingSystem.
Proof. solve_decision. Defined.
#[export] Instance GpuVendor_eq_dec : EqDecision GpuVendor.
Proof. solve_decision. Defined.
#[export] Instance Acceleration_eq_dec : EqDecision Acceleration.
Proof. solve_decision. Defined.

Record NodeGpu : Type := {
  gpu_vendor : GpuVendor;
  gpu_vram_gb : Z;
  gpu_name : option string
}.

Record GpuRequirement : Type := {
  req_vendor : option GpuVendor;
  req_min_vram_gb : option Z
}.

Record PlacementPreferences : Type := {
  pref_node_labels : gmap string string;
  pref_data_locality : bool
}.

Record Placement : Type := {
  pl_arch : list Arch;
  pl_os : list OperatingSystem;
  pl_gpu : option GpuRequirement;
  pl_acceleration : option Acceleration;
  pl_node_labels : gmap string string;
  pl_prefer : PlacementPreferences
}.

#[export] Instance GpuRequirement_eq_dec : EqDecision GpuRequirement.
Proof. solve_decision. Defined.
#[export] Instance PlacementPreferences_eq_dec : EqDecision PlacementPreferences.
Proof. solve_decision. Defined.
#[export] Instance Placement_eq_dec : EqDecision Placement.
Proof. solve_decision. Defined.

Definition PlacementPreferences_default : PlacementPreferences :=
  {| pref_node_labels := ∅; pref_data_locality := false |}.

Definition PlacementPreferences_is_empty (p : PlacementPreferences) : bool :=
  bool_decide (pref_node_labels p = ∅) && negb (pref_data_locality p).

Definition Placement_default : Placement :=
  {| pl_arch := []; pl_os := []; pl_gpu := None; pl_acceleration := None;
     pl_node_labels := ∅; pl_prefer := PlacementPreferences_default |}.

Definition Placement_is_default (p : Placement) : bool :=
  bool_decide (p = Placement_default).

(** ** Runtimes (runtime.rs) *)

Inductive RuntimeKind : Type :=
| KNative | KDocker | KPython | KJava | KNode | KSpark | KLlm | KHomeAssistant
| KWasm | KPeer.

Inductive Runtime : Type :=
| RNative (exec : string) (args : list string) (env : gmap string string)
| RDocker (image : string) (args : list string) (env : gmap string string)
    (ports : list Z)
| RPython (module : string) (venv : option string) (args : list string)
| RJava (jar : string) (args : list string)
| RNode (entry : string) (args : list string)
| RSpark (app : string) (args : list string)
| RLlm (model : string) (backend : option string)
| RHomeAssistant (integration : string)
| RWasm (module : string)
| RPeer (system reference : string).

Definition Runtime_kind (r : Runtime) : RuntimeKind :=
  match r with
  | RNative _ _ _ => KNative
  | RDocker _ _ _ _ => KDocker
  | RPython _ _ _ => KPython
  | RJava _ _ => KJava
  | RNode _ _ => KNode
  | RSpark _ _ => KSpark
  | RLlm _ _ => KLlm
  | RHomeAssistant _ => KHomeAssistant
  | RWasm _ => KWasm
  | RPeer _ _ => KPeer
  end.

(** ** Specs that carry no JSON (specs.rs) *)

Inductive NodeRole : Type :=
| RoleController | RoleWorker | RoleWorkstation | RoleEdge | RoleLlm | RoleStorage.

Record NodeResources : Type := {
  nr_cpu_cores : Z;
  nr_memory_gb : Z;
  nr_disk_gb : option Z
}.

Record NodeSpec : Type := {
  nd_node_id : NodeId;
  nd_roles : list NodeRole;
  nd_arch : option Arch;
  nd_os : option OperatingSystem;
  nd_gpus : list NodeGpu;
  nd_acceleration : option Acceleration;
  nd_resources : option NodeResources;
  nd_runtimes : list string;
  nd_address : option string;
  nd_labels : gmap string string
}.

Inductive PortProtocol : Type := Tcp | Udp.

Record PortSpec : Type := {
  port_name : string;
  port_port : Z;
  port_protocol : PortProtocol
}.

Definition default_health_interval : Z := 10.
Definition default_failure_threshold : Z := 3.

Inductive HealthCheck : Type :=
| HcHttp (path : string) (port interval_seconds failure_threshold : Z)
| HcTcp (port interval_seconds failure_threshold : Z)
| HcExec (command : list string) (interval_seconds failure_threshold : Z).

Inductive RestartPolicy : Type := Always | OnFailure | Never.

#[export] Instance RestartPolicy_eq_dec : EqDecision RestartPolicy.
Proof. solve_decision. Defined.

Record RetryPolicy : Type := {
  retry_max_attempts : Z;
  retry_backoff_seconds : option Z
}.

Inductive DatasetAccess : Type := Ro | Rw | Wo.

Record DatasetLocation : Type := {
  dl_node : NodeId;
  dl_path : string;
  dl_access : DatasetAccess
}.

Record DatasetSpec : Type := {
  ds_locations : list DatasetLocation;
  ds_formats : list string;
  ds_capabilities : list string;
  ds_size_bytes : option Z;
  ds_description : option string
}.

Record ModelVariant : Type := {
  mv_format : string;
  mv_quant : option string;
  mv_memory_gb : option f32;
  mv_context_window : option Z;
  mv_preferred_runtime : option string
}.

Record ModelSpec : Type := {
  model_id : string;
  model_variants : list ModelVariant;
  model_served_by : list NodeId;
  model_description : option string
}.

Record ProjectBuild : Type := {
  pb_type : string;
  pb_command : option string
}.

Record ProjectService : Type := {
  ps_name : ResourceName;
  ps_port : option Z
}.

Record ProjectSpec : Type := {
  prj_asset_id : option string;
  prj_repo_url : option string;
  prj_languages : list string;
  prj_capabilities : list string;
  prj_build : option ProjectBuild;
  prj_runtimes : list string;
  prj_services : list ProjectService
}.

Record SecretSpec : Type := { sec_vault_ref : string }.

Record VolumeSpec : Type := {
  vol_path : string;
  vol_mounted_on : list NodeId;
  vol_size_gb : option Z
}.

Inductive QueueType : Type := QTopic | QWork.

Record QueueSpec : Type := {
  q_type : QueueType;
  q_subject : option string;
  q_stream : option string;
  q_max_age_seconds : option Z;
  q_max_msgs : option Z;
  q_max_bytes : option Z;
  q_replicas : option Z;
  q_description : option string
}.

Record WorkflowStep : Type := {
  ws_name : string;
  ws_task : ResourceName;
  ws_depends_on : list string
}.

Record WorkflowSpec : Type := {
  wf_steps : list WorkflowStep;
  wf_continue_on_error : bool;
  wf_description : option string
}.

Record NetworkSpec : Type := {
  net_cidr : string;
  net_sites : list string
}.

Record JobSpec : Type := {
  job_task : ResourceName;
  job_node : NodeId;
  job_started_at : Instant;
  job_finished_at : option Instant;
  job_exit_code : option Z;
  job_attempt : Z;
  job_error : option string
}.

(** ** Specs that carry JSON, and the resource envelope *)

Section json_types.
Context {J : SerdeJson}.

(** capability.rs *)

Record Capability : Type := {
  cap_name : string;
  cap_attributes : Value
}.

Definition Capability_new (name : string) : Capability :=
  {| cap_name := name; cap_attributes := value_null |}.

Definition Capability_with_attributes (name : string) (attrs : Value) : Capability :=
  {| cap_name := name; cap_attributes := attrs |}.

Record AttrOp : Type := {
  op_eq : option Value;
  op_ne : option Value;
  op_gt : option Number;
  op_gte : option Number;
  op_lt : option Number;
  op_lte : option Number
}.

Inductive AttrMatch : Type :=
| Op (ops : AttrOp)
| OneOf (values : list Value)
| Equals (v : Value).

Definition AttrChecks : Type := gmap string AttrMatch.

Record CapabilitySelector : Type := { requirements : gmap string AttrChecks }.

Definition CapabilitySelector_default : CapabilitySelector := {| requirements := ∅ |}.

(** The keys [AttrMatch::deserialize] takes for comparison operators. *)
Definition is_op_key (k : string) : bool :=
  bool_decide (k ∈ ["eq"; "ne"; "gt"; "gte"; "lt"; "lte"]).

(** [impl Deserialize for AttrMatch]: an array is [OneOf], a non-empty object
    whose keys are all operators is [Op] (when it decodes as one), anything else
    is [Equals].  [decode_op] is serde's decoder of an [AttrOp]. *)
Definition AttrMatch_deserialize {E} (decode_op : Value → result AttrOp E) (v : Value)
    : result AttrMatch E :=
  match value_as_array v with
  | Some items => Ok (OneOf items)
  | None =>
      match value_as_object v with
      | Some map =>
          if forallb (λ kv, is_op_key kv.1) map && negb (bool_decide (length map = 0))
          then let? op := decode_op v in Ok (Op op)
          else Ok (Equals v)
      | None => Ok (Equals v)
      end
  end.

(** specs.rs *)

Record ServiceSpec : Type := {
  svc_runtime : option Runtime;
  svc_replicas : option Z;
  svc_placement : Placement;
  svc_requires : CapabilitySelector;
  svc_capabilities : list Capability;
  svc_ports : list PortSpec;
  svc_health : option HealthCheck;
  svc_restart_policy : RestartPolicy
}.

Definition ServiceSpec_default : ServiceSpec :=
  {| svc_runtime := None; svc_replicas := None; svc_placement := Placement_default;
     svc_requires := CapabilitySelector_default; svc_capabilities := [];
     svc_ports := []; svc_health := None; svc_restart_policy := Always |}.

Record TaskSpec : Type := {
  task_runtime : option Runtime;
  task_placement : Placement;
  task_requires : CapabilitySelector;
  task_prefer_data_locality : bool;
  task_timeout_seconds : option Z;
  task_retry : option RetryPolicy
}.

Record ScheduleSpec : Type := {
  sched_cron : string;
  sched_task : option ResourceName;
  sched_task_template : option TaskSpec
}.

Record RuntimeResourceSpec : Type := {
  rr_runtime_kind : string;
  rr_base_url : string;
  rr_admin_ui_url : option string;
  rr_config : Value
}.

Record CapabilityResourceSpec : Type := {
  cr_capability : string;
  cr_attribute_schema : Value;
  cr_description : option string
}.

Record PolicySpec : Type := {
  pol_policy_kind : string;
  pol_rules : Value
}.

Record IntegrationSpec : Type := {
  int_integration_kind : string;
  int_config : Value
}.

(** resource.rs *)

Definition API_VERSION : string := "orionmesh.dev/v1".

Inductive ResourceBody : Type :=
| BNode (spec : NodeSpec) (status : option Status)
| BService (spec : ServiceSpec) (status : option Status)
| BTask (spec : TaskSpec) (status : option Status)
| BJob (spec : JobSpec) (status : option Status)
| BSchedule (spec : ScheduleSpec) (status : option Status)
| BDataset (spec : DatasetSpec) (status : option Status)
| BModel (spec : ModelSpec) (status : option Status)
| BProject (spec : ProjectSpec) (status : option Status)
| BSecret (spec : SecretSpec) (status : option Status)
| BVolume (spec : VolumeSpec) (status : option Status)
| BNetwork (spec : NetworkSpec) (status : option Status)
| BQueue (spec : QueueSpec) (status : option Status)
| BWorkflow (spec : WorkflowSpec) (status : option Status)
| BRuntime (spec : RuntimeResourceSpec) (status : option Status)
| BCapability (spec : CapabilityResourceSpec) (status : option Status)
| BPolicy (spec : PolicySpec) (status : option Status)
| BIntegration (spec : IntegrationSpec) (status : option Status).

Record Resource : Type := {
  api_version : string;
  metadata : Metadata;
  body : ResourceBody
}.

Definition ResourceBody_kind_str (b : ResourceBody) : string :=
  match b with
  | BNode _ _ => "Node"
  | BService _ _ => "Service"
  | BTask _ _ => "Task"
  | BJob _ _ => "Job"
  | BSchedule _ _ => "Schedule"
  | BDataset _ _ => "Dataset"
  | BModel _ _ => "Model"
  | BProject _ _ => "Project"
  | BSecret _ _ => "Secret"
  | BVolume _ _ => "Volume"
  | BNetwork _ _ => "Network"
  | BQueue _ _ => "Queue"
  | BWorkflow _ _ => "Workflow"
  | BRuntime _ _ => "Runtime"
  | BCapability _ _ => "Capability"
  | BPolicy _ _ => "Policy"
  | BIntegration _ _ => "Integration"
  end.

Definition kind_str (r : Resource) : string := ResourceBody_kind_str (body r).

Definition name (r : Resource) : string := md_name (metadata r).

End json_types.

(** ** Validation (lib.rs) *)

Definition is_ascii_digit (c : Ascii.ascii) : bool :=
  let n := Ascii.N_of_ascii c in (48 <=? n)%N && (n <=? 57)%N.
Definition is_ascii_lower (c : Ascii.ascii) : bool :=
  let n := Ascii.N_of_ascii c in (97 <=? n)%N && (n <=? 122)%N.
Definition is_ascii_upper (c : Ascii.ascii) : bool :=
  let n := Ascii.N_of_ascii c in (65 <=? n)%N && (n <=? 90)%N.
Definition is_ascii_alphanumeric (c : Ascii.ascii) : bool :=
  is_ascii_lower c || is_ascii_upper c || is_ascii_digit c.

Definition to_ascii_uppercase (c : Ascii.ascii) : Ascii.ascii :=
  if is_ascii_lower c then Ascii.ascii_of_N (Ascii.N_of_ascii c - 32) else c.

Fixpoint string_all (f : Ascii.ascii → bool) (s : string) : bool :=
  match s with
  | EmptyString => true
  | String c s' => f c && string_all f s'
  end.

Inductive ResourceError : Type :=
| Yaml (msg : string)
| Json (msg : string)
| ScheduleAmbiguous
| QueueNameInvalid (name : string).

Definition queue_name_char (c : Ascii.ascii) : bool :=
  is_ascii_alphanumeric c || bool_decide (c = "-"%char) || bool_decide (c = "_"%char).

Definition validate {J : SerdeJson} (r : Resource) : result unit ResourceError :=
  let? _ :=
    match body r with
    | BSchedule spec _ =>
        match sched_task spec, sched_task_template spec with
        | Some _, None | None, Some _ => Ok tt
        | _, _ => Err ScheduleAmbiguous
        end
    | _ => Ok tt
    end in
  match body r with
  | BQueue _ _ =>
      let n := md_name (metadata r) in
      if bool_decide (n = "") || negb (string_all queue_name_char n)
      then Err (QueueNameInvalid n)
      else Ok tt
  | _ => Ok tt
  end.

Definition default_queue_subject (n : string) : string := "orion.queue." +:+ n.

(** A string is its UTF-8 bytes: a character starts at every byte that is not a
    continuation byte. *)
Definition is_utf8_continuation (c : Ascii.ascii) : bool :=
  let n := Ascii.N_of_ascii c in (128 <=? n)%N && (n <=? 191)%N.

(** [default_queue_stream]'s loop over [name.chars()]. *)
Fixpoint queue_stream_chars (s : string) : string :=
  match s with
  | EmptyString => EmptyString
  | String c s' =>
      if is_ascii_alphanumeric c then String (to_ascii_uppercase c) (queue_stream_chars s')
      else if is_utf8_continuation c then queue_stream_chars s'
      else String "_" (queue_stream_chars s')
  end.

Definition default_queue_stream (n : string) : string :=
  "ORION_QUEUE_" +:+ queue_stream_chars n.

Lemma queue_stream_chars_app a b :
  queue_stream_chars (a +:+ b) = queue_stream_chars a +:+ queue_stream_chars b.
Proof.
  induction a as [|c a IH]; [done|].
  change (String c a +:+ b) with (String c (a +:+ b)). simpl. rewrite IH.
  repeat case_match; done.
Qed.

(** Two queues whose names differ only in [-] against [_] share one default
    stream: the stream name does not separate queues that validation admits. *)
Theorem queue_stream_collision a b :
  default_queue_stream (a +:+ "-" +:+ b) = default_queue_stream (a +:+ "_" +:+ b) ∧
  default_queue_subject (a +:+ "-" +:+ b) ≠ default_queue_subject (a +:+ "_" +:+ b).
Proof.
  unfold default_queue_stream, default_queue_subject. rewrite !queue_stream_chars_app.
  split; [done|]. intros H. do 2 apply (inj (String.append _)) in H. discriminate H.
Qed.

(** ** A small JSON library

    An instance of [SerdeJson] with integers only, for concrete runs. *)

Inductive toy_value : Type :=
| TNull
| TNum (z : Z)
| TStr (s : string)
| TArr (l : list toy_value)
| TObj (l : list (string * toy_value)).

Fixpoint toy_eqb (a b : toy_value) : bool :=
  match a, b with
  | TNull, TNull => true
  | TNum x, TNum y => Z.eqb x y
  | TStr x, TStr y => String.eqb x y
  | TArr x, TArr y =>
      (fix go (x y : list toy_value) : bool :=
         match x, y with
         | [], [] => true
         | v :: x', w :: y' => toy_eqb v w && go x' y'
         | _, _ => false
         end) x y
  | TObj x, TObj y =>
      (fix go (x y : list (string * toy_value)) : bool :=
         match x, y with
         | [], [] => true
         | (k, v) :: x', (k', w) :: y' => String.eqb k k' && toy_eqb v w && go x' y'
         | _, _ => false
         end) x y
  | _, _ => false
  end.

Definition toy_f64 (z : Z) : f64 := SpecFloat.binary_normalize 53 1024 z 0 false.

Definition toy_json : SerdeJson :=
  {| Value := toy_value;
     Number := Z;
     value_null := TNull;
     value_eqb := toy_eqb;
     value_get := λ v k,
       match v with TObj l => snd <$> List.find (λ kv, String.eqb kv.1 k) l | _ => None end;
     value_as_f64 := λ v, match v with TNum z => Some (toy_f64 z) | _ => None end;
     number_as_f64 := λ z, Some (toy_f64 z);
     value_as_str := λ v, match v with TStr s => Some s | _ => None end;
     value_as_u64 := λ v, match v with TNum z => if (0 <=? z)%Z then Some z else None | _ => None end;
     value_as_array := λ v, match v with TArr l => Some l | _ => None end;
     value_as_object := λ v, match v with TObj l => Some l | _ => None end;
     value_is_null := λ v, match v with TNull => true | _ => false end |}.

Definition toy_make : JsonMake (J := toy_json) :=
  @Build_JsonMake toy_json (λ b, TNum (Z.b2z b)) TNum (λ _, TNull) TStr TArr
    (λ m, TObj (map_to_list m)) (λ _, None).

Lemma toy_laws : @JsonLaws toy_json toy_make.
Proof.
  split; [|done..]. intros m k. change (value_get (json_object m) k) with
    (snd <$> List.find (λ kv, String.eqb kv.1 k) (map_to_list m)).
  destruct (List.find _ _) as [[k' v]|] eqn:E.
  - apply find_Some in E as [Hin Hk]. apply elem_of_map_to_list in Hin.
    apply String.eqb_eq in Hk. simpl in *. by subst.
  - destruct (m !! k) as [v|] eqn:Hm; [|done]. apply elem_of_map_to_list in Hm.
    apply list_elem_of_In in Hm. apply (List.find_none _ _ E) in Hm. simpl in Hm.
    by rewrite String.eqb_refl in Hm.
Qed.

Definition demo_meta (n : string) : Metadata :=
  {| md_name := n; md_namespace := None; md_labels := ∅; md_annotations := ∅;
     md_generation := None |}.

Definition demo_resource {J : SerdeJson} (n : string) (b : ResourceBody) : Resource :=
  {| api_version := API_VERSION; metadata := demo_meta n; body := b |}.
