(* ===== verification/Parse.v ===== *)
(** * Lines, numbers and UTF-8

    The parts of Rust's [str], [i32]/[u32]/[u64]/[f64] [FromStr] and
    [String::from_utf8_lossy] that the agent, the adapters and the command line
    use to read the output of other programs. *)

From Stdlib Require Import ZArith Lia Bool Ascii.
From Stdlib Require SpecFloat.
From stdpp Require Import base list gmap strings pretty.
From S2P Require Import Prelude Text Types.

(** ** Suffixes, lines and words *)

Definition newline : ascii := ascii_of_N 10.
Definition carriage_return : ascii := ascii_of_N 13.

(** [s.strip_suffix(suf)]. *)
Definition strip_suffix (suf s : string) : option string :=
  string_rev <$> strip_prefix (string_rev suf) (string_rev s).

(** [s.split_inclusive(c)]: every piece but perhaps the last ends in [c], and no
    piece is empty. *)
Fixpoint split_inclusive (c : ascii) (s : string) : list string :=
  match s with
  | EmptyString => []
  | String a s' =>
      if Ascii.eqb a c then String a EmptyString :: split_inclusive c s'
      else match split_inclusive c s' with
           | [] => [String a EmptyString]
           | w :: ws => String a w :: ws
           end
  end.

(** The closure [str::lines] maps over [split_inclusive('\n')]. *)
Definition line_of_piece (piece : string) : string :=
  match strip_suffix (String newline EmptyString) piece with
  | None => piece
  | Some line => default line (strip_suffix (String carriage_return EmptyString) line)
  end.

Definition lines (s : string) : list string := line_of_piece <$> split_inclusive newline s.

(** [s.rsplit_once(c)]. *)
Definition rsplit_once (c : ascii) (s : string) : option (string * string) :=
  (λ '(r, l), (string_rev l, string_rev r)) <$>
    split_once (String c EmptyString) (string_rev s).

(** [s.split_whitespace()]: the words, by the same walk as the word count.  The
    length is enough fuel, since each call consumes a character. *)
Fixpoint words_go (fuel : nat) (cur : string) (s : string) : list string :=
  let flush := match cur with EmptyString => [] | _ => [cur] end in
  match fuel, s with
  | S fuel', String a s' =>
      match strip_one whitespace_chars s with
      | Some r => flush ++ words_go fuel' EmptyString r
      | None => words_go fuel' (cur +:+ String a EmptyString) s'
      end
  | _, _ => flush
  end.

Definition split_whitespace (s : string) : list string := words_go (String.length s) EmptyString s.

(** [s.trim_start_matches(f)], [s.trim_end_matches(f)], [s.trim_matches(f)] for a
    set of ASCII characters. *)
Fixpoint trim_start_matches (f : ascii → bool) (s : string) : string :=
  match s with
  | EmptyString => EmptyString
  | String a s' => if f a then trim_start_matches f s' else s
  end.
Definition trim_end_matches (f : ascii → bool) (s : string) : string :=
  string_rev (trim_start_matches f (string_rev s)).
Definition trim_matches (f : ascii → bool) (s : string) : string :=
  trim_end_matches f (trim_start_matches f s).

(** The first [n] bytes, and the rest: [&s[..n]] and [&s[n..]]. *)
Fixpoint take_str (n : nat) (s : string) : string :=
  match n, s with
  | S n', String a s' => String a (take_str n' s')
  | _, _ => EmptyString
  end.
Fixpoint drop_str (n : nat) (s : string) : string :=
  match n, s with
  | S n', String _ s' => drop_str n' s'
  | _, _ => s
  end.

(** [s.find(c)]: the byte index of the first [c]; [s.rfind(c)]: of the last. *)
Fixpoint find_char (c : ascii) (s : string) : option nat :=
  match s with
  | EmptyString => None
  | String a s' => if Ascii.eqb a c then Some 0 else S <$> find_char c s'
  end.
Definition rfind_char (c : ascii) (s : string) : option nat :=
  (λ n, String.length s - 1 - n) <$> find_char c (string_rev s).

(** [s.chars().take(n).collect::<String>()]: a character is a byte and the
    continuation bytes after it. *)
Fixpoint skip_cont (s : string) : string * string :=
  match s with
  | String a s' => if is_utf8_continuation a
                   then let '(l, r) := skip_cont s' in (String a l, r) else (EmptyString, s)
  | EmptyString => (EmptyString, EmptyString)
  end.

Fixpoint take_chars (n : nat) (s : string) : string :=
  match n, s with
  | S n', String a s' => let '(l, r) := skip_cont s' in String a l +:+ take_chars n' r
  | _, _ => EmptyString
  end.

(** The number of characters: the bytes that do not continue one. *)
Fixpoint chars_count (s : string) : nat :=
  match s with
  | EmptyString => 0
  | String a s' => if is_utf8_continuation a then chars_count s' else S (chars_count s')
  end.

(** ** Integers

    [parse::<u32>] and the like: an optional sign ([-] for signed types only), at
    least one digit, nothing else, and the value in range. *)

Definition digit_value (c : ascii) : option Z :=
  if is_ascii_digit c then Some (Z.of_N (N_of_ascii c) - 48)%Z else None.

Fixpoint digits_value (acc : Z) (s : string) : option Z :=
  match s with
  | EmptyString => Some acc
  | String c s' => d ← digit_value c; digits_value (acc * 10 + d)%Z s'
  end.

Definition parse_digits (s : string) : option Z :=
  match s with EmptyString => None | _ => digits_value 0 s end.

Definition in_range (lo hi z : Z) : option Z :=
  if (lo <=? z)%Z && (z <=? hi)%Z then Some z else None.

Definition parse_unsigned (max : Z) (s : string) : option Z :=
  match s with
  | String c s' => (if Ascii.eqb c "+" then parse_digits s' else parse_digits s) ≫= in_range 0 max
  | EmptyString => None
  end.

Definition parse_signed (lo hi : Z) (s : string) : option Z :=
  match s with
  | String c s' =>
      (if Ascii.eqb c "+" then parse_digits s'
       else if Ascii.eqb c "-" then Z.opp <$> parse_digits s' else parse_digits s)
      ≫= in_range lo hi
  | EmptyString => None
  end.

Definition parse_u32 : string → option Z := parse_unsigned u32_max.
Definition parse_u64 : string → option Z := parse_unsigned 18446744073709551615.
Definition parse_i32 : string → option Z := parse_signed (-2147483648) 2147483647.

(** ** Floats

    [parse::<f64>]: the decimal value, correctly rounded to binary64. *)

Definition f64_of_Z (z : Z) : f64 := SpecFloat.binary_normalize 53 1024 z 0 false.

Definition sf_opp (neg : bool) (x : f64) : f64 := if neg then SpecFloat.SFopp x else x.

(** [m * 10^e], rounded once: the division is exact on the integers it is given. *)
Definition f64_of_decimal (m : Z) (e : Z) : f64 :=
  if (0 <=? e)%Z then f64_of_Z (m * 10 ^ e)
  else match m with
       | Zpos p =>
           let '(q, e', l) := SpecFloat.SFdiv_core_binary 53 1024 m 0 (10 ^ (- e)) 0 in
           SpecFloat.binary_round_aux 53 1024 false q e' l
       | _ => SpecFloat.S754_zero false
       end.

Fixpoint take_digits (s : string) : string * string :=
  match s with
  | String c s' => if is_ascii_digit c
                   then let '(l, r) := take_digits s' in (String c l, r) else (EmptyString, s)
  | EmptyString => (EmptyString, EmptyString)
  end.

(** The exponent part: nothing, or [e]/[E], a sign and digits to the end. *)
Definition parse_exponent (s : string) : option Z :=
  match s with
  | EmptyString => Some 0%Z
  | String c s' =>
      if Ascii.eqb c "e" || Ascii.eqb c "E" then
        match s' with
        | String d s'' =>
            if Ascii.eqb d "+" then parse_digits s''
            else if Ascii.eqb d "-" then Z.opp <$> parse_digits s'' else parse_digits s'
        | EmptyString => None
        end
      else None
  end.

Definition ascii_lower (s : string) : string :=
  (fix go s := match s with
   | EmptyString => EmptyString
   | String c s' =>
       String (if is_ascii_upper c then ascii_of_N (N_of_ascii c + 32) else c) (go s')
   end) s.

(** An unsigned decimal: digits, a point with digits on one side at least. *)
Definition parse_decimal (s : string) : option f64 :=
  let '(int, r) := take_digits s in
  match r with
  | String c r' =>
      if Ascii.eqb c "." then
        let '(frac, r'') := take_digits r' in
        m ← parse_digits (int +:+ frac);
        e ← parse_exponent r'';
        Some (f64_of_decimal m (e - Z.of_nat (String.length frac)))
      else m ← parse_digits int; e ← parse_exponent r; Some (f64_of_decimal m e)
  | EmptyString => m ← parse_digits int; Some (f64_of_decimal m 0)
  end.

Definition parse_unsigned_f64 (s : string) : option f64 :=
  let l := ascii_lower s in
  if bool_decide (l = "inf") || bool_decide (l = "infinity")
  then Some (SpecFloat.S754_infinity false)
  else if bool_decide (l = "nan") then Some SpecFloat.S754_nan
  else parse_decimal s.

Definition parse_f64 (s : string) : option f64 :=
  match s with
  | String c s' =>
      if Ascii.eqb c "-" then SpecFloat.SFopp <$> parse_unsigned_f64 s'
      else if Ascii.eqb c "+" then parse_unsigned_f64 s' else parse_unsigned_f64 s
  | EmptyString => None
  end.

(** [x.round()]: to the nearest integer, halves away from zero. *)
Definition round_half_away (m : positive) (e : Z) : Z :=
  if (0 <=? e)%Z then (Zpos m * 2 ^ e)%Z else ((Zpos m + 2 ^ (- e - 1)) / 2 ^ (- e))%Z.

Definition f64_round (x : f64) : f64 :=
  match x with
  | SpecFloat.S754_finite s m e =>
      match round_half_away m e with
      | Z0 => SpecFloat.S754_zero s
      | z => sf_opp s (f64_of_Z z)
      end
  | _ => x
  end.

(** [x.max(y)] where [y] is not NaN. *)
Definition f64_max (x y : f64) : f64 :=
  match SpecFloat.SFcompare x y with
  | Some Lt => y
  | Some _ => x
  | None => y
  end.

(** [x as u32]: truncated and saturated, NaN to 0. *)
Definition f64_as_u32 (x : f64) : Z :=
  match x with
  | SpecFloat.S754_finite false m e =>
      Z.min (if (0 <=? e)%Z then (Zpos m * 2 ^ e)%Z else (Zpos m / 2 ^ (- e))%Z) u32_max
  | SpecFloat.S754_infinity false => u32_max
  | _ => 0%Z
  end.

Definition f64_div (x y : f64) : f64 := SpecFloat.SFdiv 53 1024 x y.

(** ** UTF-8

    [String::from_utf8_lossy]: every maximal invalid part becomes U+FFFD. *)

Definition byte_in (lo hi : N) (c : ascii) : bool :=
  (lo <=? N_of_ascii c)%N && (N_of_ascii c <=? hi)%N.

(** The bytes after a lead byte: the range of the second, and how many follow. *)
Definition lead_info (c : ascii) : option (N * N * nat) :=
  let n := N_of_ascii c in
  if byte_in 0xC2 0xDF c then Some (0x80%N, 0xBF%N, 0)
  else if (n =? 0xE0)%N then Some (0xA0%N, 0xBF%N, 1)
  else if byte_in 0xE1 0xEC c || byte_in 0xEE 0xEF c then Some (0x80%N, 0xBF%N, 1)
  else if (n =? 0xED)%N then Some (0x80%N, 0x9F%N, 1)
  else if (n =? 0xF0)%N then Some (0x90%N, 0xBF%N, 2)
  else if byte_in 0xF1 0xF3 c then Some (0x80%N, 0xBF%N, 2)
  else if (n =? 0xF4)%N then Some (0x80%N, 0x8F%N, 2)
  else None.

(** Up to [n] further continuation bytes: what was read, and whether all were. *)
Fixpoint take_cont (n : nat) (s : string) : bool * string * string :=
  match n with
  | O => (true, EmptyString, s)
  | S n' =>
      match s with
      | String c s' => if byte_in 0x80 0xBF c
                       then let '(ok, l, r) := take_cont n' s' in (ok, String c l, r)
                       else (false, EmptyString, s)
      | EmptyString => (false, EmptyString, EmptyString)
      end
  end.

(** One character or one maximal invalid part: the character when valid, and the
    rest. *)
Definition utf8_step (c : ascii) (s : string) : option string * string :=
  if (N_of_ascii c <? 0x80)%N then (Some (String c EmptyString), s)
  else match lead_info c with
       | None => (None, s)
       | Some (lo, hi, more) =>
           match s with
           | String d s' =>
               if byte_in lo hi d then
                 let '(ok, l, r) := take_cont more s' in
                 (if ok then Some (String c (String d l)) else None, r)
               else (None, s)
           | EmptyString => (None, s)
           end
       end.

Definition replacement_char : string := byte_str [0xEF; 0xBF; 0xBD]%N.

Fixpoint lossy_go (fuel : nat) (s : string) : string :=
  match fuel, s with
  | S fuel', String c s' =>
      let '(ch, r) := utf8_step c s' in default replacement_char ch +:+ lossy_go fuel' r
  | _, _ => EmptyString
  end.

(** Each step consumes at least one byte, so the length is enough fuel. *)
Definition from_utf8_lossy (bytes : string) : string := lossy_go (String.length bytes) bytes.

(** [String::from_utf8(bytes).ok()]. *)
Fixpoint utf8_valid_go (fuel : nat) (s : string) : bool :=
  match fuel, s with
  | S fuel', String c s' =>
      let '(ch, r) := utf8_step c s' in
      (if ch then true else false) && utf8_valid_go fuel' r
  | _, _ => true
  end.
Definition from_utf8 (bytes : string) : option string :=
  if utf8_valid_go (String.length bytes) bytes then Some bytes else None.

(** ** Lower case

    [str::to_lowercase] follows the Unicode tables: a parameter that agrees with
    ASCII on ASCII text. *)

Definition is_ascii_str (s : string) : bool :=
  (fix go s := match s with
   | EmptyString => true
   | String c s' => (N_of_ascii c <? 128)%N && go s'
   end) s.

Class UnicodeCase : Type := {
  to_lowercase : string → string;
  to_lowercase_ascii : ∀ s, is_ascii_str s = true → to_lowercase s = ascii_lower s
}.

Definition ascii_case : UnicodeCase :=
  {| to_lowercase := ascii_lower; to_lowercase_ascii := λ _ _, eq_refl |}.

(** ** Lemmas: numerals *)

Lemma has_char_app c a b : has_char c (a +:+ b) = has_char c a || has_char c b.
Proof.
  induction a as [|x a IH]; autorewrite with orion_str; simpl; [done|].
  by rewrite IH, orb_assoc.
Qed.

Lemma has_char_rev c s : has_char c (string_rev s) = has_char c s.
Proof.
  induction s as [|a s IH]; [done|]. rewrite string_rev_cons, has_char_app, IH. simpl.
  by rewrite orb_false_r, orb_comm.
Qed.

Lemma drop_str_app a b : drop_str (String.length a) (a +:+ b) = b.
Proof. induction a as [|c a IH]; autorewrite with orion_str; simpl; [by destruct b|done]. Qed.

(** A decimal numeral holds digits, and a minus sign. *)
Definition numeral_char (c : ascii) : bool :=
  bool_decide (c ∈ ["0"; "1"; "2"; "3"; "4"; "5"; "6"; "7"; "8"; "9"; "-"]%char).

Lemma pretty_N_go_chars c x s :
  numeral_char c = false → has_char c (pretty_N_go x s) = has_char c s.
Proof.
  intros Hc. revert s. induction (N.lt_wf_0 x) as [x _ IH]; intros s.
  assert (x = 0 ∨ 0 < x)%N as [->|?] by lia; [by rewrite pretty_N_go_0|].
  rewrite pretty_N_go_step by done. rewrite IH by (by apply N.div_lt). simpl.
  assert (Ascii.eqb (pretty_N_char (x `mod` 10)) c = false) as ->; [|done].
  apply Ascii.eqb_neq. intros <-. revert Hc. unfold pretty_N_char, numeral_char.
  by repeat case_match.
Qed.

Lemma digit_chars a c :
  numeral_char a = true → numeral_char c = false → has_char c (String a EmptyString) = false.
Proof.
  intros Ha Hc. apply orb_false_iff. split; [|done]. apply Ascii.eqb_neq. congruence.
Qed.

Lemma pretty_N_chars c (x : N) : numeral_char c = false → has_char c (pretty x) = false.
Proof.
  intros Hc. unfold pretty, pretty_N. case_decide; [|by rewrite pretty_N_go_chars].
  by apply digit_chars.
Qed.

Lemma pretty_Z_chars c (z : Z) : numeral_char c = false → has_char c (pretty z) = false.
Proof.
  intros Hc. destruct z as [|x|x].
  - by apply digit_chars.
  - by apply pretty_N_chars.
  - unfold pretty, pretty_Z. rewrite has_char_app, orb_false_iff.
    split; [by apply digit_chars|by apply pretty_N_chars].
Qed.

Lemma digit_value_pretty (x : N) :
  (x < 10)%N → digit_value (pretty_N_char x) = Some (Z.of_N x).
Proof.
  intros H. assert (x = 0 ∨ x = 1 ∨ x = 2 ∨ x = 3 ∨ x = 4 ∨ x = 5 ∨ x = 6 ∨ x = 7 ∨ x = 8 ∨ x = 9)%N
    by lia. by destruct_or!; subst.
Qed.

Lemma digits_value_go (x : N) :
  ∃ k, (0 <= k)%Z ∧ ∀ acc s,
    digits_value acc (pretty_N_go x s) = digits_value (acc * 10 ^ k + Z.of_N x) s.
Proof.
  induction (N.lt_wf_0 x) as [x _ IH].
  assert (x = 0 ∨ 0 < x)%N as [->|Hx] by lia.
  { exists 0%Z. split; [done|]. intros acc s. rewrite pretty_N_go_0. by rewrite Z.mul_1_r, Z.add_0_r. }
  destruct (IH (x `div` 10)%N) as (k & Hk & H); [by apply N.div_lt|].
  exists (k + 1)%Z. split; [lia|]. intros acc s. rewrite pretty_N_go_step, H by done. simpl.
  rewrite digit_value_pretty by (by apply N.mod_lt). simpl. f_equal.
  rewrite Z.pow_add_r by lia. pose proof (N.div_mod x 10). lia.
Qed.

Lemma parse_digits_pretty (x : N) : parse_digits (pretty x) = Some (Z.of_N x).
Proof.
  unfold pretty, pretty_N. case_decide as Hx; [by subst|].
  destruct (digits_value_go x) as (k & _ & H). unfold parse_digits.
  destruct (pretty_N_go x "") eqn:E.
  - specialize (H 0%Z ""). rewrite E in H. simpl in H. injection H as H. lia.
  - by rewrite <- E, H.
Qed.

(** [parse] reads back what [Display] wrote. *)
Lemma parse_unsigned_pretty max z :
  (0 <= z <= max)%Z → parse_unsigned max (pretty z) = Some z.
Proof.
  intros Hz. assert (pretty z = pretty (Z.to_N z)) as -> by (destruct z; [done|done|lia]).
  pose proof (pretty_N_chars "+" (Z.to_N z) eq_refl) as Hc.
  pose proof (parse_digits_pretty (Z.to_N z)) as Hp. unfold parse_unsigned.
  destruct (pretty (Z.to_N z)) as [|c s]; [done|]. simpl in Hc.
  apply orb_false_iff in Hc as [-> _]. rewrite Hp. simpl. unfold in_range.
  rewrite Z2N.id by lia. by rewrite !(proj2 (Z.leb_le _ _)) by lia.
Qed.

(** ** Lemmas: lines and blanks *)

Lemma split_once_char c a b :
  has_char c a = false →
  split_once (String c EmptyString) (a +:+ String c b) = Some (a, b).
Proof.
  induction a as [|x a IH]; autorewrite with orion_str; simpl; [by rewrite Ascii.eqb_refl|].
  intros [Hx Ha]%orb_false_iff. rewrite Ascii.eqb_sym, Hx, IH by done. done.
Qed.

Lemma split_inclusive_app c a b :
  has_char c a = false →
  split_inclusive c (a +:+ String c b) = (a +:+ String c EmptyString) :: split_inclusive c b.
Proof.
  induction a as [|x a IH]; autorewrite with orion_str; simpl; [by rewrite Ascii.eqb_refl|].
  intros [-> H]%orb_false_iff. by rewrite IH.
Qed.

Lemma strip_suffix_Some suf s r : strip_suffix suf s = Some r ↔ s = r +:+ suf.
Proof.
  unfold strip_suffix. rewrite fmap_Some. split.
  - intros (x & Hx & ->). apply strip_prefix_Some in Hx.
    rewrite <- (string_rev_involutive s), Hx, string_rev_distr. by rewrite string_rev_involutive.
  - intros ->. exists (string_rev r). rewrite string_rev_involutive. split; [|done].
    apply strip_prefix_Some, string_rev_distr.
Qed.

Lemma strip_suffix_None_char c s :
  has_char c s = false → strip_suffix (String c EmptyString) s = None.
Proof.
  intros H. destruct (strip_suffix _ s) eqn:E; [|done]. apply strip_suffix_Some in E as ->.
  rewrite has_char_app in H. simpl in H. rewrite Ascii.eqb_refl in H.
  by rewrite orb_true_r in H.
Qed.

(** Text written line by line, each line ended by a newline. *)
Definition unlines (ls : list string) : string :=
  foldr (λ l r, l +:+ String newline r) EmptyString ls.

Definition is_line (l : string) : Prop :=
  has_char newline l = false ∧ has_char carriage_return l = false.

Lemma lines_unlines ls : Forall is_line ls → lines (unlines ls) = ls.
Proof.
  unfold lines. induction 1 as [|l ls [Hn Hc] Hls IH]; [done|]. simpl.
  rewrite split_inclusive_app by done. rewrite fmap_cons, IH. f_equal. unfold line_of_piece.
  rewrite (proj2 (strip_suffix_Some _ _ l)) by done. by rewrite strip_suffix_None_char.
Qed.

(** A character that starts, or ends, no blank. *)
Definition solid (c : ascii) : bool :=
  forallb (λ w, match w with String a _ => negb (Ascii.eqb a c) | EmptyString => false end)
    (whitespace_chars ++ (string_rev <$> whitespace_chars)).

Lemma strip_one_solid ws c s :
  forallb (λ w, match w with String a _ => negb (Ascii.eqb a c) | EmptyString => false end) ws
    = true → strip_one ws (String c s) = None.
Proof.
  induction ws as [|w ws IH]; [done|]. cbn [forallb strip_one]. intros [Hw H]%andb_true_iff.
  destruct w as [|a w]; [done|]. apply negb_true_iff in Hw. cbn [strip_prefix]. rewrite Hw. auto.
Qed.

Lemma strip_all_solid n ws c s :
  strip_one ws (String c s) = None → strip_all n ws (String c s) = String c s.
Proof. intros H. destruct n; cbn [strip_all]; [done|]. by rewrite H. Qed.

Lemma solid_split c :
  solid c = true →
  (∀ s, strip_one whitespace_chars (String c s) = None) ∧
  (∀ s, strip_one (string_rev <$> whitespace_chars) (String c s) = None).
Proof.
  unfold solid. rewrite forallb_app. intros [H1 H2]%andb_true_iff.
  split; intros s; by apply strip_one_solid.
Qed.

Lemma trim_start_solid c s : solid c = true → trim_start (String c s) = String c s.
Proof. intros [H _]%solid_split. apply strip_all_solid, H. Qed.

Lemma trim_end_solid c s r : solid c = true → string_rev s = String c r → trim_end s = s.
Proof.
  intros [_ H]%solid_split Hs. unfold trim_end. rewrite Hs, strip_all_solid by apply H.
  by rewrite <- Hs, string_rev_involutive.
Qed.

(** All characters solid. *)
Fixpoint all_chars (f : ascii → bool) (s : string) : bool :=
  match s with EmptyString => true | String c s' => f c && all_chars f s' end.

Lemma all_chars_app f a b : all_chars f (a +:+ b) = all_chars f a && all_chars f b.
Proof.
  induction a as [|x a IH]; autorewrite with orion_str; simpl; [done|]. by rewrite IH, andb_assoc.
Qed.

Lemma all_chars_rev f s : all_chars f (string_rev s) = all_chars f s.
Proof.
  induction s as [|x s IH]; [done|]. rewrite string_rev_cons, all_chars_app, IH. simpl.
  by rewrite andb_true_r, andb_comm.
Qed.

Lemma trim_solid s : all_chars solid s = true → trim s = s.
Proof.
  intros H. destruct s as [|c s]; [done|]. unfold trim.
  rewrite trim_start_solid by (by apply andb_true_iff in H as [? _]).
  rewrite <- all_chars_rev in H.
  destruct (string_rev (String c s)) as [|b r] eqn:E.
  - apply (f_equal string_rev) in E. by rewrite string_rev_involutive in E.
  - apply andb_true_iff in H as [H _]. by eapply trim_end_solid.
Qed.

Lemma pretty_N_go_all f x s :
  (∀ y, (y < 10)%N → f (pretty_N_char y) = true) →
  all_chars f (pretty_N_go x s) = all_chars f s.
Proof.
  intros Hf. revert s. induction (N.lt_wf_0 x) as [x _ IH]; intros s.
  assert (x = 0 ∨ 0 < x)%N as [->|?] by lia; [by rewrite pretty_N_go_0|].
  rewrite pretty_N_go_step, IH by (done || by apply N.div_lt). simpl.
  by rewrite Hf by (by apply N.mod_lt).
Qed.

Lemma pretty_solid (z : Z) : all_chars solid (pretty z) = true.
Proof.
  assert (∀ y, (y < 10)%N → solid (pretty_N_char y) = true) as Hd.
  { intros y Hy.
    assert (y = 0 ∨ y = 1 ∨ y = 2 ∨ y = 3 ∨ y = 4 ∨ y = 5 ∨ y = 6 ∨ y = 7 ∨ y = 8 ∨ y = 9)%N
      by lia. by destruct_or!; subst; vm_compute. }
  assert (∀ x : N, all_chars solid (pretty x) = true) as HN.
  { intros x. unfold pretty, pretty_N. case_decide; [by vm_compute|].
    by rewrite pretty_N_go_all. }
  destruct z as [|x|x]; [by vm_compute|apply HN|].
  change (pretty (Z.neg x)) with ("-" +:+ pretty (N.pos x)).
  rewrite all_chars_app, HN. by vm_compute.
Qed.

Example parse_f64_tenth :
  parse_f64 "0.1" = Some (SpecFloat.S754_finite false 7205759403792794 (-56)).
Proof. vm_compute. reflexivity. Qed.
Example parse_f64_exp : parse_f64 "-1.5e3" = Some (SpecFloat.SFopp (f64_of_Z 1500)).
Proof. vm_compute. reflexivity. Qed.
Example lines_crlf :
  lines ("a" +:+ String carriage_return (String newline ("b" +:+ String newline "c")))
  = ["a"; "b"; "c"].
Proof. vm_compute. reflexivity. Qed.
