(* ===== verification/Effect.v ===== *)
(** * Effects

    The controller and the store read the clock, draw random UUIDs, and call
    services that may fail (SQLite, NATS).  An [Oracle] is one possible run of
    those: the readings, the UUIDs and the failures, in the order they are asked
    for.  [M S A] is a computation over a state [S] that consumes the oracle; the
    theorems quantify over every oracle, so over every failure and every clock. *)

From Stdlib Require Import ZArith Lia Bool.
From stdpp Require Import base list gmap strings.
From S2P Require Import Prelude Types.

(** What an external call that fails reports. *)
Definition Fault : Type := string.

Record Oracle : Type := {
  or_clock : nat → Instant;
  or_uuid : nat → Uuid;
  or_fault : nat → option Fault
}.

(** How much of the oracle has been used. *)
Record Used : Type := { us_clock : nat; us_uuid : nat; us_io : nat }.

Definition Used_init : Used := {| us_clock := 0; us_uuid := 0; us_io := 0 |}.

Definition M (S A : Type) : Type := Oracle → S * Used → A * (S * Used).

#[export] Instance M_ret S : MRet (M S) := λ A a o s, (a, s).
#[export] Instance M_bind S : MBind (M S) := λ A B f m o s,
  let '(a, s') := m o s in f a o s'.

(** [Utc::now()]. *)
Definition now {S} : M S Instant := λ o '(s, u),
  (or_clock o (us_clock u),
   (s, {| us_clock := us_clock u + 1; us_uuid := us_uuid u; us_io := us_io u |})).

(** [Uuid::new_v4()]. *)
Definition new_v4 {S} : M S Uuid := λ o '(s, u),
  (or_uuid o (us_uuid u),
   (s, {| us_clock := us_clock u; us_uuid := us_uuid u + 1; us_io := us_io u |})).

(** One external call: [Some f] when it fails. *)
Definition io {S} : M S (option Fault) := λ o '(s, u),
  (or_fault o (us_io u),
   (s, {| us_clock := us_clock u; us_uuid := us_uuid u; us_io := us_io u + 1 |})).

Definition get {S} : M S S := λ o '(s, u), (s, (s, u)).
Definition put {S} (s : S) : M S unit := λ o '(_, u), (tt, (s, u)).
Definition modify {S} (f : S → S) : M S unit := λ o '(s, u), (tt, (f s, u)).

(** Run a computation on a part of the state. *)
Definition zoom {S T A} (proj : S → T) (inj : T → S → S) (m : M T A) : M S A := λ o '(s, u),
  let '(a, (t, u')) := m o (proj s, u) in (a, (inj t s, u')).

(** [?] inside a computation. *)
Notation "'let!' x ':=' m 'in' k" :=
  (mbind (λ r, match r with Ok x => k | Err e => mret (Err e) end) m)
  (at level 10, x pattern, m at level 100, k at level 200) : orion_scope.

(** What [let!] does. *)
Lemma try_run {S A A' E} (m : M S (result A E)) (k : A → M S (result A' E)) o su :
  (let! x := m in k x) o su =
  match m o su with (Ok a, su') => k a o su' | (Err e, su') => (Err e, su') end.
Proof. unfold mbind, M_bind. by destruct (m o su) as [[a|e] su']. Qed.

(** A loop over a vector. *)
Fixpoint for_each {S A} (l : list A) (body : A → M S unit) : M S unit :=
  match l with
  | [] => mret tt
  | x :: l' => body x ≫= λ _, for_each l' body
  end.

(** A loop that updates a local variable. *)
Fixpoint fold_each {S A B} (f : B → A → M S B) (b : B) (l : list A) : M S B :=
  match l with
  | [] => mret b
  | x :: l' => f b x ≫= λ b', fold_each f b' l'
  end.

(** The state after a run, and its value. *)
Definition run {S A} (m : M S A) (o : Oracle) (s : S) (u : Used) : A * (S * Used) := m o (s, u).

(** ** Reasoning

    [always P m]: the computation keeps the state invariant [P], whatever the
    oracle says. *)
Definition always {S A} (P : S → Prop) (m : M S A) : Prop :=
  ∀ o s u, P s → P (m o (s, u)).2.1.

Section always.
Context {S : Type} (P : S → Prop).

Lemma always_ret {A} (a : A) : always P (mret (M := M S) a).
Proof. intros o s u H. done. Qed.

Lemma always_bind {A B} (m : M S A) (f : A → M S B) :
  always P m → (∀ a, always P (f a)) → always P (m ≫= f).
Proof.
  intros Hm Hf o s u H. specialize (Hm o s u H). unfold mbind, M_bind.
  destruct (m o (s, u)) as [a [s' u']]. by apply Hf.
Qed.

Lemma always_now : always P now.
Proof. intros o s u H. done. Qed.
Lemma always_new_v4 : always P new_v4.
Proof. intros o s u H. done. Qed.
Lemma always_io : always P io.
Proof. intros o s u H. done. Qed.
Lemma always_get : always P get.
Proof. intros o s u H. done. Qed.

Lemma always_modify f : (∀ s, P s → P (f s)) → always P (modify f).
Proof. intros Hf o s u H. by apply Hf. Qed.

Lemma always_zoom {T A} (Q : T → Prop) proj inj (m : M T A) :
  always Q m → (∀ s, P s → Q (proj s)) → (∀ t s, P s → Q t → P (inj t s)) →
  always P (zoom proj inj m).
Proof.
  intros Hm Hp Hi o s u H. unfold zoom. specialize (Hm o (proj s) u (Hp s H)).
  destruct (m o (proj s, u)) as [a [t u']]. by apply Hi.
Qed.

Lemma always_for_each {A} (l : list A) body :
  (∀ x, x ∈ l → always P (body x)) → always P (for_each l body).
Proof.
  induction l as [|x l IH]; intros H; [apply always_ret|].
  apply always_bind; [apply H; by left|]. intros _. apply IH. intros y Hy. apply H. by right.
Qed.

Lemma always_fold_each {A B} (f : B → A → M S B) b l :
  (∀ b x, x ∈ l → always P (f b x)) → always P (fold_each f b l).
Proof.
  revert b. induction l as [|x l IH]; intros b H; [apply always_ret|].
  apply always_bind; [apply H; by left|]. intros b'. apply IH.
  intros c y Hy. apply H. by right.
Qed.

Lemma always_try {A B E} (m : M S (result A E)) (k : A → M S (result B E)) :
  always P m → (∀ a, always P (k a)) → always P (let! x := m in k x).
Proof.
  intros Hm Hk. apply always_bind; [done|]. intros [a|e]; [apply Hk|apply always_ret].
Qed.

End always.

#[export] Hint Resolve always_ret always_bind always_now always_new_v4 always_io always_get
  always_modify always_for_each always_fold_each always_try : orion.

(** [keeps o P m]: the same for one run of the world, so that what the oracle
    answers may be used. *)
Definition keeps {S A} (o : Oracle) (P : S → Prop) (m : M S A) : Prop :=
  ∀ s u, P s → P (m o (s, u)).2.1.

Section keeps.
Context {S : Type} (o : Oracle) (P : S → Prop).

Lemma keeps_always {A} (m : M S A) : always P m → keeps o P m.
Proof. intros H s u. apply H. Qed.

Lemma keeps_ret {A} (a : A) : keeps o P (mret (M := M S) a).
Proof. by intros s u. Qed.

Lemma keeps_bind {A B} (m : M S A) (f : A → M S B) :
  keeps o P m → (∀ a, keeps o P (f a)) → keeps o P (m ≫= f).
Proof.
  intros Hm Hf s u H. specialize (Hm s u H). unfold mbind, M_bind.
  destruct (m o (s, u)) as [a [s' u']]. by apply Hf.
Qed.

Lemma keeps_new_v4 {B} (f : Uuid → M S B) :
  (∀ n, keeps o P (f (or_uuid o n))) → keeps o P (new_v4 ≫= f).
Proof. intros Hf s u H. by apply Hf. Qed.

Lemma keeps_get {B} (f : S → M S B) :
  (∀ s, P s → keeps o P (f s)) → keeps o P (get ≫= f).
Proof. intros Hf s u H. by apply (Hf s). Qed.

Lemma keeps_put s : P s → keeps o P (put s).
Proof. by intros H s' u _. Qed.

Lemma keeps_modify f : (∀ s, P s → P (f s)) → keeps o P (modify f).
Proof. intros Hf s u H. by apply Hf. Qed.

Lemma keeps_for_each {A} (l : list A) body :
  (∀ x, x ∈ l → keeps o P (body x)) → keeps o P (for_each l body).
Proof.
  induction l as [|x l IH]; intros H; [apply keeps_ret|].
  apply keeps_bind; [apply H; by left|]. intros _. apply IH. intros y Hy. apply H. by right.
Qed.

End keeps.

#[export] Hint Resolve keeps_ret keeps_bind keeps_new_v4 keeps_modify keeps_put : orion.

(** UUIDs are only ever drawn further along. *)
Definition draws {S A} (m : M S A) : Prop :=
  ∀ o s u, us_uuid u ≤ us_uuid (m o (s, u)).2.2.

Lemma draws_ret {S A} (a : A) : draws (mret (M := M S) a).
Proof. by intros o s u. Qed.
Lemma draws_now {S} : draws (S := S) now.
Proof. by intros o s u. Qed.
Lemma draws_io {S} : draws (S := S) io.
Proof. by intros o s u. Qed.
Lemma draws_get {S} : draws (S := S) get.
Proof. by intros o s u. Qed.
Lemma draws_put {S} (s : S) : draws (put s).
Proof. by intros o s' u. Qed.
Lemma draws_modify {S} (f : S → S) : draws (modify f).
Proof. by intros o s u. Qed.
Lemma draws_new_v4 {S} : draws (S := S) new_v4.
Proof. intros o s u. simpl. lia. Qed.

Lemma draws_bind {S A B} (m : M S A) (f : A → M S B) :
  draws m → (∀ a, draws (f a)) → draws (m ≫= f).
Proof.
  intros Hm Hf o s u. specialize (Hm o s u). unfold mbind, M_bind.
  destruct (m o (s, u)) as [a [s' u']]. specialize (Hf a o s' u'). simpl in *. lia.
Qed.

Lemma draws_zoom {S T A} (proj : S → T) (inj : T → S → S) (m : M T A) :
  draws m → draws (zoom proj inj m).
Proof.
  intros Hm o s u. specialize (Hm o (proj s) u). unfold zoom.
  by destruct (m o (proj s, u)) as [a [t u']].
Qed.

Lemma draws_for_each {S A} (l : list A) (body : A → M S unit) :
  (∀ x, draws (body x)) → draws (for_each l body).
Proof.
  intros Hb. induction l as [|x l IH]; [apply draws_ret|]. by apply draws_bind.
Qed.

#[export] Hint Resolve draws_ret draws_now draws_io draws_get draws_put draws_modify draws_new_v4
  draws_bind draws_zoom draws_for_each : orion.

(** ** A run without failures, with a steady clock and distinct UUIDs *)

Definition quiet_oracle : Oracle :=
  {| or_clock := λ n, (1700000000000000000 + 1000000000 * Z.of_nat n)%Z;
     or_uuid := λ n, (1000 + N.of_nat n)%N;
     or_fault := λ _, None |}.

(** No call fails. *)
Definition fault_free (o : Oracle) : Prop := ∀ n, or_fault o n = None.

(** [Uuid::new_v4] never repeats itself. *)
Definition uuids_distinct (o : Oracle) : Prop := ∀ i j, or_uuid o i = or_uuid o j → i = j.

Lemma quiet_fault_free : fault_free quiet_oracle.
Proof. done. Qed.

Lemma quiet_distinct : uuids_distinct quiet_oracle.
Proof. intros i j H. simpl in H. lia. Qed.
