(* ===== verification/Timestamp.v ===== *)
(** * Timestamps as text

    chrono prints a UTC instant in the RFC 3339 format: the civil date, the time of the
    day, as few groups of three fraction digits as show it exactly, and the offset.  The
    store keeps these texts and compares them as texts; the order of the texts is the
    order of the instants, although their lengths differ. *)

From Stdlib Require Import ZArith Lia Bool Ascii.
From stdpp Require Import base list strings.
From S2P Require Import Prelude Text.

Local Open Scope Z_scope.

(** ** Comparisons one after the other *)

Definition lex (c d : comparison) : comparison := match c with Eq => d | _ => c end.

Lemma lex_assoc a b c : lex (lex a b) c = lex a (lex b c).
Proof. by destruct a. Qed.
Lemma lex_eq_r c : lex c Eq = c.
Proof. by destruct c. Qed.

(** A number is compared by its quotient and then by its remainder. *)
Lemma lex_div_mod k a b : 0 < k → lex (a / k ?= b / k) (a mod k ?= b mod k) = (a ?= b).
Proof.
  intros Hk. pose proof (Z.div_mod a k). pose proof (Z.div_mod b k).
  pose proof (Z.mod_pos_bound a k Hk). pose proof (Z.mod_pos_bound b k Hk).
  destruct (Z.compare_spec (a / k) (b / k)); simpl.
  - destruct (Z.compare_spec (a mod k) (b mod k)); symmetry;
      [apply Z.compare_eq_iff|apply Z.compare_lt_iff|apply Z.compare_gt_iff]; nia.
  - symmetry. apply Z.compare_lt_iff. nia.
  - symmetry. apply Z.compare_gt_iff. nia.
Qed.

Lemma string_compare_cons a b s t :
  String.compare (String a s) (String b t) = lex (Ascii.compare a b) (String.compare s t).
Proof. simpl. by destruct (Ascii.compare a b). Qed.

(** ** Zero-padded numbers *)

Definition digit (d : Z) : ascii := ascii_of_N (48 + Z.to_N d).

Fixpoint pad (w : nat) (n : Z) : string :=
  match w with
  | O => EmptyString
  | S w' => pad w' (n / 10) +:+ String (digit (n mod 10)) EmptyString
  end.

Lemma digit_compare a b :
  0 <= a < 10 → 0 <= b < 10 → Ascii.compare (digit a) (digit b) = (a ?= b).
Proof.
  intros Ha Hb. unfold digit, Ascii.compare. rewrite !N_ascii_embedding by lia.
  rewrite <- N2Z.inj_compare. rewrite !N2Z.inj_add, !Z2N.id by lia. apply Z.add_compare_mono_l.
Qed.

Lemma pad_snoc w n s : pad (S w) n +:+ s = pad w (n / 10) +:+ String (digit (n mod 10)) s.
Proof. simpl. by rewrite string_app_assoc. Qed.

Lemma pad_compare w a b s t :
  0 <= a < 10 ^ Z.of_nat w → 0 <= b < 10 ^ Z.of_nat w →
  String.compare (pad w a +:+ s) (pad w b +:+ t) = lex (a ?= b) (String.compare s t).
Proof.
  revert a b s t. induction w as [|w IH]; intros a b s t Ha Hb.
  { simpl in *. assert (a = b) as -> by lia. by rewrite Z.compare_refl. }
  rewrite Nat2Z.inj_succ, Z.pow_succ_r in Ha, Hb by lia.
  rewrite !pad_snoc, IH by (split; [apply Z.div_pos|apply Z.div_lt_upper_bound]; lia).
  rewrite string_compare_cons, digit_compare by (apply Z.mod_pos_bound; lia).
  by rewrite <- lex_assoc, lex_div_mod.
Qed.

Lemma pad_split w k n s :
  pad (w + k) n +:+ s = pad w (n / 10 ^ Z.of_nat k) +:+ pad k (n mod 10 ^ Z.of_nat k) +:+ s.
Proof.
  revert n s. induction k as [|k IH]; intros n s.
  { rewrite Nat.add_0_r. simpl. by rewrite Z.div_1_r. }
  rewrite <- plus_n_Sm, !pad_snoc, IH. rewrite Nat2Z.inj_succ, Z.pow_succ_r by lia.
  assert (0 < 10 ^ Z.of_nat k) by lia.
  rewrite Z.div_div, Z.rem_mul_r by lia. f_equal.
  assert ((n mod 10 + 10 * ((n / 10) mod 10 ^ Z.of_nat k)) / 10 = (n / 10) mod 10 ^ Z.of_nat k) as ->.
  { rewrite Z.mul_comm, Z.div_add by lia. rewrite Z.div_small; [lia|]. apply Z.mod_pos_bound; lia. }
  assert ((n mod 10 + 10 * ((n / 10) mod 10 ^ Z.of_nat k)) mod 10 = n mod 10) as ->; [|done].
  rewrite Z.mul_comm, Z.mod_add by lia. apply Z.mod_mod. lia.
Qed.

(** ** The fraction of a second

    [SecondsFormat::AutoSi]: no digit, three, six or nine. *)

Definition utc_offset : string := "+00:00".

Definition fraction (ns : Z) : string :=
  if ns =? 0 then EmptyString
  else if ns mod 1000000 =? 0 then "." +:+ pad 3 (ns / 1000000)
  else if ns mod 1000 =? 0 then "." +:+ pad 6 (ns / 1000)
  else "." +:+ pad 9 ns.

(** The offset ends a shorter fraction, and its sign is before every digit. *)
Lemma offset_first k n s : String.compare utc_offset (pad (S k) n +:+ s) = Lt.
Proof.
  revert n s. induction k as [|k IH]; intros n s; rewrite pad_snoc; [|apply IH].
  assert (0 <= n mod 10 < 10) as H by (apply Z.mod_pos_bound; lia).
  unfold utc_offset. rewrite string_app_empty, string_compare_cons.
  assert (Ascii.compare "+" (digit (n mod 10)) = Lt) as ->; [|done].
  unfold digit, Ascii.compare. rewrite N_ascii_embedding by lia.
  apply N.compare_lt_iff. change (N_of_ascii "+") with 43%N. lia.
Qed.

Lemma pad_compare_longer w k q r :
  0 <= q < 10 ^ Z.of_nat w → 0 <= r < 10 ^ Z.of_nat (w + S k) → r mod 10 ^ Z.of_nat (S k) ≠ 0 →
  String.compare (pad w q +:+ utc_offset) (pad (w + S k) r +:+ utc_offset) =
  (q * 10 ^ Z.of_nat (S k) ?= r).
Proof.
  intros Hq Hr Hn. set (p := 10 ^ Z.of_nat (S k)) in *. assert (0 < p) by lia.
  rewrite Nat2Z.inj_add, Z.pow_add_r in Hr by lia. fold p in Hr.
  rewrite pad_split. fold p. rewrite pad_compare, offset_first.
  2: done.
  2: { split; [apply Z.div_pos; lia|apply Z.div_lt_upper_bound; lia]. }
  pose proof (Z.div_mod r p). pose proof (Z.mod_pos_bound r p).
  destruct (Z.compare_spec q (r / p)); simpl; symmetry.
  - apply Z.compare_lt_iff. nia.
  - apply Z.compare_lt_iff. nia.
  - apply Z.compare_gt_iff. nia.
Qed.

Lemma width_cases w : w ∈ [3; 6; 9]%nat ↔ (w = 3 ∨ w = 6 ∨ w = 9)%nat.
Proof. rewrite !elem_of_cons, elem_of_nil. lia. Qed.

(** The cases of a fraction: nothing, or a number of [w] digits scaled to nanoseconds. *)
Inductive fraction_shape (ns : Z) : string → Prop :=
| shape_none : ns = 0 → fraction_shape ns EmptyString
| shape_digits w q : w ∈ [3; 6; 9]%nat → 0 <= q < 10 ^ Z.of_nat w → 0 < q →
    ns = q * 10 ^ (9 - Z.of_nat w) → (3 < Z.of_nat w → q mod 1000 ≠ 0) →
    fraction_shape ns ("." +:+ pad w q).

Lemma fraction_cases ns : 0 <= ns < 1000000000 → fraction_shape ns (fraction ns).
Proof.
  intros Hns. unfold fraction. destruct (Z.eqb_spec ns 0) as [H0|H0]; [by constructor|].
  pose proof (Z.div_mod ns 1000000) as D6. pose proof (Z.div_mod ns 1000) as D3.
  pose proof (Z.mod_pos_bound ns 1000) as B3. pose proof (Z.mod_pos_bound ns 1000000) as B6.
  destruct (Z.eqb_spec (ns mod 1000000) 0) as [H1|H1].
  { apply shape_digits; [apply width_cases; lia|simpl; lia|lia|simpl; lia|lia]. }
  destruct (Z.eqb_spec (ns mod 1000) 0) as [H2|H2].
  - apply shape_digits; [apply width_cases; lia|simpl; lia|lia|simpl; lia|]. intros _ E. apply H1.
    pose proof (Z.div_mod (ns / 1000) 1000) as D. rewrite E in D.
    assert (ns = (ns / 1000 / 1000) * 1000000) as -> by lia. by apply Z.mod_mul.
  - apply shape_digits; [apply width_cases; lia|simpl; lia|lia|simpl; lia|done].
Qed.

(** A mixed comparison of two fractions, the first the shorter. *)
Lemma fraction_shorter w k q r :
  (w + S k ∈ [3; 6; 9])%nat → w ∈ [3; 6; 9]%nat →
  0 <= q < 10 ^ Z.of_nat w → 0 <= r < 10 ^ Z.of_nat (w + S k) → r mod 1000 ≠ 0 →
  String.compare (pad w q +:+ utc_offset) (pad (w + S k) r +:+ utc_offset) =
  (q * 10 ^ (9 - Z.of_nat w) ?= r * 10 ^ (9 - Z.of_nat (w + S k))).
Proof.
  intros Hwk Hw Hq Hr Hn.
  assert (r mod 10 ^ Z.of_nat (S k) ≠ 0) as Hn'.
  { intros E. apply Hn. assert (∃ j, k = (2 + j)%nat) as [j ->].
    { exists (k - 2)%nat. apply width_cases in Hwk, Hw. lia. }
    replace (Z.of_nat (S (2 + j))) with (3 + Z.of_nat j) in E by lia.
    rewrite Z.pow_add_r in E by lia. change (10 ^ 3) with 1000 in E.
    apply Z.mod_divide in E as [c ->]; [|lia].
    by rewrite (Z.mul_comm 1000), Z.mul_assoc, Z.mod_mul. }
  rewrite pad_compare_longer by done.
  assert (Z.of_nat w + Z.of_nat (S k) <= 9) as Hle.
  { apply width_cases in Hwk. lia. }
  replace (9 - Z.of_nat w) with (Z.of_nat (S k) + (9 - Z.of_nat (w + S k))) by lia.
  rewrite Z.pow_add_r, Z.mul_assoc by lia.
  apply Zmult_compare_compat_r.
  assert (0 < 10 ^ (9 - Z.of_nat (w + S k))) by (apply Z.pow_pos_nonneg; lia). lia.
Qed.

Lemma fraction_compare a b :
  0 <= a < 1000000000 → 0 <= b < 1000000000 →
  String.compare (fraction a +:+ utc_offset) (fraction b +:+ utc_offset) = (a ?= b).
Proof.
  intros Ha%fraction_cases Hb%fraction_cases.
  destruct Ha as [->|w q Hw Hq Hq0 -> Hqm], Hb as [->|v r Hv Hr Hr0 -> Hrm].
  - done.
  - symmetry. apply Z.compare_lt_iff. assert (0 < 10 ^ (9 - Z.of_nat v)); [|lia].
    apply Z.pow_pos_nonneg; [lia|]. apply width_cases in Hv. lia.
  - symmetry. apply Z.compare_gt_iff. assert (0 < 10 ^ (9 - Z.of_nat w)); [|lia].
    apply Z.pow_pos_nonneg; [lia|]. apply width_cases in Hw. lia.
  - rewrite !string_app_assoc. change ("." +:+ ?x) with (String "." x).
    rewrite string_compare_cons. change (Ascii.compare "." ".") with Eq. cbn [lex].
    destruct (Nat.lt_trichotomy w v) as [H|[->|H]].
    + replace v with (w + S (v - S w))%nat in * by lia. apply fraction_shorter; try done.
      apply Hrm. apply width_cases in Hw. lia.
    + rewrite pad_compare by done. change (String.compare utc_offset utc_offset) with Eq.
      rewrite lex_eq_r. apply Zmult_compare_compat_r.
      assert (0 < 10 ^ (9 - Z.of_nat v)); [|lia].
      apply Z.pow_pos_nonneg; [lia|]. apply width_cases in Hv. lia.
    + rewrite String.compare_antisym, (Z.compare_antisym (r * _)). f_equal.
      replace w with (v + S (w - S v))%nat in * by lia. apply fraction_shorter; try done.
      apply Hqm. apply width_cases in Hv. lia.
Qed.

(** ** The time of the day *)

Definition second_ns : Z := 1000000000.
Definition day_ns : Z := 86400000000000.

Definition time_text (t : Z) : string :=
  pad 2 (t / second_ns / 3600) +:+ ":" +:+ pad 2 (t / second_ns / 60 mod 60) +:+ ":" +:+
  pad 2 (t / second_ns mod 60) +:+ fraction (t mod second_ns) +:+ utc_offset.

(** A separator is skipped. *)
Lemma compare_sep c s t : String.compare (String c "" +:+ s) (String c "" +:+ t) = String.compare s t.
Proof.
  rewrite !string_app_cons, !string_app_empty, string_compare_cons.
  unfold Ascii.compare. by rewrite N.compare_refl.
Qed.

Lemma div_range a k n : 0 < k → 0 <= a < k * n → 0 <= a / k < n.
Proof. intros Hk Ha. split; [apply Z.div_pos; lia|apply Z.div_lt_upper_bound; lia]. Qed.

Lemma time_compare a b :
  0 <= a < day_ns → 0 <= b < day_ns → String.compare (time_text a) (time_text b) = (a ?= b).
Proof.
  unfold day_ns, time_text. intros Ha Hb. pose proof (Z.mod_pos_bound a second_ns eq_refl) as Fa.
  pose proof (Z.mod_pos_bound b second_ns eq_refl) as Fb.
  assert (∀ x, 0 <= x mod 60 < 10 ^ Z.of_nat 2) as H60.
  { intros x. pose proof (Z.mod_pos_bound x 60 eq_refl). change (10 ^ Z.of_nat 2) with 100. lia. }
  assert (∀ x, 0 <= x < 86400 → 0 <= x / 3600 < 10 ^ Z.of_nat 2) as H24.
  { intros x Hx. pose proof (div_range x 3600 24). change (10 ^ Z.of_nat 2) with 100. lia. }
  assert (0 <= a / second_ns < 86400) as Sa by (apply div_range; unfold second_ns; lia).
  assert (0 <= b / second_ns < 86400) as Sb by (apply div_range; unfold second_ns; lia).
  rewrite pad_compare, compare_sep, pad_compare, compare_sep, pad_compare, fraction_compare by auto.
  rewrite <- (lex_div_mod second_ns a b), <- (lex_div_mod 60 (a / second_ns)) by done.
  rewrite <- (lex_div_mod 60 (a / second_ns / 60)) by done.
  rewrite !(Z.div_div _ 60 60) by done. by rewrite !lex_assoc.
Qed.

(** ** The civil date *)

Record civil : Type := { year : Z; month : Z; day : Z }.

Definition leap (y : Z) : bool :=
  (y mod 4 =? 0) && negb (y mod 100 =? 0) || (y mod 400 =? 0).

Definition month_length (l : bool) (m : Z) : Z :=
  if m =? 2 then if l then 29 else 28
  else if existsb (Z.eqb m) [4; 6; 9; 11] then 30 else 31.

(** The days of the year before a month. *)
Definition month_start (l : bool) (m : Z) : Z :=
  foldr Z.add 0 (month_length l <$> List.filter (λ i, i <? m) [1; 2; 3; 4; 5; 6; 7; 8; 9; 10; 11; 12]).

(** The days before a year, from year 0 on. *)
Definition year_start (y : Z) : Z := 365 * y + (y + 3) / 4 - (y + 99) / 100 + (y + 399) / 400.

(** The day of a date, counted from 1970-01-01. *)
Definition days_of_civil (c : civil) : Z :=
  year_start (year c) + month_start (leap (year c)) (month c) + (day c - 1) - 719528.

(** A date chrono prints with four digits for the year. *)
Definition civil_ok (c : civil) : Prop :=
  0 <= year c <= 9999 ∧ 1 <= month c <= 12 ∧ 1 <= day c <= month_length (leap (year c)) (month c).

Example day_zero : days_of_civil {| year := 1970; month := 1; day := 1 |} = 0.
Proof. reflexivity. Qed.
Example day_leap : days_of_civil {| year := 2000; month := 3; day := 1 |} = 11017.
Proof. reflexivity. Qed.

Definition date_text (c : civil) : string :=
  pad 4 (year c) +:+ "-" +:+ pad 2 (month c) +:+ "-" +:+ pad 2 (day c).

(** RFC 3339, in UTC: the date, and the nanoseconds of the day. *)
Definition rfc3339_text (c : civil) (t : Z) : string := date_text c +:+ "T" +:+ time_text t.

Lemma year_start_next y : 0 <= y → year_start (y + 1) = year_start y + 365 + (if leap y then 1 else 0).
Proof.
  intros Hy. unfold year_start, leap.
  destruct (Z.eqb_spec (y mod 4) 0), (Z.eqb_spec (y mod 100) 0), (Z.eqb_spec (y mod 400) 0);
    simpl; Z.to_euclidean_division_equations; lia.
Qed.

Lemma year_start_mono y z : 0 <= y <= z → year_start y <= year_start z.
Proof. intros H. unfold year_start. Z.to_euclidean_division_equations. lia. Qed.

Lemma month_cases (P : Z → Prop) :
  P 1 → P 2 → P 3 → P 4 → P 5 → P 6 → P 7 → P 8 → P 9 → P 10 → P 11 → P 12 →
  ∀ m, 1 <= m <= 12 → P m.
Proof.
  intros. assert (m = 1 ∨ m = 2 ∨ m = 3 ∨ m = 4 ∨ m = 5 ∨ m = 6 ∨ m = 7 ∨ m = 8 ∨ m = 9 ∨ m = 10
    ∨ m = 11 ∨ m = 12) as Hm by lia. by repeat destruct Hm as [->|Hm]; subst.
Qed.

(** A month ends before a later one starts, and within its year. *)
Lemma month_before l m m' :
  1 <= m <= 12 → 1 <= m' <= 12 → m < m' → month_start l m + month_length l m <= month_start l m'.
Proof.
  intros Hm Hm'. revert m' Hm'. pattern m. revert m Hm.
  apply month_cases; intros m' Hm'; pattern m'; revert m' Hm'; apply month_cases;
    destruct l; vm_compute; intros; try discriminate; done.
Qed.
Lemma month_within l m :
  1 <= m <= 12 → 0 <= month_start l m ∧ month_start l m + month_length l m <= 365 + (if l then 1 else 0).
Proof.
  intros Hm. pattern m. revert m Hm.
  apply month_cases; destruct l; vm_compute; split; intros; discriminate.
Qed.

(** Dates in lexicographic order are in the order of their days. *)
Definition date_compare (c d : civil) : comparison :=
  lex (year c ?= year d) (lex (month c ?= month d) (day c ?= day d)).

Lemma date_before c d : civil_ok c → civil_ok d → date_compare c d = Lt →
  days_of_civil c < days_of_civil d.
Proof.
  intros (Hy & Hm & Hd) (Hy' & Hm' & Hd'). unfold date_compare, days_of_civil.
  pose proof (month_within (leap (year c)) (month c) Hm) as [_ Hw].
  pose proof (month_within (leap (year d)) (month d) Hm') as [Hw' _].
  destruct (Z.compare_spec (year c) (year d)) as [E|H|H]; simpl; [|intros _|done].
  - rewrite E in *. destruct (Z.compare_spec (month c) (month d)) as [E'|H|H]; simpl; [|intros _|done].
    + rewrite E' in *. rewrite Z.compare_lt_iff. lia.
    + pose proof (month_before (leap (year d)) (month c) (month d) Hm Hm' H). lia.
  - pose proof (year_start_next (year c)). pose proof (year_start_mono (year c + 1) (year d)). lia.
Qed.

Lemma date_order c d : civil_ok c → civil_ok d →
  date_compare c d = (days_of_civil c ?= days_of_civil d).
Proof.
  intros Hc Hd. symmetry. destruct (date_compare c d) eqn:E.
  - assert (c = d) as ->; [|apply Z.compare_refl]. unfold date_compare, lex in E.
    destruct (Z.compare_spec (year c) (year d)), (Z.compare_spec (month c) (month d)),
      (Z.compare_spec (day c) (day d)); try done. destruct c, d; simpl in *; congruence.
  - by apply Z.compare_lt_iff, date_before.
  - apply Z.compare_gt_iff, date_before; [done..|]. unfold date_compare in *.
    rewrite (Z.compare_antisym (year c)), (Z.compare_antisym (month c)), (Z.compare_antisym (day c)).
    by destruct (year c ?= year d), (month c ?= month d), (day c ?= day d).
Qed.

Lemma date_text_compare c d s t : civil_ok c → civil_ok d →
  String.compare (date_text c +:+ s) (date_text d +:+ t) = lex (date_compare c d) (String.compare s t).
Proof.
  intros (Hy & Hm & Hd) (Hy' & Hm' & Hd').
  assert (∀ l m, month_length l m <= 31) as Hl.
  { intros l m. unfold month_length. repeat case_match; lia. }
  pose proof (Hl (leap (year c)) (month c)). pose proof (Hl (leap (year d)) (month d)).
  unfold date_text. rewrite !string_app_assoc.
  rewrite pad_compare, compare_sep, pad_compare, compare_sep, pad_compare by (simpl; lia).
  unfold date_compare. by rewrite !lex_assoc.
Qed.

(** The texts of two instants compare as the instants do. *)
Lemma rfc3339_text_order c d s t :
  civil_ok c → civil_ok d → 0 <= s < day_ns → 0 <= t < day_ns →
  String.compare (rfc3339_text c s) (rfc3339_text d t) =
  (days_of_civil c * day_ns + s ?= days_of_civil d * day_ns + t).
Proof.
  intros Hc Hd Hs Ht. unfold rfc3339_text.
  rewrite date_text_compare, compare_sep, date_order, time_compare by done.
  rewrite <- (lex_div_mod day_ns (_ * _ + s)) by done.
  by rewrite !(Z.add_comm (_ * day_ns)), !Z.div_add, !Z.mod_add, !Z.div_small, !Z.mod_small by done.
Qed.
