(* ===== verification/Runtime.v ===== *)
(** * Runtime adapters (crates/orion-runtime)

    The adapter interface, the registry of adapters, and the native and docker
    adapters as computations over the state they share with the tasks they spawn
    and with the host.  A native child is shared between the adapter's map and
    its wait task through one cell ([Arc<Mutex<Option<Child>>>]); the cells are a
    store, so the aliasing is modelled.  Each lock-protected section of the code
    is one step; the tasks' steps are operations of their own, so that a run may
    interleave them with launches, stops and process exits in any order. *)

From Stdlib Require Import ZArith Lia Bool Ascii.
From stdpp Require Import base list gmap strings pretty.
From S2P Require Import Prelude Text Types Parse Effect.

(** ** The interface (adapter.rs) *)

Inductive RuntimeError : Type :=
| Mismatch (adapter got : string)
| Launch (msg : string)
| Stop (msg : string)
| RuntimeIo (msg : string).

Inductive OutStream : Type := OutStdout | OutStderr.

(** A channel: the receiving end lives in the agent. *)
Definition Sink : Type := nat.

Record ExitNotice : Type := {
  en_instance_id : Uuid;
  en_exit_code : option Z;
  en_message : string
}.

Record LaunchSpec : Type := {
  ls_instance_id : Uuid;
  ls_name : ResourceName;
  ls_runtime : Runtime;
  ls_log_sink : option Sink;
  ls_exit_sink : option Sink
}.

Record LaunchedInstance : Type := {
  li_instance_id : Uuid;
  li_native_handle : string
}.

(** [dyn RuntimeAdapter] over a host state [S]. *)
Record RuntimeAdapter (S : Type) : Type := {
  ra_name : string;
  ra_available : M S bool;
  ra_launch : LaunchSpec → M S (result LaunchedInstance RuntimeError);
  ra_stop : Uuid → M S (result unit RuntimeError)
}.
Arguments ra_name {S}.
Arguments ra_available {S}.
Arguments ra_launch {S}.
Arguments ra_stop {S}.

(** ** The registry (lib.rs) *)

Notation RuntimeRegistry S := (gmap string (RuntimeAdapter S)).

Definition RuntimeRegistry_new {S} : RuntimeRegistry S := ∅.

Definition register {S} (adapter : RuntimeAdapter S) (reg : RuntimeRegistry S)
    : RuntimeRegistry S := <[ra_name adapter := adapter]> reg.

Definition RuntimeRegistry_get {S} (reg : RuntimeRegistry S) (name : string)
    : option (RuntimeAdapter S) := reg !! name.

Definition RuntimeRegistry_names `{HashOrder} {S} (reg : RuntimeRegistry S) : list string :=
  sort_by String.compare (hash_keys reg).

(** What one adapter promises the agent: it tracks a set of instances, [launch]
    adds the one it was given exactly when it succeeds, it only takes runtimes of
    its own kind, and [stop] ends with the instance untracked and touches no
    other. *)
Class AdapterLaws {S} (a : RuntimeAdapter S) (tracked : S → gset Uuid)
    (takes : Runtime → bool) : Prop := {
  launch_law : ∀ spec o s u,
    let '(r, (s', u')) := ra_launch a spec o (s, u) in
    match r with
    | Ok li => takes (ls_runtime spec) = true ∧ li_instance_id li = ls_instance_id spec ∧
               tracked s' = {[ls_instance_id spec]} ∪ tracked s
    | Err e => tracked s' = tracked s ∧
               (takes (ls_runtime spec) = false → s' = s)
    end;
  mismatch_law : ∀ spec o s u x y,
    (ra_launch a spec o (s, u)).1 = Err (Mismatch x y) → takes (ls_runtime spec) = false;
  stop_law : ∀ id o s u,
    tracked (ra_stop a id o (s, u)).2.1 = tracked s ∖ {[id]};
  stop_unknown : ∀ id o s u,
    id ∉ tracked s → ra_stop a id o (s, u) = (Ok tt, (s, u))
}.

(** ** Line forwarding

    Both adapters have the same loop: forward lines until the end of the stream,
    a read error, or a closed channel ([accepts] sends succeed before the
    receiver goes away). *)

Inductive LineRead : Type := ReadLine (line : string) | ReadEof | ReadError.

Fixpoint forward_lines (id : Uuid) (stream : OutStream) (reads : list LineRead) (accepts : nat)
    : list (Uuid * OutStream * string) :=
  match reads, accepts with
  | ReadLine line :: reads', S n => (id, stream, line) :: forward_lines id stream reads' n
  | _, _ => []
  end.

(** ** The native adapter (native.rs) *)

Definition native_kind_str (r : Runtime) : string :=
  match r with
  | RNative _ _ _ => "native"
  | RDocker _ _ _ _ => "docker"
  | RPython _ _ _ => "python"
  | RJava _ _ => "java"
  | RNode _ _ => "node"
  | RSpark _ _ => "spark"
  | RLlm _ _ => "llm"
  | RHomeAssistant _ => "homeassistant"
  | RWasm _ => "wasm"
  | RPeer _ _ => "peer"
  end.

Definition Pid : Type := N.

(** [ExitStatus]: its code, and its [Debug] text. *)
Record ExitStatus : Type := { es_code : option Z; es_debug : string }.

(** A process of the host, with the part of [Command] the adapter sets; [None]
    while it runs. *)
Record Process : Type := {
  pr_exec : string;
  pr_args : list string;
  pr_env : gmap string string;
  pr_piped : bool;
  pr_status : option ExitStatus
}.

(** A wait task: spawned, waiting on the child it took, or finished, without
    having found the child or after sending its notice. *)
Inductive WaitState : Type := WSpawned | WWaiting (child : Pid) | WGaveUp | WReported.

Record WaitTask : Type := {
  wt_id : Uuid;
  wt_cell : nat;
  wt_sink : Sink;
  wt_state : WaitState
}.

(** A task running [forward_lines] on a pipe. *)
Record Reader : Type := { rd_id : Uuid; rd_stream : OutStream; rd_sink : Sink }.

Record Native : Type := {
  nv_children : gmap Uuid nat;
  (** The cells [Arc<Mutex<Option<Child>>>], by address. *)
  nv_cells : list (option Pid);
  nv_tasks : list WaitTask;
  nv_readers : list Reader;
  (** The processes of the host that have not been waited for. *)
  nv_procs : gmap Pid Process;
  (** The notices sent. *)
  nv_sent : list (Sink * ExitNotice)
}.

Definition NativeAdapter_new : Native :=
  {| nv_children := ∅; nv_cells := []; nv_tasks := []; nv_readers := []; nv_procs := ∅;
     nv_sent := [] |}.

(** The operating system gives a new process an identifier no process that has
    not been waited for has. *)
Class HostOs : Type := {
  fork_pid : gmap Pid Process → Pid;
  fork_pid_fresh : ∀ m, m !! fork_pid m = None
}.

(** A host that counts up. *)
Definition next_pid (m : gmap Pid Process) : Pid :=
  map_fold (λ k _ acc, N.max (N.succ k) acc) 1%N m.

Lemma next_pid_above m k p : m !! k = Some p → (k < next_pid m)%N.
Proof.
  unfold next_pid. revert k p.
  apply (map_fold_weak_ind (λ acc (m : gmap Pid Process), ∀ k p, m !! k = Some p → (k < acc)%N)).
  - intros k p. by rewrite lookup_empty.
  - intros i x m' acc _ IH k p [[-> _]|[_ Hk]]%lookup_insert_Some; [lia|].
    specialize (IH k p Hk). lia.
Qed.

Lemma next_pid_fresh m : m !! next_pid m = None.
Proof. apply eq_None_not_Some. intros [p Hp%next_pid_above]. lia. Qed.

Definition demo_os : HostOs := {| fork_pid := next_pid; fork_pid_fresh := next_pid_fresh |}.

Section native.
Context {OS : HostOs}.

Definition readers_of (id : Uuid) (sink : option Sink) : list Reader :=
  match sink with
  | Some k => [{| rd_id := id; rd_stream := OutStdout; rd_sink := k |};
               {| rd_id := id; rd_stream := OutStderr; rd_sink := k |}]
  | None => []
  end.

(** What a successful spawn leaves behind: the process, its readers, the shared
    cell under the instance id, and the wait task when there is an exit sink. *)
Definition add_child (spec : LaunchSpec) (exec : string) (args : list string)
    (env : gmap string string) (pid : Pid) (s : Native) : Native :=
  let cell := length (nv_cells s) in
  {| nv_children := <[ls_instance_id spec := cell]> (nv_children s);
     nv_cells := nv_cells s ++ [Some pid];
     nv_tasks := nv_tasks s ++ match ls_exit_sink spec with
       | Some k => [{| wt_id := ls_instance_id spec; wt_cell := cell; wt_sink := k;
                       wt_state := WSpawned |}]
       | None => []
       end;
     nv_readers := nv_readers s ++ readers_of (ls_instance_id spec) (ls_log_sink spec);
     nv_procs := <[pid := {| pr_exec := exec; pr_args := args; pr_env := env;
                             pr_piped := if ls_log_sink spec then true else false;
                             pr_status := None |}]> (nv_procs s);
     nv_sent := nv_sent s |}.

Definition native_launch (spec : LaunchSpec)
    : M Native (result LaunchedInstance RuntimeError) :=
  match ls_runtime spec with
  | RNative exec args env =>
      flt ← io;
      match flt with
      | Some e => mret (Err (Launch ("spawn " +:+ exec +:+ ": " +:+ e)))
      | None =>
          s ← get;
          let pid := fork_pid (nv_procs s) in
          _ ← put (add_child spec exec args env pid s);
          mret (Ok {| li_instance_id := ls_instance_id spec; li_native_handle := pretty pid |})
      end
  | other => mret (Err (Mismatch "native" (native_kind_str other)))
  end.

Definition set_task (n : nat) (t : WaitTask) (w : WaitState) (s : Native) : Native :=
  {| nv_children := nv_children s; nv_cells := nv_cells s;
     nv_tasks := <[n := {| wt_id := wt_id t; wt_cell := wt_cell t; wt_sink := wt_sink t;
                           wt_state := w |}]> (nv_tasks s);
     nv_readers := nv_readers s; nv_procs := nv_procs s; nv_sent := nv_sent s |}.

Definition set_cell (c : nat) (h : option Pid) (s : Native) : Native :=
  {| nv_children := nv_children s; nv_cells := <[c := h]> (nv_cells s);
     nv_tasks := nv_tasks s; nv_readers := nv_readers s; nv_procs := nv_procs s;
     nv_sent := nv_sent s |}.

Definition drop_child (id : Uuid) (s : Native) : Native :=
  {| nv_children := delete id (nv_children s); nv_cells := nv_cells s;
     nv_tasks := nv_tasks s; nv_readers := nv_readers s; nv_procs := nv_procs s;
     nv_sent := nv_sent s |}.

Definition set_procs (m : gmap Pid Process) (s : Native) : Native :=
  {| nv_children := nv_children s; nv_cells := nv_cells s; nv_tasks := nv_tasks s;
     nv_readers := nv_readers s; nv_procs := m; nv_sent := nv_sent s |}.

Definition send_exit (k : Sink) (n : ExitNotice) (s : Native) : Native :=
  {| nv_children := nv_children s; nv_cells := nv_cells s; nv_tasks := nv_tasks s;
     nv_readers := nv_readers s; nv_procs := nv_procs s; nv_sent := nv_sent s ++ [(k, n)] |}.

(** The child in a cell, and the status of a process that has ended. *)
Definition child_in (s : Native) (c : nat) : option Pid :=
  match nv_cells s !! c with Some h => h | None => None end.
Definition status_of (s : Native) (pid : Pid) : option ExitStatus :=
  match nv_procs s !! pid with Some p => pr_status p | None => None end.

(** The wait task [n] starts: it takes the child out of the cell. *)
Definition wait_start (n : nat) : M Native unit :=
  modify (λ s,
    match nv_tasks s !! n with
    | Some t =>
        match wt_state t with
        | WSpawned =>
            match child_in s (wt_cell t) with
            | Some pid => set_task n t (WWaiting pid) (set_cell (wt_cell t) None s)
            | None => set_task n t WGaveUp s
            end
        | _ => s
        end
    | None => s
    end).

(** The notice for a completed wait. *)
Definition wait_notice (id : Uuid) (r : result ExitStatus Fault) : ExitNotice :=
  match r with
  | Ok status =>
      {| en_instance_id := id; en_exit_code := es_code status;
         en_message := match es_code status with
           | Some c => "exited code=" +:+ pretty c
           | None => "killed (no exit code; status=" +:+ es_debug status +:+ ")"
           end |}
  | Err e => {| en_instance_id := id; en_exit_code := None; en_message := "wait error: " +:+ e |}
  end.

(** [taken.wait()] of task [n] completes: with the status of a process that has
    ended, which is thereby waited for, or with an error.  A process that still
    runs keeps the task waiting. *)
Definition wait_done (n : nat) : M Native unit :=
  s ← get;
  match nv_tasks s !! n with
  | Some t =>
      match wt_state t with
      | WWaiting pid =>
          flt ← io;
          match flt, status_of s pid with
          | Some e, _ =>
              put (send_exit (wt_sink t) (wait_notice (wt_id t) (Err e))
                     (drop_child (wt_id t) (set_task n t WReported s)))
          | None, Some status =>
              put (send_exit (wt_sink t) (wait_notice (wt_id t) (Ok status))
                     (drop_child (wt_id t)
                        (set_task n t WReported (set_procs (delete pid (nv_procs s)) s))))
          | None, None => mret tt
          end
      | _ => mret tt
      end
  | None => mret tt
  end.

(** A process of the host ends. *)
Definition process_ends (pid : Pid) (status : ExitStatus) (s : Native) : Native :=
  match nv_procs s !! pid with
  | Some p =>
      match pr_status p with
      | None => set_procs (<[pid := {| pr_exec := pr_exec p; pr_args := pr_args p;
                                       pr_env := pr_env p; pr_piped := pr_piped p;
                                       pr_status := Some status |}]> (nv_procs s)) s
      | Some _ => s
      end
  | None => s
  end.

(** [taken.kill().await] kills the process and waits for it. *)
Definition native_stop (instance_id : Uuid) : M Native (result unit RuntimeError) :=
  s ← get;
  match nv_children s !! instance_id with
  | None => mret (Ok tt)
  | Some c =>
      let s1 := drop_child instance_id s in
      match child_in s c with
      | None => _ ← put s1; mret (Ok tt)
      | Some pid =>
          _ ← put (set_cell c None s1);
          flt ← io;
          match flt with
          | Some e => mret (Err (Stop e))
          | None =>
              _ ← modify (λ s, set_procs (delete pid (nv_procs s)) s);
              mret (Ok tt)
          end
      end
  end.

Definition native_adapter : RuntimeAdapter Native :=
  {| ra_name := "native"; ra_available := mret true; ra_launch := native_launch;
     ra_stop := native_stop |}.

End native.

(** *** Runs of the native adapter *)

Inductive NativeEvent : Type :=
| NLaunch (spec : LaunchSpec)
| NStop (id : Uuid)
| NWaitStart (task : nat)
| NWaitDone (task : nat)
| NEnds (pid : Pid) (status : ExitStatus).

Definition native_event `{HostOs} (e : NativeEvent) : M Native unit :=
  match e with
  | NLaunch spec => native_launch spec ≫= λ _, mret tt
  | NStop id => native_stop id ≫= λ _, mret tt
  | NWaitStart n => wait_start n
  | NWaitDone n => wait_done n
  | NEnds pid status => modify (process_ends pid status)
  end.

Definition native_run `{HostOs} (es : list NativeEvent) : M Native unit :=
  for_each es native_event.

(** Who holds the handle of a process: a cell, or the wait task that took it. *)
Inductive holds (s : Native) : nat + nat → Pid → Prop :=
| holds_cell c pid : nv_cells s !! c = Some (Some pid) → holds s (inl c) pid
| holds_task n t pid :
    nv_tasks s !! n = Some t → wt_state t = WWaiting pid → holds s (inr n) pid.

(** The sink and the instance of a task that has reported. *)
Definition reported (t : WaitTask) : option (Sink * Uuid) :=
  match wt_state t with WReported => Some (wt_sink t, wt_id t) | _ => None end.

Record native_inv (s : Native) : Prop := {
  nv_own : ∀ h1 h2 pid, holds s h1 pid → holds s h2 pid → h1 = h2;
  nv_held : ∀ h pid, holds s h pid → is_Some (nv_procs s !! pid);
  nv_child_cell : ∀ i c, nv_children s !! i = Some c → c < length (nv_cells s);
  nv_child_inj : ∀ i j c, nv_children s !! i = Some c → nv_children s !! j = Some c → i = j;
  nv_task_cell : ∀ n t, nv_tasks s !! n = Some t → wt_cell t < length (nv_cells s);
  nv_task_inj : ∀ n m t t', nv_tasks s !! n = Some t → nv_tasks s !! m = Some t' →
    wt_cell t = wt_cell t' → n = m;
  nv_spawned : ∀ n t i, nv_tasks s !! n = Some t → wt_state t = WSpawned →
    nv_children s !! i = Some (wt_cell t) → ∃ pid, nv_cells s !! wt_cell t = Some (Some pid);
  nv_taken : ∀ n t, nv_tasks s !! n = Some t → wt_state t ≠ WSpawned →
    nv_cells s !! wt_cell t = Some None;
  nv_reports : (λ kn, (kn.1, en_instance_id kn.2)) <$> nv_sent s ≡ₚ omap reported (nv_tasks s)
}.

Lemma native_inv_new : native_inv NativeAdapter_new.
Proof.
  split; simpl; try done.
  - intros ??? H. inversion H; simplify_eq.
  - intros ?? H. inversion H; simplify_eq.
Qed.

Lemma omap_insert_None {A B} (f : A → option B) (l : list A) n t t' :
  l !! n = Some t → f t = None → f t' = None → omap f (<[n := t']> l) = omap f l.
Proof.
  intros Hn Ht Ht'. rewrite insert_take_drop by eauto using lookup_lt_Some.
  rewrite <- (take_drop_middle l n t Hn) at 3. rewrite !omap_app. simpl. by rewrite Ht, Ht'.
Qed.

Lemma omap_insert_Some_perm {A B} (f : A → option B) (l : list A) n t t' x :
  l !! n = Some t → f t = None → f t' = Some x → omap f (<[n := t']> l) ≡ₚ omap f l ++ [x].
Proof.
  intros Hn Ht Ht'. rewrite insert_take_drop by eauto using lookup_lt_Some.
  rewrite <- (take_drop_middle l n t Hn) at 3. rewrite !omap_app. simpl. rewrite Ht, Ht'.
  simpl. solve_Permutation.
Qed.

Section native_proofs.
Context {OS : HostOs}.

Lemma add_child_holds spec exec args env pid s h q :
  holds (add_child spec exec args env pid s) h q →
  (h = inl (length (nv_cells s)) ∧ q = pid) ∨ holds s h q.
Proof.
  intros H. inversion H as [c q' Hc|n t q' Ht Hw]; subst; simpl in *.
  - apply lookup_app_Some in Hc as [Hc|[Hle Hc]]; [right; by constructor|left].
    apply list_lookup_singleton_Some in Hc as [Hc [= ->]]. split; [f_equal; lia|done].
  - right. apply lookup_app_Some in Ht as [Ht|[Hle Ht]]; [by econstructor|].
    destruct (ls_exit_sink spec); [|done].
    apply list_lookup_singleton_Some in Ht as [_ <-]. done.
Qed.

Lemma add_child_task spec exec args env pid s n t :
  nv_tasks (add_child spec exec args env pid s) !! n = Some t →
  nv_tasks s !! n = Some t ∨
  (n = length (nv_tasks s) ∧ wt_cell t = length (nv_cells s) ∧ wt_state t = WSpawned).
Proof.
  simpl. intros [Ht|[Hle Ht]]%lookup_app_Some; [by left|].
  destruct (ls_exit_sink spec); [|done].
  apply list_lookup_singleton_Some in Ht as [? <-]. right. split; [lia|done].
Qed.

Lemma add_child_inv spec exec args env pid s :
  native_inv s → nv_procs s !! pid = None → native_inv (add_child spec exec args env pid s).
Proof.
  intros Hs Hpid.
  assert (∀ h q, holds s h q → q ≠ pid) as Hne.
  { intros h q Hh ->. destruct (nv_held s Hs h pid Hh). congruence. }
  split.
  - intros h1 h2 q [[-> ->]|H1]%add_child_holds [[-> Hq]|H2]%add_child_holds; try done.
    + by apply Hne in H2.
    + subst. by apply Hne in H1.
    + by eapply nv_own.
  - intros h q [[-> ->]|H]%add_child_holds; simpl.
    + rewrite lookup_insert_eq. eauto.
    + rewrite lookup_insert_ne by (symmetry; by eapply Hne). by eapply nv_held.
  - simpl. intros i c. rewrite length_app. simpl.
    intros [[<- <-]|[_ Hc]]%lookup_insert_Some; [lia|]. apply nv_child_cell in Hc; [lia|done].
  - simpl. pose proof (nv_child_cell s Hs) as Hlt.
    intros i j c [[<- <-]|[Hi Hc]]%lookup_insert_Some [[<- Hc']|[Hj Hc']]%lookup_insert_Some;
      [done|..|by eapply nv_child_inj].
    + apply Hlt in Hc'. lia.
    + subst. apply Hlt in Hc. lia.
  - intros n t [Ht|(-> & Hc & _)]%add_child_task; simpl; rewrite length_app; simpl;
      [apply nv_task_cell in Ht; [lia|done]|lia].
  - intros n m t t' [Ht|(-> & Hc & _)]%add_child_task [Ht'|(-> & Hc' & _)]%add_child_task E;
      [by eapply nv_task_inj| | |done].
    + apply nv_task_cell in Ht; [lia|done].
    + apply nv_task_cell in Ht'; [lia|done].
  - intros n t i Ht Hw Hi. simpl in Hi |- *.
    apply add_child_task in Ht as [Ht|(-> & Hc & _)].
    + pose proof (nv_task_cell s Hs n t Ht). rewrite lookup_app_l by done.
      apply lookup_insert_Some in Hi as [[_ Hi]|[_ Hi]]; [lia|]. by eapply nv_spawned.
    + rewrite Hc, lookup_app_r, Nat.sub_diag by lia. eauto.
  - intros n t Ht Hw. simpl. apply add_child_task in Ht as [Ht|(-> & Hc & ?)]; [|done].
    rewrite lookup_app_l by by eapply nv_task_cell. by eapply nv_taken.
  - simpl. rewrite (nv_reports s Hs), omap_app.
    destruct (ls_exit_sink spec); simpl; by rewrite app_nil_r.
Qed.

Lemma set_task_lookup n t w s m t' :
  nv_tasks (set_task n t w s) !! m = Some t' →
  (m = n ∧ wt_cell t' = wt_cell t ∧ wt_state t' = w) ∨ (m ≠ n ∧ nv_tasks s !! m = Some t').
Proof.
  simpl. intros [[-> [<- _]]|[Hne Hm]]%list_lookup_insert_Some; [by left|]. right. split; congruence.
Qed.

Lemma set_task_holds n t w s h q :
  holds (set_task n t w s) h q → (h = inr n ∧ w = WWaiting q) ∨ (h ≠ inr n ∧ holds s h q).
Proof.
  intros H. inversion H as [c q' Hc|m t' q' Ht Hw]; subst.
  - right. split; [done|by constructor].
  - apply set_task_lookup in Ht as [(-> & _ & E)|[Hne Ht]].
    + left. split; congruence.
    + right. split; [congruence|by econstructor].
Qed.

Lemma set_cell_holds c s h q :
  holds (set_cell c None s) h q → h ≠ inl c ∧ holds s h q.
Proof.
  intros H. inversion H as [c' q' Hc|m t' q' Ht Hw]; subst; simpl in *.
  - apply list_lookup_insert_Some in Hc as [(-> & Hc & _)|[Hne Hc]]; [done|].
    split; [congruence|by constructor].
  - split; [done|by econstructor].
Qed.

Lemma drop_child_inv id s : native_inv s → native_inv (drop_child id s).
Proof.
  intros []. split; simpl; try done.
  - intros h1 h2 q H1 H2. apply (nv_own0 h1 h2 q); [destruct H1|destruct H2]; by econstructor.
  - intros h q H. apply (nv_held0 h). destruct H; by econstructor.
  - intros i c [_ H]%lookup_delete_Some. eauto.
  - intros i j c [_ H]%lookup_delete_Some [_ H']%lookup_delete_Some. eauto.
  - intros n t i Ht Hw [_ H]%lookup_delete_Some. eauto.
Qed.

Lemma set_procs_inv m s :
  native_inv s → (∀ h q, holds s h q → is_Some (m !! q)) → native_inv (set_procs m s).
Proof.
  intros [] Hm. split; simpl; try done.
  - intros h1 h2 q H1 H2. apply (nv_own0 h1 h2 q); [destruct H1|destruct H2]; by econstructor.
  - intros h q H. apply (Hm h). destruct H; by econstructor.
Qed.

Lemma clear_cell_inv c s :
  native_inv s → (∀ i, nv_children s !! i ≠ Some c) → native_inv (set_cell c None s).
Proof.
  intros [] Hc. split; simpl; try done.
  - intros h1 h2 q [_ H1]%set_cell_holds [_ H2]%set_cell_holds. eauto.
  - intros h q [_ H]%set_cell_holds. eauto.
  - intros i k. rewrite length_insert. eauto.
  - intros n t. rewrite length_insert. eauto.
  - intros n t i Ht Hw Hi. destruct (decide (wt_cell t = c)) as [<-|Hne]; [by apply Hc in Hi|].
    rewrite list_lookup_insert_ne by done. eauto.
  - intros n t Ht Hw. destruct (decide (wt_cell t = c)) as [<-|Hne].
    + apply list_lookup_insert_eq. eauto.
    + rewrite list_lookup_insert_ne by done. eauto.
Qed.

(** A task moves on without sending: it takes the child, or finds none. *)
Lemma move_task_inv n t w s :
  native_inv s → nv_tasks s !! n = Some t → reported t = None → w ≠ WSpawned → w ≠ WReported →
  nv_cells s !! wt_cell t = Some None →
  (∀ q, w = WWaiting q → (∀ h, ¬ holds s h q) ∧ is_Some (nv_procs s !! q)) →
  native_inv (set_task n t w s).
Proof.
  intros [] Hn Hr Hsp Hrep Hcell Hq. split.
  - intros h1 h2 q [[-> E1]|[H1 H1']]%set_task_holds [[-> E2]|[H2 H2']]%set_task_holds;
      [done|..|by eapply nv_own0].
    + by apply (Hq q E1) in H2'.
    + by apply (Hq q E2) in H1'.
  - intros h q [[-> E]|[_ H]]%set_task_holds; [by apply Hq|by eapply nv_held0].
  - done.
  - done.
  - intros m t' [(-> & -> & _)|[_ Ht']]%set_task_lookup; eauto.
  - intros m1 m2 t1 t2 [(-> & Hc1 & _)|[Hm1 H1]]%set_task_lookup
      [(-> & Hc2 & _)|[Hm2 H2]]%set_task_lookup E; eauto; rewrite ?Hc1, ?Hc2 in E; eauto.
  - intros m t' i [(-> & _ & Hw)|[Hm Ht']]%set_task_lookup; [congruence|]. eauto.
  - intros m t' [(-> & Hc & _)|[_ Ht']]%set_task_lookup Hw; [by rewrite Hc|]. eauto.
  - simpl. rewrite nv_reports0. rewrite (omap_insert_None _ _ _ t); [done..|]. unfold reported. by destruct w.
Qed.

(** A task reports: its notice joins the ones sent. *)
Lemma report_inv n t pid notice s :
  native_inv s → nv_tasks s !! n = Some t → wt_state t = WWaiting pid →
  en_instance_id notice = wt_id t →
  native_inv (send_exit (wt_sink t) notice (set_task n t WReported s)).
Proof.
  intros [] Hn Hw Hid.
  assert (∀ h q, holds (send_exit (wt_sink t) notice (set_task n t WReported s)) h q →
    h ≠ inr n ∧ holds s h q) as Hh.
  { intros h q H. assert (holds (set_task n t WReported s) h q) as H'
      by (destruct H; by econstructor).
    apply set_task_holds in H' as [[_ ?]|?]; done. }
  split; simpl.
  - intros h1 h2 q [_ H1]%Hh [_ H2]%Hh. eauto.
  - intros h q [_ H]%Hh. eauto.
  - done.
  - done.
  - intros m t' [(-> & -> & _)|[_ Ht']]%(set_task_lookup n t WReported); eauto.
  - intros m1 m2 t1 t2 [(-> & Hc1 & _)|[Hm1 H1]]%(set_task_lookup n t WReported)
      [(-> & Hc2 & _)|[Hm2 H2]]%(set_task_lookup n t WReported) E; eauto;
      rewrite ?Hc1, ?Hc2 in E; eauto.
  - intros m t' i [(-> & _ & ?)|[Hm Ht']]%(set_task_lookup n t WReported); [congruence|]. eauto.
  - intros m t' [(-> & Hc & _)|[_ Ht']]%(set_task_lookup n t WReported) Hw'; [|by eauto].
    rewrite Hc. apply (nv_taken0 n t Hn). congruence.
  - rewrite fmap_app, nv_reports0. simpl. symmetry. rewrite Hid.
    apply (omap_insert_Some_perm reported _ _ t); [done| |done].
    unfold reported. by rewrite Hw.
Qed.

Lemma wait_start_inv n : always native_inv (wait_start n).
Proof.
  apply always_modify. intros s Hs.
  destruct (nv_tasks s !! n) as [t|] eqn:Hn; [|done].
  destruct (wt_state t) eqn:Hw; try done.
  assert (reported t = None) as Hr by (unfold reported; by rewrite Hw).
  unfold child_in. destruct (nv_cells s !! wt_cell t) as [[pid|]|] eqn:Hc;
    [|by apply move_task_inv|by apply lookup_ge_None_1 in Hc; pose proof (nv_task_cell s Hs n t Hn); lia].
  assert (holds s (inl (wt_cell t)) pid) as Hh by by constructor.
  assert (∀ h q, holds (set_task n t (WWaiting pid) (set_cell (wt_cell t) None s)) h q →
    (h = inr n ∧ q = pid) ∨ (h ≠ inr n ∧ h ≠ inl (wt_cell t) ∧ holds s h q)) as Hsplit.
  { intros h q [[-> [= <-]]|[? [? H]%set_cell_holds]]%set_task_holds; [by left|by right]. }
  split.
  - intros h1 h2 q [[-> ->]|(? & N1 & H1)]%Hsplit [[-> E]|(? & N2 & H2)]%Hsplit;
      [done| | |by eapply nv_own].
    + destruct N2. by eapply (nv_own s Hs _ _ pid).
    + subst q. destruct N1. by eapply (nv_own s Hs _ _ pid).
  - intros h q [[-> ->]|(_ & _ & H)]%Hsplit; by eapply (nv_held s Hs).
  - intros i c Hi. simpl in *. rewrite length_insert. by eapply nv_child_cell.
  - intros i j c Hi Hj. simpl in *. by eapply (nv_child_inj s Hs i j c).
  - simpl. rewrite length_insert. intros m t' [(-> & -> & _)|[_ Ht']]%(set_task_lookup n t (WWaiting pid));
      by eapply nv_task_cell.
  - intros m1 m2 t1 t2 [(-> & Hc1 & _)|[Hm1 H1]]%set_task_lookup
      [(-> & Hc2 & _)|[Hm2 H2]]%set_task_lookup E; simpl in *; try done; rewrite ?Hc1, ?Hc2 in E;
      by eapply nv_task_inj.
  - intros m t' i [(-> & _ & ?)|[Hm Ht']]%set_task_lookup Hsp Hi; [congruence|]. simpl in *.
    rewrite list_lookup_insert_ne; [by eapply nv_spawned|].
    intros E. apply Hm. by eapply nv_task_inj.
  - intros m t' [(-> & E & _)|[Hm Ht']]%set_task_lookup Hw'; simpl in *.
    + rewrite E. apply list_lookup_insert_eq. by eapply lookup_lt_Some.
    + pose proof (nv_taken s Hs m t' Ht' Hw') as Hnone. rewrite list_lookup_insert_ne; [done|].
      intros E. rewrite E in Hc. congruence.
  - simpl. rewrite (nv_reports s Hs). by rewrite (omap_insert_None _ _ _ t).
Qed.

Lemma wait_done_inv n : always native_inv (wait_done n).
Proof.
  intros o s u Hs. unfold wait_done, mbind, M_bind, get, io, put. simpl.
  destruct (nv_tasks s !! n) as [t|] eqn:Hn; [|done].
  destruct (wt_state t) as [|pid| |] eqn:Hw; try done. simpl.
  assert (∀ r, native_inv (send_exit (wt_sink t) (wait_notice (wt_id t) r)
    (drop_child (wt_id t) (set_task n t WReported s)))) as Hrep.
  { intros r. apply (drop_child_inv (wt_id t)
      (send_exit (wt_sink t) (wait_notice (wt_id t) r) (set_task n t WReported s))).
    eapply report_inv; try done. by destruct r. }
  destruct (or_fault o (us_io u)) as [e|]; [exact (Hrep (Err e))|].
  destruct (status_of s pid) as [status|]; [simpl|exact Hs].
  pose proof (Hrep (Ok status)) as H. apply (set_procs_inv (delete pid (nv_procs s))) in H; [done|].
  intros h q Hh.
  assert (h ≠ inr n ∧ holds s h q) as [Hne Hh'].
  { assert (holds (set_task n t WReported s) h q) as H' by (destruct Hh; by econstructor).
    apply set_task_holds in H' as [[_ ?]|?]; done. }
  rewrite lookup_delete_ne; [by eapply (nv_held s Hs h)|]. intros ->. apply Hne.
  eapply (nv_own s Hs _ _ q); [done|]. by econstructor.
Qed.

Lemma native_stop_inv id : always native_inv (native_stop id).
Proof.
  intros o s u Hs. unfold native_stop, mbind, M_bind, get, io, put, modify. simpl.
  destruct (nv_children s !! id) as [c|] eqn:Hc; [|done].
  pose proof (drop_child_inv id s Hs) as Hd.
  unfold child_in. destruct (nv_cells s !! c) as [[pid|]|] eqn:Hcell; [|done..].
  assert (native_inv (set_cell c None (drop_child id s))) as Hcl.
  { apply clear_cell_inv; [done|]. simpl. intros i [Hne Hi]%lookup_delete_Some.
    destruct Hne. by apply (nv_child_inj s Hs id i c). }
  simpl. destruct (or_fault o (us_io u)) as [e|]; [done|]. simpl.
  apply set_procs_inv; [done|]. intros h q Hh.
  apply set_cell_holds in Hh as [Hne Hh].
  assert (holds s h q) as Hh' by (destruct Hh; by econstructor). simpl.
  rewrite lookup_delete_ne; [by eapply (nv_held s Hs h)|]. intros ->. apply Hne.
  eapply (nv_own s Hs _ _ q); [done|]. by constructor.
Qed.

Lemma native_launch_inv spec : always native_inv (native_launch spec).
Proof.
  intros o s u Hs. unfold native_launch. destruct (ls_runtime spec); try done.
  unfold mbind, M_bind, io, get, put. simpl. destruct (or_fault o (us_io u)); [done|]. simpl.
  apply add_child_inv; [done|apply fork_pid_fresh].
Qed.

Lemma process_ends_inv pid status s : native_inv s → native_inv (process_ends pid status s).
Proof.
  intros Hs. unfold process_ends. repeat case_match; try done.
  apply set_procs_inv; [done|]. intros h q Hh%(nv_held s Hs).
  destruct (decide (pid = q)) as [->|]; [rewrite lookup_insert_eq; eauto|by rewrite lookup_insert_ne].
Qed.

Lemma native_event_inv e : always native_inv (native_event e).
Proof.
  destruct e; simpl; auto using always_bind, always_ret, native_launch_inv, native_stop_inv,
    wait_start_inv, wait_done_inv, always_modify, process_ends_inv.
Qed.

Lemma native_run_inv es : always native_inv (native_run es).
Proof. apply always_for_each. intros e _. apply native_event_inv. Qed.

Lemma wait_done_run n t pid status o s u :
  nv_tasks s !! n = Some t → wt_state t = WWaiting pid → status_of s pid = Some status →
  or_fault o (us_io u) = None →
  (wait_done n o (s, u)).2.1 =
    send_exit (wt_sink t) (wait_notice (wt_id t) (Ok status))
      (drop_child (wt_id t) (set_task n t WReported (set_procs (delete pid (nv_procs s)) s))).
Proof.
  intros Hn Hw Hst Hf. unfold wait_done, mbind, M_bind, get, io, put. simpl.
  by rewrite Hn, Hw, Hf, Hst.
Qed.

(** C40: on every run of the native adapter, with any launches, stops, process
    exits, task schedules and failing calls: the exit notices sent are exactly
    one per wait task that has reported, under its instance and to its sink; and
    a wait task whose process has ended and whose child [stop] has not taken
    reports that process's exit code once it is scheduled, reaps the process and
    drops the instance from the adapter. *)
Theorem native_exits_reported_once es o u :
  let s := (native_run es o (NativeAdapter_new, u)).2.1 in
  (λ kn, (kn.1, en_instance_id kn.2)) <$> nv_sent s ≡ₚ omap reported (nv_tasks s) ∧
  ∀ n t pid status o' u',
    nv_tasks s !! n = Some t →
    (wt_state t = WWaiting pid ∨
     (wt_state t = WSpawned ∧ nv_cells s !! wt_cell t = Some (Some pid))) →
    status_of s pid = Some status → fault_free o' →
    let s' := (native_run [NWaitStart n; NWaitDone n] o' (s, u')).2.1 in
    (∃ notice, nv_sent s' = nv_sent s ++ [(wt_sink t, notice)] ∧
       en_instance_id notice = wt_id t ∧ en_exit_code notice = es_code status) ∧
    nv_procs s' = delete pid (nv_procs s) ∧
    nv_children s' = delete (wt_id t) (nv_children s).
Proof.
  intros s. assert (native_inv s) as Hs by (apply native_run_inv, native_inv_new).
  split; [by apply nv_reports|].
  intros n t pid status o' u' Hn Hcase Hst Hf s'.
  assert (∃ s1, wait_start n o' (s, u') = (tt, (s1, u')) ∧
    ∃ t1, nv_tasks s1 !! n = Some t1 ∧ wt_state t1 = WWaiting pid ∧ wt_id t1 = wt_id t ∧
    wt_sink t1 = wt_sink t ∧ nv_procs s1 = nv_procs s ∧ nv_children s1 = nv_children s ∧
    nv_sent s1 = nv_sent s) as (s1 & Hr1 & t1 & Hn1 & Hw1 & Hid & Hsink & Hp & Hc & Hsent).
  { unfold wait_start, modify. rewrite Hn. destruct Hcase as [Hw|[Hw Hcell]]; rewrite Hw.
    - by exists s; eauto 10.
    - unfold child_in. rewrite Hcell. eexists. split; [done|].
      eexists. simpl. rewrite list_lookup_insert_eq by by eapply lookup_lt_Some. done. }
  assert (s' = (wait_done n o' (s1, u')).2.1) as ->.
  { unfold s', native_run, for_each, native_event. unfold mbind, M_bind at 1. rewrite Hr1.
    unfold M_bind. by destruct (wait_done n o' (s1, u')) as [[] [??]]. }
  rewrite (wait_done_run n t1 pid status);
    [|done|done|unfold status_of in *; by rewrite Hp|apply Hf].
  simpl. rewrite Hp, Hc, Hsent, Hid, Hsink. split_and!; [|done..].
  eexists. split_and!; done.
Qed.

(** Stopping a native workload: the adapter always forgets the instance, but
    it kills the process only while the wait task of that instance has not been
    scheduled yet.  From then on (for every instance launched by the agent, which
    always asks for exit notices) [stop] answers [Ok] and leaves every process of
    the host running. *)
Theorem native_stop_spares_waited es o u n t o' u' :
  let s := (native_run es o (NativeAdapter_new, u)).2.1 in
  nv_tasks s !! n = Some t → nv_children s !! wt_id t = Some (wt_cell t) →
  let '(r, (s', _)) := native_stop (wt_id t) o' (s, u') in
  nv_children s' = delete (wt_id t) (nv_children s) ∧
  match wt_state t with
  | WSpawned => ∃ pid, nv_cells s !! wt_cell t = Some (Some pid) ∧
      match or_fault o' (us_io u') with
      | None => r = Ok tt ∧ nv_procs s' = delete pid (nv_procs s)
      | Some e => r = Err (Stop e) ∧ nv_procs s' = nv_procs s
      end
  | _ => r = Ok tt ∧ nv_procs s' = nv_procs s ∧ nv_tasks s' = nv_tasks s
  end.
Proof.
  intros s Hn Hc. assert (native_inv s) as Hs by (apply native_run_inv, native_inv_new).
  unfold native_stop, mbind, M_bind, get, io, put, modify. rewrite Hc.
  unfold child_in. destruct (wt_state t) as [|pid| |] eqn:Hw;
    [|by rewrite (nv_taken s Hs n t Hn) by congruence..].
  destruct (nv_spawned s Hs n t _ Hn Hw Hc) as [pid Hcell]. rewrite Hcell.
  destruct (or_fault o' (us_io u')); simpl; eauto.
Qed.

(** The process [pid] runs and no cell of the adapter holds it. *)
Definition at_large (pid : Pid) (p : Process) (s : Native) : Prop :=
  nv_procs s !! pid = Some p ∧ pr_status p = None ∧ ∀ c, nv_cells s !! c ≠ Some (Some pid).

Lemma at_large_event pid p e :
  (∀ status, e ≠ NEnds pid status) → always (at_large pid p) (native_event e).
Proof.
  intros He o s u (Hp & Hst & Hc). destruct e as [spec|i|n|n|q status]; simpl.
  - unfold native_launch, mbind, M_bind, io, get, put. destruct (ls_runtime spec); try done.
    destruct (or_fault o (us_io u)); [done|].
    assert (fork_pid (nv_procs s) ≠ pid) as Hne.
    { intros E. pose proof (fork_pid_fresh (nv_procs s)). congruence. }
    split_and!; simpl; [by rewrite lookup_insert_ne|done|].
    intros c [H|[_ [_ [= H]]%list_lookup_singleton_Some]]%lookup_app_Some; [by eapply Hc|done].
  - unfold native_stop, mbind, M_bind, get, io, put, modify.
    destruct (nv_children s !! i) as [c|]; [|done]. unfold child_in.
    destruct (nv_cells s !! c) as [[q|]|] eqn:Hcell; [|done..].
    assert (∀ c', <[c := None]> (nv_cells s) !! c' ≠ Some (Some pid)).
    { intros c' [(_ & ? & _)|[_ H]]%list_lookup_insert_Some; [done|by eapply Hc]. }
    destruct (or_fault o (us_io u)); [done|]. split_and!; simpl; [|done..].
    rewrite lookup_delete_ne; [done|]. intros ->. by eapply Hc.
  - unfold wait_start, modify. destruct (nv_tasks s !! n) as [t|]; [|done].
    destruct (wt_state t); try done. destruct (child_in s (wt_cell t)); [|done].
    split_and!; simpl; [done..|].
    intros c' [(_ & ? & _)|[_ H]]%list_lookup_insert_Some; [done|by eapply Hc].
  - unfold wait_done, mbind, M_bind, get, io, put. destruct (nv_tasks s !! n) as [t|]; [|done].
    destruct (wt_state t) as [|q| |]; try done. destruct (or_fault o (us_io u)); [done|].
    destruct (status_of s q) as [status|] eqn:Hq; [|done]. split_and!; simpl; [|done..].
    rewrite lookup_delete_ne; [done|]. intros ->. unfold status_of in Hq. rewrite Hp in Hq. congruence.
  - unfold process_ends, modify. assert (q ≠ pid) by (intros ->; by eapply He).
    destruct (nv_procs s !! q) as [p'|]; [|done]. destruct (pr_status p'); [done|].
    split_and!; simpl; [|done..]. by rewrite lookup_insert_ne.
Qed.

(** A native process whose wait task has been scheduled is out of the
    adapter's hands: on every continuation of the run, with any stops of any
    instances, it keeps running until it ends by itself. *)
Theorem native_waited_process_outlives_stops es es' o u n t pid p :
  let s := (native_run es o (NativeAdapter_new, u)).2.1 in
  nv_tasks s !! n = Some t → wt_state t = WWaiting pid →
  nv_procs s !! pid = Some p → pr_status p = None →
  (∀ status, NEnds pid status ∉ es') →
  ∀ o' u', nv_procs (native_run es' o' (s, u')).2.1 !! pid = Some p.
Proof.
  intros s Hn Hw Hp Hst Hes o' u'.
  assert (native_inv s) as Hs by (apply native_run_inv, native_inv_new).
  assert (at_large pid p s) as Hl.
  { split_and!; [done..|]. intros c Hc.
    assert (inl c = inr n) as E; [|done].
    eapply (nv_own s Hs _ _ pid); [by constructor|by econstructor]. }
  apply (always_for_each (at_large pid p) es' native_event); [|done].
  intros e He. apply at_large_event. by intros status ->; eapply Hes.
Qed.

End native_proofs.

(** A workload that was launched, waited for, and ended with code 3. *)
Definition demo_spec (id : Uuid) : LaunchSpec :=
  {| ls_instance_id := id; ls_name := "web"; ls_runtime := RNative "/bin/web" ["-v"] ∅;
     ls_log_sink := Some 0; ls_exit_sink := Some 1 |}.

Definition demo_exit : ExitStatus := {| es_code := Some 3%Z; es_debug := "exit status: 3" |}.

Definition demo_task (w : WaitState) : WaitTask :=
  {| wt_id := 7%N; wt_cell := 0; wt_sink := 1; wt_state := w |}.

Lemma native_exits_reported_once_witness :
  ∃ notice,
    nv_sent (native_run (H := demo_os) [NWaitStart 0; NWaitDone 0] quiet_oracle
      ((native_run (H := demo_os) [NLaunch (demo_spec 7%N); NEnds 1%N demo_exit] quiet_oracle
         (NativeAdapter_new, Used_init)).2.1, Used_init)).2.1 = [(1, notice)] ∧
    en_exit_code notice = Some 3%Z.
Proof.
  destruct (native_exits_reported_once (OS := demo_os)
    [NLaunch (demo_spec 7%N); NEnds 1%N demo_exit] quiet_oracle Used_init) as [_ H].
  destruct (H 0 (demo_task WSpawned) 1%N demo_exit quiet_oracle Used_init) as [(x & Hx & _ & Hc) _].
  - reflexivity.
  - right. split; reflexivity.
  - vm_compute. reflexivity.
  - exact quiet_fault_free.
  - exists x. split; [exact Hx|exact Hc].
Defined.

Lemma native_stop_spares_waited_witness :
  let s := (native_run (H := demo_os) [NLaunch (demo_spec 7%N); NWaitStart 0] quiet_oracle
    (NativeAdapter_new, Used_init)).2.1 in
  let '(r, (s', _)) := native_stop 7%N quiet_oracle (s, Used_init) in
  r = Ok tt ∧ nv_procs s' = nv_procs s ∧ nv_procs s' ≠ ∅.
Proof.
  pose proof (native_stop_spares_waited (OS := demo_os) [NLaunch (demo_spec 7%N); NWaitStart 0]
    quiet_oracle Used_init 0 (demo_task (WWaiting 1%N)) quiet_oracle Used_init) as H.
  specialize (H ltac:(vm_compute; reflexivity) ltac:(vm_compute; reflexivity)).
  vm_compute in H |- *. destruct H as [_ (? & ? & _)]. split_and!; [done..|].
  intros E. discriminate E.
Defined.

Lemma native_waited_process_outlives_stops_witness :
  let s := (native_run (H := demo_os) [NLaunch (demo_spec 7%N); NWaitStart 0] quiet_oracle
    (NativeAdapter_new, Used_init)).2.1 in
  nv_procs (native_run (H := demo_os) [NStop 7%N; NStop 7%N] quiet_oracle (s, Used_init)).2.1
    !! 1%N ≠ None.
Proof.
  intros s.
  rewrite (native_waited_process_outlives_stops (OS := demo_os)
    [NLaunch (demo_spec 7%N); NWaitStart 0] [NStop 7%N; NStop 7%N] quiet_oracle Used_init
    0 (demo_task (WWaiting 1%N)) 1%N
    {| pr_exec := "/bin/web"; pr_args := ["-v"]; pr_env := ∅; pr_piped := true;
       pr_status := None |}); [done|vm_compute; reflexivity..|].
  intros status H. repeat apply elem_of_cons in H as [?|H]; try done. by apply elem_of_nil in H.
Defined.

#[export] Instance native_laws {OS : HostOs} :
  AdapterLaws native_adapter (λ s, dom (nv_children s))
    (λ r, match r with RNative _ _ _ => true | _ => false end).
Proof.
  split.
  - intros spec o s u. unfold native_adapter, ra_launch, native_launch.
    destruct (ls_runtime spec); simpl; try done.
    unfold mbind, M_bind, io, get, put. destruct (or_fault o (us_io u)); simpl; [done|].
    split_and!; [done..|]. by rewrite dom_insert_L.
  - intros spec o s u x y. simpl. unfold native_launch. destruct (ls_runtime spec); try done.
    unfold mbind, M_bind, io, get, put. by destruct (or_fault o (us_io u)).
  - intros i o s u. simpl. unfold native_stop, mbind, M_bind, get, io, put, modify.
    destruct (nv_children s !! i) as [c|] eqn:Hc; simpl.
    + destruct (child_in s c); [destruct (or_fault o (us_io u))|]; simpl; by rewrite dom_delete_L.
    + apply not_elem_of_dom in Hc. set_solver.
  - intros i o s u Hi%not_elem_of_dom. simpl. unfold native_stop, mbind, M_bind, get.
    by rewrite Hi.
Qed.
