(* ===== verification/Docker.v ===== *)
(** * The docker and wasm adapters (crates/orion-runtime: docker.rs, wasm.rs)

    The docker adapter drives the [docker] command; the command and the daemon
    behind it are a parameter, a function of the arguments on some world.  The
    wasm adapter drives wasmtime, which is a parameter too. *)

From Stdlib Require Import ZArith Lia Bool Ascii.
From stdpp Require Import base list gmap strings pretty.
From S2P Require Import Prelude Text Types Parse Effect Runtime.

(** [Uuid]'s [Display]. *)
Class UuidText : Type := { uuid_to_string : Uuid → string }.

(** ** Docker *)

(** [std::process::Output]. *)
Record Output : Type := {
  out_success : bool;
  out_stdout : string;
  out_stderr : string
}.

(** Running [docker args…] to completion: [Err] when it could not be spawned. *)
Class DockerCli : Type := {
  DockerWorld : Type;
  docker : list string → DockerWorld → result Output Fault * DockerWorld
}.

(** A wait task ([docker wait]) and a logs follower ([docker logs -f]). *)
Record DockerWait : Type := {
  dw_instance_id : Uuid;
  dw_container : string;
  dw_sink : Sink;
  dw_done : bool
}.

Record DockerFollower : Type := {
  df_instance_id : Uuid;
  df_container : string;
  df_sink : Sink
}.

Record Docker `{DockerCli} : Type := {
  dc_containers : gmap Uuid string;
  dc_waits : list DockerWait;
  dc_followers : list DockerFollower;
  dc_readers : list Reader;
  dc_world : DockerWorld;
  dc_sent : list (Sink * ExitNotice)
}.

Definition docker_kind_str (r : Runtime) : string :=
  match r with
  | RNative _ _ _ => "native"
  | RDocker _ _ _ _ => "docker"
  | RPython _ _ _ => "python"
  | RJava _ _ => "java"
  | RNode _ _ => "node"
  | RSpark _ _ => "spark"
  | RLlm _ _ => "llm"
  | RHomeAssistant _ => "homeassistant"
  | RWasm _ => "wasm"
  | RPeer _ _ => "peer"
  end.

(** The order of a [BTreeMap]. *)
Definition btree_iter {A} (m : gmap string A) : list (string * A) :=
  sort_by (cmp_on fst String.compare) (map_to_list m).

(** The command line of a container. *)
Definition docker_run_args (container_name image : string) (args : list string)
    (env : gmap string string) (ports : list Z) : list string :=
  ["run"; "-d"; "--rm"; "--name"; container_name] ++
  (ports ≫= λ p, ["-p"; pretty p +:+ ":" +:+ pretty p]) ++
  (btree_iter env ≫= λ kv, ["-e"; kv.1 +:+ "=" +:+ kv.2]) ++
  [image] ++ args.

(** [format!("{code:?}")] of an [Option<i32>]. *)
Definition debug_option_i32 (c : option Z) : string :=
  match c with Some z => "Some(" +:+ pretty z +:+ ")" | None => "None" end.

Section docker.
Context {UT : UuidText} {DC : DockerCli}.

Definition DockerAdapter_new (w : DockerWorld) : Docker :=
  {| dc_containers := ∅; dc_waits := []; dc_followers := []; dc_readers := [];
     dc_world := w; dc_sent := [] |}.

Definition short_id (id : Uuid) : string := take_chars 8 (uuid_to_string id).

(** [Command::new("docker").args(args)…output().await]. *)
Definition run_docker (args : list string) : M Docker (result Output Fault) := λ o '(s, u),
  let '(r, w) := docker args (dc_world s) in
  (r, ({| dc_containers := dc_containers s; dc_waits := dc_waits s;
          dc_followers := dc_followers s; dc_readers := dc_readers s; dc_world := w;
          dc_sent := dc_sent s |}, u)).

Definition docker_available : M Docker bool :=
  r ← run_docker ["version"];
  mret (match r with Ok out => out_success out | Err _ => false end).

(** The entry and the tasks of a container that was started. *)
Definition add_container (spec : LaunchSpec) (container_id : string) (s : Docker) : Docker :=
  let id := ls_instance_id spec in
  {| dc_containers := <[id := container_id]> (dc_containers s);
     dc_waits := dc_waits s ++ match ls_exit_sink spec with
       | Some k => [{| dw_instance_id := id; dw_container := container_id; dw_sink := k;
                       dw_done := false |}]
       | None => []
       end;
     dc_followers := dc_followers s ++ match ls_log_sink spec with
       | Some k => [{| df_instance_id := id; df_container := container_id; df_sink := k |}]
       | None => []
       end;
     dc_readers := dc_readers s; dc_world := dc_world s; dc_sent := dc_sent s |}.

Definition docker_launch (spec : LaunchSpec)
    : M Docker (result LaunchedInstance RuntimeError) :=
  match ls_runtime spec with
  | RDocker image args env ports =>
      let container_name := "orion-" +:+ short_id (ls_instance_id spec) in
      output ← run_docker (docker_run_args container_name image args env ports);
      match output with
      | Err e => mret (Err (Launch ("docker run: " +:+ e)))
      | Ok out =>
          if negb (out_success out) then
            mret (Err (Launch ("docker run failed: " +:+ trim (from_utf8_lossy (out_stderr out)))))
          else
            let container_id := trim (from_utf8_lossy (out_stdout out)) in
            _ ← modify (add_container spec container_id);
            mret (Ok {| li_instance_id := ls_instance_id spec;
                        li_native_handle := container_id |})
      end
  | other => mret (Err (Mismatch "docker" (docker_kind_str other)))
  end.

(** The notice of a finished [docker wait]. *)
Definition docker_notice (instance_id : Uuid) (output : result Output Fault) : ExitNotice :=
  match output with
  | Ok out =>
      if out_success out then
        let code := parse_i32 (trim (from_utf8_lossy (out_stdout out))) in
        {| en_instance_id := instance_id; en_exit_code := code;
           en_message := "docker exited code=" +:+ debug_option_i32 code |}
      else
        {| en_instance_id := instance_id; en_exit_code := None;
           en_message := "docker wait failed: " +:+ trim (from_utf8_lossy (out_stderr out)) |}
  | Err e =>
      {| en_instance_id := instance_id; en_exit_code := None;
         en_message := "docker wait spawn error: " +:+ e |}
  end.

(** The wait task [n] runs [docker wait], drops the entry and reports. *)
Definition docker_wait (n : nat) : M Docker unit :=
  s ← get;
  match dc_waits s !! n with
  | Some t =>
      if dw_done t then mret tt
      else
        output ← run_docker ["wait"; dw_container t];
        modify (λ s,
          {| dc_containers := delete (dw_instance_id t) (dc_containers s);
             dc_waits := <[n := {| dw_instance_id := dw_instance_id t;
               dw_container := dw_container t; dw_sink := dw_sink t; dw_done := true |}]>
               (dc_waits s);
             dc_followers := dc_followers s; dc_readers := dc_readers s;
             dc_world := dc_world s;
             dc_sent := dc_sent s ++
               [(dw_sink t, docker_notice (dw_instance_id t) output)] |})
  | None => mret tt
  end.

(** The follower [n] spawns [docker logs -f] and its two readers. *)
Definition docker_follow (n : nat) : M Docker unit :=
  s ← get;
  match dc_followers s !! n with
  | Some f =>
      flt ← io;
      match flt with
      | Some _ => mret tt
      | None => modify (λ s,
          {| dc_containers := dc_containers s; dc_waits := dc_waits s;
             dc_followers := dc_followers s;
             dc_readers := dc_readers s ++ readers_of (df_instance_id f) (Some (df_sink f));
             dc_world := dc_world s; dc_sent := dc_sent s |})
      end
  | None => mret tt
  end.

Definition docker_stop (instance_id : Uuid) : M Docker (result unit RuntimeError) :=
  s ← get;
  match dc_containers s !! instance_id with
  | None => mret (Ok tt)
  | Some container_id =>
      _ ← modify (λ s,
        {| dc_containers := delete instance_id (dc_containers s); dc_waits := dc_waits s;
           dc_followers := dc_followers s; dc_readers := dc_readers s;
           dc_world := dc_world s; dc_sent := dc_sent s |});
      status ← run_docker ["stop"; container_id];
      match status with
      | Err e => mret (Err (Stop e))
      | Ok out =>
          if negb (out_success out)
          then mret (Err (Stop ("docker stop " +:+ container_id +:+ " failed")))
          else mret (Ok tt)
      end
  end.

Definition docker_adapter : RuntimeAdapter Docker :=
  {| ra_name := "docker"; ra_available := docker_available; ra_launch := docker_launch;
     ra_stop := docker_stop |}.

#[export] Instance docker_laws :
  AdapterLaws docker_adapter (λ s, dom (dc_containers s))
    (λ r, match r with RDocker _ _ _ _ => true | _ => false end).
Proof.
  split.
  - intros spec o s u. simpl. unfold docker_launch.
    destruct (ls_runtime spec) as [| image args env ports | | | | | | | |]; simpl; try done.
    unfold mbind, M_bind, run_docker, modify. destruct (docker _ _) as [[out|e] w]; [|done].
    destruct (out_success out); simpl; [|done]. split_and!; [done..|]. by rewrite dom_insert_L.
  - intros spec o s u x y. simpl. unfold docker_launch.
    destruct (ls_runtime spec) as [| image args env ports | | | | | | | |]; try done.
    unfold mbind, M_bind, run_docker, modify. destruct (docker _ _) as [[out|e] w]; [|done].
    by destruct (out_success out).
  - intros i o s u. simpl. unfold docker_stop, mbind, M_bind, get, modify, run_docker.
    destruct (dc_containers s !! i) as [c|] eqn:Hc; simpl.
    + destruct (docker _ _) as [[out|e] w]; [destruct (out_success out)|]; simpl;
        by rewrite dom_delete_L.
    + apply not_elem_of_dom in Hc. set_solver.
  - intros i o s u Hi%not_elem_of_dom. simpl. unfold docker_stop, mbind, M_bind, get.
    by rewrite Hi.
Qed.

End docker.

(** ** The command line read back

    [docker run]'s own reading of its arguments: options up to the first word
    that is not one, which is the image, then the arguments of the container. *)

Record RunCommand : Type := {
  rc_name : option string;
  rc_ports : list string;
  rc_env : list string;
  rc_image : string;
  rc_args : list string
}.

Fixpoint read_run (name : option string) (ports env : list string) (l : list string)
    : option RunCommand :=
  match l with
  | w :: l' =>
      if bool_decide (w = "-d") || bool_decide (w = "--rm") then read_run name ports env l'
      else if bool_decide (w ∈ ["--name"; "-p"; "-e"]) then
        match l' with
        | v :: l'' =>
            if bool_decide (w = "--name") then read_run (Some v) ports env l''
            else if bool_decide (w = "-p") then read_run name (ports ++ [v]) env l''
            else read_run name ports (env ++ [v]) l''
        | [] => None
        end
      else if starts_with "-" w then None
      else Some {| rc_name := name; rc_ports := ports; rc_env := env; rc_image := w;
                   rc_args := l' |}
  | [] => None
  end.

Definition docker_reads (l : list string) : option RunCommand :=
  match l with
  | w :: l' => if bool_decide (w = "run") then read_run None [] [] l' else None
  | [] => None
  end.

Lemma read_p name ports env v l :
  read_run name ports env ("-p" :: v :: l) = read_run name (ports ++ [v]) env l.
Proof. reflexivity. Qed.
Lemma read_e name ports env v l :
  read_run name ports env ("-e" :: v :: l) = read_run name ports (env ++ [v]) l.
Proof. reflexivity. Qed.
Lemma read_start name l :
  docker_reads (["run"; "-d"; "--rm"; "--name"; name] ++ l) = read_run (Some name) [] [] l.
Proof. reflexivity. Qed.

Lemma read_ports name ports env ps l :
  read_run name ports env ((ps ≫= λ p : Z, ["-p"; pretty p +:+ ":" +:+ pretty p]) ++ l) =
  read_run name (ports ++ ((λ p, pretty p +:+ ":" +:+ pretty p) <$> ps)) env l.
Proof.
  revert ports. induction ps as [|p ps IH]; intros ports; [by rewrite app_nil_r|].
  rewrite bind_cons, fmap_cons, <- app_assoc. cbn [app]. by rewrite read_p, IH, <- app_assoc.
Qed.

Lemma read_env name ports env kvs l :
  read_run name ports env ((kvs ≫= λ kv : string * string, ["-e"; kv.1 +:+ "=" +:+ kv.2]) ++ l) =
  read_run name ports (env ++ ((λ kv, kv.1 +:+ "=" +:+ kv.2) <$> kvs)) l.
Proof.
  revert env. induction kvs as [|kv kvs IH]; intros env; [by rewrite app_nil_r|].
  rewrite bind_cons, fmap_cons, <- app_assoc. cbn [app]. by rewrite read_e, IH, <- app_assoc.
Qed.

Lemma read_image name ports env image args :
  starts_with "-" image = false →
  read_run name ports env (image :: args) =
  Some {| rc_name := name; rc_ports := ports; rc_env := env; rc_image := image;
          rc_args := args |}.
Proof.
  intros H. assert (∀ w, starts_with "-" w = true → image ≠ w) as Hne by (intros ? ? ->; congruence).
  simpl. rewrite !bool_decide_eq_false_2; [|rewrite !not_elem_of_cons; split_and!|..];
    rewrite ?H; try (by apply Hne); auto using not_elem_of_nil.
Qed.

(** The docker command line says what the workload asked for, whatever its
    arguments and environment contain: reading it the way [docker run] does gives
    back the container name, every port mapping, every variable, the image and the
    arguments, as long as the image does not look like an option. *)
Theorem docker_command_roundtrip container_name image args env ports :
  starts_with "-" image = false →
  docker_reads (docker_run_args container_name image args env ports) =
  Some {| rc_name := Some container_name;
          rc_ports := (λ p, pretty p +:+ ":" +:+ pretty p) <$> ports;
          rc_env := (λ kv, kv.1 +:+ "=" +:+ kv.2) <$> btree_iter env;
          rc_image := image; rc_args := args |}.
Proof.
  intros H. unfold docker_run_args. rewrite read_start, read_ports, read_env. by apply read_image.
Qed.

Lemma docker_command_roundtrip_witness :
  docker_reads (docker_run_args "orion-0000002a" "nginx" ["-g"; "daemon off;"]
    {["PORT" := "80"]} [80%Z]) =
  Some {| rc_name := Some "orion-0000002a"; rc_ports := ["80:80"]; rc_env := ["PORT=80"];
          rc_image := "nginx"; rc_args := ["-g"; "daemon off;"] |}.
Proof.
  rewrite (docker_command_roundtrip "orion-0000002a" "nginx" ["-g"; "daemon off;"]
    {["PORT" := "80"]} [80%Z]) by reflexivity.
  vm_compute. reflexivity.
Defined.

(** An image that is an option is read as one: the first argument becomes the
    image. *)
Example docker_image_option :
  docker_reads (docker_run_args "orion-0000002a" "--rm" ["sh"] ∅ []) =
  Some {| rc_name := Some "orion-0000002a"; rc_ports := []; rc_env := [];
          rc_image := "sh"; rc_args := [] |}.
Proof. reflexivity. Qed.

(** ** Wasm (wasm.rs, behind the [wasm] feature) *)

Definition wasm_kind_str (r : Runtime) : string :=
  match r with
  | RNative _ _ _ => "native"
  | RDocker _ _ _ _ => "docker"
  | RPython _ _ _ => "python"
  | RJava _ _ => "java"
  | RNode _ _ => "node"
  | RSpark _ _ => "spark"
  | RLlm _ _ => "llm"
  | RHomeAssistant _ => "homeassistant"
  | RWasm _ => "wasm"
  | RPeer _ _ => "peer"
  end.

(** wasmtime: loading a module, setting up the linker, and the three steps of a
    run with the instance id as its first argument; [Some e] is a failure. *)
Class WasmEngine : Type := {
  WasmModule : Type;
  module_from_file : string → result WasmModule string;
  add_to_linker : option string;
  instantiate : WasmModule → string → option string;
  get_start : WasmModule → option string;
  call_start : WasmModule → string → option string
}.

Inductive WasmState : Type := WasmRunning | WasmFinished | WasmAborted.

Record WasmTask `{WasmEngine} : Type := {
  wk_id : Uuid;
  wk_module : WasmModule;
  wk_arg0 : string;
  wk_sink : option Sink;
  wk_state : WasmState
}.

Record Wasm `{WasmEngine} : Type := {
  (** The abort handles: the task of each instance. *)
  wa_abort : gmap Uuid nat;
  wa_tasks : list WasmTask;
  wa_sent : list (Sink * ExitNotice)
}.

Section wasm.
Context {UT : UuidText} {WE : WasmEngine}.

Definition WasmAdapter_new : Wasm := {| wa_abort := ∅; wa_tasks := []; wa_sent := [] |}.

(** The part of [launch] up to [tokio::spawn]: the spawned task may run from here
    on, on another worker thread. *)
Definition wasm_spawn (spec : LaunchSpec) : M Wasm (result nat RuntimeError) :=
  match ls_runtime spec with
  | RWasm module_path =>
      match module_from_file module_path with
      | Err e => mret (Err (Launch ("module " +:+ module_path +:+ ": " +:+ e)))
      | Ok module =>
          match add_to_linker with
          | Some e => mret (Err (Launch ("linker setup: " +:+ e)))
          | None =>
              s ← get;
              _ ← put {| wa_abort := wa_abort s;
                         wa_tasks := wa_tasks s ++
                           [{| wk_id := ls_instance_id spec; wk_module := module;
                               wk_arg0 := uuid_to_string (ls_instance_id spec);
                               wk_sink := ls_exit_sink spec; wk_state := WasmRunning |}];
                         wa_sent := wa_sent s |};
              mret (Ok (length (wa_tasks s)))
          end
      end
  | other => mret (Err (Mismatch "wasm" (wasm_kind_str other)))
  end.

(** The rest of [launch]: remember the handle. *)
Definition wasm_insert (id : Uuid) (handle : nat) : M Wasm unit :=
  modify (λ s, {| wa_abort := <[id := handle]> (wa_abort s); wa_tasks := wa_tasks s;
                  wa_sent := wa_sent s |}).

Definition wasm_launch (spec : LaunchSpec) : M Wasm (result LaunchedInstance RuntimeError) :=
  let! handle := wasm_spawn spec in
  _ ← wasm_insert (ls_instance_id spec) handle;
  mret (Ok {| li_instance_id := ls_instance_id spec;
              li_native_handle := "wasm:" +:+ uuid_to_string (ls_instance_id spec) |}).

Definition wasm_result (m : WasmModule) (arg0 : string) : result unit string :=
  match instantiate m arg0 with
  | Some e => Err ("instantiate: " +:+ e)
  | None =>
      match get_start m with
      | Some e => Err ("missing _start: " +:+ e)
      | None =>
          match call_start m arg0 with
          | Some e => Err ("call _start: " +:+ e)
          | None => Ok tt
          end
      end
  end.

Definition wasm_notice (id : Uuid) (r : result unit string) : ExitNotice :=
  match r with
  | Ok _ => {| en_instance_id := id; en_exit_code := Some 0%Z;
               en_message := "wasm module returned" |}
  | Err e => {| en_instance_id := id; en_exit_code := Some 1%Z;
                en_message := "wasm error: " +:+ e |}
  end.

Definition set_wasm_task (n : nat) (t : WasmTask) (w : WasmState) (l : list WasmTask)
    : list WasmTask :=
  <[n := {| wk_id := wk_id t; wk_module := wk_module t; wk_arg0 := wk_arg0 t;
            wk_sink := wk_sink t; wk_state := w |}]> l.

(** The task [n] runs to its end. *)
Definition wasm_finish (n : nat) : M Wasm unit :=
  modify (λ s,
    match wa_tasks s !! n with
    | Some t =>
        match wk_state t with
        | WasmRunning =>
            {| wa_abort := delete (wk_id t) (wa_abort s);
               wa_tasks := set_wasm_task n t WasmFinished (wa_tasks s);
               wa_sent := wa_sent s ++ match wk_sink t with
                 | Some k => [(k, wasm_notice (wk_id t) (wasm_result (wk_module t) (wk_arg0 t)))]
                 | None => []
                 end |}
        | _ => s
        end
    | None => s
    end).

(** [handle.abort()] has an effect on a task that still runs. *)
Definition wasm_stop (instance_id : Uuid) : M Wasm (result unit RuntimeError) :=
  s ← get;
  match wa_abort s !! instance_id with
  | None => mret (Ok tt)
  | Some n =>
      _ ← put {| wa_abort := delete instance_id (wa_abort s);
                 wa_tasks := match wa_tasks s !! n with
                   | Some t => match wk_state t with
                               | WasmRunning => set_wasm_task n t WasmAborted (wa_tasks s)
                               | _ => wa_tasks s
                               end
                   | None => wa_tasks s
                   end;
                 wa_sent := wa_sent s |};
      mret (Ok tt)
  end.

Definition wasm_adapter : RuntimeAdapter Wasm :=
  {| ra_name := "wasm"; ra_available := mret true; ra_launch := wasm_launch;
     ra_stop := wasm_stop |}.

#[export] Instance wasm_laws :
  AdapterLaws wasm_adapter (λ s, dom (wa_abort s))
    (λ r, match r with RWasm _ => true | _ => false end).
Proof.
  split.
  - intros spec o s u. simpl. unfold wasm_launch, wasm_spawn, wasm_insert, mbind, M_bind.
    destruct (ls_runtime spec) as [| | | | | | | |path|]; simpl; try done.
    destruct (module_from_file path) as [m|]; [|done].
    destruct add_to_linker; simpl; [done|]. split_and!; [done..|]. by rewrite dom_insert_L.
  - intros spec o s u x y. simpl. unfold wasm_launch, wasm_spawn, wasm_insert, mbind, M_bind.
    destruct (ls_runtime spec) as [| | | | | | | |path|]; simpl; try done.
    destruct (module_from_file path) as [m|]; [|done]. by destruct add_to_linker.
  - intros i o s u. simpl. unfold wasm_stop, mbind, M_bind, get, put.
    destruct (wa_abort s !! i) as [n|] eqn:Hc; simpl; [by rewrite dom_delete_L|].
    apply not_elem_of_dom in Hc. set_solver.
  - intros i o s u Hi%not_elem_of_dom. simpl. unfold wasm_stop, mbind, M_bind, get.
    by rewrite Hi.
Qed.

(** A module that ends before [launch] has stored its handle leaves an entry for
    an instance that no longer runs. *)
Theorem wasm_fast_module_leaks spec path m o s u :
  ls_runtime spec = RWasm path → module_from_file path = Ok m → add_to_linker = None →
  let n := length (wa_tasks s) in
  let s' := ((wasm_spawn spec ≫= λ _, wasm_finish n ≫= λ _,
              wasm_insert (ls_instance_id spec) n) o (s, u)).2.1 in
  wa_abort s' !! ls_instance_id spec = Some n ∧ wk_state <$> wa_tasks s' !! n = Some WasmFinished.
Proof.
  intros Hr Hm Hl n s'. unfold s', wasm_spawn, wasm_finish, wasm_insert, mbind, M_bind.
  rewrite Hr, Hm, Hl. unfold n. simpl. rewrite lookup_app_r, Nat.sub_diag by lia. simpl.
  rewrite lookup_insert_eq. unfold set_wasm_task.
  rewrite list_lookup_insert_eq; [done|]. rewrite length_app. simpl. lia.
Qed.

End wasm.
