(* ===== verification/Scheduler.v ===== *)
(** * The placement scheduler (crates/orion-scheduler)

    The hard filter over placement constraints, the soft score, and [pick_best],
    which sorts the survivors and takes the first.  The theorems relate them to
    the declarative [satisfies] and to an optimality specification. *)

From Stdlib Require Import ZArith Lia Bool.
From stdpp Require Import base list gmap strings.
From S2P Require Import Prelude Types.

Record CandidateNode : Type := {
  cn_node_id : string;
  cn_arch : Arch;
  cn_os : OperatingSystem;
  cn_gpus : list NodeGpu;
  cn_roles : list NodeRole;
  cn_labels : gmap string string
}.

Record NodeLoad : Type := { running_instances : Z }.

Definition gpu_matches (have : list NodeGpu) (need : GpuRequirement) : bool :=
  existsb (λ g,
    if match req_vendor need with
       | Some v => bool_decide (gpu_vendor g ≠ v)
       | None => false
       end then false
    else if match req_min_vram_gb need with
            | Some min => (gpu_vram_gb g <? min)%Z
            | None => false
            end then false
    else true) have.

(** The closure of the [filter] call. *)
Definition node_passes (placement : Placement) (n : CandidateNode) : bool :=
  if negb (bool_decide (pl_arch placement = []))
     && negb (bool_decide (cn_arch n ∈ pl_arch placement)) then false
  else if negb (bool_decide (pl_os placement = []))
          && negb (bool_decide (cn_os n ∈ pl_os placement)) then false
  else if match pl_gpu placement with
          | Some req => negb (gpu_matches (cn_gpus n) req)
          | None => false
          end then false
  else map_all (λ k v, bool_decide (cn_labels n !! k = Some v)) (pl_node_labels placement).

Definition filter_nodes_by_placement (nodes : list CandidateNode) (placement : Placement)
    : list CandidateNode :=
  List.filter (node_passes placement) nodes.

Definition score_node (node : CandidateNode) (placement : Placement) (load : NodeLoad) : Z :=
  let score :=
    (100 * Z.of_nat (map_count (λ k v, bool_decide (cn_labels node !! k = Some v))
                               (pref_node_labels (pl_prefer placement))))%Z in
  (score - running_instances load)%Z.

(** One entry of the [scored] vector. *)
Definition scored_entry : Type := Z * Z * string.

Definition scored_cmp : scored_entry → scored_entry → comparison :=
  cmp_then (cmp_then (cmp_rev (cmp_on (λ e : scored_entry, e.1.1) Z.compare))
                     (cmp_on (λ e : scored_entry, e.1.2) Z.compare))
           (cmp_on (λ e : scored_entry, e.2) String.compare).

Definition score_entry (placement : Placement) (load_of : string → NodeLoad)
    (n : CandidateNode) : scored_entry :=
  let load := load_of (cn_node_id n) in
  (score_node n placement load, running_instances load, cn_node_id n).

Definition pick_best (candidates : list CandidateNode) (placement : Placement)
    (load_of : string → NodeLoad) : option string :=
  let filtered := filter_nodes_by_placement candidates placement in
  let scored := score_entry placement load_of <$> filtered in
  (λ e : scored_entry, e.2) <$> head (sort_by scored_cmp scored).

(** ** The declarative specification *)

(** A GPU of the node meets the requirement. *)
Definition gpu_ok (g : NodeGpu) (need : GpuRequirement) : Prop :=
  (∀ v, req_vendor need = Some v → gpu_vendor g = v) ∧
  (∀ m, req_min_vram_gb need = Some m → (m <= gpu_vram_gb g)%Z).

(** The constraints the filter enforces, of those the documentation calls hard: lists are
    any-of, keys are and-ed, empty means anything.  The acceleration of the placement is
    not among them: see C4. *)
Definition satisfies (n : CandidateNode) (p : Placement) : Prop :=
  (pl_arch p = [] ∨ cn_arch n ∈ pl_arch p) ∧
  (pl_os p = [] ∨ cn_os n ∈ pl_os p) ∧
  (∀ req, pl_gpu p = Some req → ∃ g, g ∈ cn_gpus n ∧ gpu_ok g req) ∧
  pl_node_labels p ⊆ cn_labels n.

(** [e] ranks at least as high as [e']: a higher score, or an equal score with
    fewer running instances, or equal on both with a smaller node id. *)
Definition ranks_before (e e' : scored_entry) : Prop :=
  (e'.1.1 < e.1.1)%Z ∨
  (e.1.1 = e'.1.1 ∧ (e.1.2 < e'.1.2)%Z) ∨
  (e.1.1 = e'.1.1 ∧ e.1.2 = e'.1.2 ∧ String.compare e.2 e'.2 ≠ Gt).

#[export] Instance scored_cmp_order : CmpOrder scored_cmp.
Proof. unfold scored_cmp. apply _. Qed.

Lemma gpu_matches_spec have need :
  gpu_matches have need = true ↔ ∃ g, g ∈ have ∧ gpu_ok g need.
Proof.
  unfold gpu_matches. rewrite existsb_Exists. f_equiv. intros g.
  apply and_iff_compat_l. unfold gpu_ok.
  destruct (req_vendor need) as [v|], (req_min_vram_gb need) as [m|]; simpl.
  1,2: destruct (decide (gpu_vendor g = v)) as [->|Hv];
    [rewrite bool_decide_eq_false_2 by naive_solver
    |rewrite bool_decide_eq_true_2 by done; split; [done|]; intros [H _]; by destruct (Hv (H v eq_refl))].
  1,3: destruct (Z.ltb_spec (gpu_vram_gb g) m) as [Hm|Hm];
    [split; [done|]; intros [_ H]; specialize (H m eq_refl); lia
    |split; [|done]; intros _; split; intros; simplify_eq; done].
  all: split; [|done]; intros _; split; intros; simplify_eq; done.
Qed.

Lemma node_passes_spec p n : node_passes p n = true ↔ satisfies n p.
Proof.
  unfold node_passes, satisfies.
  rewrite !early_false, !any_of_false, map_subseteq_spec, map_all_true.
  setoid_rewrite bool_decide_eq_true.
  destruct (pl_gpu p) as [req|]; [|naive_solver].
  rewrite negb_false_iff, gpu_matches_spec. naive_solver.
Qed.

Lemma scored_cmp_spec e e' : cmp_le scored_cmp e e' ↔ ranks_before e e'.
Proof.
  unfold cmp_le, scored_cmp, ranks_before, cmp_then, cmp_rev, cmp_on.
  destruct (Z.compare_spec e'.1.1 e.1.1); destruct (Z.compare_spec e.1.2 e'.1.2);
    destruct (String.compare e.2 e'.2) eqn:E;
    intuition (try done; try lia; try congruence).
Qed.

Lemma scored_cmp_eq e e' : scored_cmp e e' = Eq → e = e'.
Proof.
  unfold scored_cmp, cmp_then, cmp_rev, cmp_on. destruct e as [[a b] c], e' as [[a' b'] c'].
  simpl. case_all. intros ?%string_compare_eq.
  repeat match goal with H : (_ ?= _)%Z = Eq |- _ => apply Z.compare_eq in H end.
  congruence.
Qed.

(** ** What the scheduler promises *)

Lemma filter_nodes_spec nodes p n :
  n ∈ filter_nodes_by_placement nodes p ↔ n ∈ nodes ∧ satisfies n p.
Proof. unfold filter_nodes_by_placement. by rewrite elem_of_bfilter, node_passes_spec. Qed.

Lemma elem_of_scored nodes p load e :
  e ∈ score_entry p load <$> filter_nodes_by_placement nodes p ↔
  ∃ n, e = score_entry p load n ∧ n ∈ nodes ∧ satisfies n p.
Proof. rewrite list_elem_of_fmap. by setoid_rewrite filter_nodes_spec. Qed.

Lemma pick_best_spec cands p load id :
  pick_best cands p load = Some id →
  ∃ n, n ∈ cands ∧ cn_node_id n = id ∧ satisfies n p ∧
    ∀ m, m ∈ cands → satisfies m p →
      ranks_before (score_entry p load n) (score_entry p load m).
Proof.
  unfold pick_best. intros (e & He & ->)%fmap_Some.
  apply (sort_by_head scored_cmp) in He as [Hin Hmin].
  apply elem_of_scored in Hin as (n & -> & Hn & Hsat).
  exists n. split_and!; [done..|]. intros m Hm Hms.
  apply scored_cmp_spec, Hmin, elem_of_scored. eauto.
Qed.

Lemma pick_best_none_iff cands p load :
  pick_best cands p load = None ↔ ∀ n, n ∈ cands → ¬ satisfies n p.
Proof.
  unfold pick_best. split.
  - intros H%fmap_None n Hn Hs. apply head_None, sort_by_nil, fmap_nil_inv in H.
    assert (n ∈ filter_nodes_by_placement cands p) as Hf by by apply filter_nodes_spec.
    rewrite H in Hf. by apply elem_of_nil in Hf.
  - intros H. replace (filter_nodes_by_placement cands p) with (@nil CandidateNode); [done|].
    symmetry. apply elem_of_nil_inv. intros n [Hn Hs]%filter_nodes_spec. by eapply H.
Qed.

(** A placement with another acceleration. *)
Definition set_acceleration (acc : option Acceleration) (p : Placement) : Placement :=
  {| pl_arch := pl_arch p; pl_os := pl_os p; pl_gpu := pl_gpu p; pl_acceleration := acc;
     pl_node_labels := pl_node_labels p; pl_prefer := pl_prefer p |}.

(** C4: [pick_best] returns the id of a candidate that meets the architecture, operating
    system, GPU and label constraints and that ranks at least as high (score, then load,
    then node id) as every other candidate that does, and nothing exactly when there is
    none.  The acceleration, documented as one more hard constraint, plays no part: the
    choice is the same whatever the placement asks for. *)
Theorem pick_best_optimal cands p load :
  match pick_best cands p load with
  | Some id => ∃ n, n ∈ cands ∧ cn_node_id n = id ∧ satisfies n p ∧
      ∀ m, m ∈ cands → satisfies m p →
        ranks_before (score_entry p load n) (score_entry p load m)
  | None => ∀ n, n ∈ cands → ¬ satisfies n p
  end ∧
  ∀ acc, pick_best cands (set_acceleration acc p) load = pick_best cands p load.
Proof.
  split; [|done]. destruct (pick_best cands p load) as [id|] eqn:E.
  - by apply pick_best_spec.
  - by eapply pick_best_none_iff.
Qed.

(** [pick_best] fails exactly when no candidate meets the hard
    constraints. *)
Theorem pick_best_none cands p load :
  pick_best cands p load = None ↔ ∀ n, n ∈ cands → ¬ satisfies n p.
Proof. apply pick_best_none_iff. Qed.

(** The choice does not depend on the order the store lists the nodes in. *)
Theorem pick_best_order_independent cands cands' p load :
  cands ≡ₚ cands' → pick_best cands p load = pick_best cands' p load.
Proof.
  intros Hp. unfold pick_best. f_equal. apply sort_by_head_perm; [apply _|..].
  - intros ????. apply scored_cmp_eq.
  - by apply fmap_Permutation, bfilter_perm.
Qed.

(** A preferred label is worth 100 running instances, no more: between two
    admissible nodes that differ in one preferred label, the one that carries the
    label is picked exactly when it runs fewer than 100 instances more than the
    other. *)
Theorem label_preference_threshold a b p load k v :
  satisfies a p → satisfies b p → cn_node_id a ≠ cn_node_id b →
  pref_node_labels (pl_prefer p) = {[k := v]} →
  cn_labels a !! k = Some v → cn_labels b !! k ≠ Some v →
  pick_best [a; b] p load = Some (cn_node_id a) ↔
  (running_instances (load (cn_node_id a)) < running_instances (load (cn_node_id b)) + 100)%Z.
Proof.
  intros Ha Hb Hne Hpref Hka Hkb.
  assert (Hsa : (score_node a p (load (cn_node_id a)) =
    100 - running_instances (load (cn_node_id a)))%Z).
  { unfold score_node, map_count. rewrite Hpref, map_to_list_singleton. simpl.
    by rewrite bool_decide_eq_true_2. }
  assert (Hsb : (score_node b p (load (cn_node_id b)) =
    - running_instances (load (cn_node_id b)))%Z).
  { unfold score_node, map_count. rewrite Hpref, map_to_list_singleton. simpl.
    by rewrite bool_decide_eq_false_2. }
  assert (Hsome : is_Some (pick_best [a; b] p load)).
  { destruct (pick_best [a; b] p load) eqn:E; [done|].
    apply (proj1 (pick_best_none_iff _ _ _) E a) in Ha; [done|by left]. }
  destruct Hsome as [id Hid]. rewrite Hid.
  destruct (pick_best_spec _ _ _ _ Hid) as (n & Hn & <- & _ & Hmin).
  apply elem_of_cons in Hn as [->|Hn%list_elem_of_singleton].
  - specialize (Hmin b ltac:(right; by left) Hb). unfold ranks_before, score_entry in Hmin.
    simpl in Hmin. split; [lia|done].
  - subst n. specialize (Hmin a ltac:(by left) Ha). unfold ranks_before, score_entry in Hmin.
    simpl in Hmin. split; [congruence|lia].
Qed.

(** ** Concrete runs *)

Definition demo_node (id : string) (labels : gmap string string) : CandidateNode :=
  {| cn_node_id := id; cn_arch := Arm64; cn_os := Linux; cn_gpus := []; cn_roles := [];
     cn_labels := labels |}.

Definition demo_load (id : string) : NodeLoad :=
  {| running_instances := if String.eqb id "busy" then 5 else 0 |}.

Definition demo_prefer : Placement :=
  {| pl_arch := [Arm64]; pl_os := []; pl_gpu := None; pl_acceleration := None;
     pl_node_labels := ∅;
     pl_prefer := {| pref_node_labels := {["site" := "belmont"]};
                     pref_data_locality := false |} |}.

Lemma pick_best_optimal_witness :
  ∃ n, n ∈ [demo_node "busy" ∅; demo_node "idle" ∅] ∧ cn_node_id n = "idle" ∧
    satisfies n demo_prefer ∧
    ∀ m, m ∈ [demo_node "busy" ∅; demo_node "idle" ∅] → satisfies m demo_prefer →
      ranks_before (score_entry demo_prefer demo_load n) (score_entry demo_prefer demo_load m).
Proof.
  pose proof (proj1 (pick_best_optimal [demo_node "busy" ∅; demo_node "idle" ∅] demo_prefer
    demo_load)) as H.
  assert (pick_best [demo_node "busy" ∅; demo_node "idle" ∅] demo_prefer demo_load = Some "idle")
    as E by (vm_compute; reflexivity).
  by rewrite E in H.
Defined.

Lemma pick_best_order_independent_witness :
  pick_best [demo_node "busy" ∅; demo_node "idle" ∅] demo_prefer demo_load =
  pick_best [demo_node "idle" ∅; demo_node "busy" ∅] demo_prefer demo_load.
Proof. apply pick_best_order_independent. apply perm_swap. Defined.

Lemma label_preference_threshold_witness :
  pick_best [demo_node "busy" {["site" := "belmont"]}; demo_node "idle" ∅]
    demo_prefer demo_load = Some "busy".
Proof.
  apply (label_preference_threshold
    (demo_node "busy" {["site" := "belmont"]}) (demo_node "idle" ∅)
    demo_prefer demo_load "site" "belmont").
  - apply node_passes_spec. vm_compute. reflexivity.
  - apply node_passes_spec. vm_compute. reflexivity.
  - done.
  - reflexivity.
  - vm_compute. reflexivity.
  - vm_compute. done.
  - vm_compute. reflexivity.
Defined.
