(* ===== verification/Bus.v ===== *)
(** * The NATS contract (crates/orion-bus)

    The subject namespace, the message types of each subject, the common
    envelope, and the stream configuration of a named queue. *)

From Stdlib Require Import ZArith Lia Bool Ascii.
From stdpp Require Import base list gmap strings.
From S2P Require Import Prelude Text Types.

Definition PROTOCOL_VERSION : Z := 1.

(** ** Subjects (topics.rs) *)

Inductive Topic : Type :=
| THeartbeat | TNodeInventory | TCapabilities | TServiceRegister | TServiceUnregister
| TServiceHealth | TTaskEvents | TLogs | TMetrics
| TControlRun | TControlStop | TControlRestart | TControlDrain.

#[export] Instance Topic_eq_dec : EqDecision Topic.
Proof. solve_decision. Defined.

Definition as_str (t : Topic) : string :=
  match t with
  | THeartbeat => "orion.heartbeat"
  | TNodeInventory => "orion.node.inventory"
  | TCapabilities => "orion.capabilities"
  | TServiceRegister => "orion.service.register"
  | TServiceUnregister => "orion.service.unregister"
  | TServiceHealth => "orion.service.health"
  | TTaskEvents => "orion.task.events"
  | TLogs => "orion.logs.*"
  | TMetrics => "orion.metrics.*"
  | TControlRun => "orion.control.*.run"
  | TControlStop => "orion.control.*.stop"
  | TControlRestart => "orion.control.*.restart"
  | TControlDrain => "orion.control.*.drain"
  end.

Definition for_node (t : Topic) (node_id : string) : string :=
  match t with
  | TLogs => "orion.logs." +:+ node_id
  | TMetrics => "orion.metrics." +:+ node_id
  | TControlRun => "orion.control." +:+ node_id +:+ ".run"
  | TControlStop => "orion.control." +:+ node_id +:+ ".stop"
  | TControlRestart => "orion.control." +:+ node_id +:+ ".restart"
  | TControlDrain => "orion.control." +:+ node_id +:+ ".drain"
  | _ => as_str t
  end.

Definition control_subjects_for_node (node_id : string) : list string :=
  [for_node TControlRun node_id; for_node TControlStop node_id;
   for_node TControlRestart node_id; for_node TControlDrain node_id].

Definition requires_jetstream (t : Topic) : bool :=
  match t with
  | TServiceRegister | TServiceUnregister | TTaskEvents
  | TControlRun | TControlStop | TControlRestart | TControlDrain => true
  | _ => false
  end.

(** ** Messages (messages/) *)

Inductive WorkloadKind : Type := WService | WTask.

#[export] Instance WorkloadKind_eq_dec : EqDecision WorkloadKind.
Proof. solve_decision. Defined.

Record ControlRun : Type := {
  run_instance_id : Uuid;
  run_kind : WorkloadKind;
  run_name : ResourceName;
  run_runtime : Runtime;
  run_generation : Z;
  run_replicas : Z;
  run_health_check : option HealthCheck;
  run_slot_indices : list Z
}.

Definition default_one_replica : Z := 1.

Record ControlStop : Type := {
  stop_instance_id : Uuid;
  stop_reason : option string;
  stop_grace_seconds : option Z
}.

Record ControlRestart : Type := { restart_instance_id : Uuid }.
Record ControlDrain : Type := { drain_reason : option string }.

Record Heartbeat : Type := {
  hb_node_id : NodeId;
  hb_agent_version : string;
  hb_uptime_seconds : Z;
  hb_cpu_load_1m : f32;
  hb_mem_used_bytes : Z;
  hb_mem_total_bytes : Z;
  hb_labels : gmap string string
}.

Record NodeInventory : Type := {
  inv_node_id : NodeId;
  inv_agent_version : string;
  inv_arch : Arch;
  inv_os : OperatingSystem;
  inv_acceleration : option Acceleration;
  inv_gpus : list NodeGpu;
  inv_cpu_cores : Z;
  inv_mem_total_bytes : Z;
  inv_disk_gb : option Z;
  inv_runtimes : list string;
  inv_roles : list NodeRole;
  inv_labels : gmap string string;
  inv_address : option string
}.

Inductive LogStream : Type := Stdout | Stderr.

Record LogLine : Type := {
  ll_node_id : NodeId;
  ll_service : ResourceName;
  ll_instance_id : option Uuid;
  ll_replica_index : Z;
  ll_stream : LogStream;
  ll_line : string
}.

Record MetricSample : Type := {
  ms_name : string;
  ms_value : f64;
  ms_service : option ResourceName;
  ms_labels : list (string * string)
}.

Record Metric : Type := {
  metric_node_id : NodeId;
  metric_samples : list MetricSample
}.

Record ServiceRegister : Type := {
  sr_node_id : NodeId;
  sr_service : ResourceName;
  sr_instance_id : string;
  sr_runtime : Runtime;
  sr_endpoints : list string
}.

Record ServiceUnregister : Type := {
  su_node_id : NodeId;
  su_service : ResourceName;
  su_instance_id : string;
  su_reason : string
}.

Inductive HealthStatus : Type := Healthy | Unhealthy | UnknownHealth.

Record ServiceHealth : Type := {
  sh_node_id : NodeId;
  sh_service : ResourceName;
  sh_instance_id : string;
  sh_status : HealthStatus;
  sh_message : option string;
  sh_consecutive_failures : Z
}.

Record TaskSubmit : Type := {
  ts_task_id : Uuid;
  ts_task : ResourceName;
  ts_assigned_to : NodeId;
  ts_runtime : Runtime;
  ts_deadline_seconds : option Z
}.

Inductive TaskOutcome : Type :=
| OAccepted
| OStarted
| OProgress (percent : Z)
| OSucceeded (exit_code : Z)
| OFailed (exit_code : Z) (message : string)
| OCancelled (reason : string).

Record TaskEvent : Type := {
  te_task_id : Uuid;
  te_node_id : NodeId;
  te_outcome : TaskOutcome
}.

Record Capabilities {J : SerdeJson} : Type := {
  caps_node_id : NodeId;
  caps_service : ResourceName;
  caps_capabilities : list Capability
}.

Record Envelope (P : Type) : Type := {
  env_protocol : Z;
  env_id : Uuid;
  env_source : option NodeId;
  env_at : Instant;
  env_payload : P
}.
Arguments env_protocol {P}.
Arguments env_id {P}.
Arguments env_source {P}.
Arguments env_at {P}.
Arguments env_payload {P}.

(** [Envelope::new], with the fresh id and the clock reading it takes. *)
Definition Envelope_new {P} (id : Uuid) (now : Instant) (source : option NodeId) (payload : P)
    : Envelope P :=
  {| env_protocol := PROTOCOL_VERSION; env_id := id; env_source := source; env_at := now;
     env_payload := payload |}.

(** ** Queues (client.rs) *)

(** The fields of JetStream's stream configuration the source sets. *)
Record StreamConfig : Type := {
  sc_name : string;
  sc_subjects : list string;
  sc_max_age_seconds : Z;
  sc_max_messages : Z;
  sc_max_bytes : Z;
  sc_num_replicas : Z
}.

Definition queue_stream_config (name : string) (spec : QueueSpec) : string * StreamConfig :=
  let subject := default (default_queue_subject name) (q_subject spec) in
  let stream_name := default (default_queue_stream name) (q_stream spec) in
  (subject,
   {| sc_name := stream_name;
      sc_subjects := [subject];
      sc_max_age_seconds := default 0%Z (q_max_age_seconds spec);
      sc_max_messages := default (-1)%Z (i64_of_u64 <$> q_max_msgs spec);
      sc_max_bytes := default (-1)%Z (i64_of_u64 <$> q_max_bytes spec);
      sc_num_replicas := Z.max (default 1%Z (q_replicas spec)) 1 |}).

(** Whether a connection carries the cluster token: [connect]'s [match]. *)
Definition connect_token (token : option string) : option string :=
  match token with
  | Some t => if negb (bool_decide (t = "")) then Some t else None
  | None => None
  end.

(** ** Theorems *)

(** The per-node topics, the ones [for_node] instantiates. *)
Definition per_node (t : Topic) : bool :=
  match t with
  | TLogs | TMetrics | TControlRun | TControlStop | TControlRestart | TControlDrain => true
  | _ => false
  end.

(** Cancel a common literal prefix of two strings, or refute the equation. *)
Ltac cancel_prefix H :=
  repeat match type of H with
  | String _ _ +:+ _ = _ => rewrite string_app_cons in H
  | _ = String _ _ +:+ _ => rewrite string_app_cons in H
  | String _ _ = String _ _ => injection H as H
  | EmptyString +:+ _ = _ => rewrite string_app_empty in H
  | _ = EmptyString +:+ _ => rewrite string_app_empty in H
  end.

Lemma suffix_conflict (a b s1 s2 : string) :
  a +:+ s1 = b +:+ s2 → string_rev s1 +:+ string_rev a = string_rev s2 +:+ string_rev b.
Proof. intros H%(f_equal string_rev). by rewrite !string_rev_distr in H. Qed.

(** Per-node subjects do not collide: two subjects built by [for_node] are
    equal only for the same topic and the same node, so a control message
    published for one node reaches no other node and no other verb. *)
Theorem for_node_injective t1 t2 n1 n2 :
  per_node t1 = true → for_node t1 n1 = for_node t2 n2 → t1 = t2 ∧ n1 = n2.
Proof.
  intros Ht H.
  destruct t1; try discriminate Ht; destruct t2; simpl in H; cancel_prefix H;
    try discriminate H.
  1,2: split; [done|exact H].
  all: first [ split; [done|exact (string_app_inj_r _ _ _ H)]
             | apply suffix_conflict in H; vm_compute (string_rev ".run") in H;
               vm_compute (string_rev ".stop") in H; vm_compute (string_rev ".restart") in H;
               vm_compute (string_rev ".drain") in H; cancel_prefix H; discriminate H ].
Qed.

Lemma for_node_injective_witness :
  TControlStop = TControlStop ∧ "pi-1" = "pi-1".
Proof.
  apply (for_node_injective TControlStop TControlStop "pi-1" "pi-1"); reflexivity.
Defined.

(** *** Wildcard subscriptions

    The controller subscribes to [orion.logs.*]; agents publish to
    [orion.logs.<node>].  [nats_matches] is the server's subject matching. *)

Definition tokens (subject : string) : list string := split_on "." subject.

(** Every token of a publishable subject is non-empty. *)
Definition subject_ok (subject : string) : Prop := Forall (λ w, w ≠ "") (tokens subject).

Definition token_matches (p w : string) : Prop := p = "*" ∨ p = w.

Section subscriptions.
Variable nats_matches : string → string → bool.

(** A pattern without [>] matches token by token, [*] standing for exactly one
    token. *)
Hypothesis nats_matches_tokens : ∀ pattern subject,
  ">" ∉ tokens pattern → subject_ok subject →
  nats_matches pattern subject = true ↔ Forall2 token_matches (tokens pattern) (tokens subject).

Lemma tokens_logs id : tokens (for_node TLogs id) = "orion" :: "logs" :: tokens id.
Proof.
  unfold tokens, for_node.
  change ("orion.logs." +:+ id) with ("orion" +:+ String "." ("logs" +:+ String "." id)).
  by rewrite !split_on_app.
Qed.

(** The controller's log subscription receives a node's log lines exactly
    when the node id contains no dot.  Node ids default to the host name, which
    may contain dots. *)
Theorem logs_subscription_reaches id :
  subject_ok id →
  nats_matches (as_str TLogs) (for_node TLogs id) = true ↔ has_char "." id = false.
Proof.
  intros Hok. rewrite nats_matches_tokens.
  - rewrite tokens_logs, <- split_on_length. fold (tokens id).
    change (tokens (as_str TLogs)) with ["orion"; "logs"; "*"]. split.
    + intros H%Forall2_length. simpl in H. lia.
    + intros H. destruct (tokens id) as [|w [|]] eqn:E; simplify_eq/=.
      constructor; [by right|]. constructor; [by right|]. by constructor; [left|].
  - vm_compute. set_solver.
  - unfold subject_ok. rewrite tokens_logs. by repeat constructor.
Qed.

End subscriptions.

(** A matcher of that shape. *)
Fixpoint match_tokens (ps ws : list string) : bool :=
  match ps, ws with
  | [], [] => true
  | p :: ps', w :: ws' =>
      (bool_decide (p = "*") || bool_decide (p = w)) && match_tokens ps' ws'
  | _, _ => false
  end.

Definition token_matcher (pattern subject : string) : bool :=
  match_tokens (tokens pattern) (tokens subject).

Lemma match_tokens_spec ps ws :
  match_tokens ps ws = true ↔ Forall2 token_matches ps ws.
Proof.
  revert ws. induction ps as [|p ps IH]; intros [|w ws]; simpl.
  - by split.
  - split; [done|inversion 1].
  - split; [done|inversion 1].
  - rewrite Forall2_cons, andb_true_iff, orb_true_iff, !bool_decide_eq_true, IH. done.
Qed.

Lemma logs_subscription_reaches_witness :
  token_matcher (as_str TLogs) (for_node TLogs "mac.local") = false.
Proof.
  apply not_true_is_false. rewrite (logs_subscription_reaches token_matcher).
  - vm_compute. discriminate.
  - intros. apply match_tokens_spec.
  - unfold subject_ok. vm_compute. repeat constructor; done.
Defined.

(** A valid queue's default subject is three plain tokens: no dot, wildcard
    or blank of the queue name can widen it. *)
Theorem queue_subject_plain {J : SerdeJson} r spec status :
  body r = BQueue spec status → validate r = Ok tt →
  tokens (default_queue_subject (name r)) = ["orion"; "queue"; name r] ∧
  has_char "*" (name r) = false ∧ has_char ">" (name r) = false ∧
  has_char " " (name r) = false ∧ name r ≠ "".
Proof.
  unfold validate, name. intros -> H. simpl in H.
  destruct (bool_decide _ || _) eqn:E; [done|].
  apply orb_false_iff in E as [E1%bool_decide_eq_false E2%negb_false_iff].
  assert (∀ c, queue_name_char c = false → has_char c (md_name (metadata r)) = false) as Hc.
  { intros c Hc. revert E2. generalize (md_name (metadata r)) as s.
    induction s as [|a s IH]; simpl; [done|]. intros [Ha Hs]%andb_true_iff.
    rewrite IH by done. destruct (Ascii.eqb_spec a c) as [->|]; [congruence|done]. }
  split_and!; try (apply Hc; reflexivity); [|done].
  unfold tokens, default_queue_subject.
  change ("orion.queue." +:+ ?x) with ("orion" +:+ String "." ("queue" +:+ String "." x)).
  rewrite !split_on_app by done. rewrite split_on_single by by apply Hc. done.
Qed.

Definition demo_queue : QueueSpec :=
  {| q_type := QWork; q_subject := None; q_stream := None; q_max_age_seconds := None;
     q_max_msgs := None; q_max_bytes := None; q_replicas := None; q_description := None |}.

Lemma queue_subject_plain_witness :
  tokens (default_queue_subject "ps-rows") = ["orion"; "queue"; "ps-rows"].
Proof.
  apply (queue_subject_plain (J := toy_json) (demo_resource (J := toy_json) "ps-rows"
    (BQueue (J := toy_json) demo_queue None)) demo_queue None); reflexivity.
Defined.
