(* ===== verification/JetStream.v ===== *)
(** * The broker as its clients see it (crates/orion-bus/src/client.rs)

    JetStream is not part of the program: [JetStream] lists the calls the command line
    makes on it, over a state of the broker, and [JetStreamLaws] what the program relies
    on, stated over the streams the broker has.  [client.rs] is the layer in between.  The
    last section is a broker in memory that has the laws. *)

From Stdlib Require Import ZArith Lia Bool.
From stdpp Require Import base list gmap strings.
From S2P Require Import Prelude Text Types Effect Bus.

(** ** The calls *)

Record StreamInfo : Type := {
  si_messages : Z;
  si_bytes : Z;
  si_first_sequence : Z;
  si_last_sequence : Z;
  si_consumer_count : Z
}.

Record ConsumerInfo : Type := {
  ci_name : string;
  ci_num_ack_pending : Z;
  ci_delivered : Z;
  ci_ack_floor : Z
}.

Inductive AckPolicy : Type := AckNone | AckExplicit.

#[export] Instance AckPolicy_eq_dec : EqDecision AckPolicy.
Proof. solve_decision. Defined.

(** The fields of a pull consumer's configuration the source sets. *)
Record PullConfig : Type := {
  pc_durable_name : string;
  pc_filter_subject : string;
  pc_ack_policy : AckPolicy
}.

(** A call reports [Err] when it fails.  A publication has two answers: whether it was
    sent, then the acknowledgement with the sequence number of the message. *)
Class JetStream (B : Type) : Type := {
  nats_connect : string → option string → M B (result unit Fault);
  get_or_create_stream : StreamConfig → M B (result unit Fault);
  get_stream : string → M B (result unit Fault);
  stream_info : string → M B (result StreamInfo Fault);
  stream_purge : string → M B (result Z Fault);
  stream_consumers : string → M B (list (result ConsumerInfo Fault));
  js_publish_ack : string → string → M B (result (result Z Fault) Fault);
  get_or_create_consumer : string → PullConfig → M B (result unit Fault);
  consumer_messages : string → string → M B (result unit Fault);
  ack_message : string → string → Z → M B (result unit Fault)
}.

(** ** What the broker has *)

(** A stream: the subjects it captures, every message it has stored, in order, those it
    keeps, its consumers, and the messages acknowledged (durable and sequence number). *)
Record StreamView : Type := {
  sv_subjects : list string;
  sv_stored : list (string * string);
  sv_kept : list (string * string);
  sv_consumers : gmap string PullConfig;
  sv_acked : list (string * Z)
}.

Notation Streams := (gmap string StreamView).

Definition new_stream (cfg : StreamConfig) : StreamView :=
  {| sv_subjects := sc_subjects cfg; sv_stored := []; sv_kept := []; sv_consumers := ∅;
     sv_acked := [] |}.

Definition created (cfg : StreamConfig) (σ : Streams) : Streams :=
  match σ !! sc_name cfg with Some _ => σ | None => <[sc_name cfg := new_stream cfg]> σ end.

Definition set_kept (kept : list (string * string)) (sv : StreamView) : StreamView :=
  {| sv_subjects := sv_subjects sv; sv_stored := sv_stored sv; sv_kept := kept;
     sv_consumers := sv_consumers sv; sv_acked := sv_acked sv |}.
Definition store_message (m : string * string) (kept : list (string * string)) (sv : StreamView)
    : StreamView :=
  {| sv_subjects := sv_subjects sv; sv_stored := sv_stored sv ++ [m]; sv_kept := kept;
     sv_consumers := sv_consumers sv; sv_acked := sv_acked sv |}.
Definition add_consumer (c : PullConfig) (sv : StreamView) : StreamView :=
  {| sv_subjects := sv_subjects sv; sv_stored := sv_stored sv; sv_kept := sv_kept sv;
     sv_consumers := match sv_consumers sv !! pc_durable_name c with
                     | Some _ => sv_consumers sv
                     | None => <[pc_durable_name c := c]> (sv_consumers sv)
                     end;
     sv_acked := sv_acked sv |}.
Definition add_ack (a : string * Z) (sv : StreamView) : StreamView :=
  {| sv_subjects := sv_subjects sv; sv_stored := sv_stored sv; sv_kept := sv_kept sv;
     sv_consumers := sv_consumers sv; sv_acked := sv_acked sv ++ [a] |}.

(** A stream may let old messages go at any time: its limits. *)
Definition stream_aged (s t : StreamView) : Prop :=
  t = set_kept (sv_kept t) s ∧ sv_kept t `suffix_of` sv_kept s.
Definition aged (σ τ : Streams) : Prop := map_relation (λ _, stream_aged) (λ _ _, False) (λ _ _, False) σ τ.

(** After ageing, [f] on one stream. *)
Definition changed (name : string) (f : StreamView → StreamView) (σ τ : Streams) : Prop :=
  ∃ ρ sv, aged σ ρ ∧ ρ !! name = Some sv ∧ τ = <[name := f sv]> ρ.

Section broker.
(** Subject matching, as the server does it. *)
Variable nats_matches : string → string → bool.

Definition captures (sv : StreamView) (subject : string) : bool :=
  existsb (λ p, nats_matches p subject) (sv_subjects sv).

(** A message of [subject] is stored by a stream that captures it. *)
Definition stored_in (σ : Streams) (subject payload : string) (τ : Streams) : Prop :=
  ∃ name sv kept, σ !! name = Some sv ∧ captures sv subject = true ∧
    changed name (store_message (subject, payload) kept) σ τ.

(** What the program relies on.  A call that fails may or may not have been carried out,
    and no call touches what it is not about. *)
Class JetStreamLaws {B} `{JetStream B} (streams : B → Streams) : Prop := {
  law_connect : ∀ url t o b u, aged (streams b) (streams (nats_connect url t o (b, u)).2.1);
  law_create : ∀ cfg o b u, let x := get_or_create_stream cfg o (b, u) in
    aged (created cfg (streams b)) (streams x.2.1) ∨
    (∃ e, x.1 = Err e) ∧ aged (streams b) (streams x.2.1);
  law_get : ∀ n o b u, let x := get_stream n o (b, u) in
    aged (streams b) (streams x.2.1) ∧ (x.1 = Ok tt → is_Some (streams b !! n));
  law_info : ∀ n o b u, aged (streams b) (streams (stream_info n o (b, u)).2.1);
  law_purge : ∀ n o b u, let x := stream_purge n o (b, u) in
    match x.1 with
    | Ok k => changed n (set_kept []) (streams b) (streams x.2.1) ∧
        ∀ sv, streams b !! n = Some sv → (0 <= k <= Z.of_nat (length (sv_kept sv)))%Z
    | Err _ => aged (streams b) (streams x.2.1) ∨ changed n (set_kept []) (streams b) (streams x.2.1)
    end;
  law_consumers : ∀ n o b u, aged (streams b) (streams (stream_consumers n o (b, u)).2.1);
  law_publish : ∀ s p o b u, let x := js_publish_ack s p o (b, u) in
    stored_in (streams b) s p (streams x.2.1) ∨
    (∀ k, x.1 ≠ Ok (Ok k)) ∧ aged (streams b) (streams x.2.1);
  law_consumer : ∀ n c o b u, let x := get_or_create_consumer n c o (b, u) in
    changed n (add_consumer c) (streams b) (streams x.2.1) ∨
    (∃ e, x.1 = Err e) ∧ aged (streams b) (streams x.2.1);
  law_messages : ∀ n d o b u, aged (streams b) (streams (consumer_messages n d o (b, u)).2.1);
  law_ack : ∀ n d k o b u, let x := ack_message n d k o (b, u) in
    changed n (add_ack (d, k)) (streams b) (streams x.2.1) ∨
    (∃ e, x.1 = Err e) ∧ aged (streams b) (streams x.2.1)
}.

End broker.

Arguments law_connect {nats_matches B _ streams _}.
Arguments law_create {nats_matches B _ streams _}.
Arguments law_get {nats_matches B _ streams _}.
Arguments law_info {nats_matches B _ streams _}.
Arguments law_purge {nats_matches B _ streams _}.
Arguments law_consumers {nats_matches B _ streams _}.
Arguments law_publish {nats_matches B _ streams _}.
Arguments law_consumer {nats_matches B _ streams _}.
Arguments law_messages {nats_matches B _ streams _}.
Arguments law_ack {nats_matches B _ streams _}.

(** ** The client (client.rs) *)

Inductive BusError : Type :=
| Connect (e : Fault)
| JsPublish (e : Fault)
| JsPublishAck (e : Fault)
| JsCreateStream (e : Fault)
| JsonEncode (e : string).

Section client.
Context {B : Type} {JB : JetStream B}.

Definition connect (url : string) (token : option string) : M B (result unit BusError) :=
  r ← nats_connect url (connect_token token);
  mret (match r with Ok _ => Ok tt | Err e => Err (Connect e) end).

Definition ensure_stream (cfg : StreamConfig) : M B (result unit BusError) :=
  r ← get_or_create_stream cfg;
  mret (match r with Ok _ => Ok tt | Err e => Err (JsCreateStream e) end).

Definition publish_bytes (subject payload : string) : M B (result Z BusError) :=
  r ← js_publish_ack subject payload;
  mret (match r with
        | Err e => Err (JsPublish e)
        | Ok (Err e) => Err (JsPublishAck e)
        | Ok (Ok sequence) => Ok sequence
        end).

(** [encoded] is [serde_json::to_vec] of the value. *)
Definition publish_json (subject : string) (encoded : result string string)
    : M B (result Z BusError) :=
  match encoded with
  | Err e => mret (Err (JsonEncode e))
  | Ok bytes => publish_bytes subject bytes
  end.

End client.

(** ** A broker in memory

    Its state is its streams; any call may fail before it does anything. *)

Section memory.
Variable nats_matches : string → string → bool.

Definition mem_call {A} (k : M Streams (result A Fault)) : M Streams (result A Fault) :=
  r ← io; match r with Some f => mret (Err f) | None => k end.

Definition mem_on {A} (name : string) (k : StreamView → M Streams A)
    : M Streams (result A Fault) :=
  mem_call (σ ← get;
    match σ !! name with
    | Some sv => a ← k sv; mret (Ok a)
    | None => mret (Err "stream not found")
    end).

Definition mem_set (name : string) (sv : StreamView) : M Streams unit := modify <[name := sv]>.

Definition mem_info (sv : StreamView) : StreamInfo :=
  {| si_messages := Z.of_nat (length (sv_kept sv)); si_bytes := 0;
     si_first_sequence := Z.of_nat (length (sv_stored sv) - length (sv_kept sv)) + 1;
     si_last_sequence := Z.of_nat (length (sv_stored sv));
     si_consumer_count := Z.of_nat (size (sv_consumers sv)) |}.

Definition mem_consumer_info (c : string * PullConfig) : result ConsumerInfo Fault :=
  Ok {| ci_name := c.1; ci_num_ack_pending := 0; ci_delivered := 0; ci_ack_floor := 0 |}.

(** The stream that captures a subject. *)
Definition mem_find (σ : Streams) (subject : string) : option (string * StreamView) :=
  List.find (λ e, captures nats_matches e.2 subject) (map_to_list σ).

#[local] Instance mem_broker : JetStream Streams := {
  nats_connect _ _ := mem_call (mret (Ok tt));
  get_or_create_stream cfg := mem_call (_ ← modify (created cfg); mret (Ok tt));
  get_stream n := mem_on n (λ _, mret tt);
  stream_info n := mem_on n (λ sv, mret (mem_info sv));
  stream_purge n := mem_on n (λ sv,
    _ ← mem_set n (set_kept [] sv); mret (Z.of_nat (length (sv_kept sv))));
  stream_consumers n := σ ← get;
    mret (match σ !! n with
          | Some sv => mem_consumer_info <$> map_to_list (sv_consumers sv)
          | None => []
          end);
  js_publish_ack s p := mem_call (σ ← get;
    match mem_find σ s with
    | Some (n, sv) =>
        _ ← mem_set n (store_message (s, p) (sv_kept sv ++ [(s, p)]) sv);
        mret (Ok (Ok (Z.of_nat (length (sv_stored sv)) + 1)%Z))
    | None => mret (Ok (Err "no stream"))
    end);
  get_or_create_consumer n c := mem_on n (λ sv, _ ← mem_set n (add_consumer c sv); mret tt);
  consumer_messages n _ := mem_on n (λ _, mret tt);
  ack_message n d k := mem_on n (λ sv, _ ← mem_set n (add_ack (d, k) sv); mret tt)
}.

End memory.

(** ** Lemmas: ageing *)

Lemma set_kept_same sv : set_kept (sv_kept sv) sv = sv.
Proof. by destruct sv. Qed.

#[export] Instance stream_aged_preorder : PreOrder stream_aged.
Proof.
  split.
  - intros s. split; [by rewrite set_kept_same|done].
  - intros s t r [Ht Hs] [Hr Hs']. split; [|by etrans].
    rewrite Hr. rewrite Ht. by destruct r.
Qed.

Lemma aged_lookup σ τ n :
  aged σ τ → option_relation stream_aged (λ _, False) (λ _, False) (σ !! n) (τ !! n).
Proof. intros H. exact (H n). Qed.

#[export] Instance aged_preorder : PreOrder aged.
Proof.
  split.
  - intros σ n. by destruct (σ !! n); simpl.
  - intros σ τ ρ H1 H2 n. specialize (H1 n). specialize (H2 n).
    destruct (σ !! n), (τ !! n), (ρ !! n); simpl in *; try done. by etrans.
Qed.

(** What ageing leaves alone. *)
Definition subjects (σ : Streams) : gmap string (list string) := sv_subjects <$> σ.
Definition histories (σ : Streams) : gmap string (list (string * string)) := sv_stored <$> σ.
Definition acks (σ : Streams) : gmap string (list (string * Z)) := sv_acked <$> σ.
Definition consumers (σ : Streams) : gmap string (gmap string PullConfig) := sv_consumers <$> σ.

Lemma aged_fmap {A} (f : StreamView → A) σ τ :
  (∀ s k, f (set_kept k s) = f s) → aged σ τ → f <$> τ = f <$> σ.
Proof.
  intros Hf H. apply map_eq. intros n. rewrite !lookup_fmap. apply (aged_lookup _ _ n) in H.
  destruct (σ !! n) as [s|], (τ !! n) as [t|]; simpl in *; try done.
  destruct H as [-> _]. by rewrite Hf.
Qed.

Lemma aged_subjects σ τ : aged σ τ → subjects τ = subjects σ.
Proof. by apply aged_fmap. Qed.
Lemma aged_histories σ τ : aged σ τ → histories τ = histories σ.
Proof. by apply aged_fmap. Qed.
Lemma aged_acks σ τ : aged σ τ → acks τ = acks σ.
Proof. by apply aged_fmap. Qed.
Lemma aged_consumers σ τ : aged σ τ → consumers τ = consumers σ.
Proof. by apply aged_fmap. Qed.

Lemma changed_fmap {A} (g : StreamView → A) n f σ τ :
  (∀ s k, g (set_kept k s) = g s) → changed n f σ τ →
  ∃ sv, (g <$> σ) !! n = Some (g sv) ∧ g <$> τ = <[n := g (f sv)]> (g <$> σ).
Proof.
  intros Hg (ρ & sv & Ha & Hl & ->). exists sv. rewrite <- (aged_fmap g σ ρ Hg Ha).
  rewrite lookup_fmap, Hl, fmap_insert. done.
Qed.

(** A change that a projection does not see. *)
Lemma changed_fmap_same {A} (g : StreamView → A) n f σ τ :
  (∀ s k, g (set_kept k s) = g s) → (∀ s, g (f s) = g s) → changed n f σ τ → g <$> τ = g <$> σ.
Proof.
  intros Hg Hf (sv & Hl & ->)%(changed_fmap g); [|done]. rewrite Hf. by apply insert_id.
Qed.

(** The other streams only age. *)
Lemma changed_others n f σ τ m :
  changed n f σ τ → m ≠ n → option_relation stream_aged (λ _, False) (λ _, False) (σ !! m) (τ !! m).
Proof.
  intros (ρ & sv & Ha & _ & ->) Hm. rewrite lookup_insert_ne by done. by apply aged_lookup.
Qed.

(** A message is stored by one stream. *)
Lemma stored_in_effect nats_matches σ s p τ :
  stored_in nats_matches σ s p τ →
  subjects τ = subjects σ ∧ acks τ = acks σ ∧ consumers τ = consumers σ ∧
  ∃ n sv l, σ !! n = Some sv ∧ captures nats_matches sv s = true ∧ histories σ !! n = Some l ∧
    histories τ = <[n := l ++ [(s, p)]]> (histories σ).
Proof.
  intros (n & sv & kept & Hl & Hc & Hch). split_and!.
  1: eapply (changed_fmap_same sv_subjects); [| |exact Hch]; done.
  1: eapply (changed_fmap_same sv_acked); [| |exact Hch]; done.
  1: eapply (changed_fmap_same sv_consumers); [| |exact Hch]; done.
  apply (changed_fmap sv_stored) in Hch as (sv' & Hl' & Ht); [|done].
  exists n, sv, (sv_stored sv'). by split_and!.
Qed.

(** A stream takes a subject. *)
Definition takes (nats_matches : string → string → bool) (S : gmap string (list string)) (subject stream : string) : Prop :=
  ∃ ps, S !! stream = Some ps ∧ existsb (λ p, nats_matches p subject) ps = true.

Definition appended {A} (stream : string) (l : list A)
    : gmap string (list A) → gmap string (list A) :=
  alter (λ h, h ++ l) stream.

Lemma appended_nil {A} n (H : gmap string (list A)) : appended n [] H = H.
Proof.
  unfold appended. apply map_eq. intros m. destruct (decide (m = n)) as [->|].
  - rewrite lookup_alter_eq. destruct (H !! n); simpl; by rewrite ?app_nil_r.
  - by rewrite lookup_alter_ne.
Qed.

Lemma appended_app {A} n (l l' : list A) H : appended n l' (appended n l H) = appended n (l ++ l') H.
Proof.
  unfold appended. apply map_eq. intros m. destruct (decide (m = n)) as [->|].
  - rewrite !lookup_alter_eq. destruct (H !! n); simpl; by rewrite ?app_assoc.
  - by rewrite !lookup_alter_ne.
Qed.

(** Messages stored one after the other, each by the stream named with it. *)
Definition delivered {A} (l : list (string * A)) (H : gmap string (list A))
    : gmap string (list A) :=
  foldl (λ H e, appended e.1 [e.2] H) H l.

(** One publication: stored by a stream that takes its subject, or not at all. *)
Lemma publish_run {B} `{JetStream B} nats_matches (streams : B → Streams)
    {JL : JetStreamLaws nats_matches streams} o s p b u :
  let x := js_publish_ack s p o (b, u) in
  let σ := streams b in let τ := streams x.2.1 in
  subjects τ = subjects σ ∧
  ((∃ n, takes nats_matches (subjects σ) s n ∧ histories τ = appended n [(s, p)] (histories σ)) ∨
   histories τ = histories σ ∧ ∀ k, x.1 ≠ Ok (Ok k)).
Proof.
  cbv zeta. pose proof (law_publish s p o b u) as Hp. cbv zeta in Hp.
  destruct (js_publish_ack s p o (b, u)) as [r [b' u']]. cbn [fst snd] in *.
  destruct Hp as [(Hs & _ & _ & n & sv & l & Hl & Hc & Hh & Ht)%stored_in_effect|[Hr Ha]].
  - split; [done|]. left. exists n. split.
    + exists (sv_subjects sv). split; [|done]. unfold subjects. by rewrite lookup_fmap, Hl.
    + rewrite Ht. unfold appended. apply map_eq. intros m. destruct (decide (m = n)) as [->|].
      * by rewrite lookup_insert_eq, lookup_alter_eq, Hh.
      * by rewrite lookup_insert_ne, lookup_alter_ne.
  - split; [by apply aged_subjects|]. right. split; [by apply aged_histories|done].
Qed.

(** ** Lemmas: the broker in memory *)

Section memory_laws.
Variable nats_matches : string → string → bool.

Lemma mem_call_run {A} (k : M Streams (result A Fault)) o σ u :
  mem_call k o (σ, u) =
  let u' := {| us_clock := us_clock u; us_uuid := us_uuid u; us_io := us_io u + 1 |} in
  match or_fault o (us_io u) with Some f => (Err f, (σ, u')) | None => k o (σ, u') end.
Proof. unfold mem_call, mbind, M_bind, io. by destruct (or_fault o (us_io u)). Qed.

Lemma changed_now σ n f sv : σ !! n = Some sv → changed n f σ (<[n := f sv]> σ).
Proof. intros H. by exists σ, sv. Qed.

(** A call on a stream that replaces it. *)
Lemma mem_on_set n (f : StreamView → StreamView) {A} (a : StreamView → A) o σ u :
  let x := mem_on n (λ sv, _ ← mem_set n (f sv); mret (a sv)) o (σ, u) in
  (∃ e, x.1 = Err e) ∧ x.2.1 = σ ∨
  ∃ sv, σ !! n = Some sv ∧ x.1 = Ok (a sv) ∧ x.2.1 = <[n := f sv]> σ.
Proof.
  cbv zeta. unfold mem_on. rewrite mem_call_run. cbv zeta.
  destruct (or_fault o (us_io u)); [by left; eauto|].
  unfold mem_set, mbind, M_bind, mret, M_ret, get, modify. cbn.
  destruct (σ !! n) as [sv|]; [right|left]; eauto.
Qed.

Lemma mem_on_read n {A} (a : StreamView → A) o σ u :
  let x := mem_on n (λ sv, mret (a sv)) o (σ, u) in
  x.2.1 = σ ∧ ((∃ e, x.1 = Err e) ∨ is_Some (σ !! n)).
Proof.
  cbv zeta. unfold mem_on. rewrite mem_call_run. cbv zeta.
  destruct (or_fault o (us_io u)); [by eauto|].
  unfold mbind, M_bind, mret, M_ret, get. cbn. destruct (σ !! n) as [sv|]; cbn; eauto.
Qed.

#[export] Instance mem_broker_laws :
  JetStreamLaws (H := mem_broker nats_matches) nats_matches id.
Proof.
  split; unfold id; cbn [nats_connect get_or_create_stream get_stream stream_info stream_purge
    stream_consumers js_publish_ack get_or_create_consumer consumer_messages ack_message mem_broker].
  - intros _ _ o σ u. rewrite mem_call_run. cbv zeta. by destruct (or_fault o (us_io u)).
  - intros cfg o σ u. rewrite mem_call_run. cbv zeta.
    destruct (or_fault o (us_io u)) as [f|]; [right|left; done]. split; [by exists f|done].
  - intros n o σ u. pose proof (mem_on_read n (λ _, tt) o σ u) as [-> H]. split; [done|].
    intros Hx. destruct H as [[e H]|H]; [by rewrite Hx in H|done].
  - intros n o σ u. by rewrite (proj1 (mem_on_read n mem_info o σ u)).
  - intros n o σ u. pose proof (mem_on_set n (set_kept []) (λ sv, Z.of_nat (length (sv_kept sv))) o σ u)
      as [[[e ->] ->]|(sv & Hl & -> & ->)]; [by left|].
    split; [by apply changed_now|]. intros sv' Hl'. rewrite Hl in Hl'. injection Hl' as ->. lia.
  - by intros n o σ u.
  - intros s p o σ u. rewrite mem_call_run. cbv zeta.
    destruct (or_fault o (us_io u)); [by right|].
    unfold mem_set, mbind, M_bind, mret, M_ret, get, modify, mem_find. cbn.
    destruct (List.find _ (map_to_list σ)) as [[n sv]|] eqn:E; [left|by right].
    apply find_some in E as [Hin Hc]. apply list_elem_of_In, elem_of_map_to_list in Hin.
    exists n, sv, (sv_kept sv ++ [(s, p)]). split_and!; [done|done|]. by apply changed_now.
  - intros n c o σ u. pose proof (mem_on_set n (add_consumer c) (λ _, tt) o σ u) as H.
    destruct H as [[He ->]|(sv & Hl & _ & ->)]; [by right|left]. by apply changed_now.
  - intros n d o σ u. by rewrite (proj1 (mem_on_read n (λ _, tt) o σ u)).
  - intros n d k o σ u. pose proof (mem_on_set n (add_ack (d, k)) (λ _, tt) o σ u) as H.
    destruct H as [[He ->]|(sv & Hl & _ & ->)]; [by right|left]. by apply changed_now.
Qed.

End memory_laws.
