(* ===== verification/Reconcile.v ===== *)
(** * The reconciler's decision (crates/orion-controller/src/decisions.rs)

    [decide_reconcile] compares a Service's desired replica slots with the
    observed instances and says what to launch.  The specification
    [reconcile_allowed] states the three possible decisions declaratively; the
    code refines it, and one round of launching what it asks for is a fixed
    point. *)

From Stdlib Require Import ZArith Lia Bool Sorted.
From stdpp Require Import base list gmap strings.
From S2P Require Import Prelude Types.

Inductive ReconcileAction : Type :=
| NoOp
| RedispatchAll (replicas : Z) (purge : list Uuid)
| DispatchPartial (slot_indices : list Z) (purge : list Uuid).

Record InstanceObservation : Type := {
  ob_instance_id : Uuid;
  ob_replica_index : Z;
  ob_exited : bool;
  ob_exit_code : option Z;
  ob_unhealthy : bool
}.

(** The three slot sets and the restart list [decide_reconcile] accumulates. *)
Record SlotTally : Type := {
  alive_slots : gset Z;
  terminal_slots : gset Z;
  restart_slots : gset Z;
  want_restart_ids : list Uuid
}.

Definition tally_empty : SlotTally :=
  {| alive_slots := ∅; terminal_slots := ∅; restart_slots := ∅; want_restart_ids := [] |}.

(** The restart decision for an instance that exited or turned unhealthy. *)
Definition wants_restart (policy : RestartPolicy) (i : InstanceObservation) : bool :=
  let effective_code :=
    if ob_exited i then default 0%Z (ob_exit_code i) else 1%Z in
  match policy with
  | Always => true
  | OnFailure => negb (effective_code =? 0)%Z
  | Never => false
  end.

(** One iteration of the loop over [instances]. *)
Definition tally_step (policy : RestartPolicy) (t : SlotTally) (i : InstanceObservation)
    : SlotTally :=
  if negb (ob_exited i) && negb (ob_unhealthy i) then
    {| alive_slots := {[ob_replica_index i]} ∪ alive_slots t;
       terminal_slots := terminal_slots t; restart_slots := restart_slots t;
       want_restart_ids := want_restart_ids t |}
  else if wants_restart policy i then
    {| alive_slots := alive_slots t; terminal_slots := terminal_slots t;
       restart_slots := {[ob_replica_index i]} ∪ restart_slots t;
       want_restart_ids := want_restart_ids t ++ [ob_instance_id i] |}
  else
    {| alive_slots := alive_slots t;
       terminal_slots := {[ob_replica_index i]} ∪ terminal_slots t;
       restart_slots := restart_slots t; want_restart_ids := want_restart_ids t |}.

Definition tally (policy : RestartPolicy) (instances : list InstanceObservation) : SlotTally :=
  foldl (tally_step policy) tally_empty instances.

(** [spec.replicas.unwrap_or(1).max(1)]. *)
Definition desired_replicas {J : SerdeJson} (spec : ServiceSpec) : Z :=
  Z.max (default 1%Z (svc_replicas spec)) 1.

Definition decide_reconcile {J : SerdeJson} (spec : ServiceSpec)
    (instances : list InstanceObservation) : ReconcileAction :=
  let desired := desired_replicas spec in
  let t := tally (svc_restart_policy spec) instances in
  let alive := len_u32 (elements (alive_slots t)) in
  let terminal := len_u32 (elements (terminal_slots t)) in
  let want_restart := len_u32 (elements (restart_slots t)) in
  let missing_slots :=
    sort_by Z.compare
      (List.filter (λ i, negb (bool_decide (i ∈ alive_slots t))
                         && negb (bool_decide (i ∈ terminal_slots t))
                         && negb (bool_decide (i ∈ restart_slots t)))
                   (range_u32 0 desired)) in
  let to_launch := wrap_u32 (len_u32 missing_slots + want_restart) in
  if (to_launch =? 0)%Z then NoOp
  else if (alive =? 0)%Z && (terminal <? desired)%Z then
    RedispatchAll desired (want_restart_ids t)
  else
    let restart_vec := sort_by Z.compare (elements (restart_slots t)) in
    let slot_indices := sort_by Z.compare (missing_slots ++ restart_vec) in
    DispatchPartial slot_indices (want_restart_ids t).

(** ** Specification *)

(** What an observation is for the reconciler. *)
Definition is_alive (i : InstanceObservation) : bool :=
  negb (ob_exited i) && negb (ob_unhealthy i).

(** The restart policies: [Always]; [OnFailure], for an unhealthy instance or a known
    exit code other than 0; [Never]. *)
Definition restart_due (policy : RestartPolicy) (i : InstanceObservation) : bool :=
  match policy with
  | Always => true
  | OnFailure => negb (ob_exited i) ||
      match ob_exit_code i with Some c => bool_decide (c ≠ 0%Z) | None => false end
  | Never => false
  end.

Definition is_restartable (policy : RestartPolicy) (i : InstanceObservation) : bool :=
  negb (is_alive i) && restart_due policy i.
Definition is_terminal (policy : RestartPolicy) (i : InstanceObservation) : bool :=
  negb (is_alive i) && negb (restart_due policy i).

Section decision.
Context {J : SerdeJson} (spec : ServiceSpec) (l : list InstanceObservation).
Notation policy := (svc_restart_policy spec).
Notation desired := (desired_replicas spec).

(** A slot of the Service no observed instance accounts for. *)
Definition missing (s : Z) : Prop :=
  (0 <= s < desired)%Z ∧ ∀ i, i ∈ l → ob_replica_index i ≠ s.

(** A slot whose instance is to be restarted. *)
Definition to_restart (s : Z) : Prop :=
  ∃ i, i ∈ l ∧ is_restartable policy i = true ∧ ob_replica_index i = s.

(** The instances to purge, in observation order. *)
Definition restart_ids : list Uuid :=
  ob_instance_id <$> List.filter (is_restartable policy) l.

(** The slots held by an instance in a terminal state. *)
Definition terminals : gset Z :=
  list_to_set (ob_replica_index <$> List.filter (is_terminal policy) l).

(** The decisions the contract of the reconciler allows. *)
Inductive reconcile_allowed : ReconcileAction → Prop :=
| allowed_noop :
    (∀ s, ¬ missing s ∧ ¬ to_restart s) →
    reconcile_allowed NoOp
| allowed_all :
    (∃ s, missing s ∨ to_restart s) →
    (∀ i, i ∈ l → is_alive i = false) →
    (Z.of_nat (size terminals) < desired)%Z →
    reconcile_allowed (RedispatchAll desired restart_ids)
| allowed_partial slots :
    (∃ s, missing s ∨ to_restart s) →
    (∃ i, i ∈ l ∧ is_alive i = true) ∨ (desired <= Z.of_nat (size terminals))%Z →
    StronglySorted Z.lt slots →
    (∀ s, s ∈ slots ↔ missing s ∨ to_restart s) →
    reconcile_allowed (DispatchPartial slots restart_ids).

(** Slot counts fit in a [u32]. *)
Definition counts_fit : Prop := (Z.of_nat (length l) + desired <= u32_max)%Z.

End decision.

(** ** The accumulated sets *)

Lemma tally_app policy l i :
  tally policy (l ++ [i]) = tally_step policy (tally policy l) i.
Proof. unfold tally. by rewrite foldl_app. Qed.

(** The code's effective exit code computes the policy. *)
Lemma wants_restart_due policy i : wants_restart policy i = restart_due policy i.
Proof.
  unfold wants_restart, restart_due. destruct policy, (ob_exited i), (ob_exit_code i) as [c|];
    simpl; try done.
  destruct (Z.eqb_spec c 0); simpl.
  - by rewrite bool_decide_eq_false_2 by naive_solver.
  - by rewrite bool_decide_eq_true_2.
Qed.

(** The three cases of an observation. *)
Lemma obs_cases policy i :
  (is_alive i = true ∧ is_restartable policy i = false ∧ is_terminal policy i = false) ∨
  (is_alive i = false ∧ is_restartable policy i = true ∧ is_terminal policy i = false) ∨
  (is_alive i = false ∧ is_restartable policy i = false ∧ is_terminal policy i = true).
Proof.
  unfold is_restartable, is_terminal.
  destruct (is_alive i), (restart_due policy i); naive_solver.
Qed.

Lemma tally_step_spec policy t i :
  let t' := tally_step policy t i in
  alive_slots t' =
    (if is_alive i then {[ob_replica_index i]} ∪ alive_slots t else alive_slots t) ∧
  restart_slots t' =
    (if is_restartable policy i then {[ob_replica_index i]} ∪ restart_slots t
     else restart_slots t) ∧
  terminal_slots t' =
    (if is_terminal policy i then {[ob_replica_index i]} ∪ terminal_slots t
     else terminal_slots t) ∧
  want_restart_ids t' =
    want_restart_ids t ++ (if is_restartable policy i then [ob_instance_id i] else []).
Proof.
  unfold tally_step, is_restartable, is_terminal, is_alive. rewrite wants_restart_due.
  destruct (negb (ob_exited i) && negb (ob_unhealthy i)), (restart_due policy i); simpl;
    rewrite ?app_nil_r; done.
Qed.

(** Membership in a set grown along the observations by a test [f]. *)
Lemma grown_set (f : InstanceObservation → bool) (g : list InstanceObservation → gset Z) l :
  g [] = ∅ →
  (∀ l i, g (l ++ [i]) = if f i then {[ob_replica_index i]} ∪ g l else g l) →
  g l = list_to_set (ob_replica_index <$> List.filter f l).
Proof.
  intros H0 Hs. induction l as [|i l IH] using rev_ind; [by rewrite H0|].
  rewrite Hs, List.filter_app, fmap_app, list_to_set_app_L, IH. simpl.
  destruct (f i); simpl; set_solver.
Qed.

Lemma tally_alive policy l :
  alive_slots (tally policy l) = list_to_set (ob_replica_index <$> List.filter is_alive l).
Proof.
  apply (grown_set is_alive (λ l, alive_slots (tally policy l))); [done|].
  intros k i. rewrite tally_app. apply tally_step_spec.
Qed.

Lemma tally_restart policy l :
  restart_slots (tally policy l) =
  list_to_set (ob_replica_index <$> List.filter (is_restartable policy) l).
Proof.
  apply (grown_set (is_restartable policy) (λ l, restart_slots (tally policy l))); [done|].
  intros k i. rewrite tally_app. apply tally_step_spec.
Qed.

Lemma tally_terminal policy l :
  terminal_slots (tally policy l) =
  list_to_set (ob_replica_index <$> List.filter (is_terminal policy) l).
Proof.
  apply (grown_set (is_terminal policy) (λ l, terminal_slots (tally policy l))); [done|].
  intros k i. rewrite tally_app. apply tally_step_spec.
Qed.

Lemma tally_ids {J : SerdeJson} spec l :
  want_restart_ids (tally (svc_restart_policy spec) l) = restart_ids spec l.
Proof.
  induction l as [|i l IH] using rev_ind; [done|].
  rewrite tally_app. destruct (tally_step_spec (svc_restart_policy spec)
    (tally (svc_restart_policy spec) l) i) as (_ & _ & _ & ->).
  rewrite IH. unfold restart_ids. rewrite List.filter_app, fmap_app. simpl.
  by destruct (is_restartable _ i).
Qed.

Lemma elem_of_slot_set (f : InstanceObservation → bool) l s :
  s ∈ (list_to_set (ob_replica_index <$> List.filter f l) : gset Z) ↔
  ∃ i, i ∈ l ∧ f i = true ∧ ob_replica_index i = s.
Proof.
  rewrite elem_of_list_to_set, list_elem_of_fmap. setoid_rewrite elem_of_bfilter. naive_solver.
Qed.

Lemma slot_set_size (f : InstanceObservation → bool) l :
  size (list_to_set (ob_replica_index <$> List.filter f l) : gset Z) ≤ length l.
Proof.
  etrans; [apply size_list_to_set_le|]. rewrite length_fmap. apply List.filter_length_le.
Qed.

(** ** Refinement *)

Section refinement.
Context {J : SerdeJson} (spec : ServiceSpec) (l : list InstanceObservation).
Notation policy := (svc_restart_policy spec).
Notation desired := (desired_replicas spec).
Notation T := (tally policy l).

(** The [missing_slots] vector of the code before it is sorted. *)
Notation missing_vec :=
  (List.filter (λ i, negb (bool_decide (i ∈ alive_slots T))
                     && negb (bool_decide (i ∈ terminal_slots T))
                     && negb (bool_decide (i ∈ restart_slots T)))
               (range_u32 0 desired)).

Lemma elem_of_missing_vec s : s ∈ missing_vec ↔ missing spec l s.
Proof.
  rewrite elem_of_bfilter, elem_of_range_u32, !andb_true_iff, !negb_true_iff.
  rewrite !bool_decide_eq_false, tally_alive, tally_terminal, tally_restart.
  rewrite !elem_of_slot_set. unfold missing. split.
  - intros [Hs [[Ha Ht] Hr]]. split; [done|]. intros i Hi Hs'.
    destruct (obs_cases policy i) as [(?&?&?)|[(?&?&?)|(?&?&?)]]; naive_solver.
  - naive_solver.
Qed.

Lemma elem_of_restart_slots s : s ∈ restart_slots T ↔ to_restart spec l s.
Proof. rewrite tally_restart, elem_of_slot_set. done. Qed.

Lemma length_missing_vec : (Z.of_nat (length missing_vec) <= desired)%Z.
Proof.
  assert (1 <= desired)%Z by (unfold desired_replicas; lia).
  pose proof (List.filter_length_le (λ i, negb (bool_decide (i ∈ alive_slots T))
                     && negb (bool_decide (i ∈ terminal_slots T))
                     && negb (bool_decide (i ∈ restart_slots T))) (range_u32 0 desired)).
  rewrite length_range_u32 in *. lia.
Qed.

Lemma NoDup_launch : NoDup (missing_vec ++ elements (restart_slots T)).
Proof.
  apply NoDup_app. split_and!.
  - apply NoDup_bfilter, NoDup_range_u32.
  - intros s Hs%elem_of_missing_vec Hr%elem_of_elements%elem_of_restart_slots.
    destruct Hs as [_ Hs], Hr as (i & Hi & _ & <-). by apply (Hs i).
  - apply NoDup_elements.
Qed.

(** Nothing to launch. *)
Lemma nothing_to_launch :
  missing_vec = [] ∧ restart_slots T = ∅ ↔ ∀ s, ¬ missing spec l s ∧ ¬ to_restart spec l s.
Proof.
  setoid_rewrite <- elem_of_missing_vec. setoid_rewrite <- elem_of_restart_slots. split.
  - intros [-> ->] s. split; [apply not_elem_of_nil|set_solver].
  - intros H. split; [apply elem_of_nil_inv; naive_solver|set_solver].
Qed.

Lemma something_to_launch :
  ¬ (missing_vec = [] ∧ restart_slots T = ∅) → ∃ s, missing spec l s ∨ to_restart spec l s.
Proof.
  intros H. destruct missing_vec as [|s v] eqn:E.
  - destruct (set_choose_L (restart_slots T)) as [s Hs]; [naive_solver|].
    exists s. right. by apply elem_of_restart_slots.
  - exists s. left. apply elem_of_missing_vec. rewrite E. by left.
Qed.

Hypothesis Hfit : counts_fit spec l.

Lemma slot_count (f : InstanceObservation → bool) (X : gset Z) :
  X = list_to_set (ob_replica_index <$> List.filter f l) →
  len_u32 (elements X) = Z.of_nat (size X) ∧ (Z.of_nat (size X) <= Z.of_nat (length l))%Z.
Proof.
  intros ->. pose proof (slot_set_size f l). unfold counts_fit in Hfit.
  assert (1 <= desired)%Z by (unfold desired_replicas; lia).
  split; [apply len_u32_small; unfold size, set_size in *; simpl in *; lia|lia].
Qed.

Lemma to_launch_zero :
  wrap_u32 (len_u32 (sort_by Z.compare missing_vec) + len_u32 (elements (restart_slots T))) = 0%Z
  ↔ missing_vec = [] ∧ restart_slots T = ∅.
Proof.
  destruct (slot_count _ _ (tally_restart policy l)) as [-> Hr].
  pose proof length_missing_vec. unfold counts_fit in Hfit.
  rewrite len_u32_small by (rewrite length_sort_by; lia).
  rewrite length_sort_by, wrap_u32_small by (unfold is_u32; lia).
  rewrite <- length_zero_iff_nil. split.
  - intros H0. split; [lia|]. apply leibniz_equiv, size_empty_inv. lia.
  - intros [-> ->]. by rewrite size_empty.
Qed.

Lemma decide_reconcile_refines : reconcile_allowed spec l (decide_reconcile spec l).
Proof.
  unfold decide_reconcile. cbv zeta.
  destruct (_ =? 0)%Z eqn:E0.
  { apply Z.eqb_eq, to_launch_zero in E0. constructor. by apply nothing_to_launch. }
  apply Z.eqb_neq in E0. rewrite to_launch_zero in E0.
  apply something_to_launch in E0.
  destruct (slot_count _ _ (tally_alive policy l)) as [-> _].
  destruct (slot_count _ _ (tally_terminal policy l)) as [-> _].
  rewrite tally_ids.
  replace (size (terminal_slots T)) with (size (terminals spec l))
    by (by rewrite tally_terminal).
  assert (alive_slots T = ∅ ↔ ∀ i, i ∈ l → is_alive i = false) as Ha.
  { rewrite tally_alive. split.
    - intros H i Hi. destruct (is_alive i) eqn:E; [|done].
      assert (ob_replica_index i ∈ (∅ : gset Z)); [|set_solver].
      rewrite <- H. apply elem_of_slot_set. eauto.
    - intros H. apply set_eq. intros s. rewrite elem_of_slot_set.
      split; [|set_solver]. intros (i & Hi & Ht & _). by rewrite H in Ht. }
  destruct (_ && _) eqn:E.
  - apply andb_true_iff in E as [E1%Z.eqb_eq E2%Z.ltb_lt].
    constructor; [done| |done]. apply Ha, leibniz_equiv, size_empty_inv. lia.
  - constructor; [done| | |].
    + destruct (decide (alive_slots T = ∅)) as [Hn|Hn].
      * right. rewrite Hn, size_empty in E. simpl in E. apply Z.ltb_ge in E. lia.
      * left. apply set_choose_L in Hn as [s Hs]. rewrite tally_alive in Hs.
        apply elem_of_slot_set in Hs as (i & ? & ? & _). eauto.
    + apply sort_by_Z_lt. rewrite !sort_by_perm. apply NoDup_launch.
    + intros s. rewrite elem_of_sort_by, elem_of_app, !elem_of_sort_by.
      by rewrite elem_of_missing_vec, elem_of_elements, elem_of_restart_slots.
Qed.

End refinement.

(** The contract leaves no freedom: at most one decision is allowed. *)
Lemma reconcile_allowed_unique {J : SerdeJson} spec l a b :
  reconcile_allowed spec l a → reconcile_allowed spec l b → a = b.
Proof.
  intros Ha Hb. destruct Ha as [H|[s H] Hd Ht|sl [s H] Hd Hs Hm];
    destruct Hb as [H'|[s' H'] Hd' Ht'|sl' [s' H'] Hd' Hs' Hm'];
    try done; try (exfalso; naive_solver).
  - exfalso. destruct Hd' as [(i & Hi & E)|]; [|lia]. by rewrite Hd in E.
  - exfalso. destruct Hd as [(i & Hi & E)|]; [|lia]. by rewrite Hd' in E.
  - f_equal. apply StronglySorted_lt_unique; [done..|]. intros x. by rewrite Hm, Hm'.
Qed.

Lemma decide_reconcile_iff {J : SerdeJson} spec l a :
  counts_fit spec l → reconcile_allowed spec l a ↔ decide_reconcile spec l = a.
Proof.
  intros Hf. pose proof (decide_reconcile_refines spec l Hf). split; [|by intros <-].
  intros Ha. by eapply reconcile_allowed_unique.
Qed.

(** ** One round of reconciliation *)

(** The registry after the purge, and the instances a round launches: one
    running instance per requested slot, with the ids [fresh] gives them. *)
Definition purged (l : list InstanceObservation) (ids : list Uuid) : list InstanceObservation :=
  List.filter (λ i, negb (bool_decide (ob_instance_id i ∈ ids))) l.

Definition launched (fresh : Z → Uuid) (slots : list Z) : list InstanceObservation :=
  (λ s, {| ob_instance_id := fresh s; ob_replica_index := s; ob_exited := false;
           ob_exit_code := None; ob_unhealthy := false |}) <$> slots.

Definition after_round (fresh : Z → Uuid) (l : list InstanceObservation) (a : ReconcileAction)
    : list InstanceObservation :=
  match a with
  | NoOp => l
  | RedispatchAll n ids => purged l ids ++ launched fresh (range_u32 0 n)
  | DispatchPartial slots ids => purged l ids ++ launched fresh slots
  end.

Section round.
Context {J : SerdeJson} (spec : ServiceSpec) (fresh : Z → Uuid) (l : list InstanceObservation).
Hypothesis Hids : NoDup (ob_instance_id <$> l).

Lemma elem_of_purged i :
  i ∈ purged l (restart_ids spec l) ↔
  i ∈ l ∧ is_restartable (svc_restart_policy spec) i = false.
Proof.
  unfold purged, restart_ids. rewrite elem_of_bfilter, negb_true_iff, bool_decide_eq_false.
  rewrite list_elem_of_fmap. setoid_rewrite elem_of_bfilter. split; intros [Hi H]; split; auto.
  - destruct (is_restartable _ i) eqn:E; [|done]. naive_solver.
  - intros (j & Hj & Hjl & Hr). assert (i = j) as ->; [|congruence].
    apply list_elem_of_lookup in Hi as [n Hn], Hjl as [m Hm].
    assert (n = m) as ->; [|congruence].
    apply (NoDup_lookup _ _ _ (ob_instance_id i) Hids); rewrite list_lookup_fmap.
    + by rewrite Hn.
    + by rewrite Hm, Hj.
Qed.

Lemma elem_of_launched i slots :
  i ∈ launched fresh slots → is_alive i = true ∧ ob_replica_index i ∈ slots.
Proof. unfold launched. rewrite list_elem_of_fmap. intros (s & -> & Hs). done. Qed.

Lemma slot_launched s slots :
  s ∈ slots → ∃ i, i ∈ launched fresh slots ∧ ob_replica_index i = s.
Proof. intros Hs. eexists. split; [unfold launched; apply list_elem_of_fmap; eauto|done]. Qed.

(** Launching a list of slots that covers what is missing or to be restarted,
    after the purge, leaves nothing to do. *)
Lemma round_settles slots :
  (∀ s, missing spec l s ∨ ((0 <= s < desired_replicas spec)%Z ∧ to_restart spec l s) →
        s ∈ slots) →
  let l' := purged l (restart_ids spec l) ++ launched fresh slots in
  ∀ s, ¬ missing spec l' s ∧ ¬ to_restart spec l' s.
Proof.
  intros Hcov l' s. split.
  - intros [Hs Hno]. assert (s ∉ slots) as Hns.
    { intros (i & Hi & Es)%slot_launched. apply (Hno i); [|done]. apply elem_of_app. by right. }
    apply Hns, Hcov. left. split; [done|]. intros i Hi Es.
    destruct (is_restartable (svc_restart_policy spec) i) eqn:Er.
    + apply Hns, Hcov. right. split; [done|]. exists i. done.
    + apply (Hno i); [|done]. apply elem_of_app. left. by apply elem_of_purged.
  - intros (i & [Hi|Hi]%elem_of_app & Hr & _).
    + apply elem_of_purged in Hi as [_ Hf]. congruence.
    + apply elem_of_launched in Hi as [Ha _]. unfold is_restartable in Hr. by rewrite Ha in Hr.
Qed.

(** A round multiplies the number of observations by at most two. *)
Lemma length_purged ids : length (purged l ids) ≤ length l.
Proof. apply List.filter_length_le. Qed.

Lemma length_partial slots :
  StronglySorted Z.lt slots → (∀ s, s ∈ slots ↔ missing spec l s ∨ to_restart spec l s) →
  (Z.of_nat (length slots) <= desired_replicas spec + Z.of_nat (length l))%Z.
Proof.
  intros Hs Hm.
  assert (length slots ≤ length (range_u32 0 (desired_replicas spec) ++
            (ob_replica_index <$> l))) as H.
  { apply submseteq_length, NoDup_submseteq.
    - clear Hm. induction Hs as [|x k Hk IH Hx]; constructor; [|done].
      intros Hin. rewrite Forall_forall in Hx. apply Hx in Hin. lia.
    - intros s [[Hr _]|(i & Hi & _ & <-)]%Hm; apply elem_of_app.
      + left. by apply elem_of_range_u32.
      + right. by apply list_elem_of_fmap_2. }
  rewrite length_app, length_fmap, length_range_u32 in H.
  assert (1 <= desired_replicas spec)%Z by (unfold desired_replicas; lia). lia.
Qed.

Lemma round_noop :
  (2 * (Z.of_nat (length l) + desired_replicas spec) <= u32_max)%Z →
  decide_reconcile spec (after_round fresh l (decide_reconcile spec l)) = NoOp.
Proof.
  intros Hf. assert (1 <= desired_replicas spec)%Z by (unfold desired_replicas; lia).
  assert (counts_fit spec l) as Hc by (unfold counts_fit; lia).
  pose proof (decide_reconcile_refines spec l Hc) as Hr.
  destruct Hr as [Hn|_ _ _|sl _ _ Hs Hm]; simpl; apply decide_reconcile_iff;
    unfold counts_fit; rewrite ?length_app; unfold launched; rewrite ?length_fmap;
    try lia; pose proof (length_purged (restart_ids spec l)).
  - by constructor.
  - rewrite length_range_u32. lia.
  - constructor. apply round_settles. intros s [[Hs _]|[Hs _]]; by apply elem_of_range_u32.
  - pose proof (length_partial _ Hs Hm). lia.
  - constructor. apply round_settles. intros s Hx. apply Hm. tauto.
Qed.

End round.

(** A Service that asks for [n] replicas under a restart policy. *)
Definition demo_service {J : SerdeJson} (n : Z) (p : RestartPolicy) : ServiceSpec :=
  {| svc_runtime := None; svc_replicas := Some n; svc_placement := Placement_default;
     svc_requires := CapabilitySelector_default; svc_capabilities := [];
     svc_ports := []; svc_health := None; svc_restart_policy := p |}.

(** An observation: id, slot, and the exit code when it exited. *)
Definition demo_obs (id : N) (slot : Z) (exit : option Z) : InstanceObservation :=
  {| ob_instance_id := id; ob_replica_index := slot;
     ob_exited := bool_decide (is_Some exit); ob_exit_code := exit; ob_unhealthy := false |}.

(** Three replicas wanted: slot 0 runs, slot 1 failed, slot 2 was never seen. *)
Definition demo_obs_list : list InstanceObservation :=
  [demo_obs 10 0 None; demo_obs 11 1 (Some 137%Z)].

(** ** Claims *)

(** C1: for slot counts that fit in a u32, [decide_reconcile] returns a decision
    exactly when the reconciler's contract allows it: nothing when no slot below
    the desired count is unaccounted for and no dead instance is restartable under
    the policy; a full redispatch when nothing is alive and some slot is not
    terminal; otherwise the sorted, duplicate-free list of missing and restartable
    slots; in both launching cases with the ids of the restartable instances to
    purge. *)
Theorem decide_reconcile_correct {J : SerdeJson} (spec : ServiceSpec)
    (l : list InstanceObservation) (Hf : counts_fit spec l) (a : ReconcileAction) :
  reconcile_allowed spec l a ↔ decide_reconcile spec l = a.
Proof. by apply decide_reconcile_iff. Qed.

Lemma decide_reconcile_correct_witness :
  reconcile_allowed (J := toy_json) (demo_service 3 OnFailure) demo_obs_list
    (DispatchPartial [1%Z; 2%Z] [11%N]).
Proof.
  apply (decide_reconcile_correct (J := toy_json)).
  - unfold counts_fit, desired_replicas. vm_compute. discriminate.
  - vm_compute. reflexivity.
Defined.

(** C10: one round converges.  With distinct instance ids, once the ids the decision
    names are purged and every slot it names runs a fresh instance, the next
    decision is [NoOp]: the loop does not launch the same slots twice. *)
Theorem reconcile_converges {J : SerdeJson} (spec : ServiceSpec) (fresh : Z → Uuid)
    (l : list InstanceObservation)
    (Hids : NoDup (ob_instance_id <$> l))
    (Hf : (2 * (Z.of_nat (length l) + desired_replicas spec) <= u32_max)%Z) :
  decide_reconcile spec (after_round fresh l (decide_reconcile spec l)) = NoOp.
Proof. by apply round_noop. Qed.

Lemma reconcile_converges_witness :
  decide_reconcile (J := toy_json) (demo_service 3 OnFailure)
    (after_round (λ s, Z.to_N (100 + s)) demo_obs_list
       (decide_reconcile (J := toy_json) (demo_service 3 OnFailure) demo_obs_list)) = NoOp.
Proof.
  apply (reconcile_converges (J := toy_json)).
  - apply (bool_decide_unpack _). vm_compute. exact I.
  - unfold desired_replicas. vm_compute. discriminate.
Defined.

(** Scaling down does not retire surplus slots.  While some instance is alive, a
    dead restartable instance in a slot at or above the desired count is relaunched
    in that slot, although the action's slot indices are documented as lying in
    [0..desired]. *)
Theorem surplus_slot_relaunched {J : SerdeJson} (spec : ServiceSpec)
    (l : list InstanceObservation) (live dead : InstanceObservation)
    (Hf : counts_fit spec l)
    (Hlive : live ∈ l) (Ha : is_alive live = true)
    (Hdead : dead ∈ l) (Hr : is_restartable (svc_restart_policy spec) dead = true)
    (Hs : (desired_replicas spec <= ob_replica_index dead)%Z) :
  ∃ slots, decide_reconcile spec l = DispatchPartial slots (restart_ids spec l) ∧
           ob_replica_index dead ∈ slots.
Proof.
  assert (to_restart spec l (ob_replica_index dead)) as Ht by (exists dead; done).
  pose proof (decide_reconcile_refines spec l Hf) as H.
  destruct H as [Hn|_ Hd _|sl _ _ _ Hm].
  - by destruct (Hn (ob_replica_index dead)).
  - specialize (Hd live Hlive). congruence.
  - exists sl. split; [done|]. apply Hm. by right.
Qed.

Lemma surplus_slot_relaunched_witness :
  ∃ slots,
    decide_reconcile (J := toy_json) (demo_service 1 Always)
      [demo_obs 10 0 None; demo_obs 11 4 (Some 0%Z)] = DispatchPartial slots [11%N] ∧
    4%Z ∈ slots.
Proof.
  apply (surplus_slot_relaunched (J := toy_json) (demo_service 1 Always)
    [demo_obs 10 0 None; demo_obs 11 4 (Some 0%Z)]
    (demo_obs 10 0 None) (demo_obs 11 4 (Some 0%Z))).
  - unfold counts_fit, desired_replicas. vm_compute. discriminate.
  - by left.
  - reflexivity.
  - right. by left.
  - reflexivity.
  - vm_compute. discriminate.
Defined.
