(* ===== verification/Workflow.v ===== *)
(** * Workflow planning (crates/orion-controller/src/decisions.rs)

    [advance_workflow] moves a workflow one tick forward: it initialises unseen
    steps, promotes running steps whose task has exited, and walks the pending
    steps, failing or dispatching them.  The theorems characterise every status
    change, show that a well-founded workflow finishes, and that one with an
    undefined dependency does not. *)

From Stdlib Require Import ZArith Lia Bool.
From stdpp Require Import base list gmap strings.
From S2P Require Import Prelude Types.

Inductive StepStatus : Type := Pending | Running | Succeeded | Failed.
#[export] Instance StepStatus_eq : EqDecision StepStatus.
Proof. solve_decision. Defined.

Record StepState : Type := { st_status : StepStatus }.

(** [TaskExitKind::Succeeded] and [TaskExitKind::Failed]. *)
Inductive TaskExitKind : Type := TaskSucceeded | TaskFailed.
#[export] Instance TaskExitKind_eq : EqDecision TaskExitKind.
Proof. solve_decision. Defined.

Notation progress_map := (gmap string StepStatus).
Notation task_map := (gmap string TaskExitKind).

Record WorkflowInputs : Type := {
  wi_spec : WorkflowSpec;
  wi_progress : progress_map;
  wi_task_states : task_map
}.

Record WorkflowAdvance : Type := {
  next_progress : progress_map;
  dispatch : list string;
  finished : bool
}.

(** First loop: unseen steps become [Pending]. *)
Definition init_step (next : progress_map) (s : WorkflowStep) : progress_map :=
  match next !! ws_name s with
  | Some _ => next
  | None => <[ws_name s := Pending]> next
  end.

Definition status_of_exit (k : TaskExitKind) : StepStatus :=
  match k with TaskSucceeded => Succeeded | TaskFailed => Failed end.

(** Second loop: a running step whose task reported an exit. *)
Definition promote_step (task_states : task_map) (next : progress_map) (s : WorkflowStep)
    : progress_map :=
  match next !! ws_name s with
  | Some Running =>
      match task_states !! ws_task s with
      | Some kind => <[ws_name s := status_of_exit kind]> next
      | None => next
      end
  | _ => next
  end.

Definition dep_status (next : progress_map) (d : string) : StepStatus :=
  default Pending (next !! d).

Definition blocked_by_failure (spec : WorkflowSpec) (next : progress_map) (s : WorkflowStep)
    : bool :=
  existsb (λ d, negb (wf_continue_on_error spec)
                && bool_decide (dep_status next d = Failed)) (ws_depends_on s).

Definition deps_ready (spec : WorkflowSpec) (next : progress_map) (s : WorkflowStep) : bool :=
  forallb (λ d, bool_decide (dep_status next d = Succeeded)
                || (wf_continue_on_error spec
                    && bool_decide (dep_status next d = Failed))) (ws_depends_on s).

(** Third loop: fail or dispatch a pending step. *)
Definition schedule_step (spec : WorkflowSpec) (st : progress_map * list string)
    (s : WorkflowStep) : progress_map * list string :=
  let '(next, disp) := st in
  match next !! ws_name s with
  | Some Pending =>
      if blocked_by_failure spec next s then (<[ws_name s := Failed]> next, disp)
      else if deps_ready spec next s then
        (<[ws_name s := Running]> next, disp ++ [ws_name s])
      else (next, disp)
  | _ => (next, disp)
  end.

Definition is_done (s : StepStatus) : bool :=
  match s with Succeeded | Failed => true | Pending | Running => false end.

Definition advance_workflow (inputs : WorkflowInputs) : WorkflowAdvance :=
  let spec := wi_spec inputs in
  let next := foldl init_step (wi_progress inputs) (wf_steps spec) in
  let next := foldl (promote_step (wi_task_states inputs)) next (wf_steps spec) in
  let '(next, disp) := foldl (schedule_step spec) (next, []) (wf_steps spec) in
  {| next_progress := next; dispatch := disp;
     finished := map_all (λ _ s, is_done s) next && negb (bool_decide (next = ∅)) |}.

(** ** Planning every workflow *)

Record DispatchSpec : Type := { ds_step_name : string; ds_task_name : string }.

Record WorkflowPlanEntry : Type := {
  wp_workflow : string;
  wp_next_progress : progress_map;
  wp_dispatch : list DispatchSpec;
  wp_finished : bool
}.

(** The Task a dispatched step name stands for: the first step of that name. *)
Definition dispatch_spec (spec : WorkflowSpec) (step_name : string) : option DispatchSpec :=
  (λ s, {| ds_step_name := step_name; ds_task_name := ws_task s |}) <$>
  List.find (λ s, bool_decide (ws_name s = step_name)) (wf_steps spec).

Definition plan_one {J : SerdeJson} (progress : gmap string progress_map) (task_states : task_map)
    (wf : Resource) : option WorkflowPlanEntry :=
  let name := md_name (metadata wf) in
  match body wf with
  | BWorkflow spec _ =>
      let current := default ∅ (progress !! name) in
      let plan := advance_workflow
        {| wi_spec := spec; wi_progress := current; wi_task_states := task_states |} in
      Some {| wp_workflow := name; wp_next_progress := next_progress plan;
              wp_dispatch := omap (dispatch_spec spec) (dispatch plan);
              wp_finished := finished plan |}
  | _ => None
  end.

Definition plan_all_workflows {J : SerdeJson} (workflows : list Resource)
    (progress : gmap string progress_map) (task_states : task_map) : list WorkflowPlanEntry :=
  omap (plan_one progress task_states) workflows.

(** ** Status order *)

(** How the status of one step may evolve. *)
Definition status_le (a b : StepStatus) : bool :=
  match a, b with
  | Pending, _ => true
  | Running, (Running | Succeeded | Failed) => true
  | Succeeded, Succeeded | Failed, Failed => true
  | _, _ => false
  end.

Lemma status_le_trans a b c :
  status_le a b = true → status_le b c = true → status_le a c = true.
Proof. by destruct a, b, c. Qed.

(** Every known step stays known and only moves forward. *)
Definition progress_le (m m' : progress_map) : Prop :=
  ∀ n a, m !! n = Some a → ∃ b, m' !! n = Some b ∧ status_le a b = true.

#[export] Instance progress_le_preorder : PreOrder progress_le.
Proof.
  split.
  - intros m n a H. exists a. by destruct a.
  - intros m1 m2 m3 H1 H2 n a (b & Hb & Hab)%H1. apply H2 in Hb as (c & Hc & Hbc).
    exists c. split; [done|]. by eapply status_le_trans.
Qed.

Lemma progress_le_insert m n a b :
  m !! n = Some a → status_le a b = true → progress_le m (<[n := b]> m).
Proof.
  intros Hn Hab k c Hk. destruct (decide (n = k)) as [->|Hne].
  - exists b. rewrite lookup_insert_eq. naive_solver.
  - exists c. rewrite lookup_insert_ne by done. split; [done|]. by destruct c.
Qed.

(** A terminal status never changes again. *)
Lemma progress_le_done m m' n a :
  progress_le m m' → m !! n = Some a → is_done a = true → m' !! n = Some a.
Proof. intros Hle (b & Hb & Hab)%Hle Hd. rewrite Hb. by destruct a, b. Qed.

Lemma dep_status_done m m' d :
  progress_le m m' → is_done (dep_status m d) = true → dep_status m' d = dep_status m d.
Proof.
  unfold dep_status. intros Hle Hd. destruct (m !! d) as [a|] eqn:E; [|done].
  simpl in *. by rewrite (progress_le_done _ _ _ _ Hle E Hd).
Qed.

Lemma progress_le_not_pending m m' n :
  progress_le m m' → is_Some (m !! n) → m !! n ≠ Some Pending → m' !! n ≠ Some Pending.
Proof. intros Hle [a Ha] Hp. destruct (Hle _ _ Ha) as (b & -> & Hab). by destruct a, b. Qed.

(** A list of forward moves is a forward move. *)
Lemma foldl_preserves {A B} (R : relation A) `{!PreOrder R} (f : A → B → A) l a :
  (∀ a b, R a (f a b)) → R a (foldl f a l).
Proof.
  intros Hf. revert a. induction l as [|b l IH]; intros a; simpl; [done|].
  by trans (f a b).
Qed.

(** ** The three loops *)

Section loops.
Context (spec : WorkflowSpec).

Lemma blocked_stable m m' s :
  progress_le m m' → blocked_by_failure spec m s = true → blocked_by_failure spec m' s = true.
Proof.
  unfold blocked_by_failure. rewrite !existsb_Exists. intros Hle (d & Hd & Hf).
  exists d. split; [done|]. apply andb_true_iff in Hf as [-> Hf%bool_decide_eq_true].
  rewrite (dep_status_done m m') by (done || by rewrite Hf). by rewrite Hf.
Qed.

Lemma ready_stable m m' s :
  progress_le m m' → deps_ready spec m s = true → deps_ready spec m' s = true.
Proof.
  unfold deps_ready. rewrite !forallb_Forall, !Forall_forall. intros Hle Hr d Hd.
  specialize (Hr d Hd). rewrite (dep_status_done m m'); [done|done|].
  by destruct (dep_status m d), (wf_continue_on_error spec).
Qed.

Lemma not_blocked_not_ready m s :
  blocked_by_failure spec m s = false → deps_ready spec m s = false →
  ∃ d, d ∈ ws_depends_on s ∧ is_done (dep_status m d) = false.
Proof.
  unfold blocked_by_failure, deps_ready. intros Hb Hr.
  apply not_true_iff_false in Hr. rewrite forallb_Forall in Hr.
  apply not_Forall_Exists, Exists_exists in Hr as (d & Hd & Hn);
    [|intros x; apply bool_eq_dec].
  exists d. split; [done|]. destruct (is_done _) eqn:E; [exfalso|done].
  apply not_true_iff_false in Hb. rewrite existsb_Exists in Hb.
  simpl in Hn. destruct (dep_status m d) eqn:Es; try done.
  destruct (wf_continue_on_error spec) eqn:Ec; [done|].
  apply Hb. exists d. split; [done|]. by rewrite Es.
Qed.

Lemma init_step_le m s : progress_le m (init_step m s).
Proof.
  intros n a Hn. unfold init_step. exists a. split; [|by destruct a].
  destruct (m !! ws_name s) eqn:E; [done|]. rewrite lookup_insert_ne; congruence.
Qed.

Lemma promote_step_le ts m s : progress_le m (promote_step ts m s).
Proof.
  unfold promote_step. destruct (m !! ws_name s) as [[]|] eqn:E; try done.
  destruct (ts !! ws_task s) as [k|]; [|done].
  eapply progress_le_insert; [done|by destruct k].
Qed.

Lemma schedule_step_le m disp s :
  progress_le m (schedule_step spec (m, disp) s).1.
Proof.
  unfold schedule_step. destruct (m !! ws_name s) as [[]|] eqn:E; try done.
  destruct (blocked_by_failure _ _ _); [by eapply progress_le_insert|].
  destruct (deps_ready _ _ _); [by eapply progress_le_insert|done].
Qed.

Lemma schedule_le st l : progress_le st.1 (foldl (schedule_step spec) st l).1.
Proof.
  revert st. induction l as [|s l IH]; intros [m disp]; [done|].
  etrans; [apply (schedule_step_le m disp s)|apply (IH (schedule_step spec (m, disp) s))].
Qed.

(** Initialisation: exactly the steps without a status become [Pending]. *)
Lemma init_lookup l m n :
  foldl init_step m l !! n =
  match m !! n with
  | Some a => Some a
  | None => if bool_decide (n ∈ ws_name <$> l) then Some Pending else None
  end.
Proof.
  revert m. induction l as [|s l IH]; intros m; simpl; [by destruct (m !! n)|].
  rewrite IH. unfold init_step.
  destruct (m !! ws_name s) as [a|] eqn:E; destruct (decide (ws_name s = n)) as [<-|Hne];
    rewrite ?E, ?lookup_insert_eq, ?lookup_insert_ne by done.
  - done.
  - destruct (m !! n); [done|]. case_bool_decide as H1; case_bool_decide as H2; try done.
    + by rewrite elem_of_cons in H2; destruct H2; right.
    + rewrite elem_of_cons in H2. naive_solver.
  - by rewrite bool_decide_eq_true_2 by (by left).
  - destruct (m !! n); [done|]. case_bool_decide as H1; case_bool_decide as H2; try done.
    + by rewrite elem_of_cons in H2; destruct H2; right.
    + rewrite elem_of_cons in H2. naive_solver.
Qed.

(** Promotion: a running step takes the status of a reported exit of its task, and
    stays as it is when no exit is reported. *)
Lemma promote_lookup ts l m n :
  let m' := foldl (promote_step ts) m l in
  (m' !! n = m !! n ∧
   (m !! n = Some Running → ∀ s, s ∈ l → ws_name s = n → ts !! ws_task s = None)) ∨
  (m !! n = Some Running ∧
   ∃ s k, s ∈ l ∧ ws_name s = n ∧ ts !! ws_task s = Some k ∧
          m' !! n = Some (status_of_exit k)).
Proof.
  revert m. induction l as [|s l IH]; intros m m'.
  { left. split; [done|]. intros _ s Hs. by apply elem_of_nil in Hs. }
  subst m'. simpl. specialize (IH (promote_step ts m s)). simpl in IH.
  revert IH. generalize (foldl (promote_step ts) (promote_step ts m s) l). intros m' IH.
  unfold promote_step in IH. destruct (decide (ws_name s = n)) as [<-|Hne].
  - destruct (m !! ws_name s) as [[]|] eqn:E;
      [|destruct (ts !! ws_task s) as [k|] eqn:Ek|..];
      rewrite ?E, ?lookup_insert_eq in IH.
    2: { right. split; [done|]. exists s, k. split_and!; try done; [by left|].
         destruct IH as [[? _]|[? _]]; [done|by destruct k]. }
    2: { destruct IH as [[-> Hn]|(_ & s' & k' & ? & ? & ? & ?)].
         - left. split; [done|]. intros _ s' [->|Hs']%elem_of_cons; eauto.
         - right. split; [done|]. exists s', k'. split_and!; try done. by right. }
    all: left; destruct IH as [[-> _]|[? _]]; done.
  - assert ((promote_step ts m s) !! n = m !! n) as Hsame.
    { unfold promote_step. repeat case_match; by rewrite ?lookup_insert_ne. }
    unfold promote_step in Hsame. rewrite Hsame in IH.
    destruct IH as [[-> Hn]|(? & s' & k' & ? & ? & ? & ?)].
    + left. split; [done|]. intros Hr s' [->|Hs']%elem_of_cons; [done|]. by apply Hn.
    + right. split; [done|]. exists s', k'. split_and!; try done. by right.
Qed.

(** What the third loop did to the step [n]. *)
Inductive sched_move (l : list WorkflowStep) (st st' : progress_map * list string)
    (n : string) : Prop :=
| sched_same :
    st'.1 !! n = st.1 !! n → (n ∈ st'.2 ↔ n ∈ st.2) → sched_move l st st' n
| sched_run s :
    s ∈ l → ws_name s = n → st.1 !! n = Some Pending → st'.1 !! n = Some Running →
    n ∈ st'.2 → deps_ready spec st'.1 s = true → sched_move l st st' n
| sched_fail s :
    s ∈ l → ws_name s = n → st.1 !! n = Some Pending → st'.1 !! n = Some Failed →
    (n ∈ st'.2 ↔ n ∈ st.2) → blocked_by_failure spec st'.1 s = true → sched_move l st st' n.

Lemma schedule_step_move st s n : sched_move [s] st (schedule_step spec st s) n.
Proof.
  destruct st as [m disp]. pose proof (schedule_step_le m disp s) as Hle.
  revert Hle. unfold schedule_step. intros Hle.
  destruct (m !! ws_name s) as [[]|] eqn:E; try by apply sched_same.
  destruct (blocked_by_failure spec m s) eqn:Eb;
    [|destruct (deps_ready spec m s) eqn:Er; [|by apply sched_same]].
  all: destruct (decide (ws_name s = n)) as [<-|Hne].
  - eapply sched_fail; simpl; rewrite ?lookup_insert_eq; eauto; [by left|].
    by eapply blocked_stable.
  - apply sched_same; simpl; by rewrite ?lookup_insert_ne.
  - eapply sched_run; simpl; rewrite ?lookup_insert_eq; eauto; [by left| |].
    + apply elem_of_app. right. by left.
    + by eapply ready_stable.
  - apply sched_same; simpl; [by rewrite ?lookup_insert_ne|].
    rewrite elem_of_app, list_elem_of_singleton. naive_solver.
Qed.

Lemma schedule_move l st n : sched_move l st (foldl (schedule_step spec) st l) n.
Proof.
  revert st. induction l as [|s l IH]; intros st; [by apply sched_same|].
  simpl. pose proof (schedule_step_move st s n) as H1. specialize (IH (schedule_step spec st s)).
  pose proof (schedule_le (schedule_step spec st s) l) as Hle. revert IH H1 Hle.
  generalize (schedule_step spec st s). intros st1.
  generalize (foldl (schedule_step spec) st1 l). intros st2 IH H1 Hle.
  destruct H1 as [E1 D1|s' [->| ]%elem_of_cons Hn Hp Hr Hd Hy|s' [->| ]%elem_of_cons Hn Hp Hf Hd Hb];
    try (by exfalso; eapply not_elem_of_nil).
  - destruct IH as [E2 D2|s2 ? ? ? ? ? ?|s2 ? ? ? ? ? ?].
    + apply sched_same; [congruence|by rewrite D2].
    + apply (sched_run _ _ _ _ s2); try done; [by right|congruence].
    + apply (sched_fail _ _ _ _ s2); try done; [by right|congruence|by rewrite <- D1].
  - destruct IH as [E2 D2|s2 ? ? ? ? ? ?|s2 ? ? ? ? ? ?]; try congruence.
    apply (sched_run _ _ _ _ s); try done; [by left|congruence|by apply D2|].
    by eapply ready_stable.
  - destruct IH as [E2 D2|s2 ? ? ? ? ? ?|s2 ? ? ? ? ? ?]; try congruence.
    apply (sched_fail _ _ _ _ s); try done; [by left|congruence|by rewrite D2|].
    by eapply blocked_stable.
Qed.

(** The dispatch list names distinct steps, all of them now running. *)
Definition dispatch_ok (st : progress_map * list string) : Prop :=
  NoDup st.2 ∧ ∀ n, n ∈ st.2 → st.1 !! n = Some Running.

Lemma schedule_step_ok st s : dispatch_ok st → dispatch_ok (schedule_step spec st s).
Proof.
  destruct st as [m disp]. intros [Hnd Hrun]. simpl in *. unfold schedule_step.
  destruct (m !! ws_name s) as [[]|] eqn:E; try done.
  assert (ws_name s ∉ disp) as Hfresh by (intros Hin; apply Hrun in Hin; congruence).
  destruct (blocked_by_failure spec m s); [|destruct (deps_ready spec m s); [|done]].
  - split; simpl; [done|]. intros n Hn. rewrite lookup_insert_ne; [eauto|]. congruence.
  - split; simpl.
    + apply NoDup_app. split_and!; [done| |apply NoDup_singleton].
      intros n Hn ->%list_elem_of_singleton. done.
    + intros n [Hn| ->%list_elem_of_singleton]%elem_of_app; [|by rewrite lookup_insert_eq].
      rewrite lookup_insert_ne; [eauto|]. congruence.
Qed.

Lemma schedule_ok l st : dispatch_ok st → dispatch_ok (foldl (schedule_step spec) st l).
Proof.
  revert st. induction l as [|s l IH]; intros st Hst; [done|]. simpl.
  by apply IH, schedule_step_ok.
Qed.

(** A pending step whose dependencies are all decided does not stay pending. *)
Lemma schedule_decides l st s :
  s ∈ l → is_Some (st.1 !! ws_name s) →
  (∀ d, d ∈ ws_depends_on s → is_done (dep_status st.1 d) = true) →
  (foldl (schedule_step spec) st l).1 !! ws_name s ≠ Some Pending.
Proof.
  revert st. induction l as [|s' l IH]; intros [m disp] Hs Hsome Hdeps.
  { by apply elem_of_nil in Hs. }
  pose proof (schedule_step_le m disp s') as Hle.
  assert (is_Some ((schedule_step spec (m, disp) s').1 !! ws_name s)) as Hsome'.
  { destruct Hsome as [a Ha]. apply Hle in Ha as (b & Hb & _). eauto. }
  apply elem_of_cons in Hs as [->|Hs].
  - apply (progress_le_not_pending (schedule_step spec (m, disp) s').1);
      [apply (schedule_le (schedule_step spec (m, disp) s') l)|done|].
    unfold schedule_step. destruct (m !! ws_name s') as [[]|] eqn:E; simpl; try congruence.
    destruct (blocked_by_failure spec m s') eqn:Eb; [simpl; by rewrite lookup_insert_eq|].
    destruct (deps_ready spec m s') eqn:Er; [simpl; by rewrite lookup_insert_eq|].
    destruct (not_blocked_not_ready _ _ Eb Er) as (d & Hd & Hn).
    specialize (Hdeps d Hd). simpl in Hdeps. congruence.
  - apply IH; [done..|]. intros d Hd. specialize (Hdeps d Hd).
    by rewrite (dep_status_done m).
Qed.

End loops.

(** ** One tick *)

Section tick.
Context (spec : WorkflowSpec) (p : progress_map) (ts : task_map).
Notation steps := (wf_steps spec).
Notation adv := (advance_workflow {| wi_spec := spec; wi_progress := p; wi_task_states := ts |}).
Notation seeded := (foldl init_step p steps).
Notation promoted := (foldl (promote_step ts) seeded steps).
Notation planned := (foldl (schedule_step spec) (promoted, []) steps).

(** The status a step enters the tick with. *)
Definition entering (n : string) : option StepStatus :=
  match p !! n with
  | Some a => Some a
  | None => if bool_decide (n ∈ ws_name <$> steps) then Some Pending else None
  end.

(** Every dependency of a step succeeded, or failed where that does not matter. *)
Definition ready_in (next : progress_map) (s : WorkflowStep) : Prop :=
  ∀ d, d ∈ ws_depends_on s →
    next !! d = Some Succeeded ∨ (wf_continue_on_error spec = true ∧ next !! d = Some Failed).

(** A dependency of a step failed, and that matters. *)
Definition blocked_in (next : progress_map) (s : WorkflowStep) : Prop :=
  wf_continue_on_error spec = false ∧ ∃ d, d ∈ ws_depends_on s ∧ next !! d = Some Failed.

Lemma dep_status_is next d st : st ≠ Pending → dep_status next d = st ↔ next !! d = Some st.
Proof. intros Hp. unfold dep_status. destruct (next !! d); simpl; naive_solver. Qed.

Lemma deps_ready_in next s : deps_ready spec next s = true ↔ ready_in next s.
Proof.
  unfold deps_ready, ready_in. rewrite forallb_Forall, Forall_forall. apply forall_proper. intros d.
  rewrite orb_true_iff, andb_true_iff, !bool_decide_eq_true, !dep_status_is by done. done.
Qed.

Lemma blocked_by_failure_in next s : blocked_by_failure spec next s = true ↔ blocked_in next s.
Proof.
  unfold blocked_by_failure, blocked_in. rewrite existsb_Exists.
  setoid_rewrite andb_true_iff. setoid_rewrite negb_true_iff.
  setoid_rewrite bool_decide_eq_true. setoid_rewrite dep_status_is; [|done]. naive_solver.
Qed.

(** The contract of one tick for the step [n]: its status does not change, or its
    task reported an exit while it ran, or it was pending and got dispatched with
    every dependency ready, or it was pending and failed because of a failed
    dependency. *)
Inductive advance_move (a : WorkflowAdvance) (n : string) : Prop :=
| move_same :
    next_progress a !! n = entering n → n ∉ dispatch a →
    (entering n = Some Running →
       ∀ s, s ∈ steps → ws_name s = n → ts !! ws_task s = None) →
    advance_move a n
| move_exit s k :
    s ∈ steps → ws_name s = n → ts !! ws_task s = Some k →
    entering n = Some Running → next_progress a !! n = Some (status_of_exit k) →
    n ∉ dispatch a → advance_move a n
| move_run s :
    s ∈ steps → ws_name s = n → entering n = Some Pending →
    next_progress a !! n = Some Running → n ∈ dispatch a →
    ready_in (next_progress a) s → advance_move a n
| move_fail s :
    s ∈ steps → ws_name s = n → entering n = Some Pending →
    next_progress a !! n = Some Failed → n ∉ dispatch a →
    blocked_in (next_progress a) s → advance_move a n.

Lemma advance_next : next_progress adv = planned.1.
Proof. unfold advance_workflow. simpl. by destruct planned. Qed.

Lemma advance_dispatch : dispatch adv = planned.2.
Proof. unfold advance_workflow. simpl. by destruct planned. Qed.

Lemma advance_finished :
  finished adv = true ↔
  next_progress adv ≠ ∅ ∧ ∀ n a, next_progress adv !! n = Some a → is_done a = true.
Proof.
  unfold advance_workflow. simpl. destruct planned as [m disp]. simpl.
  rewrite andb_true_iff, negb_true_iff, bool_decide_eq_false, map_all_true. tauto.
Qed.

Lemma planned_ok : dispatch_ok planned.
Proof. apply schedule_ok. split; [constructor|]. intros n Hn. by apply elem_of_nil in Hn. Qed.

Lemma advance_moves n : advance_move adv n.
Proof.
  assert (sched_move spec steps (promoted, []) (next_progress adv, dispatch adv) n) as Hs.
  { rewrite advance_next, advance_dispatch, <- surjective_pairing. apply schedule_move. }
  pose proof (promote_lookup ts steps seeded n) as Hp. cbv zeta in Hp.
  rewrite (init_lookup steps p n) in Hp. fold (entering n) in Hp.
  destruct Hs as [E D|s Hin Hn E E' D Hr|s Hin Hn E E' D Hb]; simpl in *.
  - assert (n ∉ dispatch adv) by (rewrite D; apply not_elem_of_nil).
    destruct Hp as [[Ep Hrun]|(Hrun & s & k & ? & ? & ? & Ep)].
    + apply move_same; [congruence|done|done].
    + apply (move_exit _ _ s k); try done. congruence.
  - destruct Hp as [[Ep _]|(_ & s' & k & _ & _ & _ & Ep)]; [|rewrite Ep in E; by destruct k].
    apply (move_run _ _ s); try done; [congruence|]. by apply deps_ready_in.
  - destruct Hp as [[Ep _]|(_ & s' & k & _ & _ & _ & Ep)]; [|rewrite Ep in E; by destruct k].
    apply (move_fail _ _ s); try done; [congruence| |by apply blocked_by_failure_in].
    rewrite D. apply not_elem_of_nil.
Qed.

Lemma advance_NoDup : NoDup (dispatch adv).
Proof. rewrite advance_dispatch. apply planned_ok. Qed.

Lemma entering_step s : s ∈ steps → is_Some (entering (ws_name s)).
Proof.
  intros Hs. unfold entering. destruct (p !! ws_name s); [done|].
  rewrite bool_decide_eq_true_2; [done|]. by apply list_elem_of_fmap_2.
Qed.

(** Dispatched names are names of steps. *)
Lemma dispatched_is_step n : n ∈ dispatch adv → ∃ s, s ∈ steps ∧ ws_name s = n.
Proof. intros Hn. destruct (advance_moves n); try done. eauto. Qed.

(** A tick moves statuses forward only. *)
Lemma advance_forward n a :
  entering n = Some a → ∃ b, next_progress adv !! n = Some b ∧ status_le a b = true.
Proof.
  intros Ha. destruct (advance_moves n) as [E _ _|s k _ _ _ E E' _|s _ _ E E' _ _|s _ _ E E' _ _].
  - exists a. split; [congruence|by destruct a].
  - exists (status_of_exit k). split; [done|]. simplify_eq. by destruct k.
  - exists Running. split; [done|]. by simplify_eq.
  - exists Failed. split; [done|]. by simplify_eq.
Qed.

Lemma entering_dep d :
  is_done (default Pending (entering d)) = true → is_done (dep_status promoted d) = true.
Proof.
  intros H. pose proof (promote_lookup ts steps seeded d) as Hp. cbv zeta in Hp.
  rewrite (init_lookup steps p d) in Hp. fold (entering d) in Hp. unfold dep_status.
  destruct Hp as [[-> _]|(E & _)]; [done|]. by rewrite E in H.
Qed.

(** A dependency that is decided when the tick starts, or whose task has reported. *)
Definition settled (d : string) : Prop :=
  (∃ st, entering d = Some st ∧ is_done st = true) ∨
  (entering d = Some Running ∧
   ∃ s, s ∈ steps ∧ ws_name s = d ∧ is_Some (ts !! ws_task s)).

Lemma advance_settles s :
  s ∈ steps → (∀ d, d ∈ ws_depends_on s → settled d) →
  next_progress adv !! ws_name s ≠ Some Pending.
Proof.
  intros Hs Hd. rewrite advance_next.
  apply (schedule_decides spec steps (promoted, [])); simpl; [done| |].
  - destruct (promote_lookup ts steps seeded (ws_name s)) as [[-> _]|(_ & s' & k & _ & _ & _ & ->)];
      [|done]. rewrite init_lookup. by apply entering_step.
  - intros d Hdd. destruct (Hd d Hdd) as [(st & He & Hdone)|(He & s' & Hs' & <- & [k Hk])].
    + apply entering_dep. by rewrite He.
    + unfold dep_status. pose proof (promote_lookup ts steps seeded (ws_name s')) as Hp.
      cbv zeta in Hp. rewrite (init_lookup steps p (ws_name s')) in Hp.
      fold (entering (ws_name s')) in Hp.
      destruct Hp as [[_ Hr]|(_ & s2 & k2 & _ & _ & _ & ->)]; [|by destruct k2].
      rewrite (Hr He s' Hs' eq_refl) in Hk. done.
Qed.

(** A step whose dependencies are decided at the start of the tick leaves
    [Pending]. *)
Lemma advance_decides s :
  s ∈ steps →
  (∀ d, d ∈ ws_depends_on s → is_done (default Pending (entering d)) = true) →
  next_progress adv !! ws_name s ≠ Some Pending.
Proof.
  intros Hs Hd. apply advance_settles; [done|]. intros d Hdd. left. specialize (Hd d Hdd).
  destruct (entering d) as [st|]; [by exists st|done].
Qed.

End tick.

(** ** Runs *)

(** The progress map after a sequence of ticks, each with the task exits known
    then. *)
Definition tick (spec : WorkflowSpec) (p : progress_map) (ts : task_map) : WorkflowAdvance :=
  advance_workflow {| wi_spec := spec; wi_progress := p; wi_task_states := ts |}.

Definition ticks (spec : WorkflowSpec) (tss : list task_map) (p : progress_map) : progress_map :=
  foldl (λ p ts, next_progress (tick spec p ts)) p tss.

(** Dependencies name steps of the workflow and follow a rank: no dangling name,
    no cycle. *)
Definition well_founded_steps (spec : WorkflowSpec) (rank : string → nat) : Prop :=
  ∀ s d, s ∈ wf_steps spec → d ∈ ws_depends_on s →
    rank d < rank (ws_name s) ∧ d ∈ ws_name <$> wf_steps spec.

(** Every task of the workflow has reported an exit. *)
Definition all_reported (spec : WorkflowSpec) (ts : task_map) : Prop :=
  ∀ s, s ∈ wf_steps spec → is_Some (ts !! ws_task s).

Definition weight (o : option StepStatus) : nat :=
  match o with
  | None | Some Pending => 2
  | Some Running => 1
  | Some (Succeeded | Failed) => 0
  end.

(** The work left: at most two moves per step. *)
Definition work_left (l : list WorkflowStep) (p : progress_map) : nat :=
  sum_list ((λ s, weight (p !! ws_name s)) <$> l).

Lemma sum_list_le {A} (f g : A → nat) l :
  (∀ x, x ∈ l → f x ≤ g x) → sum_list (f <$> l) ≤ sum_list (g <$> l).
Proof.
  induction l as [|x l IH]; intros H; csimpl; [done|].
  pose proof (H x ltac:(by left)). assert (sum_list (f <$> l) ≤ sum_list (g <$> l)); [|lia].
  apply IH. intros y Hy. apply H. by right.
Qed.

Lemma sum_list_lt {A} (f g : A → nat) l :
  (∀ x, x ∈ l → f x ≤ g x) → (∃ x, x ∈ l ∧ f x < g x) →
  sum_list (f <$> l) < sum_list (g <$> l).
Proof.
  induction l as [|x l IH]; intros H (y & Hy & Hlt); csimpl; [by apply elem_of_nil in Hy|].
  assert (∀ z, z ∈ l → f z ≤ g z) as Hl by (intros z Hz; apply H; by right).
  pose proof (H x ltac:(by left)). pose proof (sum_list_le f g l Hl).
  apply elem_of_cons in Hy as [->|Hy]; [lia|].
  assert (sum_list (f <$> l) < sum_list (g <$> l)) by (apply IH; eauto). lia.
Qed.

Lemma weight_le a b : status_le a b = true → weight (Some b) ≤ weight (Some a).
Proof. destruct a, b; simpl; done || lia. Qed.

Section run.
Context (spec : WorkflowSpec).
Notation steps := (wf_steps spec).
Notation names := (ws_name <$> wf_steps spec).

Lemma weight_entering p s :
  s ∈ steps → weight (p !! ws_name s) = weight (entering spec p (ws_name s)).
Proof.
  intros Hs. unfold entering. destruct (p !! ws_name s) as [a|]; [done|].
  by case_bool_decide.
Qed.

Lemma tick_weight p ts s :
  s ∈ steps → weight (next_progress (tick spec p ts) !! ws_name s) ≤ weight (p !! ws_name s).
Proof.
  intros Hs. rewrite (weight_entering p) by done.
  destruct (entering_step spec p s Hs) as [a Ha]. rewrite Ha.
  destruct (advance_forward spec p ts _ _ Ha) as (b & Hb & Hab). unfold tick. rewrite Hb.
  by apply weight_le.
Qed.

Lemma entering_done p d : weight (p !! d) = 0 → is_done (default Pending (entering spec p d)) = true.
Proof. unfold entering. by destruct (p !! d) as [[]|]. Qed.

(** Some step moves, as long as one is not decided. *)
Lemma tick_moves rank p ts s :
  well_founded_steps spec rank → all_reported spec ts →
  s ∈ steps → weight (p !! ws_name s) ≠ 0 →
  ∃ s', s' ∈ steps ∧
        weight (next_progress (tick spec p ts) !! ws_name s') < weight (p !! ws_name s').
Proof.
  intros Hwf Hrep. remember (rank (ws_name s)) as k eqn:Hk. revert s Hk.
  induction k as [k IH] using lt_wf_ind. intros s Hk Hs Hw.
  destruct (decide (Forall (λ d, weight (p !! d) = 0) (ws_depends_on s))) as [Hd|Hd].
  - exists s. split; [done|].
    assert (next_progress (tick spec p ts) !! ws_name s ≠ Some Pending) as Hnp.
    { apply advance_decides; [done|]. intros d Hdd. rewrite Forall_forall in Hd.
      by apply entering_done, Hd. }
    rewrite (weight_entering p) in Hw |- * by done.
    destruct (entering_step spec p s Hs) as [a Ha]. rewrite Ha in *. revert Hnp. unfold tick.
    destruct (advance_moves spec p ts (ws_name s))
      as [E _ Hr|s' k' _ _ _ E E' _|s' _ _ E E' _ _|s' _ _ E E' _ _]; simplify_eq.
    + rewrite E, Ha. destruct a; try done. intros _. exfalso.
      destruct (Hrep s Hs) as [x Hx]. rewrite (Hr Ha s Hs eq_refl) in Hx. done.
    + rewrite E'. intros _. destruct k'; simpl; lia.
    + rewrite E'. simpl. lia.
    + rewrite E'. simpl. lia.
  - apply not_Forall_Exists, Exists_exists in Hd as (d & Hdd & Hn); [|apply _].
    destruct (Hwf s d Hs Hdd) as [Hlt (s' & -> & Hs')%list_elem_of_fmap].
    by apply (IH (rank (ws_name s')) ltac:(lia) s').
Qed.

Lemma tick_work rank p ts :
  well_founded_steps spec rank → all_reported spec ts →
  work_left steps p ≠ 0 → work_left steps (next_progress (tick spec p ts)) < work_left steps p.
Proof.
  intros Hwf Hrep Hw. unfold work_left in *. apply sum_list_lt.
  - intros s Hs. by apply tick_weight.
  - assert (∃ s, s ∈ steps ∧ weight (p !! ws_name s) ≠ 0) as (s & Hs & Hws).
    { clear Hwf Hrep. induction steps as [|s l IH]; csimpl in *; [done|].
      destruct (decide (weight (p !! ws_name s) = 0)) as [E|E].
      - destruct IH as (s' & Hs' & ?); [lia|]. exists s'. split; [by right|done].
      - exists s. split; [by left|done]. }
    by eapply tick_moves.
Qed.

Lemma ticks_work rank tss p :
  well_founded_steps spec rank → Forall (all_reported spec) tss →
  work_left steps (ticks spec tss p) ≤ work_left steps p - length tss.
Proof.
  intros Hwf. revert p. induction tss as [|ts tss IH]; intros p Hall; simpl; [lia|].
  apply Forall_cons in Hall as [Hts Hall]. etrans; [by apply IH|].
  destruct (decide (work_left steps p = 0)) as [E|E].
  - assert (work_left steps (next_progress (tick spec p ts)) ≤ work_left steps p); [|lia].
    apply sum_list_le. intros s Hs. by apply tick_weight.
  - pose proof (tick_work rank p ts Hwf Hts E). lia.
Qed.

(** The progress map only ever holds steps of the workflow. *)
Lemma ticks_names tss p n :
  (∀ n, is_Some (p !! n) → n ∈ names) → is_Some (ticks spec tss p !! n) → n ∈ names.
Proof.
  revert p. induction tss as [|ts tss IH]; intros p Hp; simpl; [apply Hp|].
  apply IH. intros k Hk. unfold tick in Hk.
  destruct (advance_moves spec p ts k) as [E _ _|s' ? Hs' <-|s' Hs' <-|s' Hs' <-];
    [|by apply list_elem_of_fmap_2..].
  rewrite E in Hk. unfold entering in Hk. destruct (p !! k) eqn:Ek; [by apply Hp|].
  case_bool_decide; [done|]. by destruct Hk.
Qed.

Lemma work_left_init : work_left steps ∅ = 2 * length steps.
Proof.
  unfold work_left. induction steps as [|s l IH]; csimpl; [done|].
  rewrite IH. rewrite lookup_empty. simpl. lia.
Qed.

Lemma work_left_zero l p s : work_left l p = 0 → s ∈ l → weight (p !! ws_name s) = 0.
Proof.
  unfold work_left. induction l as [|s' l IH]; csimpl; intros H; [intros Hs; by apply elem_of_nil in Hs|].
  intros [->|Hs]%elem_of_cons; [lia|]. apply IH; [lia|done].
Qed.

Lemma finished_of_done ts p :
  steps ≠ [] → (∀ n, is_Some (p !! n) → n ∈ names) → work_left steps p = 0 →
  finished (tick spec p ts) = true.
Proof.
  intros Hne Hdom H0. unfold tick. rewrite advance_finished.
  assert (∀ s, s ∈ steps → ∃ a, is_done a = true ∧
            next_progress (tick spec p ts) !! ws_name s = Some a) as Hd.
  { intros s Hs. pose proof (tick_weight p ts s Hs) as Hle.
    rewrite (work_left_zero _ _ _ H0 Hs) in Hle.
    destruct (next_progress _ !! ws_name s) as [[]|]; simpl in Hle; try lia;
      (eexists; split; [|reflexivity]; done). }
  split.
  - destruct steps as [|s l]; [done|]. destruct (Hd s ltac:(by left)) as (a & _ & Ha).
    intros E. unfold tick in Ha. rewrite E in Ha. done.
  - intros n a Ha. assert (n ∈ names) as (s & -> & Hs)%list_elem_of_fmap.
    { apply (ticks_names [ts] p n); [done|]. simpl. unfold tick. eauto. }
    destruct (Hd s Hs) as (b & Hb & Hbn). unfold tick in Hbn. congruence.
Qed.

(** *** Stuck workflows *)

(** A set of step names each of which depends only on that set or on names that
    no step has: a cycle, or a dangling dependency. *)
Definition stuck_set (C : gset string) : Prop :=
  ∀ s, s ∈ steps → ws_name s ∈ C →
    ws_depends_on s ≠ [] ∧ ∀ d, d ∈ ws_depends_on s → d ∈ C ∨ d ∉ names.

(** Nothing in the set, and nothing outside the steps, has started. *)
Definition unstarted (C : gset string) (p : progress_map) : Prop :=
  ∀ n, n ∈ C ∨ n ∉ names → p !! n = None ∨ p !! n = Some Pending.

Lemma unstarted_dep C p d : unstarted C p → d ∈ C ∨ d ∉ names → dep_status p d = Pending.
Proof. intros Hu Hd. unfold dep_status. by destruct (Hu d Hd) as [-> | ->]. Qed.

Lemma schedule_unstarted C :
  stuck_set C → ∀ l st, (∀ s, s ∈ l → s ∈ steps) → unstarted C st.1 →
  unstarted C (foldl (schedule_step spec) st l).1.
Proof.
  intros Hst. induction l as [|s l IH]; intros [m disp] Hl Hu; [done|].
  simpl. apply (IH (schedule_step spec (m, disp) s)); [intros s' Hs'; apply Hl; by right|].
  simpl in Hu. intros n Hn. specialize (Hu n Hn) as Hun.
  destruct (decide (ws_name s = n)) as [<-|Hne].
  2: { destruct (schedule_step_move spec (m, disp) s n) as [-> _|s' Hs' Hn'|s' Hs' Hn']; [done|..];
       apply list_elem_of_singleton in Hs' as ->; done. }
  assert (s ∈ steps) as Hs by (apply Hl; by left).
  destruct Hn as [HC|Hn]; [|exfalso; by apply Hn, list_elem_of_fmap_2].
  destruct (Hst s Hs HC) as [Hne Hdeps]. unfold schedule_step.
  assert (∀ d, d ∈ ws_depends_on s → dep_status m d = Pending) as Hdp.
  { intros d Hd. eapply unstarted_dep; eauto. }
  destruct (m !! ws_name s) as [[]|] eqn:E; try (destruct Hun; done); [|simpl; rewrite E; by left].
  assert (blocked_by_failure spec m s = false) as ->.
  { apply not_true_iff_false. unfold blocked_by_failure. rewrite existsb_Exists.
    intros (d & Hd & Hf). rewrite (Hdp d Hd) in Hf. by rewrite andb_false_r in Hf. }
  assert (deps_ready spec m s = false) as ->; [|simpl; rewrite E; by right].
  unfold deps_ready. destruct (ws_depends_on s) as [|d ds]; [done|]. simpl.
  rewrite (Hdp d) by (by left). simpl. by rewrite andb_false_r.
Qed.

Lemma tick_unstarted C p ts :
  stuck_set C → unstarted C p → unstarted C (next_progress (tick spec p ts)).
Proof.
  intros Hst Hu. unfold tick. rewrite advance_next.
  apply schedule_unstarted; [done..|]. simpl. intros n Hn.
  destruct (promote_lookup ts steps (foldl init_step p steps) n) as [[-> _]|[Hr _]];
    rewrite init_lookup in *; destruct (Hu n Hn) as [E|E]; rewrite E in *;
    try (case_bool_decide; auto; done); auto; done.
Qed.

Lemma ticks_unstarted C tss p :
  stuck_set C → unstarted C p → unstarted C (ticks spec tss p).
Proof.
  intros Hst. revert p. induction tss as [|ts tss IH]; intros p Hu; [done|].
  by apply IH, tick_unstarted.
Qed.

Lemma stuck_not_finished C p ts s :
  stuck_set C → unstarted C p → s ∈ steps → ws_name s ∈ C →
  finished (tick spec p ts) = false ∧ ws_name s ∉ dispatch (tick spec p ts).
Proof.
  intros Hst Hu Hs HC.
  pose proof (tick_unstarted C p ts Hst Hu (ws_name s) (or_introl HC)) as Hn.
  assert (next_progress (tick spec p ts) !! ws_name s = Some Pending) as Hp.
  { destruct Hn as [Hn|Hn]; [|done]. destruct (entering_step spec p s Hs) as [a Ha].
    destruct (advance_forward spec p ts _ _ Ha) as (b & Hb & _).
    unfold tick in *. congruence. }
  split.
  - apply not_true_iff_false. unfold tick in *. rewrite advance_finished.
    intros [_ Hd]. specialize (Hd _ _ Hp). done.
  - unfold tick in *. intros Hd. rewrite advance_dispatch in Hd. rewrite advance_next in Hp.
    apply planned_ok in Hd. congruence.
Qed.

End run.

Lemma omap_dispatch_spec spec (l : list string) :
  (∀ n, n ∈ l → n ∈ ws_name <$> wf_steps spec) → ds_step_name <$> omap (dispatch_spec spec) l = l.
Proof.
  induction l as [|n l IH]; intros H; [done|]. csimpl.
  assert (n ∈ ws_name <$> wf_steps spec) as (s & -> & Hs)%list_elem_of_fmap
    by (apply H; by left).
  unfold dispatch_spec at 1.
  destruct (find_is_Some (λ s', bool_decide (ws_name s' = ws_name s)) (wf_steps spec) s Hs)
    as [s' ->]; [by apply bool_decide_eq_true|].
  csimpl. f_equal. apply IH. intros n Hn. apply H. by right.
Qed.

(** ** Claims *)

(** The steps [a], then [b] and [c] after it. *)
Definition demo_workflow : WorkflowSpec :=
  {| wf_steps := [ {| ws_name := "a"; ws_task := "ta"; ws_depends_on := [] |};
                   {| ws_name := "b"; ws_task := "tb"; ws_depends_on := ["a"] |};
                   {| ws_name := "c"; ws_task := "tc"; ws_depends_on := ["a"; "b"] |} ];
     wf_continue_on_error := false; wf_description := None |}.

(** A workflow whose only step waits for a step that does not exist. *)
Definition demo_dangling : WorkflowSpec :=
  {| wf_steps := [ {| ws_name := "a"; ws_task := "ta"; ws_depends_on := ["ghost"] |} ];
     wf_continue_on_error := false; wf_description := None |}.

Definition demo_exits : task_map :=
  {[ "ta" := TaskSucceeded; "tb" := TaskFailed; "tc" := TaskSucceeded ]}.

(** C2: every status change of a tick is one of the four the workflow contract has (or
    none): a running step takes its task's reported exit, and stays running
    otherwise; a pending step is dispatched, and marked running, only with every
    dependency ready in the resulting map; a pending step is failed only because of
    a failed dependency without [continue_on_error].  A step is in the dispatch
    list, once, exactly when it moved from pending to running.  A step whose
    dependencies are all decided, or whose tasks have all reported, does not stay
    pending; the workflow is reported finished exactly when it has steps and all are
    decided. *)
Theorem advance_workflow_moves (spec : WorkflowSpec) (p : progress_map) (ts : task_map) :
  let a := advance_workflow {| wi_spec := spec; wi_progress := p; wi_task_states := ts |} in
  (∀ n, advance_move spec p ts a n) ∧ NoDup (dispatch a) ∧
  (∀ s, s ∈ wf_steps spec → (∀ d, d ∈ ws_depends_on s → settled spec p ts d) →
     next_progress a !! ws_name s ≠ Some Pending) ∧
  (finished a = true ↔
     next_progress a ≠ ∅ ∧
     ∀ n st, next_progress a !! n = Some st → st = Succeeded ∨ st = Failed).
Proof.
  split_and!; [apply advance_moves|apply advance_NoDup|apply advance_settles|].
  cbv zeta. rewrite advance_finished. apply and_iff_compat_l.
  split; intros H n st Hn; specialize (H n st Hn); destruct st; simpl in *; naive_solver.
Qed.

(** C11: a workflow whose dependencies are acyclic and name existing steps finishes:
    from an empty progress map, after two ticks per step in which every task has
    reported an exit (of either kind), the next tick reports it finished. *)
Theorem workflow_finishes (spec : WorkflowSpec) (rank : string → nat) (tss : list task_map)
    (ts : task_map)
    (Hwf : well_founded_steps spec rank) (Hne : wf_steps spec ≠ [])
    (Hrep : Forall (all_reported spec) tss)
    (Hlen : 2 * length (wf_steps spec) ≤ length tss) :
  finished (tick spec (ticks spec tss ∅) ts) = true.
Proof.
  apply finished_of_done; [done| |].
  - intros n. apply ticks_names. intros k [x Hx]. by rewrite lookup_empty in Hx.
  - pose proof (ticks_work spec rank tss ∅ Hwf Hrep). rewrite work_left_init in *. lia.
Qed.

Lemma workflow_finishes_witness :
  finished (tick demo_workflow (ticks demo_workflow (replicate 6 demo_exits) ∅) ∅) = true.
Proof.
  apply (workflow_finishes demo_workflow (λ n, if bool_decide (n = "a") then 0
           else if bool_decide (n = "b") then 1 else 2)).
  - intros s d Hs. revert d. apply Forall_forall. revert s Hs. apply Forall_forall.
    repeat constructor; try (apply (bool_decide_unpack _); vm_compute; exact I); vm_compute; lia.
  - discriminate.
  - apply Forall_replicate. intros s. revert s. apply Forall_forall.
    repeat constructor; eexists; vm_compute; reflexivity.
  - vm_compute. lia.
Defined.

(** A workflow with a dependency cycle, or with a dependency no step has, never
    finishes: whatever exits are reported, however many ticks pass, the steps that
    depend on the cycle or on the missing name stay undispatched and the workflow is
    not finished.  (Validation accepts such a workflow.) *)
Theorem stuck_workflow_never_finishes (spec : WorkflowSpec) (C : gset string) (s : WorkflowStep)
    (tss : list task_map) (ts : task_map)
    (Hst : stuck_set spec C) (Hs : s ∈ wf_steps spec) (HC : ws_name s ∈ C) :
  finished (tick spec (ticks spec tss ∅) ts) = false ∧
  ws_name s ∉ dispatch (tick spec (ticks spec tss ∅) ts).
Proof.
  apply (stuck_not_finished spec C); [done| |done..].
  apply ticks_unstarted; [done|]. intros n _. by left.
Qed.

Lemma stuck_workflow_never_finishes_witness :
  finished (tick demo_dangling (ticks demo_dangling [demo_exits; demo_exits] ∅) demo_exits)
    = false ∧
  "a" ∉ dispatch (tick demo_dangling (ticks demo_dangling [demo_exits; demo_exits] ∅) demo_exits).
Proof.
  apply (stuck_workflow_never_finishes demo_dangling {["a"]}
    {| ws_name := "a"; ws_task := "ta"; ws_depends_on := ["ghost"] |}).
  - intros s Hs _. apply list_elem_of_singleton in Hs as ->. simpl. split; [done|].
    intros d ->%list_elem_of_singleton. right. apply (bool_decide_unpack _). vm_compute. exact I.
  - by left.
  - by apply elem_of_singleton.
Defined.

(** The planner over all workflows loses nothing: it returns one entry per Workflow
    resource, in order, with the progress and the finished flag of its own
    [advance_workflow], and its dispatch entries are exactly the steps that tick
    dispatches, each resolved to the task of the first step of that name. *)
Theorem plan_all_workflows_complete {J : SerdeJson} (wfs : list Resource)
    (progress : gmap string progress_map) (ts : task_map) :
  Forall2 (λ (w : string * WorkflowSpec) e,
    let a := tick w.2 (default ∅ (progress !! w.1)) ts in
    wp_workflow e = w.1 ∧ wp_next_progress e = next_progress a ∧
    wp_finished e = finished a ∧ ds_step_name <$> wp_dispatch e = dispatch a ∧
    ∀ d, d ∈ wp_dispatch e → ∃ s, s ∈ wf_steps w.2 ∧ ws_name s = ds_step_name d ∧
                                  ws_task s = ds_task_name d)
    (omap (λ r, match body r with
                | BWorkflow spec _ => Some (md_name (metadata r), spec)
                | _ => None
                end) wfs)
    (plan_all_workflows wfs progress ts).
Proof.
  unfold plan_all_workflows. induction wfs as [|r wfs IH]; [constructor|].
  csimpl. unfold plan_one at 1. destruct (body r) as []; try done.
  constructor; [|done]. simpl. split_and!; try done.
  - apply omap_dispatch_spec. intros n (s & Hs & <-)%dispatched_is_step. by apply list_elem_of_fmap_2.
  - intros d (n & _ & Hd)%list_elem_of_omap. unfold dispatch_spec in Hd.
    apply fmap_Some in Hd as (s & Hs & ->). apply find_Some in Hs as [Hs Hn%bool_decide_eq_true].
    exists s. done.
Qed.
