(* ===== verification/Find.v ===== *)
(** * Capability matching (the Find API)

    [decisions.rs] holds the pure matcher, and [main.rs] the copy that
    [POST /v1/find] runs.  The first is modelled as the conjunction its loops
    compute, the second as the loops with their early returns; the two are proved
    equal, and equal to the declarative reading of a selector. *)

From Stdlib Require Import ZArith Lia Bool.
From Stdlib Require Import Floats.SpecFloat.
From stdpp Require Import base list gmap strings.
From S2P Require Import Prelude Types.

Section matcher.
Context {J : SerdeJson}.

(** [f64] comparisons: false as soon as a NaN is involved. *)
Definition f64_gt (a x : f64) : bool := SFltb x a.
Definition f64_ge (a x : f64) : bool := SFleb x a.
Definition f64_lt (a x : f64) : bool := SFltb a x.
Definition f64_le (a x : f64) : bool := SFleb a x.

(** The closure [cmp] of [attr_op_matches]. *)
Definition cmp_bound (actual_num : option f64) (lhs : option Number)
    (op : f64 → f64 → bool) : bool :=
  match lhs, actual_num with
  | Some n, Some a => match number_as_f64 n with Some x => op a x | None => true end
  | Some _, None => false
  | None, _ => true
  end.

Definition attr_op_matches (op : AttrOp) (actual : Value) : bool :=
  if match op_eq op with Some v => negb (value_eqb actual v) | None => false end then false
  else if match op_ne op with Some v => value_eqb actual v | None => false end then false
  else
    let actual_num := value_as_f64 actual in
    cmp_bound actual_num (op_gt op) f64_gt
    && cmp_bound actual_num (op_gte op) f64_ge
    && cmp_bound actual_num (op_lt op) f64_lt
    && cmp_bound actual_num (op_lte op) f64_le.

Definition attr_match_ok (m : AttrMatch) (actual : Value) : bool :=
  match m with
  | Equals v => value_eqb actual v
  | OneOf values => existsb (λ v, value_eqb v actual) values
  | Op ops => attr_op_matches ops actual
  end.

(** [decisions::capabilities_match]. *)
Definition capabilities_match (advertised : list Capability) (selector : CapabilitySelector)
    : bool :=
  map_all (λ name checks,
    match List.find (λ c, bool_decide (cap_name c = name)) advertised with
    | None => false
    | Some cap =>
        map_all (λ key m,
          match value_get (cap_attributes cap) key with
          | None => false
          | Some actual => attr_match_ok m actual
          end) checks
    end) (requirements selector).

(** *** The copy of [main.rs] *)

(** The body of the inner loop: [Some false] is the early return. *)
Definition check_attr (cap : Capability) (kv : string * AttrMatch) : option bool :=
  match value_get (cap_attributes cap) kv.1 with
  | None => Some false
  | Some actual =>
      match kv.2 with
      | Equals v => if negb (value_eqb actual v) then Some false else None
      | OneOf values =>
          if negb (existsb (λ v, value_eqb v actual) values) then Some false else None
      | Op ops => if negb (attr_op_matches ops actual) then Some false else None
      end
  end.

(** A loop whose body may return from the function. *)
Fixpoint loop_return {A} (f : A → option bool) (l : list A) : option bool :=
  match l with
  | [] => None
  | x :: l' => match f x with Some b => Some b | None => loop_return f l' end
  end.

Definition check_requirement (advertised : list Capability) (kv : string * AttrChecks)
    : option bool :=
  match List.find (λ c, bool_decide (cap_name c = kv.1)) advertised with
  | None => Some false
  | Some cap => loop_return (check_attr cap) (map_to_list kv.2)
  end.

(** [capabilities_match] of [main.rs]. *)
Definition main_capabilities_match (advertised : list Capability)
    (selector : CapabilitySelector) : bool :=
  default true (loop_return (check_requirement advertised) (map_to_list (requirements selector))).

(** ** Specification *)

(** A bound that holds of the attribute: the attribute is a number, and compares
    unless the bound itself has no [f64] value. *)
Definition bound_holds (actual : Value) (b : option Number) (op : f64 → f64 → bool) : Prop :=
  ∀ n, b = Some n → ∃ a, value_as_f64 actual = Some a ∧
    ∀ x, number_as_f64 n = Some x → op a x = true.

(** What an attribute constraint asks of a value. *)
Definition attr_holds (m : AttrMatch) (actual : Value) : Prop :=
  match m with
  | Equals v => value_eqb actual v = true
  | OneOf values => ∃ v, v ∈ values ∧ value_eqb v actual = true
  | Op o =>
      (∀ v, op_eq o = Some v → value_eqb actual v = true) ∧
      (∀ v, op_ne o = Some v → value_eqb actual v = false) ∧
      bound_holds actual (op_gt o) f64_gt ∧ bound_holds actual (op_gte o) f64_ge ∧
      bound_holds actual (op_lt o) f64_lt ∧ bound_holds actual (op_lte o) f64_le
  end.

(** The capability of a name a Service offers: the first one advertised. *)
Definition offers (advertised : list Capability) (name : string) (cap : Capability) : Prop :=
  ∃ before after, advertised = before ++ cap :: after ∧ cap_name cap = name ∧
    ∀ c, c ∈ before → cap_name c ≠ name.

Definition selector_holds (advertised : list Capability) (sel : CapabilitySelector) : Prop :=
  ∀ name checks, requirements sel !! name = Some checks →
    ∃ cap, offers advertised name cap ∧
      ∀ key m, checks !! key = Some m →
        ∃ actual, value_get (cap_attributes cap) key = Some actual ∧ attr_holds m actual.

(** ** Lemmas *)

Lemma cmp_bound_holds actual b op :
  cmp_bound (value_as_f64 actual) b op = true ↔ bound_holds actual b op.
Proof.
  unfold cmp_bound, bound_holds. destruct b as [n|]; [|naive_solver].
  destruct (value_as_f64 actual) as [a|]; [|naive_solver].
  destruct (number_as_f64 n) as [x|] eqn:E; split; intros H.
  - intros ? [= <-]. exists a. naive_solver.
  - destruct (H n eq_refl) as (a' & [= <-] & Hx). by apply Hx.
  - intros ? [= <-]. exists a. naive_solver.
  - done.
Qed.

Lemma attr_op_matches_holds o actual :
  attr_op_matches o actual = true ↔ attr_holds (Op o) actual.
Proof.
  unfold attr_op_matches, attr_holds. rewrite !early_false, !andb_true_iff, !cmp_bound_holds.
  assert (match op_eq o with Some v => negb (value_eqb actual v) | None => false end = false
          ↔ ∀ v, op_eq o = Some v → value_eqb actual v = true) as ->.
  { destruct (op_eq o); [rewrite negb_false_iff|]; naive_solver. }
  assert (match op_ne o with Some v => value_eqb actual v | None => false end = false
          ↔ ∀ v, op_ne o = Some v → value_eqb actual v = false) as ->.
  { destruct (op_ne o); naive_solver. }
  tauto.
Qed.

Lemma attr_match_holds m actual : attr_match_ok m actual = true ↔ attr_holds m actual.
Proof.
  destruct m; simpl; [apply attr_op_matches_holds|..|done || rewrite existsb_Exists; done].
  all: first [done | by rewrite existsb_Exists].
Qed.

Lemma find_offers advertised name cap :
  List.find (λ c, bool_decide (cap_name c = name)) advertised = Some cap ↔
  offers advertised name cap.
Proof.
  induction advertised as [|c l IH]; simpl.
  - split; [done|]. intros ([|] & ? & ? & _); done.
  - case_bool_decide as Hc.
    + split.
      * intros [= <-]. exists [], l. split_and!; [done|done|]. intros ? []%elem_of_nil.
      * intros ([|c' b] & a & [= -> ->] & Hn & Hb); [done|]. exfalso.
        apply (Hb c'); [by left|done].
    + rewrite IH. split.
      * intros (b & a & -> & Hn & Hb). exists (c :: b), a. split_and!; [done|done|].
        intros c' [->|Hc']%elem_of_cons; auto.
      * intros ([|c' b] & a & [= -> ->] & Hn & Hb); [done|].
        exists b, a. split_and!; [done|done|]. intros c'' Hc''. apply Hb. by right.
Qed.

Lemma capabilities_match_holds advertised sel :
  capabilities_match advertised sel = true ↔ selector_holds advertised sel.
Proof.
  unfold capabilities_match, selector_holds. rewrite map_all_true.
  apply forall_proper; intros name. apply forall_proper; intros checks.
  apply forall_proper; intros _. setoid_rewrite <- find_offers.
  destruct (List.find _ advertised) as [cap|]; [|naive_solver].
  rewrite map_all_true. split.
  - intros H. exists cap. split; [done|]. intros key m Hm. specialize (H key m Hm).
    destruct (value_get _ key) as [actual|]; [|done]. exists actual.
    by rewrite <- attr_match_holds.
  - intros (cap' & [= <-] & H) key m Hm. destruct (H key m Hm) as (actual & -> & Ha).
    by apply attr_match_holds.
Qed.

Lemma loop_return_all {A} (f : A → option bool) (g : A → bool) l :
  (∀ x, f x = if g x then None else Some false) →
  default true (loop_return f l) = forallb g l ∧
  (loop_return f l = if forallb g l then None else Some false).
Proof.
  intros Hf. induction l as [|x l [IH1 IH2]]; simpl; [done|].
  rewrite Hf. by destruct (g x).
Qed.

Lemma check_attr_ok cap kv :
  check_attr cap kv =
  if match value_get (cap_attributes cap) kv.1 with
     | None => false
     | Some actual => attr_match_ok kv.2 actual
     end then None else Some false.
Proof.
  unfold check_attr, attr_match_ok. destruct (value_get _ _); [|done].
  destruct kv.2; by case_match; case_match; simplify_eq/=.
Qed.

Lemma main_capabilities_match_eq advertised sel :
  main_capabilities_match advertised sel = capabilities_match advertised sel.
Proof.
  unfold main_capabilities_match, capabilities_match, map_all.
  apply loop_return_all. intros [name checks]. unfold check_requirement. simpl.
  destruct (List.find _ advertised) as [cap|]; [|done].
  apply (loop_return_all (check_attr cap)
    (λ kv, match value_get (cap_attributes cap) kv.1 with
           | None => false
           | Some actual => attr_match_ok kv.2 actual
           end)).
  intros kv. apply check_attr_ok.
Qed.

End matcher.

(** ** Claims *)

(** C22: the matcher of the Find API means what a selector says, and both copies of it
    agree: a Service matches exactly when, for every capability the selector names,
    the first advertised capability of that name has every constrained attribute and
    each constraint (equality, membership, or all of the operators given, with the
    numeric ones requiring a number) holds of it. *)
Theorem capabilities_match_correct {J : SerdeJson} (advertised : list Capability)
    (sel : CapabilitySelector) :
  (capabilities_match advertised sel = true ↔ selector_holds advertised sel) ∧
  main_capabilities_match advertised sel = capabilities_match advertised sel.
Proof. split; [apply capabilities_match_holds|apply main_capabilities_match_eq]. Qed.
