(* ===== verification/Metrics.v ===== *)
(** * The Prometheus text renderer (crates/orion-controller/src/decisions.rs)

    [format_prometheus] renders a snapshot of the controller's counters.  A scraper
    that reads the exposition format gets every counter back. *)

From Stdlib Require Import ZArith Lia Bool Ascii.
From stdpp Require Import base list strings pretty.
From S2P Require Import Prelude Text Types Parse.

Record MetricsSnapshot : Type := {
  uptime_seconds : Z;
  agents_total : Z;
  agents_live : Z;
  instances_alive : Z;
  instances_exited : Z;
  instances_failed : Z;
  health_healthy : Z;
  health_unhealthy : Z;
  schedule_fires_total : Z
}.

(** The newline, the double quote and the space. *)
Definition nl : ascii := ascii_of_N 10.
Definition dquote : string := ascii_str 34.
Definition space : ascii := ascii_of_N 32.

(** [writeln!(out, ...)]. *)
Definition writeln (out line : string) : string := out +:+ line +:+ String nl EmptyString.

(** The lines written, in order. *)
Definition metric_lines (m : MetricsSnapshot) : list string :=
  [ "# HELP orion_controller_uptime_seconds Seconds since controller start";
    "# TYPE orion_controller_uptime_seconds gauge";
    "orion_controller_uptime_seconds " +:+ pretty (uptime_seconds m);
    "# HELP orion_agents_total Agents the controller has seen ever";
    "# TYPE orion_agents_total gauge";
    "orion_agents_total " +:+ pretty (agents_total m);
    "# HELP orion_agents_live Agents whose last heartbeat was within 30s";
    "# TYPE orion_agents_live gauge";
    "orion_agents_live " +:+ pretty (agents_live m);
    "# HELP orion_instances_alive Workload instances believed alive";
    "# TYPE orion_instances_alive gauge";
    "orion_instances_alive " +:+ pretty (instances_alive m);
    "# HELP orion_instances_exited Workload instances that have exited";
    "# TYPE orion_instances_exited counter";
    "orion_instances_exited " +:+ pretty (instances_exited m);
    "# HELP orion_instances_failed Workload instances that exited non-zero";
    "# TYPE orion_instances_failed counter";
    "orion_instances_failed " +:+ pretty (instances_failed m);
    "# HELP orion_health_status Instances reporting a health status";
    "# TYPE orion_health_status gauge";
    "orion_health_status{status=" +:+ dquote +:+ "healthy" +:+ dquote +:+ "} "
      +:+ pretty (health_healthy m);
    "orion_health_status{status=" +:+ dquote +:+ "unhealthy" +:+ dquote +:+ "} "
      +:+ pretty (health_unhealthy m);
    "# HELP orion_schedule_fires_total Total Schedule fires since controller start";
    "# TYPE orion_schedule_fires_total counter";
    "orion_schedule_fires_total " +:+ pretty (schedule_fires_total m) ].

Definition format_prometheus (m : MetricsSnapshot) : string :=
  foldl writeln EmptyString (metric_lines m).

(** ** The exposition format *)

(** A line that is neither empty nor a comment is a sample: its name, with labels,
    up to the first space, then its value. *)
Definition read_sample (line : string) : option (string * string) :=
  if bool_decide (line = EmptyString) then None
  else if starts_with "#" line then None
  else split_once (String space EmptyString) line.

Definition read_samples (text : string) : list (string * string) :=
  omap read_sample (split_on nl text).

(** ** Lemmas *)

Lemma writeln_lines ls out :
  Forall (λ l, has_char nl l = false) ls →
  foldl writeln out ls = out +:+ foldr (λ l r, l +:+ String nl r) EmptyString ls.
Proof.
  revert out. induction ls as [|l ls IH]; intros out Hl; simpl.
  { by rewrite string_app_nil_r. }
  apply Forall_cons in Hl as [Hl Hls]. rewrite IH by done. unfold writeln.
  rewrite !string_app_assoc, string_app_cons. done.
Qed.

Lemma split_lines ls :
  Forall (λ l, has_char nl l = false) ls →
  split_on nl (foldl writeln EmptyString ls) = ls ++ [EmptyString].
Proof.
  intros Hl. rewrite writeln_lines, string_app_empty by done.
  induction Hl as [|l ls Hn Hl IH]; simpl; [done|]. by rewrite split_on_app, IH.
Qed.

Lemma metric_lines_ok m : Forall (λ l, has_char nl l = false) (metric_lines m).
Proof.
  unfold metric_lines. repeat (constructor; [|]); [..|constructor].
  all: rewrite ?has_char_app; rewrite ?pretty_Z_chars by reflexivity; reflexivity.
Qed.

(** Comments are skipped, and a sample line reads as its name and value. *)
Lemma read_skip l ls :
  read_sample l = None → omap read_sample (l :: ls) = omap read_sample ls.
Proof. intros H. csimpl. by rewrite H. Qed.

Lemma read_take name pre v ls :
  pre = name +:+ String space EmptyString →
  has_char space name = false → name ≠ EmptyString → starts_with "#" name = false →
  omap read_sample ((pre +:+ v) :: ls) = (name, v) :: omap read_sample ls.
Proof.
  intros -> Hs Hne Hc. csimpl.
  rewrite string_app_assoc, string_app_cons, string_app_empty.
  assert (read_sample (name +:+ String space v) = Some (name, v)) as ->; [|done].
  unfold read_sample. rewrite split_once_char by done.
  destruct name as [|a name]; [done|]. rewrite string_app_cons.
  rewrite bool_decide_eq_false_2 by done.
  assert (starts_with "#" (String a (name +:+ String space v)) = starts_with "#" (String a name))
    as ->; [|by rewrite Hc].
  unfold starts_with, strip_prefix. by destruct (Ascii.eqb _ a).
Qed.

Lemma read_metric_lines m :
  omap read_sample (metric_lines m) =
  [ ("orion_controller_uptime_seconds", pretty (uptime_seconds m));
    ("orion_agents_total", pretty (agents_total m));
    ("orion_agents_live", pretty (agents_live m));
    ("orion_instances_alive", pretty (instances_alive m));
    ("orion_instances_exited", pretty (instances_exited m));
    ("orion_instances_failed", pretty (instances_failed m));
    ("orion_health_status{status=" +:+ dquote +:+ "healthy" +:+ dquote +:+ "}",
     pretty (health_healthy m));
    ("orion_health_status{status=" +:+ dquote +:+ "unhealthy" +:+ dquote +:+ "}",
     pretty (health_unhealthy m));
    ("orion_schedule_fires_total", pretty (schedule_fires_total m)) ].
Proof.
  unfold metric_lines. rewrite <- !string_app_assoc.
  repeat first
    [ rewrite read_skip by (vm_compute; reflexivity)
    | erewrite read_take; [f_equal|vm_compute; reflexivity|vm_compute; reflexivity
                          |vm_compute; discriminate|vm_compute; reflexivity] ].
Qed.

Lemma read_format m :
  read_samples (format_prometheus m) = omap read_sample (metric_lines m).
Proof.
  unfold read_samples, format_prometheus.
  rewrite split_lines by apply metric_lines_ok. by rewrite omap_app, app_nil_r.
Qed.

(** ** Claims *)

(** Rendering loses nothing.  Reading the exposition text back line by line gives
    the nine samples, in order, each with the decimal numeral of its counter, so two
    snapshots that render alike are equal. *)
Theorem format_prometheus_roundtrip (m : MetricsSnapshot) :
  read_samples (format_prometheus m) =
  [ ("orion_controller_uptime_seconds", pretty (uptime_seconds m));
    ("orion_agents_total", pretty (agents_total m));
    ("orion_agents_live", pretty (agents_live m));
    ("orion_instances_alive", pretty (instances_alive m));
    ("orion_instances_exited", pretty (instances_exited m));
    ("orion_instances_failed", pretty (instances_failed m));
    ("orion_health_status{status=" +:+ dquote +:+ "healthy" +:+ dquote +:+ "}",
     pretty (health_healthy m));
    ("orion_health_status{status=" +:+ dquote +:+ "unhealthy" +:+ dquote +:+ "}",
     pretty (health_unhealthy m));
    ("orion_schedule_fires_total", pretty (schedule_fires_total m)) ] ∧
  ∀ m', format_prometheus m = format_prometheus m' → m = m'.
Proof.
  split; [by rewrite read_format, read_metric_lines|].
  intros m' H%(f_equal read_samples). rewrite !read_format, !read_metric_lines in H.
  injection H as H1 H2 H3 H4 H5 H6 H7 H8 H9. apply (inj pretty) in H1, H2, H3, H4, H5, H6, H7, H8, H9.
  destruct m, m'. simpl in *. congruence.
Qed.
