(* ===== verification/Store.v ===== *)
(** * The store (crates/orion-store)

    The SQLite tables of the controller: declared resources with their
    generation, the observed-node cache, and the log archive.  A query may fail;
    a failed query changes nothing.  The columns hold JSON text and RFC 3339
    timestamps, whose codecs are serde's and chrono's: [ResourceCodec] and
    [Rfc3339] are the functions the source calls. *)

From Stdlib Require Import ZArith Lia Bool Sorted.
From stdpp Require Import base list gmap strings pretty.
From S2P Require Import Prelude Text Types Effect Timestamp.

(** [serde_json::to_string] and [serde_json::from_str] on a [Resource]. *)
Class ResourceCodec {J : SerdeJson} : Type := {
  resource_to_json : Resource → result string string;
  resource_from_json : string → result Resource string
}.

(** [DateTime::to_rfc3339] and [DateTime::parse_from_rfc3339] (then
    [with_timezone(&Utc)]). *)
Class Rfc3339 : Type := {
  to_rfc3339 : Instant → string;
  parse_from_rfc3339 : string → option Instant
}.

(** chrono's laws on the instants it can print with a four-digit year: the text is the
    RFC 3339 text of the instant's date and time of day in UTC, and parsing it gives the
    instant back. *)
Class Rfc3339Laws `{Rfc3339} (valid : Instant → Prop) : Prop := {
  rfc3339_roundtrip : ∀ t, valid t → parse_from_rfc3339 (to_rfc3339 t) = Some t;
  rfc3339_format : ∀ t, valid t → ∃ c, civil_ok c ∧ days_of_civil c = (t / day_ns)%Z ∧
    to_rfc3339 t = rfc3339_text c (t mod day_ns)
}.

(** So the order of the texts is the order of the instants. *)
Lemma rfc3339_order `{Rfc3339Laws} s t : valid s → valid t →
  String.compare (to_rfc3339 s) (to_rfc3339 t) = Z.compare s t.
Proof.
  intros (c & Hc & Ec & ->)%rfc3339_format (d & Hd & Ed & ->)%rfc3339_format.
  rewrite rfc3339_text_order, Ec, Ed by (done || by apply Z.mod_pos_bound).
  by rewrite !(Z.mul_comm _ day_ns), <- !Z.div_mod.
Qed.

(** [StoreError]: [Migrate] and [NotFound] are never produced by the operations
    below. *)
Inductive StoreError : Type :=
| Sql (e : Fault)
| Migrate (e : string)
| Json (e : string)
| NotFound (kind name : string).

(** Its [Display]. *)
Definition store_error_str (e : StoreError) : string :=
  match e with
  | Sql e => "sqlx: " +:+ e
  | Migrate e => "migrate: " +:+ e
  | Json e => "serialize: " +:+ e
  | NotFound kind name => "not found: " +:+ kind +:+ "/" +:+ name
  end.

Notation resource_key := (string * string * string)%type.

Record ResourceRow : Type := {
  row_generation : Z;
  row_body : string;
  row_updated_at : string
}.

Record NodeRow : Type := {
  nr_agent_version : string;
  nr_inventory : option string;
  nr_last_seen_at : string
}.

Record LogRow : Type := {
  lr_at : string;
  lr_kind : string;
  lr_name : string;
  lr_node_id : string;
  lr_stream : string;
  lr_line : string
}.

(** The database: the primary keys index the first two tables, and the archive is
    listed in the order of its AUTOINCREMENT id. *)
Record Db : Type := {
  db_resource : gmap resource_key ResourceRow;
  db_observed_node : gmap string NodeRow;
  db_log_archive : list LogRow
}.

(** The tables [ensure_tables] and the migrations create. *)
Definition Db_empty : Db :=
  {| db_resource := ∅; db_observed_node := ∅; db_log_archive := [] |}.

Definition set_resource (t : gmap resource_key ResourceRow) (d : Db) : Db :=
  {| db_resource := t; db_observed_node := db_observed_node d;
     db_log_archive := db_log_archive d |}.
Definition set_observed_node (t : gmap string NodeRow) (d : Db) : Db :=
  {| db_resource := db_resource d; db_observed_node := t;
     db_log_archive := db_log_archive d |}.
Definition set_log_archive (t : list LogRow) (d : Db) : Db :=
  {| db_resource := db_resource d; db_observed_node := db_observed_node d;
     db_log_archive := t |}.

(** A query: it fails, changing nothing, or reads and writes the database. *)
Definition query {A} (f : Db → A * Db) : M Db (result A StoreError) :=
  io ≫= λ flt,
  match flt with
  | Some e => mret (Err (Sql e))
  | None => get ≫= λ d, let '(a, d') := f d in put d' ≫= λ _, mret (Ok a)
  end.

Section resources.
Context {J : SerdeJson} {RC : ResourceCodec} {T : Rfc3339} {H : HashOrder}.

Definition namespace_of (r : Resource) : string := default "_" (md_namespace (metadata r)).

Definition key_of (r : Resource) : resource_key :=
  (kind_str r, namespace_of r, md_name (metadata r)).

(** The [match existing] of [upsert_resource]. *)
Definition next_generation (existing : option (string * Z)) (body : string) : Z :=
  match existing with
  | Some (prev_body, prev_gen) =>
      if String.eqb prev_body body then prev_gen else add_i64 prev_gen 1
  | None => 1
  end.

(** Its two statements: the SELECT, and the INSERT with its ON CONFLICT clause. *)
Definition select_existing (k : resource_key) : M Db (result (option (string * Z)) StoreError) :=
  query (λ d, ((λ row, (row_body row, row_generation row)) <$> (db_resource d !! k), d)).

Definition insert_resource (k : resource_key) (gen : Z) (body now : string)
    : M Db (result unit StoreError) :=
  query (λ d, (tt, set_resource
    (<[k := {| row_generation := gen; row_body := body; row_updated_at := now |}]>
       (db_resource d)) d)).

Definition upsert_resource (r : Resource) : M Db (result Z StoreError) :=
  match resource_to_json r with
  | Err e => mret (Err (Json e))
  | Ok body =>
      t ← now;
      let! existing := select_existing (key_of r) in
      let next_gen := next_generation existing body in
      let! _ := insert_resource (key_of r) next_gen body (to_rfc3339 t) in
      mret (Ok (u64_of_i64 next_gen))
  end.

Definition decode_body (body : string) : result Resource StoreError :=
  match resource_from_json body with Ok r => Ok r | Err e => Err (Json e) end.

Definition get_resource (kind namespace name : string)
    : M Db (result (option Resource) StoreError) :=
  let! row := query (λ d, (row_body <$> (db_resource d !! (kind, namespace, name)), d)) in
  mret (match row with
        | Some body => let? r := decode_body body in Ok (Some r)
        | None => Ok None
        end).

(** [SELECT body FROM resource WHERE kind = ? ORDER BY name]: rows of one name in
    several namespaces come in an unspecified order. *)
Definition rows_of_kind (kind : string) (d : Db) : list (resource_key * ResourceRow) :=
  sort_by (cmp_on (λ e, e.1.2) String.compare)
    (List.filter (λ e, String.eqb e.1.1.1 kind) (hash_iter (db_resource d))).

Definition list_by_kind (kind : string) : M Db (result (list Resource) StoreError) :=
  let! rows := query (λ d, (rows_of_kind kind d, d)) in
  mret (result_collect (λ e, decode_body (row_body e.2)) rows).

Definition delete_resource (kind namespace name : string) : M Db (result bool StoreError) :=
  query (λ d, (bool_decide (is_Some (db_resource d !! (kind, namespace, name))),
               set_resource (delete (kind, namespace, name) (db_resource d)) d)).

End resources.

(** ** The node cache (node_cache.rs) *)

Record ObservedNode : Type := {
  on_node_id : string;
  on_agent_version : string;
  on_inventory_json : option string;
  on_last_seen_at : Instant
}.

Section nodes.
Context {T : Rfc3339} {H : HashOrder}.

Definition touch_node (node_id agent_version : string) : M Db (result unit StoreError) :=
  t ← now;
  query (λ d, (tt, set_observed_node
    (<[node_id := {| nr_agent_version := agent_version;
                     nr_inventory := db_observed_node d !! node_id ≫= nr_inventory;
                     nr_last_seen_at := to_rfc3339 t |}]> (db_observed_node d)) d)).

Definition set_node_inventory (node_id agent_version inventory_json : string)
    : M Db (result unit StoreError) :=
  t ← now;
  query (λ d, (tt, set_observed_node
    (<[node_id := {| nr_agent_version := agent_version;
                     nr_inventory := Some inventory_json;
                     nr_last_seen_at := to_rfc3339 t |}]> (db_observed_node d)) d)).

(** One row of [list_nodes]: an unreadable timestamp counts as now. *)
Definition observed_of_row (e : string * NodeRow) : M Db ObservedNode :=
  seen ← (match parse_from_rfc3339 (nr_last_seen_at e.2) with
          | Some t => mret t
          | None => now
          end);
  mret {| on_node_id := e.1; on_agent_version := nr_agent_version e.2;
          on_inventory_json := nr_inventory e.2; on_last_seen_at := seen |}.

Fixpoint map_each {A B} (f : A → M Db B) (l : list A) : M Db (list B) :=
  match l with
  | [] => mret []
  | x :: l' => y ← f x; ys ← map_each f l'; mret (y :: ys)
  end.

Definition list_nodes : M Db (result (list ObservedNode) StoreError) :=
  let! rows := query (λ d, (sort_by (cmp_on fst String.compare)
                              (hash_iter (db_observed_node d)), d)) in
  nodes ← map_each observed_of_row rows;
  mret (Ok nodes).

End nodes.

(** ** The log archive (logs.rs) *)

Record LogArchiveEntry : Type := {
  la_at : Instant;
  la_kind : string;
  la_name : string;
  la_node_id : string;
  la_stream : string;
  la_line : string
}.

Section archive.
Context {T : Rfc3339}.

Definition append_log (kind name node_id stream line : string) : M Db (result unit StoreError) :=
  t ← now;
  query (λ d, (tt, set_log_archive
    (db_log_archive d ++ [{| lr_at := to_rfc3339 t; lr_kind := kind; lr_name := name;
                             lr_node_id := node_id; lr_stream := stream; lr_line := line |}]) d)).

(** [at > ?] on TEXT columns. *)
Definition text_gt (a b : string) : bool :=
  match String.compare a b with Gt => true | _ => false end.
Definition text_lt (a b : string) : bool :=
  match String.compare a b with Lt => true | _ => false end.

Definition clamp_limit (limit : Z) : nat := Z.to_nat (Z.max 1 (Z.min limit 100000)).

Definition archive_row (since : option Instant) (kind name : string) (r : LogRow) : bool :=
  String.eqb (lr_kind r) kind && String.eqb (lr_name r) name
  && match since with Some ts => text_gt (lr_at r) (to_rfc3339 ts) | None => true end.

Definition entry_of_row (r : LogRow) : M Db LogArchiveEntry :=
  t ← (match parse_from_rfc3339 (lr_at r) with Some t => mret t | None => now end);
  mret {| la_at := t; la_kind := lr_kind r; la_name := lr_name r;
          la_node_id := lr_node_id r; la_stream := lr_stream r; la_line := lr_line r |}.

Definition read_logs (kind name : string) (since : option Instant) (limit : Z)
    : M Db (result (list LogArchiveEntry) StoreError) :=
  let! rows := query (λ d, (take (clamp_limit limit)
      (reverse (List.filter (archive_row since kind name) (db_log_archive d))), d)) in
  es ← map_each entry_of_row rows;
  mret (Ok es).

Definition purge_old_logs (retention_days : Z) : M Db (result Z StoreError) :=
  t ← now;
  let cutoff := (t - retention_days * day_ns)%Z in
  query (λ d,
    (Z.of_nat (length (List.filter (λ r, text_lt (lr_at r) (to_rfc3339 cutoff))
                        (db_log_archive d))),
     set_log_archive (List.filter (λ r, negb (text_lt (lr_at r) (to_rfc3339 cutoff)))
                        (db_log_archive d)) d)).

End archive.

(** ** Specification of the resource table

    The contract of the resource operations, as a relation on an abstract table
    from (kind, namespace, name) to a resource and its generation. *)

Inductive StoreOp {J : SerdeJson} : Type :=
| OpUpsert (r : Resource)
| OpGet (kind namespace name : string)
| OpDelete (kind namespace name : string)
| OpList (kind : string).

Inductive StoreReply {J : SerdeJson} : Type :=
| RGeneration (g : Z)
| RResource (r : option Resource)
| RDeleted (b : bool)
| RList (l : list Resource)
| RError (e : StoreError).

Section refinement.
Context {J : SerdeJson} {RC : ResourceCodec} {T : Rfc3339} {H : HashOrder}.

Notation abs := (gmap resource_key (Resource * Z)).

(** The operation as the code runs it. *)
Definition run_op (op : StoreOp) : M Db StoreReply :=
  match op with
  | OpUpsert r => x ← upsert_resource r;
      mret (match x with Ok g => RGeneration g | Err e => RError e end)
  | OpGet k ns n => x ← get_resource k ns n;
      mret (match x with Ok r => RResource r | Err e => RError e end)
  | OpDelete k ns n => x ← delete_resource k ns n;
      mret (match x with Ok b => RDeleted b | Err e => RError e end)
  | OpList k => x ← list_by_kind k;
      mret (match x with Ok l => RList l | Err e => RError e end)
  end.

Fixpoint run_ops (ops : list StoreOp) : M Db (list StoreReply) :=
  match ops with
  | [] => mret []
  | op :: ops' => x ← run_op op; xs ← run_ops ops'; mret (x :: xs)
  end.

(** One operation of the abstract table, under an oracle: an operation fails only
    with a fault of the oracle, and then changes nothing. *)
Inductive spec_step (o : Oracle) (a : abs) : StoreOp → StoreReply → abs → Prop :=
| spec_fault op e n :
    or_fault o n = Some e → spec_step o a op (RError (Sql e)) a
| spec_insert r :
    a !! key_of r = None →
    spec_step o a (OpUpsert r) (RGeneration 1) (<[key_of r := (r, 1%Z)]> a)
| spec_same r g :
    a !! key_of r = Some (r, g) →
    spec_step o a (OpUpsert r) (RGeneration (u64_of_i64 g)) a
| spec_changed r r' g :
    a !! key_of r = Some (r', g) → r ≠ r' →
    spec_step o a (OpUpsert r) (RGeneration (u64_of_i64 (add_i64 g 1)))
      (<[key_of r := (r, add_i64 g 1)]> a)
| spec_get k ns n :
    spec_step o a (OpGet k ns n) (RResource (fst <$> a !! (k, ns, n))) a
| spec_delete k ns n :
    spec_step o a (OpDelete k ns n) (RDeleted (bool_decide (is_Some (a !! (k, ns, n)))))
      (delete (k, ns, n) a)
| spec_list k l :
    l ≡ₚ fst ∘ snd <$> List.filter (λ e, String.eqb e.1.1.1 k) (map_to_list a) →
    StronglySorted (cmp_le (cmp_on (λ r, md_name (metadata r)) String.compare)) l →
    spec_step o a (OpList k) (RList l) a.

Inductive spec_steps (o : Oracle) : abs → list StoreOp → list StoreReply → abs → Prop :=
| spec_nil a : spec_steps o a [] [] a
| spec_cons a op x a' ops xs a'' :
    spec_step o a op x a' → spec_steps o a' ops xs a'' →
    spec_steps o a (op :: ops) (x :: xs) a''.

(** A resource whose JSON reads back as itself. *)
Definition storable (r : Resource) : Prop :=
  ∃ b, resource_to_json r = Ok b ∧ resource_from_json b = Ok r.

Definition op_storable (op : StoreOp) : Prop :=
  match op with OpUpsert r => storable r | _ => True end.

(** A row and the abstract entry it stands for. *)
Definition row_rel (k : resource_key) (row : ResourceRow) (e : Resource * Z) : Prop :=
  row_generation row = e.2 ∧ resource_to_json e.1 = Ok (row_body row) ∧
  resource_from_json (row_body row) = Ok e.1 ∧ key_of e.1 = k.

Definition table_rel (d : Db) (a : abs) : Prop :=
  map_relation (λ k row e, row_rel k row e) (λ _ _, False) (λ _ _, False) (db_resource d) a.

(** *** Simulation *)

Lemma query_run {A} (f : Db → A * Db) o d u :
  query f o (d, u) =
  (match or_fault o (us_io u) with Some e => Err (Sql e) | None => Ok (f d).1 end,
   (match or_fault o (us_io u) with Some _ => d | None => (f d).2 end,
    {| us_clock := us_clock u; us_uuid := us_uuid u; us_io := us_io u + 1 |})).
Proof.
  unfold query, io, mbind, M_bind, mret, M_ret, get, put. simpl.
  destruct (or_fault o (us_io u)); [done|]. by destruct (f d).
Qed.

Lemma table_rel_lookup d a k :
  table_rel d a →
  match db_resource d !! k, a !! k with
  | Some row, Some e => row_rel k row e
  | None, None => True
  | _, _ => False
  end.
Proof. intros Hr. specialize (Hr k). by destruct (db_resource d !! k), (a !! k). Qed.

Lemma table_rel_insert d a k row e :
  table_rel d a → row_rel k row e →
  table_rel (set_resource (<[k := row]> (db_resource d)) d) (<[k := e]> a).
Proof.
  intros Hr He k'. simpl. destruct (decide (k = k')) as [->|Hne].
  - by rewrite !lookup_insert_eq.
  - rewrite !lookup_insert_ne by done. apply Hr.
Qed.

Lemma table_rel_delete d a k :
  table_rel d a → table_rel (set_resource (delete k (db_resource d)) d) (delete k a).
Proof.
  intros Hr k'. simpl. destruct (decide (k = k')) as [->|Hne].
  - by rewrite !lookup_delete_eq.
  - rewrite !lookup_delete_ne by done. apply Hr.
Qed.

(** A row written again with the same generation and body. *)
Lemma table_rel_rewrite d a k row e now :
  table_rel d a → db_resource d !! k = Some row → a !! k = Some e →
  table_rel (set_resource
    (<[k := {| row_generation := row_generation row; row_body := row_body row;
               row_updated_at := now |}]> (db_resource d)) d) a.
Proof.
  intros Hr Hd Ha. rewrite <- (insert_id a k e Ha).
  apply table_rel_insert; [done|]. pose proof (table_rel_lookup d a k Hr) as Hk.
  by rewrite Hd, Ha in Hk.
Qed.

Lemma upsert_sim o d u a r :
  table_rel d a → storable r →
  let x := run_op (OpUpsert r) o (d, u) in
  ∃ a', spec_step o a (OpUpsert r) x.1 a' ∧ table_rel x.2.1 a'.
Proof.
  intros Hr (b & Hb & Hd). unfold run_op, upsert_resource. rewrite Hb.
  unfold select_existing, insert_resource.
  unfold mbind, M_bind, mret, M_ret, now. simpl. rewrite query_run. simpl.
  destruct (or_fault o (us_io u)) as [e|] eqn:E1; simpl.
  { exists a. split; [by eapply spec_fault|done]. }
  rewrite query_run. simpl.
  destruct (or_fault o (us_io u + 1)) as [e|] eqn:E2; simpl.
  { exists a. split; [by eapply spec_fault|done]. }
  pose proof (table_rel_lookup d a (key_of r) Hr) as Hk.
  destruct (db_resource d !! key_of r) as [row|] eqn:Erow,
    (a !! key_of r) as [[r' g]|] eqn:Ea; try done; simpl.
  - destruct Hk as (Hg & Hj & Hj' & Hkey). simpl in *.
    destruct (String.eqb_spec (row_body row) b) as [<-|Hne].
    + assert (r = r') as <- by congruence. rewrite Hg. exists a.
      split; [by apply spec_same|]. rewrite <- Hg. by eapply table_rel_rewrite.
    + rewrite Hg. eexists. split; [eapply spec_changed; [done|congruence]|].
      apply table_rel_insert; [done|]. by split_and!.
  - eexists. split; [by apply spec_insert|]. apply table_rel_insert; [done|]. by split_and!.
Qed.

Lemma get_sim o d u a k ns n :
  table_rel d a →
  let x := run_op (OpGet k ns n) o (d, u) in
  ∃ a', spec_step o a (OpGet k ns n) x.1 a' ∧ table_rel x.2.1 a'.
Proof.
  intros Hr. unfold run_op, get_resource. unfold mbind, M_bind, mret, M_ret.
  rewrite query_run. simpl. exists a.
  destruct (or_fault o (us_io u)) as [e|] eqn:E; simpl.
  { split; [by eapply spec_fault|done]. }
  split; [|done]. pose proof (table_rel_lookup d a (k, ns, n) Hr) as Hk.
  pose proof (spec_get o a k ns n) as Hg.
  destruct (db_resource d !! (k, ns, n)) as [row|], (a !! (k, ns, n)) as [[r g]|]; try done.
  simpl in *. destruct Hk as (_ & _ & Hj & _). unfold decode_body. rewrite Hj. done.
Qed.

Lemma delete_sim o d u a k ns n :
  table_rel d a →
  let x := run_op (OpDelete k ns n) o (d, u) in
  ∃ a', spec_step o a (OpDelete k ns n) x.1 a' ∧ table_rel x.2.1 a'.
Proof.
  intros Hr. unfold run_op, delete_resource. unfold mbind, M_bind, mret, M_ret.
  rewrite query_run. simpl. destruct (or_fault o (us_io u)) as [e|] eqn:E; simpl.
  { exists a. split; [by eapply spec_fault|done]. }
  exists (delete (k, ns, n) a). split; [|by apply table_rel_delete].
  pose proof (table_rel_lookup d a (k, ns, n) Hr) as Hk.
  assert (bool_decide (is_Some (db_resource d !! (k, ns, n))) =
          bool_decide (is_Some (a !! (k, ns, n)))) as ->; [|apply spec_delete].
  apply bool_decide_ext. by destruct (db_resource d !! (k, ns, n)), (a !! (k, ns, n)).
Qed.

(** The abstract entries of some rows. *)
Definition entries_of (a : abs) (rows : list (resource_key * ResourceRow))
    : list (resource_key * (Resource * Z)) :=
  omap (λ e, (λ x, (e.1, x)) <$> a !! e.1) rows.

Definition row_known (a : abs) (e : resource_key * ResourceRow) : Prop :=
  ∃ x, a !! e.1 = Some x ∧ row_rel e.1 e.2 x.

Lemma collect_rows a rows :
  Forall (row_known a) rows →
  result_collect (λ e, decode_body (row_body e.2)) rows = Ok (fst ∘ snd <$> entries_of a rows).
Proof.
  induction 1 as [|e rows (x & Hx & _ & _ & Hj & _) Hl IH]; [done|].
  unfold entries_of in *. csimpl. unfold decode_body at 1. rewrite Hj, Hx. csimpl.
  by rewrite IH.
Qed.

Lemma entries_sorted a rows :
  Forall (row_known a) rows →
  StronglySorted (cmp_le (cmp_on (λ e, e.1.2) String.compare)) rows →
  StronglySorted (cmp_le (cmp_on (λ r, md_name (metadata r)) String.compare))
    (fst ∘ snd <$> entries_of a rows).
Proof.
  intros Hk Hs. induction Hs as [|e rows Hs IH He]; [constructor|].
  apply Forall_cons in Hk as [(x & Hx & _ & _ & _ & Hkey) Hk].
  unfold entries_of in *. csimpl. rewrite Hx. csimpl. constructor; [by apply IH|].
  rewrite Forall_forall in Hk. rewrite Forall_forall in He.
  apply Forall_forall. intros r (y & -> & Hy)%list_elem_of_fmap.
  apply list_elem_of_omap in Hy as (e' & He' & Hy). apply fmap_Some in Hy as (z & Hz & ->).
  destruct (Hk e' He') as (z' & Hz' & _ & _ & _ & Hkey'). assert (z = z') as <- by congruence.
  specialize (He e' He'). unfold cmp_le, cmp_on in *. simpl.
  rewrite <- Hkey, <- Hkey' in He. done.
Qed.

#[local] Instance entries_of_perm a : Proper ((≡ₚ) ==> (≡ₚ)) (entries_of a).
Proof. intros l l' Hl. unfold entries_of. by rewrite Hl. Qed.

Lemma entries_perm d a k :
  table_rel d a →
  entries_of a (rows_of_kind k d) ≡ₚ
  List.filter (λ e, String.eqb e.1.1.1 k) (map_to_list a).
Proof.
  intros Hr. unfold rows_of_kind.
  rewrite sort_by_perm, (bfilter_perm _ _ _ (hash_iter_perm _)).
  apply NoDup_Permutation.
  - apply (NoDup_fmap_1 fst). unfold entries_of.
    assert (∀ l : list (resource_key * ResourceRow), NoDup (fst <$> l) →
      NoDup (fst <$> omap (λ e, (λ x, (e.1, x)) <$> a !! e.1) l)) as Hnd.
    { induction l as [|[key row] l IH]; csimpl; [done|]. intros [Hn Hl]%NoDup_cons.
      destruct (a !! key); csimpl; [|by apply IH]. constructor; [|by apply IH].
      intros (y & -> & Hy)%list_elem_of_fmap. apply list_elem_of_omap in Hy as (e' & He' & Hy).
      apply fmap_Some in Hy as (z & _ & ->). apply Hn. simpl. by apply list_elem_of_fmap_2. }
    apply Hnd.
    assert (∀ l : list (resource_key * ResourceRow), NoDup (fst <$> l) →
      NoDup (fst <$> List.filter (λ e, String.eqb e.1.1.1 k) l)) as Hnf.
    { induction l as [|[key row] l IH]; csimpl; [done|]. intros [Hn Hl]%NoDup_cons.
      destruct (String.eqb _ _); csimpl; [|by apply IH]. constructor; [|by apply IH].
      intros (y & Ey & Hy)%list_elem_of_fmap. apply elem_of_bfilter in Hy as [Hy _].
      apply Hn. simpl. rewrite Ey. by apply list_elem_of_fmap_2. }
    apply Hnf, NoDup_fst_map_to_list.
  - apply NoDup_bfilter, NoDup_map_to_list.
  - intros [key x]. rewrite elem_of_bfilter, elem_of_map_to_list. unfold entries_of.
    rewrite list_elem_of_omap. simpl. split.
    + intros ([key' row] & He & Hy). apply elem_of_bfilter in He as [_ He].
      apply fmap_Some in Hy as (z & Hz & [= -> ->]). done.
    + intros [Hx Hkind]. pose proof (table_rel_lookup d a key Hr) as Hk. rewrite Hx in Hk.
      destruct (db_resource d !! key) as [row|] eqn:E; [|done].
      exists (key, row). split; [|simpl; by rewrite Hx].
      apply elem_of_bfilter. by rewrite elem_of_map_to_list.
Qed.

Lemma rows_known d a k : table_rel d a → Forall (row_known a) (rows_of_kind k d).
Proof.
  intros Hr. rewrite Forall_forall. intros [key row] He. unfold rows_of_kind in He.
  apply elem_of_sort_by, elem_of_bfilter in He as [He _].
  apply elem_of_hash_iter in He. pose proof (table_rel_lookup d a key Hr) as Hk.
  rewrite He in Hk. destruct (a !! key) as [x|] eqn:E; [|done]. by exists x.
Qed.

Lemma list_sim o d u a k :
  table_rel d a →
  let x := run_op (OpList k) o (d, u) in
  ∃ a', spec_step o a (OpList k) x.1 a' ∧ table_rel x.2.1 a'.
Proof.
  intros Hr. unfold run_op, list_by_kind. unfold mbind, M_bind, mret, M_ret.
  rewrite query_run. simpl. exists a.
  destruct (or_fault o (us_io u)) as [e|] eqn:E; simpl.
  { split; [by eapply spec_fault|done]. }
  split; [|done]. pose proof (rows_known d a k Hr) as Hk. rewrite (collect_rows a) by done.
  apply spec_list.
  - by rewrite entries_perm.
  - apply entries_sorted; [done|]. apply (sort_by_sorted _).
Qed.

Lemma run_op_sim o d u a op :
  table_rel d a → op_storable op →
  let x := run_op op o (d, u) in
  ∃ a', spec_step o a op x.1 a' ∧ table_rel x.2.1 a'.
Proof.
  intros Hr Hop. destruct op;
    [by apply upsert_sim|by apply get_sim|by apply delete_sim|by apply list_sim].
Qed.

Lemma run_ops_sim o ops d u a :
  table_rel d a → Forall op_storable ops →
  ∃ a', spec_steps o a ops (run_ops ops o (d, u)).1 a'.
Proof.
  intros Hr Hops. revert d u a Hr. induction Hops as [|op ops Hop Hops IH]; intros d u a Hr.
  { exists a. constructor. }
  destruct (run_op_sim o d u a op Hr Hop) as (a' & Hs & Hr').
  simpl. unfold mbind, M_bind, mret, M_ret.
  destruct (run_op op o (d, u)) as [x [d' u']]. simpl in *.
  destruct (IH d' u' a' Hr') as (a'' & Hss).
  destruct (run_ops ops o (d', u')) as [xs [d'' u'']]. exists a''. by econstructor.
Qed.

Lemma table_rel_empty : table_rel Db_empty ∅.
Proof. intros k. simpl. by rewrite !lookup_empty. Qed.

End refinement.

(** ** Two upserts at once *)

Section race.
Context {J : SerdeJson} {RC : ResourceCodec} {T : Rfc3339}.

(** Two [upsert_resource] calls whose statements interleave: both SELECT before
    either INSERTs.  Nothing in the code holds a transaction across the two. *)
Definition racing_upserts (r1 r2 : Resource) : M Db (result (Z * Z) StoreError) :=
  match resource_to_json r1, resource_to_json r2 with
  | Ok b1, Ok b2 =>
      t1 ← now;
      t2 ← now;
      let! e1 := select_existing (key_of r1) in
      let! e2 := select_existing (key_of r2) in
      let! _ := insert_resource (key_of r1) (next_generation e1 b1) b1 (to_rfc3339 t1) in
      let! _ := insert_resource (key_of r2) (next_generation e2 b2) b2 (to_rfc3339 t2) in
      mret (Ok (u64_of_i64 (next_generation e1 b1), u64_of_i64 (next_generation e2 b2)))
  | Err e, _ | _, Err e => mret (Err (Json e))
  end.

Lemma racing_run r1 r2 b1 b2 o d u :
  fault_free o → key_of r1 = key_of r2 →
  resource_to_json r1 = Ok b1 → resource_to_json r2 = Ok b2 →
  let e := (λ row, (row_body row, row_generation row)) <$> db_resource d !! key_of r1 in
  ∃ t1 t2, racing_upserts r1 r2 o (d, u) =
    (Ok (u64_of_i64 (next_generation e b1), u64_of_i64 (next_generation e b2)),
     (set_resource (<[key_of r1 := {| row_generation := next_generation e b2; row_body := b2;
                                      row_updated_at := to_rfc3339 t2 |}]> (db_resource d)) d,
      t1)).
Proof.
  intros Hf Hk Hj1 Hj2 e. unfold racing_upserts. rewrite Hj1, Hj2.
  unfold select_existing, insert_resource.
  unfold mbind, M_bind, mret, M_ret, now. simpl.
  repeat (rewrite query_run; simpl; rewrite Hf; simpl). rewrite <- Hk.
  do 2 eexists. do 2 f_equal. unfold set_resource. simpl. by rewrite insert_insert_eq.
Qed.

End race.

(** ** The node cache and the archive *)

Section cache.
Context {T : Rfc3339} {H : HashOrder}.

Lemma map_each_run {A B} (f : A → M Db B) (g : A → B) l o d u :
  (∀ x, x ∈ l → ∀ u, f x o (d, u) = (g x, (d, u))) → map_each f l o (d, u) = (g <$> l, (d, u)).
Proof.
  induction l as [|x l IH]; intros Hf; [done|]. simpl.
  unfold mbind, M_bind, mret, M_ret. rewrite Hf by (by left). rewrite IH; [done|].
  intros y Hy. apply Hf. by right.
Qed.

Context (valid : Instant → Prop) {L : Rfc3339Laws valid}.

(** The node table, with its timestamps read. *)
Definition node_rel (d : Db) (ns : gmap string ObservedNode) : Prop :=
  (∀ k n, ns !! k = Some n → on_node_id n = k ∧ valid (on_last_seen_at n)) ∧
  db_observed_node d =
    (λ n, {| nr_agent_version := on_agent_version n; nr_inventory := on_inventory_json n;
             nr_last_seen_at := to_rfc3339 (on_last_seen_at n) |}) <$> ns.

Lemma list_nodes_run o d u ns :
  node_rel d ns → or_fault o (us_io u) = None →
  ∃ l, list_nodes o (d, u) =
       (Ok l, (d, {| us_clock := us_clock u; us_uuid := us_uuid u; us_io := us_io u + 1 |})) ∧
       l ≡ₚ snd <$> map_to_list ns ∧
       StronglySorted (cmp_le (cmp_on on_node_id String.compare)) l.
Proof.
  intros [Hv Hd] Hf. unfold list_nodes. unfold mbind at 1, M_bind at 1. rewrite query_run, Hf.
  simpl. set (rows := sort_by _ _).
  set (g := λ e : string * NodeRow,
    {| on_node_id := e.1; on_agent_version := nr_agent_version e.2;
       on_inventory_json := nr_inventory e.2;
       on_last_seen_at := default 0%Z (parse_from_rfc3339 (nr_last_seen_at e.2)) |}).
  assert (∀ e, e ∈ rows → ∃ n, ns !! e.1 = Some n ∧ g e = n ∧
            parse_from_rfc3339 (nr_last_seen_at e.2) = Some (on_last_seen_at n)) as Hrow.
  { intros [k row] He. unfold rows in He. apply elem_of_sort_by, elem_of_hash_iter in He.
    rewrite Hd, lookup_fmap in He. apply fmap_Some in He as (n & Hn & ->).
    exists n. destruct (Hv _ _ Hn) as [<- Hvn]. unfold g. simpl.
    rewrite rfc3339_roundtrip by done. split_and!; [done|by destruct n|done]. }
  exists (g <$> rows). split_and!.
  - unfold mbind, M_bind. rewrite (map_each_run _ g); [done|].
    intros e He u'. destruct (Hrow e He) as (n & _ & _ & Hp).
    unfold observed_of_row, mbind, M_bind, mret, M_ret, g. by rewrite Hp.
  - transitivity (g <$> map_to_list (db_observed_node d)).
    { unfold rows. by rewrite sort_by_perm, hash_iter_perm. }
    rewrite Hd, map_to_list_fmap, <- list_fmap_compose.
    assert (g ∘ prod_map id _ <$> map_to_list ns = snd <$> map_to_list ns) as ->; [|done].
    apply list_fmap_ext. intros i [k n] Hi. simpl.
    assert (ns !! k = Some n) as Hn
      by (apply elem_of_map_to_list; eapply list_elem_of_lookup_2; done).
    destruct (Hv _ _ Hn) as [<- Hvn]. unfold g. simpl. rewrite rfc3339_roundtrip by done.
    by destruct n.
  - pose proof (sort_by_sorted (cmp_on fst String.compare) (hash_iter (db_observed_node d))) as Hs.
    fold rows in Hs. clear Hrow. induction Hs as [|e rows' Hs IH He]; csimpl; constructor; [done|].
    apply Forall_fmap. eapply Forall_impl; [exact He|]. done.
Qed.

(** The archive, with its timestamps read. *)
Definition row_of_entry (e : LogArchiveEntry) : LogRow :=
  {| lr_at := to_rfc3339 (la_at e); lr_kind := la_kind e; lr_name := la_name e;
     lr_node_id := la_node_id e; lr_stream := la_stream e; lr_line := la_line e |}.

Definition archive_rel (d : Db) (es : list LogArchiveEntry) : Prop :=
  Forall (λ e, valid (la_at e)) es ∧ db_log_archive d = row_of_entry <$> es.

Lemma text_gt_time s t :
  valid s → valid t → text_gt (to_rfc3339 s) (to_rfc3339 t) = (t <? s)%Z.
Proof.
  intros. unfold text_gt. rewrite rfc3339_order by done. rewrite Z.ltb_compare, Z.compare_antisym.
  by destruct (t ?= s)%Z.
Qed.

Lemma text_lt_time s t :
  valid s → valid t → text_lt (to_rfc3339 s) (to_rfc3339 t) = (s <? t)%Z.
Proof. intros. unfold text_lt. rewrite rfc3339_order by done. by rewrite Z.ltb_compare. Qed.

(** Filtering rows by a test that agrees with one on entries. *)
Lemma filter_rows (f : LogRow → bool) (g : LogArchiveEntry → bool) es :
  Forall (λ e, f (row_of_entry e) = g e) es →
  List.filter f (row_of_entry <$> es) = row_of_entry <$> List.filter g es.
Proof.
  induction 1 as [|e es He Hes IH]; [done|]. csimpl. rewrite He. destruct (g e); csimpl; congruence.
Qed.

Definition wanted (kind name : string) (since : option Instant) (e : LogArchiveEntry) : bool :=
  String.eqb (la_kind e) kind && String.eqb (la_name e) name
  && match since with Some ts => (ts <? la_at e)%Z | None => true end.

Lemma read_logs_run o d u es kind name since limit :
  archive_rel d es → or_fault o (us_io u) = None →
  (∀ ts, since = Some ts → valid ts) →
  (read_logs kind name since limit o (d, u)).1 =
  Ok (take (clamp_limit limit) (reverse (List.filter (wanted kind name since) es))).
Proof.
  intros [Hv Hd] Hf Hs. unfold read_logs. unfold mbind at 1, M_bind at 1.
  rewrite query_run, Hf. simpl. rewrite Hd.
  rewrite (filter_rows _ (wanted kind name since)).
  2: { eapply Forall_impl; [exact Hv|]. intros e He. unfold archive_row, wanted. simpl.
       destruct since as [ts|]; [|done]. by rewrite text_gt_time by auto. }
  rewrite <- fmap_reverse, <- fmap_take. set (k := take _ _).
  assert (∀ e, e ∈ k → valid (la_at e)) as Hk.
  { intros e He. rewrite Forall_forall in Hv. apply Hv. subst k.
    apply elem_of_take in He as (i & He & _). apply list_elem_of_lookup_2 in He.
    rewrite elem_of_reverse in He. by apply elem_of_bfilter in He as [? _]. }
  unfold mbind, M_bind.
  rewrite (map_each_run _ (λ r, {| la_at := default 0%Z (parse_from_rfc3339 (lr_at r));
    la_kind := lr_kind r; la_name := lr_name r; la_node_id := lr_node_id r;
    la_stream := lr_stream r; la_line := lr_line r |})).
  - simpl. f_equal. rewrite <- list_fmap_compose. rewrite <- (list_fmap_id k) at 2.
    apply list_fmap_ext. intros i e Hi%list_elem_of_lookup_2. simpl.
    rewrite rfc3339_roundtrip by auto. by destruct e.
  - intros r Hr u'. apply list_elem_of_fmap in Hr as (e & -> & He).
    unfold entry_of_row, mbind, M_bind, mret, M_ret. simpl.
    by rewrite rfc3339_roundtrip by auto.
Qed.

Lemma append_log_run o d u es kind name node_id stream line :
  archive_rel d es → or_fault o (us_io u) = None → valid (or_clock o (us_clock u)) →
  archive_rel (append_log kind name node_id stream line o (d, u)).2.1
    (es ++ [{| la_at := or_clock o (us_clock u); la_kind := kind; la_name := name;
               la_node_id := node_id; la_stream := stream; la_line := line |}]).
Proof.
  intros [Hv Hd] Hf Hc. unfold append_log, mbind, M_bind, now. rewrite query_run. simpl.
  rewrite Hf. split; simpl.
  - apply Forall_app. split; [done|]. by apply Forall_singleton.
  - by rewrite Hd, fmap_app.
Qed.

Lemma purge_run o d u es days :
  archive_rel d es → or_fault o (us_io u) = None →
  let cutoff := (or_clock o (us_clock u) - days * day_ns)%Z in
  valid cutoff →
  let x := purge_old_logs days o (d, u) in
  x.1 = Ok (Z.of_nat (length (List.filter (λ e, (la_at e <? cutoff)%Z) es))) ∧
  archive_rel x.2.1 (List.filter (λ e, negb (la_at e <? cutoff)%Z) es).
Proof.
  intros [Hv Hd] Hf cutoff Hc. unfold purge_old_logs, mbind, M_bind, now. rewrite query_run. simpl.
  rewrite Hf. fold cutoff. simpl. rewrite Hd. split.
  - rewrite (filter_rows _ (λ e, (la_at e <? cutoff)%Z)), length_fmap; [done|].
    eapply Forall_impl; [exact Hv|]. intros e He. simpl. by apply text_lt_time.
  - split.
    + rewrite Forall_forall in *. intros e He. apply Hv. by apply elem_of_bfilter in He as [? _].
    + simpl. apply filter_rows. eapply Forall_impl; [exact Hv|]. intros e He. simpl.
      by rewrite text_lt_time.
Qed.

Lemma touch_node_run o d u ns node_id version :
  node_rel d ns → or_fault o (us_io u) = None → valid (or_clock o (us_clock u)) →
  node_rel (touch_node node_id version o (d, u)).2.1
    (<[node_id := {| on_node_id := node_id; on_agent_version := version;
                     on_inventory_json := ns !! node_id ≫= on_inventory_json;
                     on_last_seen_at := or_clock o (us_clock u) |}]> ns).
Proof.
  intros [Hv Hd] Hf Hc. unfold touch_node, mbind at 1, M_bind, now. rewrite query_run. simpl.
  rewrite Hf. split; simpl.
  - intros k n. destruct (decide (node_id = k)) as [->|Hne].
    + rewrite lookup_insert_eq. by intros [= <-].
    + rewrite lookup_insert_ne by done. apply Hv.
  - rewrite Hd, fmap_insert. do 2 f_equal. rewrite lookup_fmap. by destruct (ns !! node_id).
Qed.

Lemma set_node_inventory_run o d u ns node_id version inv :
  node_rel d ns → or_fault o (us_io u) = None → valid (or_clock o (us_clock u)) →
  node_rel (set_node_inventory node_id version inv o (d, u)).2.1
    (<[node_id := {| on_node_id := node_id; on_agent_version := version;
                     on_inventory_json := Some inv;
                     on_last_seen_at := or_clock o (us_clock u) |}]> ns).
Proof.
  intros [Hv Hd] Hf Hc. unfold set_node_inventory, mbind at 1, M_bind, now. rewrite query_run.
  simpl. rewrite Hf. split; simpl.
  - intros k n. destruct (decide (node_id = k)) as [->|Hne].
    + rewrite lookup_insert_eq. by intros [= <-].
    + rewrite lookup_insert_ne by done. apply Hv.
  - by rewrite Hd, fmap_insert.
Qed.

End cache.

(** ** Concrete codecs *)

(** A codec for Services without a runtime: the JSON text is the name. *)
Definition demo_codec : ResourceCodec (J := toy_json) :=
  {| resource_to_json := λ r, Ok (md_name (metadata r));
     resource_from_json := λ b,
       Ok (demo_resource (J := toy_json) b (BService ServiceSpec_default None)) |}.

Definition demo_svc (n : string) : Resource (J := toy_json) :=
  demo_resource (J := toy_json) n (BService ServiceSpec_default None).

(** Two versions of the Service "api", told apart by their JSON. *)
Definition demo_svc_v (replicas : Z) : Resource (J := toy_json) :=
  demo_resource (J := toy_json) "api" (BService
    {| svc_runtime := None; svc_replicas := Some replicas; svc_placement := Placement_default;
       svc_requires := CapabilitySelector_default; svc_capabilities := [];
       svc_ports := []; svc_health := None; svc_restart_policy := Always |} None).

(** A codec that keeps the replica count. *)
Definition demo_codec_v : ResourceCodec (J := toy_json) :=
  {| resource_to_json := λ r, match body r with
       | BService spec _ => Ok (pretty (default 1%Z (svc_replicas spec)))
       | _ => Err "not a Service"
       end;
     resource_from_json := λ _, Err "unused" |}.

(** Timestamps of one digit, for the ten instants 0 to 9. *)
Definition demo_clock : Rfc3339 :=
  {| to_rfc3339 := λ t, String (Ascii.ascii_of_N (48 + Z.to_N t)) EmptyString;
     parse_from_rfc3339 := λ s, match s with
       | String c EmptyString => Some (Z.of_N (Ascii.N_of_ascii c - 48))
       | _ => None
       end |}.

Definition demo_valid (t : Instant) : Prop := (0 <= t < 10)%Z.

(** chrono's texts of those instants of 1970-01-01. *)
Definition utc_clock : Rfc3339 :=
  let text := rfc3339_text {| year := 1970; month := 1; day := 1 |} in
  {| to_rfc3339 := text;
     parse_from_rfc3339 := λ s, List.find (λ t, String.eqb (text t) s) (Z.of_nat <$> seq 0 10) |}.

Example utc_clock_text :
  to_rfc3339 (Rfc3339 := utc_clock) 0%Z = "1970-01-01T00:00:00+00:00" ∧
  to_rfc3339 (Rfc3339 := utc_clock) 7%Z = "1970-01-01T00:00:00.000000007+00:00".
Proof. split; reflexivity. Qed.

Lemma utc_clock_laws : Rfc3339Laws (H := utc_clock) demo_valid.
Proof.
  assert (∀ t, demo_valid t → t = 0 ∨ t = 1 ∨ t = 2 ∨ t = 3 ∨ t = 4 ∨ t = 5 ∨ t = 6 ∨ t = 7
    ∨ t = 8 ∨ t = 9)%Z as Hc by (unfold demo_valid; lia).
  split.
  - intros t Ht%Hc. repeat destruct Ht as [->|Ht]; try subst; vm_compute; reflexivity.
  - intros t Ht. exists {| year := 1970; month := 1; day := 1 |}. unfold demo_valid in Ht.
    rewrite Z.div_small, Z.mod_small by (unfold day_ns; lia).
    split_and!; [|reflexivity|reflexivity]. unfold civil_ok. cbn. lia.
Qed.

(** An oracle whose clock reads 1, 2, 3, ... *)
Definition demo_oracle : Oracle :=
  {| or_clock := λ n, (1 + Z.of_nat n)%Z; or_uuid := λ n, N.of_nat n; or_fault := λ _, None |}.

(** ** Claims *)

(** C3: the resource table implements its contract.  Any sequence of upserts, gets,
    deletes and listings, under any clock and any query failures, returns what the
    abstract table allows: a new resource gets generation 1, an unchanged one keeps
    its generation, a changed one is replaced with the next generation, a get or a
    listing (sorted by name) returns the last version stored, a delete removes it
    and says whether it was there, and an operation fails only when a query does,
    changing nothing.  The resources stored are ones whose JSON decodes to
    themselves. *)
Theorem store_refines {J : SerdeJson} {RC : ResourceCodec} {T : Rfc3339} {H : HashOrder}
    (o : Oracle) (u : Used) (ops : list StoreOp) (Hops : Forall op_storable ops) :
  ∃ a', spec_steps o ∅ ops (run_ops ops o (Db_empty, u)).1 a'.
Proof. apply run_ops_sim; [apply table_rel_empty|done]. Qed.

Lemma store_refines_witness :
  ∃ a', spec_steps (J := toy_json) demo_oracle ∅
    [OpUpsert (demo_svc "api"); OpList "Service"; OpDelete "Service" "_" "api"]
    [RGeneration 1; RList [demo_svc "api"]; RDeleted true] a'.
Proof.
  apply (store_refines (J := toy_json) (RC := demo_codec) (T := demo_clock)
    (H := canonical_order) demo_oracle Used_init
    [OpUpsert (demo_svc "api"); OpList "Service"; OpDelete "Service" "_" "api"]).
  repeat constructor. exists "api". split; reflexivity.
Defined.

(** Generations can be lost.  When the statements of two upserts of one key
    interleave, two different new bodies are both reported as the same generation,
    and the table ends with only the second of them: the bump that the operation
    documents for a changed body happens once for two changes. *)
Theorem upsert_race {J : SerdeJson} {RC : ResourceCodec} {T : Rfc3339}
    (o : Oracle) (d : Db) (u : Used) (r1 r2 : Resource) (b1 b2 : string) (row : ResourceRow)
    (Hf : fault_free o) (Hk : key_of r1 = key_of r2)
    (Hj1 : resource_to_json r1 = Ok b1) (Hj2 : resource_to_json r2 = Ok b2)
    (Hrow : db_resource d !! key_of r1 = Some row)
    (Hb1 : row_body row ≠ b1) (Hb2 : row_body row ≠ b2) :
  let g := add_i64 (row_generation row) 1 in
  let x := racing_upserts r1 r2 o (d, u) in
  x.1 = Ok (u64_of_i64 g, u64_of_i64 g) ∧
  ∃ row', db_resource x.2.1 !! key_of r1 = Some row' ∧
          row_generation row' = g ∧ row_body row' = b2.
Proof.
  simpl. destruct (racing_run r1 r2 b1 b2 o d u Hf Hk Hj1 Hj2) as (t1 & t2 & ->).
  rewrite Hrow. simpl.
  destruct (String.eqb_spec (row_body row) b1) as [?|_]; [done|].
  destruct (String.eqb_spec (row_body row) b2) as [?|_]; [done|].
  split; [done|]. rewrite lookup_insert_eq. eexists. split; [done|done].
Qed.

Lemma upsert_race_witness :
  let x := racing_upserts (RC := demo_codec_v) (T := demo_clock) (demo_svc_v 2) (demo_svc_v 3)
             demo_oracle
             (set_resource {[("Service", "_", "api") :=
                {| row_generation := 1; row_body := "1"; row_updated_at := "0" |}]} Db_empty,
              Used_init) in
  x.1 = Ok (2%Z, 2%Z) ∧
  ∃ row', db_resource x.2.1 !! ("Service", "_", "api") = Some row' ∧
          row_generation row' = 2%Z ∧ row_body row' = "3".
Proof.
  apply (upsert_race (J := toy_json) (RC := demo_codec_v) (T := demo_clock) demo_oracle
    (set_resource {[("Service", "_", "api") :=
       {| row_generation := 1; row_body := "1"; row_updated_at := "0" |}]} Db_empty)
    Used_init (demo_svc_v 2) (demo_svc_v 3) "2" "3"
    {| row_generation := 1; row_body := "1"; row_updated_at := "0" |}).
  - intros n. reflexivity.
  - reflexivity.
  - reflexivity.
  - reflexivity.
  - vm_compute. reflexivity.
  - discriminate.
  - discriminate.
Defined.

(** The node cache keeps one row per node.  A heartbeat refreshes the version and
    the time of its node and keeps the inventory last reported; an inventory report
    replaces all three; no other node changes; and the listing returns each cached
    node once, sorted by id, with the time it was last seen. *)
Theorem node_cache_refines {T : Rfc3339} {H : HashOrder} (valid : Instant → Prop)
    (L : Rfc3339Laws valid) (o : Oracle) (d : Db) (u : Used) (ns : gmap string ObservedNode)
    (Hr : node_rel valid d ns) (Hf : or_fault o (us_io u) = None)
    (Hc : valid (or_clock o (us_clock u))) :
  let t := or_clock o (us_clock u) in
  (∀ id version, node_rel valid (touch_node id version o (d, u)).2.1
     (<[id := {| on_node_id := id; on_agent_version := version;
                 on_inventory_json := ns !! id ≫= on_inventory_json;
                 on_last_seen_at := t |}]> ns)) ∧
  (∀ id version inv, node_rel valid (set_node_inventory id version inv o (d, u)).2.1
     (<[id := {| on_node_id := id; on_agent_version := version;
                 on_inventory_json := Some inv; on_last_seen_at := t |}]> ns)) ∧
  ∃ l, (list_nodes o (d, u)).1 = Ok l ∧ l ≡ₚ snd <$> map_to_list ns ∧
       StronglySorted (cmp_le (cmp_on on_node_id String.compare)) l.
Proof.
  split_and!.
  - intros. by apply touch_node_run.
  - intros. by apply set_node_inventory_run.
  - destruct (list_nodes_run valid o d u ns Hr Hf) as (l & -> & ? & ?). by exists l.
Qed.

Lemma node_cache_refines_witness :
  ∃ l, (list_nodes (T := utc_clock) (H := canonical_order) demo_oracle
          (set_observed_node {["n1" := {| nr_agent_version := "1"; nr_inventory := None;
                                          nr_last_seen_at := "1970-01-01T00:00:00.000000007+00:00" |}]} Db_empty, Used_init)).1
       = Ok l ∧
       l ≡ₚ [{| on_node_id := "n1"; on_agent_version := "1"; on_inventory_json := None;
                on_last_seen_at := 7%Z |}] ∧
       StronglySorted (cmp_le (cmp_on on_node_id String.compare)) l.
Proof.
  refine (proj2 (proj2 (node_cache_refines (T := utc_clock) (H := canonical_order) demo_valid
    utc_clock_laws demo_oracle
    (set_observed_node {["n1" := {| nr_agent_version := "1"; nr_inventory := None;
                                    nr_last_seen_at := "1970-01-01T00:00:00.000000007+00:00" |}]} Db_empty) Used_init
    {["n1" := {| on_node_id := "n1"; on_agent_version := "1"; on_inventory_json := None;
                 on_last_seen_at := 7%Z |}]} _ _ _))).
  - split.
    + intros k n Hn. apply lookup_singleton_Some in Hn as [<- <-].
      unfold demo_valid. simpl. split; [done|lia].
    + vm_compute. reflexivity.
  - reflexivity.
  - unfold demo_valid. simpl. lia.
Defined.

(** What a read promises: the last lines of the archive that satisfy [P], newest first, as
    many as there are or as the bound allows. *)
Definition latest (P : LogArchiveEntry → Prop) `{∀ e, Decision (P e)} (bound : Z)
    (es l : list LogArchiveEntry) : Prop :=
  ∃ older newer, es = older ++ newer ∧ reverse l = filter P newer ∧
    (Z.of_nat (length l) <= bound)%Z ∧
    (Z.of_nat (length l) = bound ∨ ∀ e, e ∈ older → ¬ P e).

Lemma filter_cut (P : LogArchiveEntry → Prop) `{∀ e, Decision (P e)} es k :
  k ≤ length (filter P es) →
  ∃ older newer, es = older ++ newer ∧ filter P newer = drop k (filter P es).
Proof.
  revert k. induction es as [|e es IH]; intros k Hk.
  { exists [], []. split; [done|]. by rewrite filter_nil, drop_nil. }
  rewrite filter_cons in Hk |- *. destruct k as [|k].
  { exists [], (e :: es). by rewrite filter_cons. }
  destruct (decide (P e)) as [HP|HP].
  - destruct (IH k) as (older & newer & -> & E); [simpl in Hk; lia|]. by exists (e :: older), newer.
  - destruct (IH (S k)) as (older & newer & -> & E); [done|]. by exists (e :: older), newer.
Qed.

Lemma latest_take (P : LogArchiveEntry → Prop) `{∀ e, Decision (P e)} n es :
  latest P (Z.of_nat n) es (take n (reverse (filter P es))).
Proof.
  unfold latest. rewrite take_reverse, reverse_involutive, length_reverse, length_drop.
  destruct (filter_cut P es (length (filter P es) - n)) as (older & newer & -> & E); [lia|].
  exists older, newer. split_and!; [done|done|lia|].
  destruct (decide (n ≤ length (filter P (older ++ newer)))); [left; lia|right].
  replace (length (filter P (older ++ newer)) - n) with 0 in E by lia. rewrite drop_0, filter_app in E.
  assert (filter P older = []) as E0.
  { apply (f_equal length) in E. rewrite length_app in E. apply length_zero_iff_nil. lia. }
  intros e He HP. apply (not_elem_of_nil e). rewrite <- E0. by apply list_elem_of_filter.
Qed.

(** A line of the workload, later than [since]. *)
Definition line_of (kind name : string) (since : option Instant) (e : LogArchiveEntry) : Prop :=
  la_kind e = kind ∧ la_name e = name ∧ ∀ ts, since = Some ts → (ts < la_at e)%Z.

Lemma wanted_line kind name since e : wanted kind name since e = true ↔ line_of kind name since e.
Proof.
  unfold wanted, line_of. rewrite !andb_true_iff, !String.eqb_eq.
  destruct since as [ts|]; [rewrite Z.ltb_lt|]; naive_solver.
Qed.

#[export] Instance line_of_dec kind name since e : Decision (line_of kind name since e).
Proof. refine (cast_if (decide (wanted kind name since e = true))); by rewrite <- wanted_line. Defined.

Lemma wanted_filter kind name since es :
  List.filter (wanted kind name since) es = filter (line_of kind name since) es.
Proof.
  induction es as [|e es IH]; [done|]. rewrite filter_cons. cbn [List.filter]. rewrite IH.
  destruct (decide (line_of kind name since e)) as [H|H]; rewrite <- wanted_line in H.
  - by rewrite H.
  - by rewrite (not_true_is_false _ H).
Qed.

(** C25: the archive is a bounded, time-ordered view of what was appended.  Appending
    adds one line stamped with the clock.  A read returns, newest first, the last lines of
    the workload later than the given instant: as many as the limit allows, at least one
    and at most 100,000, and all of them when there are fewer; although the program
    compares RFC 3339 texts of different lengths.  A purge deletes exactly the lines older
    than the cutoff and returns their number. *)
Theorem log_archive_refines {T : Rfc3339} (valid : Instant → Prop)
    (L : Rfc3339Laws valid) (o : Oracle) (d : Db) (u : Used) (es : list LogArchiveEntry)
    (kind name : string) (since : option Instant) (limit days : Z)
    (Hr : archive_rel valid d es) (Hf : or_fault o (us_io u) = None)
    (Hc : valid (or_clock o (us_clock u)))
    (Hs : ∀ ts, since = Some ts → valid ts)
    (Hcut : valid (or_clock o (us_clock u) - days * day_ns)%Z) :
  let t := or_clock o (us_clock u) in
  let older e := (la_at e < t - days * day_ns)%Z in
  (∀ node stream line, archive_rel valid (append_log kind name node stream line o (d, u)).2.1
     (es ++ [{| la_at := t; la_kind := kind; la_name := name; la_node_id := node;
                la_stream := stream; la_line := line |}])) ∧
  (∃ l bound, (read_logs kind name since limit o (d, u)).1 = Ok l ∧
     latest (line_of kind name since) bound es l ∧ (1 <= bound <= 100000)%Z ∧
     ((1 <= limit <= 100000)%Z → bound = limit) ∧ ((limit < 1)%Z → bound = 1%Z) ∧
     ((100000 < limit)%Z → bound = 100000%Z)) ∧
  ∃ kept, archive_rel valid (purge_old_logs days o (d, u)).2.1 kept ∧ kept `sublist_of` es ∧
    (∀ e, e ∈ kept ↔ e ∈ es ∧ ¬ older e) ∧
    (purge_old_logs days o (d, u)).1 = Ok (Z.of_nat (length es - length kept)).
Proof.
  cbv zeta. split_and!.
  - intros. by apply append_log_run.
  - rewrite (read_logs_run valid o d u es) by done. rewrite wanted_filter. do 2 eexists. split; [done|].
    split; [apply latest_take|]. unfold clamp_limit. lia.
  - destruct (purge_run valid o d u es days Hr Hf Hcut) as [Hn Hk].
    eexists. split; [exact Hk|]. split; [apply bfilter_sublist|]. split.
    + intros e. rewrite elem_of_bfilter, negb_true_iff, Z.ltb_ge. naive_solver lia.
    + rewrite Hn. do 2 f_equal. apply bfilter_partition.
Qed.

Definition demo_line (t : Instant) (l : string) : LogArchiveEntry :=
  {| la_at := t; la_kind := "Service"; la_name := "api"; la_node_id := "n1";
     la_stream := "stdout"; la_line := l |}.

Definition demo_lines : list LogArchiveEntry :=
  [demo_line 0%Z "a"; demo_line 1%Z "b"; demo_line 3%Z "c"; demo_line 4%Z "d"].

Lemma log_archive_refines_witness :
  let d := set_log_archive (row_of_entry (T := utc_clock) <$> demo_lines) Db_empty in
  (∃ l, (read_logs (T := utc_clock) "Service" "api" (Some 0%Z) 2 demo_oracle (d, Used_init)).1 = Ok l ∧
     latest (line_of "Service" "api" (Some 0%Z)) 2 demo_lines l) ∧
  (purge_old_logs (T := utc_clock) 0 demo_oracle (d, Used_init)).1 = Ok 1%Z.
Proof.
  cbv zeta. destruct (log_archive_refines (T := utc_clock) demo_valid utc_clock_laws demo_oracle
    (set_log_archive (row_of_entry (T := utc_clock) <$> demo_lines) Db_empty)
    Used_init demo_lines "Service" "api" (Some 0%Z) 2 0) as (_ & (l & bound & Hl & Hlast & _ & Hb & _) & _).
  - split; [|reflexivity]. repeat constructor; vm_compute; discriminate.
  - reflexivity.
  - unfold demo_valid. simpl. lia.
  - intros ts [= <-]. unfold demo_valid. lia.
  - unfold demo_valid, day_ns. simpl. lia.
  - split; [|vm_compute; reflexivity]. exists l. split; [exact Hl|]. by rewrite <- Hb by lia.
Defined.
