(* ===== verification/Registry.v ===== *)
(** * The controller's in-memory registries (crates/orion-controller/src/main.rs)

    The log rings, the instance index, and the schedule, node, workflow and health
    registries.  Each is a value behind a mutex; an operation is the change it
    makes while it holds the lock. *)

From Stdlib Require Import ZArith Lia Bool Sorted.
From stdpp Require Import base list gmap strings.
From S2P Require Import Prelude Text Types Workflow.

(** ** Log rings *)

Definition LOG_RING_CAPACITY : nat := 500.

Record LogEntry : Type := {
  le_at : Instant;
  le_node_id : string;
  le_stream : string;
  le_line : string
}.

Notation workload_key := (string * string)%type.

Record LogBuffer : Type := { rings : gmap workload_key (list LogEntry) }.

Definition LogBuffer_default : LogBuffer := {| rings := ∅ |}.

(** [LogBuffer::push]: the front of the ring is the oldest line. *)
Definition push (b : LogBuffer) (kind name : string) (e : LogEntry) : LogBuffer :=
  let ring := default [] (rings b !! (kind, name)) in
  let ring := if LOG_RING_CAPACITY <=? length ring then tail ring else ring in
  {| rings := <[(kind, name) := ring ++ [e]]> (rings b) |}.

(** [LogBuffer::snapshot]. *)
Definition snapshot (b : LogBuffer) (kind name : string) (since_seq : nat)
    : list LogEntry * nat :=
  match rings b !! (kind, name) with
  | Some ring =>
      let total := length ring in
      let start := min since_seq total in
      (drop start ring, total)
  | None => ([], 0)
  end.

Definition line_count `{HashOrder} (b : LogBuffer) : nat :=
  sum_list (length <$> hash_values (rings b)).

Record SearchHit : Type := {
  hit_kind : string;
  hit_name : string;
  hit_at : Instant;
  hit_node_id : string;
  hit_stream : string;
  hit_line : string
}.

Definition hit_of (kind name : string) (e : LogEntry) : SearchHit :=
  {| hit_kind := kind; hit_name := name; hit_at := le_at e; hit_node_id := le_node_id e;
     hit_stream := le_stream e; hit_line := le_line e |}.

(** [kind_filter] and [name_filter]: [None] means any. *)
Definition passes_filter (f : option string) (s : string) : bool :=
  match f with Some k => String.eqb k s | None => true end.

(** The two nested loops of [LogBuffer::search]. *)
Definition search_hits `{HashOrder} (b : LogBuffer) (query : string)
    (kind_filter name_filter : option string) : list SearchHit :=
  mjoin ((λ '((kind, name), ring),
    if negb (passes_filter kind_filter kind) then []
    else if negb (passes_filter name_filter name) then []
    else hit_of kind name <$> List.filter (λ e, contains query (le_line e)) ring)
    <$> hash_iter (rings b)).

Definition newest_first : SearchHit → SearchHit → comparison :=
  cmp_rev (cmp_on hit_at Z.compare).

Definition search `{HashOrder} (b : LogBuffer) (query : string)
    (kind_filter name_filter : option string) (limit : nat) : list SearchHit :=
  take limit (sort_by newest_first (search_hits b query kind_filter name_filter)).

(** ** Instances *)

Record InstanceRecord : Type := {
  ir_instance_id : Uuid;
  ir_kind : string;
  ir_name : string;
  ir_node : option string;
  ir_replica_index : Z;
  ir_dispatched_at : option Instant;
  ir_first_seen_at : option Instant;
  ir_last_seen_at : option Instant;
  ir_line_count : Z;
  ir_exited_at : option Instant;
  ir_exit_code : option Z;
  ir_exit_kind : option string
}.

Record InstanceRegistry : Type := {
  by_id : gmap Uuid InstanceRecord;
  by_workload : gmap workload_key (list Uuid)
}.

Definition InstanceRegistry_default : InstanceRegistry := {| by_id := ∅; by_workload := ∅ |}.

(** The tail of [record_dispatch] and [note_line]: index the id under the
    workload unless it is there. *)
Definition index_id (key : workload_key) (id : Uuid) (m : gmap workload_key (list Uuid))
    : gmap workload_key (list Uuid) :=
  let ids := default [] (m !! key) in
  <[key := if bool_decide (id ∈ ids) then ids else ids ++ [id]]> m.

Definition record_dispatch (g : InstanceRegistry) (now : Instant) (instance_id : Uuid)
    (kind name : string) (node : option string) (replicas : Z) : InstanceRegistry :=
  let r := match by_id g !! instance_id with
    | Some r =>
        {| ir_instance_id := ir_instance_id r; ir_kind := ir_kind r; ir_name := ir_name r;
           ir_node := (match node with Some n => Some n | None => ir_node r end);
           ir_replica_index := ir_replica_index r;
           ir_dispatched_at := Some now;
           ir_first_seen_at := ir_first_seen_at r; ir_last_seen_at := ir_last_seen_at r;
           ir_line_count := ir_line_count r; ir_exited_at := ir_exited_at r;
           ir_exit_code := ir_exit_code r; ir_exit_kind := ir_exit_kind r |}
    | None =>
        {| ir_instance_id := instance_id; ir_kind := kind; ir_name := name; ir_node := node;
           ir_replica_index := 0; ir_dispatched_at := Some now;
           ir_first_seen_at := None; ir_last_seen_at := None; ir_line_count := 0;
           ir_exited_at := None; ir_exit_code := None; ir_exit_kind := None |}
    end in
  {| by_id := <[instance_id := r]> (by_id g);
     by_workload := index_id (kind, name) instance_id (by_workload g) |}.

Definition note_line (g : InstanceRegistry) (instance_id : Uuid) (kind name node : string)
    (replica_index : Z) (at_ : Instant) : InstanceRegistry :=
  let r := match by_id g !! instance_id with
    | Some r =>
        {| ir_instance_id := ir_instance_id r; ir_kind := ir_kind r; ir_name := ir_name r;
           ir_node := (match ir_node r with None => Some node | Some n => Some n end);
           ir_replica_index := replica_index;
           ir_dispatched_at := ir_dispatched_at r;
           ir_first_seen_at := Some (default at_ (ir_first_seen_at r));
           ir_last_seen_at := Some at_;
           ir_line_count := saturating_add_u32 (ir_line_count r) 1;
           ir_exited_at := ir_exited_at r;
           ir_exit_code := ir_exit_code r; ir_exit_kind := ir_exit_kind r |}
    | None =>
        {| ir_instance_id := instance_id; ir_kind := kind; ir_name := name;
           ir_node := Some node; ir_replica_index := replica_index;
           ir_dispatched_at := None; ir_first_seen_at := Some at_;
           ir_last_seen_at := Some at_; ir_line_count := 1;
           ir_exited_at := None; ir_exit_code := None; ir_exit_kind := None |}
    end in
  {| by_id := <[instance_id := r]> (by_id g);
     by_workload := index_id (kind, name) instance_id (by_workload g) |}.

Definition cmp_replica : InstanceRecord → InstanceRecord → comparison :=
  cmp_on ir_replica_index Z.compare.

Definition snapshot_for (g : InstanceRegistry) (kind name : string) : list InstanceRecord :=
  let ids := default [] (by_workload g !! (kind, name)) in
  sort_by cmp_replica (omap (λ i, by_id g !! i) ids).

(** The order of the tuples (kind, name, replica_index). *)
Definition cmp_workload : InstanceRecord → InstanceRecord → comparison :=
  cmp_then (cmp_on ir_kind String.compare)
    (cmp_then (cmp_on ir_name String.compare) (cmp_on ir_replica_index Z.compare)).

Definition snapshot_all `{HashOrder} (g : InstanceRegistry) : list InstanceRecord :=
  sort_by cmp_workload (hash_values (by_id g)).

(** [ids.iter().filter_map(|i| by_id.remove(i))]. *)
Fixpoint remove_ids (ids : list Uuid) (m : gmap Uuid InstanceRecord)
    : list InstanceRecord * gmap Uuid InstanceRecord :=
  match ids with
  | [] => ([], m)
  | i :: ids' =>
      let '(out, m') := remove_ids ids' (delete i m) in
      (match m !! i with Some r => r :: out | None => out end, m')
  end.

Definition drain_for (g : InstanceRegistry) (kind name : string)
    : list InstanceRecord * InstanceRegistry :=
  let ids := default [] (by_workload g !! (kind, name)) in
  let '(out, m) := remove_ids ids (by_id g) in
  (out, {| by_id := m; by_workload := delete (kind, name) (by_workload g) |}).

Definition kind_for_name `{HashOrder} (g : InstanceRegistry) (name : string) : option string :=
  ir_kind <$> List.find (λ r, String.eqb (ir_name r) name) (hash_values (by_id g)).

Definition record_exit (g : InstanceRegistry) (now : Instant) (instance_id : Uuid)
    (exit_code : Z) (kind : string) : option InstanceRecord * InstanceRegistry :=
  match by_id g !! instance_id with
  | Some r =>
      let r' := {| ir_instance_id := ir_instance_id r; ir_kind := ir_kind r;
                   ir_name := ir_name r; ir_node := ir_node r;
                   ir_replica_index := ir_replica_index r;
                   ir_dispatched_at := ir_dispatched_at r;
                   ir_first_seen_at := ir_first_seen_at r;
                   ir_last_seen_at := ir_last_seen_at r; ir_line_count := ir_line_count r;
                   ir_exited_at := Some now; ir_exit_code := Some exit_code;
                   ir_exit_kind := Some kind |} in
      (Some r', {| by_id := <[instance_id := r']> (by_id g); by_workload := by_workload g |})
  | None => (None, g)
  end.

Definition alive (r : InstanceRecord) : bool := bool_decide (ir_exited_at r = None).

Definition count_alive (g : InstanceRegistry) (kind name : string) : Z :=
  let ids := default [] (by_workload g !! (kind, name)) in
  len_u32 (List.filter alive (omap (λ i, by_id g !! i) ids)).

(** [InstanceRegistry::purge]. *)
Definition purge (g : InstanceRegistry) (instance_id : Uuid) : InstanceRegistry :=
  {| by_id := delete instance_id (by_id g);
     by_workload := (λ ids, List.filter (λ i, negb (bool_decide (i = instance_id))) ids)
                      <$> by_workload g |}.

(** ** Schedules, nodes, workflows, health *)

Record ScheduleObservation : Type := {
  armed_at : Instant;
  last_fired_at : option Instant;
  last_instance_id : option Uuid;
  next_fire_at : option Instant;
  last_error : option string;
  fire_count : Z
}.

Definition ScheduleRegistry : Type := gmap string ScheduleObservation.

(** [ScheduleRegistry::observe]: [now] is read only for a schedule not seen
    before. *)
Definition observe (m : ScheduleRegistry) (now : Instant) (name : string)
    (f : ScheduleObservation → ScheduleObservation) : ScheduleRegistry :=
  let entry := default {| armed_at := now; last_fired_at := None; last_instance_id := None;
                          next_fire_at := None; last_error := None; fire_count := 0 |}
                       (m !! name) in
  <[name := f entry]> m.

(** [NodeIdRegistry]: the node of the last heartbeat. *)
Definition NodeIdRegistry : Type := option string.

Record WorkflowProgress : Type := {
  wpr_steps : gmap string StepStatus;
  wpr_started_at : Instant;
  wpr_finished_at : option Instant
}.

Definition WorkflowRegistry : Type := gmap string WorkflowProgress.

Record HealthSnapshot : Type := {
  hs_service : string;
  hs_status : string;
  hs_consecutive_failures : Z;
  hs_last_at : Instant;
  hs_message : option string
}.

Definition HealthRegistry : Type := gmap Uuid HealthSnapshot.

(** ** The ring keeps the last lines *)

(** The lines pushed for each workload, oldest first. *)
Notation history := (list (workload_key * LogEntry)).

Definition pushes (h : history) : LogBuffer :=
  foldl (λ b x, push b x.1.1 x.1.2 x.2) LogBuffer_default h.

Definition lines_of (k : workload_key) (h : history) : list LogEntry :=
  snd <$> List.filter (λ x, bool_decide (x.1 = k)) h.

Definition last_n {A} (n : nat) (l : list A) : list A := drop (length l - n) l.

Lemma length_last_n {A} n (l : list A) : length (last_n n l) = min n (length l).
Proof. unfold last_n. rewrite length_drop. lia. Qed.

Lemma last_n_all {A} n (l : list A) : length l ≤ n → last_n n l = l.
Proof. intros Hl. unfold last_n. by replace (length l - n) with 0 by lia. Qed.

(** Adding a line to a ring of capacity [n]. *)
Lemma last_n_snoc {A} n (l : list A) e :
  0 < n →
  last_n n (l ++ [e]) =
  (if n <=? length (last_n n l) then tail (last_n n l) else last_n n l) ++ [e].
Proof.
  intros Hn. rewrite length_last_n. destruct (Nat.leb_spec n (min n (length l))) as [H|H].
  - unfold last_n. rewrite length_app. simpl.
    replace (length l + 1 - n) with (S (length l - n)) by lia.
    rewrite drop_app_le by lia.
    assert (∀ k (l : list A), tail (drop k l) = drop (S k) l) as ->; [|done].
    induction k as [|k IH]; intros [|x l']; try done. simpl. apply IH.
  - rewrite !last_n_all; [done|lia|]. rewrite length_app. simpl. lia.
Qed.

Lemma lines_of_app k h1 h2 : lines_of k (h1 ++ h2) = lines_of k h1 ++ lines_of k h2.
Proof. unfold lines_of. by rewrite List.filter_app, fmap_app. Qed.

Lemma lines_of_single k k' e : lines_of k [(k', e)] = if bool_decide (k' = k) then [e] else [].
Proof. unfold lines_of. simpl. by case_bool_decide. Qed.

Lemma pushes_snoc h x : pushes (h ++ [x]) = push (pushes h) x.1.1 x.1.2 x.2.
Proof. unfold pushes. by rewrite foldl_app. Qed.

Lemma pushes_ring h k :
  rings (pushes h) !! k =
  match lines_of k h with
  | [] => None
  | _ => Some (last_n LOG_RING_CAPACITY (lines_of k h))
  end.
Proof.
  induction h as [|[k' e] h IH] using rev_ind; [done|].
  rewrite pushes_snoc, lines_of_app, lines_of_single. unfold push. destruct k' as [kd nm]. simpl.
  destruct (decide ((kd, nm) = k)) as [<-|Hne].
  - rewrite lookup_insert_eq, IH, bool_decide_eq_true_2 by done.
    rewrite last_n_snoc by (unfold LOG_RING_CAPACITY; lia).
    destruct (lines_of (kd, nm) h) as [|y l]; [done|]. simpl. done.
  - rewrite lookup_insert_ne, IH, bool_decide_eq_false_2 by done. by rewrite !app_nil_r.
Qed.

Lemma pushes_ring_default h k :
  default [] (rings (pushes h) !! k) = last_n LOG_RING_CAPACITY (lines_of k h).
Proof. rewrite pushes_ring. by destruct (lines_of k h). Qed.

(** A snapshot in terms of the ring's content. *)
Lemma snapshot_default b kind name since :
  snapshot b kind name since =
  let ring := default [] (rings b !! (kind, name)) in
  (drop (min since (length ring)) ring, length ring).
Proof. unfold snapshot. destruct (rings b !! (kind, name)); [done|]. simpl. by rewrite Nat.min_0_r. Qed.

(** ** Search *)

Lemma elem_of_search_hits `{HashOrder} b q kf nf hit :
  hit ∈ search_hits b q kf nf ↔
  passes_filter kf (hit_kind hit) = true ∧ passes_filter nf (hit_name hit) = true ∧
  ∃ ring e, rings b !! (hit_kind hit, hit_name hit) = Some ring ∧ e ∈ ring ∧
            contains q (le_line e) = true ∧ hit = hit_of (hit_kind hit) (hit_name hit) e.
Proof.
  unfold search_hits. rewrite list_elem_of_join. split.
  - intros (l & Hhit & Hl). apply list_elem_of_fmap in Hl as ([[kd nm] ring] & -> & Hr).
    apply elem_of_hash_iter in Hr.
    destruct (passes_filter kf kd) eqn:Ek; simpl in *; [|by apply elem_of_nil in Hhit].
    destruct (passes_filter nf nm) eqn:En; simpl in *; [|by apply elem_of_nil in Hhit].
    apply list_elem_of_fmap in Hhit as (e & -> & He). apply elem_of_bfilter in He as [He Hq].
    simpl. split_and!; [done|done|]. by exists ring, e.
  - intros (Hk & Hn & ring & e & Hr & He & Hq & ->). simpl in *. eexists. split.
    2: { apply list_elem_of_fmap. exists ((hit_kind hit, hit_name hit), ring).
         split; [done|]. by apply elem_of_hash_iter. }
    rewrite Hk, Hn. simpl. apply list_elem_of_fmap. exists e. split; [done|].
    by apply elem_of_bfilter.
Qed.

#[export] Instance newest_first_order : CmpOrder newest_first.
Proof. unfold newest_first. apply _. Qed.

(** ** The instance index *)

Record reg_inv (g : InstanceRegistry) : Prop := {
  inv_id : ∀ id r, by_id g !! id = Some r → ir_instance_id r = id;
  inv_indexed : ∀ id r, by_id g !! id = Some r →
    ∃ ids, by_workload g !! (ir_kind r, ir_name r) = Some ids ∧ id ∈ ids;
  inv_nodup : ∀ k ids, by_workload g !! k = Some ids → NoDup ids
}.

Lemma index_id_lookup key id m k ids :
  m !! k = Some ids → ∃ ids', index_id key id m !! k = Some ids' ∧ ∀ i, i ∈ ids → i ∈ ids'.
Proof.
  intros Hk. unfold index_id. destruct (decide (key = k)) as [->|Hne].
  - rewrite lookup_insert_eq, Hk. simpl. eexists. split; [done|]. intros i Hi.
    case_bool_decide; [done|]. apply elem_of_app. by left.
  - rewrite lookup_insert_ne by done. eauto.
Qed.

Lemma index_id_in key id m : ∃ ids, index_id key id m !! key = Some ids ∧ id ∈ ids.
Proof.
  unfold index_id. rewrite lookup_insert_eq. eexists. split; [done|].
  case_bool_decide; [done|]. apply elem_of_app. right. by left.
Qed.

Lemma index_id_nodup key id m :
  (∀ k ids, m !! k = Some ids → NoDup ids) →
  ∀ k ids, index_id key id m !! k = Some ids → NoDup ids.
Proof.
  intros Hm k ids. unfold index_id. destruct (decide (key = k)) as [->|Hne].
  - rewrite lookup_insert_eq. intros [= <-].
    assert (NoDup (default [] (m !! k))) as Hd.
    { destruct (m !! k) eqn:E; [by eapply Hm|constructor]. }
    case_bool_decide; [done|]. apply NoDup_app. split_and!; [done| |apply NoDup_singleton].
    intros i Hi ->%list_elem_of_singleton. done.
  - rewrite lookup_insert_ne by done. apply Hm.
Qed.

(** Registering an id under a workload, with a record that either existed with its
    identity or is new for that workload. *)
Lemma register_inv g key id r :
  reg_inv g → ir_instance_id r = id →
  ((ir_kind r, ir_name r) = key ∨
   ∃ r0, by_id g !! id = Some r0 ∧ ir_kind r0 = ir_kind r ∧ ir_name r0 = ir_name r) →
  reg_inv {| by_id := <[id := r]> (by_id g);
             by_workload := index_id key id (by_workload g) |}.
Proof.
  intros Hg Hid Hkey. split; simpl.
  - intros i r' Hr. destruct (decide (id = i)) as [<-|Hne].
    + rewrite lookup_insert_eq in Hr. by simplify_eq.
    + rewrite lookup_insert_ne in Hr by done. by eapply inv_id.
  - intros i r' Hr. destruct (decide (id = i)) as [<-|Hne].
    + rewrite lookup_insert_eq in Hr. simplify_eq.
      destruct Hkey as [<-|(r0 & Hr0 & Ek & En)]; [apply index_id_in|].
      destruct (inv_indexed g Hg _ _ Hr0) as (ids & Hids & Hin). rewrite Ek, En in Hids.
      destruct (index_id_lookup key (ir_instance_id r') _ _ _ Hids) as (ids' & ? & Hsub). eauto.
    + rewrite lookup_insert_ne in Hr by done.
      destruct (inv_indexed g Hg _ _ Hr) as (ids & Hids & Hin).
      destruct (index_id_lookup key id _ _ _ Hids) as (ids' & ? & Hsub). eauto.
  - apply index_id_nodup. apply Hg.
Qed.

Lemma record_dispatch_inv g now id kind name node n :
  reg_inv g → reg_inv (record_dispatch g now id kind name node n).
Proof.
  intros Hg. unfold record_dispatch. apply register_inv; [done|..];
    destruct (by_id g !! id) as [r|] eqn:E; simpl; eauto using inv_id.
Qed.

Lemma note_line_inv g id kind name node i t :
  reg_inv g → reg_inv (note_line g id kind name node i t).
Proof.
  intros Hg. unfold note_line. apply register_inv; [done|..];
    destruct (by_id g !! id) as [r|] eqn:E; simpl; eauto using inv_id.
Qed.

Lemma record_exit_inv g now id code kind : reg_inv g → reg_inv (record_exit g now id code kind).2.
Proof.
  intros Hg. unfold record_exit. destruct (by_id g !! id) as [r|] eqn:E; [|done].
  split; simpl; [| |apply Hg].
  - intros i r' Hr. destruct (decide (id = i)) as [<-|Hne].
    + rewrite lookup_insert_eq in Hr. simplify_eq. simpl. by eapply inv_id.
    + rewrite lookup_insert_ne in Hr by done. by eapply inv_id.
  - intros i r' Hr. destruct (decide (id = i)) as [<-|Hne].
    + rewrite lookup_insert_eq in Hr. simplify_eq. simpl. by eapply inv_indexed.
    + rewrite lookup_insert_ne in Hr by done. by eapply inv_indexed.
Qed.

Lemma purge_inv g id : reg_inv g → reg_inv (purge g id).
Proof.
  intros Hg. unfold purge. split; simpl.
  - intros i r [Hne Hr]%lookup_delete_Some. by eapply inv_id.
  - intros i r [Hne Hr]%lookup_delete_Some.
    destruct (inv_indexed g Hg _ _ Hr) as (ids & Hids & Hin).
    rewrite lookup_fmap, Hids. eexists. split; [done|]. apply elem_of_bfilter.
    split; [done|]. rewrite bool_decide_eq_false_2; done.
  - intros k ids Hk. rewrite lookup_fmap in Hk. apply fmap_Some in Hk as (ids' & Hk & ->).
    apply NoDup_bfilter. by eapply inv_nodup.
Qed.

Lemma remove_ids_spec ids m :
  (remove_ids ids m).2 = filter (λ kv, kv.1 ∉ ids) m ∧
  ∀ r, r ∈ (remove_ids ids m).1 → ∃ i, i ∈ ids ∧ m !! i = Some r.
Proof.
  revert m. induction ids as [|i ids IH]; intros m; simpl.
  - split; [|intros r Hr; by apply elem_of_nil in Hr].
    symmetry. apply map_filter_id. intros k x _. apply not_elem_of_nil.
  - destruct (IH (delete i m)) as [E1 E2].
    destruct (remove_ids ids (delete i m)) as [out m']. simpl in *. split.
    + rewrite E1. apply map_eq. intros k. apply option_eq. intros x.
      rewrite !map_lookup_filter_Some, lookup_delete_Some, not_elem_of_cons. simpl.
      split; [intros [[??]?]|intros [?[??]]]; split_and!; auto.
    + assert (∀ r, r ∈ out → ∃ j, j ∈ i :: ids ∧ m !! j = Some r) as Hout.
      { intros r (j & Hj & Hr)%E2. apply lookup_delete_Some in Hr as [_ Hr].
        exists j. split; [by right|done]. }
      destruct (m !! i) as [r|] eqn:E; [|done].
      intros r' [->|Hr']%elem_of_cons; [|by apply Hout]. exists i. split; [by left|done].
Qed.

Lemma drain_for_inv g kind name : reg_inv g → reg_inv (drain_for g kind name).2.
Proof.
  intros Hg. unfold drain_for.
  destruct (remove_ids_spec (default [] (by_workload g !! (kind, name))) (by_id g)) as [E _].
  destruct (remove_ids _ (by_id g)) as [out m]. simpl in *. subst m. split; simpl.
  - intros i r [Hr _]%map_lookup_filter_Some. by eapply inv_id.
  - intros i r [Hr Hn]%map_lookup_filter_Some. simpl in Hn.
    destruct (inv_indexed g Hg _ _ Hr) as (ids & Hids & Hin). exists ids. split; [|done].
    rewrite lookup_delete_ne; [done|]. intros Ek. apply Hn. rewrite Ek, Hids. done.
  - intros k ids [_ Hk]%lookup_delete_Some. by eapply inv_nodup.
Qed.

(** One operation on the registry. *)
Inductive reg_step (g : InstanceRegistry) : InstanceRegistry → Prop :=
| step_dispatch now id kind name node n :
    reg_step g (record_dispatch g now id kind name node n)
| step_line id kind name node i t : reg_step g (note_line g id kind name node i t)
| step_exit now id code kind : reg_step g (record_exit g now id code kind).2
| step_purge id : reg_step g (purge g id)
| step_drain kind name : reg_step g (drain_for g kind name).2.

Lemma reg_step_inv g g' : reg_inv g → reg_step g g' → reg_inv g'.
Proof.
  intros Hg []; eauto using record_dispatch_inv, note_line_inv, record_exit_inv, purge_inv,
    drain_for_inv.
Qed.

Lemma reg_inv_default : reg_inv InstanceRegistry_default.
Proof. split; intros k x; simpl; by rewrite lookup_empty. Qed.

Lemma reg_reachable_inv g : rtc reg_step InstanceRegistry_default g → reg_inv g.
Proof.
  intros Hr. assert (∀ g0, reg_inv g0 → rtc reg_step g0 g → reg_inv g) as Hi;
    [|by eapply Hi; [apply reg_inv_default|]].
  clear Hr. intros g0 Hg0 Hr. induction Hr; eauto using reg_step_inv.
Qed.

Lemma elem_of_snapshot_for g kind name r :
  r ∈ snapshot_for g kind name ↔
  ∃ ids i, by_workload g !! (kind, name) = Some ids ∧ i ∈ ids ∧ by_id g !! i = Some r.
Proof.
  unfold snapshot_for. rewrite elem_of_sort_by, list_elem_of_omap. split.
  - intros (i & Hi & Hr). destruct (by_workload g !! (kind, name)) as [ids|]; simpl in Hi.
    + eauto.
    + by apply elem_of_nil in Hi.
  - intros (ids & i & -> & Hi & Hr). eauto.
Qed.

(** Looking distinct ids up gives records with distinct ids. *)
Lemma NoDup_lookups g ids :
  reg_inv g → NoDup ids → NoDup (ir_instance_id <$> omap (λ i, by_id g !! i) ids).
Proof.
  intros Hg. induction 1 as [|i ids Hi Hids IH]; csimpl; [constructor|].
  destruct (by_id g !! i) as [r|] eqn:E; csimpl; [|done]. constructor; [|done].
  rewrite (inv_id g Hg _ _ E). intros (r' & Ei & Hr')%list_elem_of_fmap.
  apply list_elem_of_omap in Hr' as (j & Hj & Er). apply (inv_id g Hg) in Er. congruence.
Qed.

(** ** Claims *)

Definition demo_entry (t : Z) (l : string) : LogEntry :=
  {| le_at := t; le_node_id := "n1"; le_stream := "stdout"; le_line := l |}.

(** The log buffer is bounded and keeps the newest lines: after any pushes, the ring
    of a workload holds exactly the last 500 lines pushed for it, oldest first, and
    no other workload's. *)
Theorem log_ring_last_lines (h : list (workload_key * LogEntry)) (k : workload_key) :
  default [] (rings (pushes h) !! k) = last_n LOG_RING_CAPACITY (lines_of k h) ∧
  ∀ ring, rings (pushes h) !! k = Some ring → length ring ≤ LOG_RING_CAPACITY.
Proof.
  pose proof (pushes_ring_default h k) as Hr. split; [done|].
  intros ring Hk. rewrite Hk in Hr. simpl in Hr. rewrite Hr, length_last_n. lia.
Qed.

(** Following a log by its total.  A client that passes back the total of its last
    read gets exactly the new lines while the workload has written at most 500 lines;
    once 500 lines were there at the last read, every later read returns nothing,
    however many lines follow, because the total stays at the ring's capacity. *)
Theorem log_follower (h h' : list (workload_key * LogEntry)) (kind name : string) :
  let total := (snapshot (pushes h) kind name 0).2 in
  let next := snapshot (pushes (h ++ h')) kind name total in
  (length (lines_of (kind, name) (h ++ h')) ≤ LOG_RING_CAPACITY →
     next.1 = lines_of (kind, name) h') ∧
  (LOG_RING_CAPACITY ≤ length (lines_of (kind, name) h) →
     next.1 = [] ∧ next.2 = LOG_RING_CAPACITY).
Proof.
  cbv zeta. rewrite !snapshot_default. cbv zeta. rewrite !pushes_ring_default. simpl.
  rewrite !length_last_n, lines_of_app. split; intros Hl.
  - rewrite length_app in *. rewrite !last_n_all by (rewrite ?length_app; lia).
    rewrite drop_app_ge by lia. by replace (min _ _ - _) with 0 by lia.
  - rewrite length_app. split; [|lia]. apply drop_ge. rewrite length_last_n, length_app. lia.
Qed.

(** A log search returns at most [limit] hits, newest first, out of exactly the
    buffered lines that contain the query in the workloads the filters admit. *)
Theorem log_search_correct {H : HashOrder} (b : LogBuffer) (query : string)
    (kind_filter name_filter : option string) (limit : nat) :
  ∃ all, search b query kind_filter name_filter limit = take limit all ∧
    StronglySorted (cmp_le newest_first) all ∧
    ∀ hit, hit ∈ all ↔
      passes_filter kind_filter (hit_kind hit) = true ∧
      passes_filter name_filter (hit_name hit) = true ∧
      ∃ ring e, rings b !! (hit_kind hit, hit_name hit) = Some ring ∧ e ∈ ring ∧
        (∃ before after, le_line e = before +:+ query +:+ after) ∧
        hit = hit_of (hit_kind hit) (hit_name hit) e.
Proof.
  eexists. split; [reflexivity|]. split; [apply (sort_by_sorted _)|].
  intros hit. rewrite elem_of_sort_by, elem_of_search_hits.
  setoid_rewrite contains_true. done.
Qed.

(** No instance is lost from the index.  In every registry reachable by dispatches,
    log lines, exits, purges and drains, a known instance is listed, once, under the
    workload its record names, so a stop or a reconciliation of that workload sees
    it; listings never repeat an instance. *)
Theorem instance_index_sound (g : InstanceRegistry)
    (Hr : rtc reg_step InstanceRegistry_default g) :
  (∀ id r, by_id g !! id = Some r →
     ir_instance_id r = id ∧ r ∈ snapshot_for g (ir_kind r) (ir_name r)) ∧
  (∀ kind name, NoDup (ir_instance_id <$> snapshot_for g kind name)).
Proof.
  apply reg_reachable_inv in Hr. split.
  - intros id r Hid. split; [by eapply inv_id|].
    destruct (inv_indexed g Hr _ _ Hid) as (ids & Hids & Hin).
    apply elem_of_snapshot_for. eauto.
  - intros kind name. unfold snapshot_for. rewrite sort_by_perm. apply NoDup_lookups; [done|].
    destruct (by_workload g !! (kind, name)) eqn:E; [by eapply inv_nodup|constructor].
Qed.

Definition demo_registry : InstanceRegistry :=
  note_line (record_dispatch InstanceRegistry_default 5%Z 7%N "Service" "api" (Some "n1") 2%Z)
    8%N "Service" "api" "n1" 1%Z 6%Z.

Lemma instance_index_sound_witness :
  (∀ id r, by_id demo_registry !! id = Some r →
     ir_instance_id r = id ∧ r ∈ snapshot_for demo_registry (ir_kind r) (ir_name r)) ∧
  (∀ kind name, NoDup (ir_instance_id <$> snapshot_for demo_registry kind name)).
Proof.
  apply (instance_index_sound demo_registry).
  eapply rtc_l; [apply (step_dispatch _ 5%Z 7%N "Service" "api" (Some "n1") 2%Z)|].
  eapply rtc_l; [apply (step_line _ 8%N "Service" "api" "n1" 1%Z 6%Z)|]. apply rtc_refl.
Defined.

(** A log line that arrives after its instance exited and was purged brings the
    instance back as a live one, without exit code, occupying its slot again; the
    same line before the purge would have left it exited. *)
Theorem late_line_revives (g : InstanceRegistry) (now at_ : Instant) (id : Uuid) (code slot : Z)
    (how kind name node : string) (r : InstanceRecord) (Hr : by_id g !! id = Some r) :
  let exited := (record_exit g now id code how).2 in
  let revived := note_line (purge exited id) id kind name node slot at_ in
  (∃ r', by_id revived !! id = Some r' ∧ alive r' = true ∧ ir_exit_code r' = None ∧
         ir_replica_index r' = slot ∧ r' ∈ snapshot_for revived kind name) ∧
  (∃ r', by_id (note_line exited id kind name node slot at_) !! id = Some r' ∧
         alive r' = false ∧ ir_exit_code r' = Some code).
Proof.
  cbv zeta. unfold record_exit. rewrite Hr. simpl. split.
  - eexists. split.
    + unfold note_line, purge. simpl. rewrite lookup_delete_eq, lookup_insert_eq. done.
    + simpl. split_and!; try done. apply elem_of_snapshot_for. simpl.
      destruct (index_id_in (kind, name) id (by_workload (purge
        {| by_id := <[id := r]> (by_id g); by_workload := by_workload g |} id)))
        as (ids & Hids & Hin).
      exists ids, id. split_and!; [exact Hids|done|].
      unfold purge. simpl. by rewrite lookup_delete_eq, lookup_insert_eq.
  - eexists. split.
    + unfold note_line. simpl. rewrite !lookup_insert_eq. done.
    + done.
Qed.

Lemma late_line_revives_witness :
  let exited := (record_exit demo_registry 9%Z 7%N 137%Z "failed").2 in
  let revived := note_line (purge exited 7%N) 7%N "Service" "api" "n1" 0%Z 10%Z in
  (∃ r', by_id revived !! 7%N = Some r' ∧ alive r' = true ∧ ir_exit_code r' = None ∧
         ir_replica_index r' = 0%Z ∧ r' ∈ snapshot_for revived "Service" "api") ∧
  (∃ r', by_id (note_line exited 7%N "Service" "api" "n1" 0%Z 10%Z) !! 7%N = Some r' ∧
         alive r' = false ∧ ir_exit_code r' = Some 137%Z).
Proof.
  apply (late_line_revives demo_registry 9%Z 10%Z 7%N 137%Z 0%Z "failed" "Service" "api" "n1"
    {| ir_instance_id := 7%N; ir_kind := "Service"; ir_name := "api"; ir_node := Some "n1";
       ir_replica_index := 0; ir_dispatched_at := Some 5%Z; ir_first_seen_at := None;
       ir_last_seen_at := None; ir_line_count := 0; ir_exited_at := None;
       ir_exit_code := None; ir_exit_kind := None |}).
  vm_compute. reflexivity.
Defined.
