(* ===== verification/Controller.v ===== *)
(** * The controller's state and its control loops (crates/orion-controller/src/main.rs)

    [AppState] is the shared state; the subscribers, the dispatch path, the
    reconciler, the workflow runner and the schedule tick are computations over
    it.  One call of each runs as the code writes it, with every clock reading,
    UUID and failing call taken from the oracle; the bus is the list of messages
    published. *)

From Stdlib Require Import ZArith Lia Bool Sorted.
From stdpp Require Import base list gmap strings.
From S2P Require Import Prelude Text Types Effect Scheduler Bus Reconcile Workflow Store Registry.

(** ** Libraries the controller calls *)

Class ControllerLibs {J : SerdeJson} : Type := {
  (** serde_json on a [NodeInventory]. *)
  inventory_to_json : NodeInventory → result string string;
  inventory_from_json : string → option NodeInventory;
  (** The cron crate: [Schedule::from_str] and [schedule.after(&t).next()]. *)
  CronSchedule : Type;
  cron_from_str : string → result CronSchedule string;
  cron_after : CronSchedule → Instant → option Instant;
  (** [Uuid::parse_str]. *)
  uuid_parse_str : string → option Uuid
}.

(** What the controller publishes. *)
Inductive Message : Type :=
| MRun (m : Envelope ControlRun)
| MStop (m : Envelope ControlStop).

(** A log line handed to a spawned archive task. *)
Record ArchiveTask : Type := {
  at_kind : string;
  at_name : string;
  at_node : string;
  at_stream : string;
  at_line : string
}.

Record AppState : Type := {
  app_store : Db;
  app_nats_url : string;
  app_node_id : NodeIdRegistry;
  app_logs : LogBuffer;
  app_schedules : ScheduleRegistry;
  app_instances : InstanceRegistry;
  app_health : HealthRegistry;
  app_workflows : WorkflowRegistry;
  app_auth_disabled : bool;
  app_started_at : Instant;
  (** The messages published so far, and the archive tasks not yet run. *)
  app_published : list (string * Message);
  app_archive_tasks : list ArchiveTask
}.

Definition set_store (x : Db) (s : AppState) : AppState :=
  {| app_store := x; app_nats_url := app_nats_url s; app_node_id := app_node_id s;
     app_logs := app_logs s; app_schedules := app_schedules s;
     app_instances := app_instances s; app_health := app_health s;
     app_workflows := app_workflows s; app_auth_disabled := app_auth_disabled s;
     app_started_at := app_started_at s; app_published := app_published s;
     app_archive_tasks := app_archive_tasks s |}.
Definition set_node_id (x : NodeIdRegistry) (s : AppState) : AppState :=
  {| app_store := app_store s; app_nats_url := app_nats_url s; app_node_id := x;
     app_logs := app_logs s; app_schedules := app_schedules s;
     app_instances := app_instances s; app_health := app_health s;
     app_workflows := app_workflows s; app_auth_disabled := app_auth_disabled s;
     app_started_at := app_started_at s; app_published := app_published s;
     app_archive_tasks := app_archive_tasks s |}.
Definition set_logs (x : LogBuffer) (t : list ArchiveTask) (s : AppState) : AppState :=
  {| app_store := app_store s; app_nats_url := app_nats_url s; app_node_id := app_node_id s;
     app_logs := x; app_schedules := app_schedules s;
     app_instances := app_instances s; app_health := app_health s;
     app_workflows := app_workflows s; app_auth_disabled := app_auth_disabled s;
     app_started_at := app_started_at s; app_published := app_published s;
     app_archive_tasks := t |}.
Definition set_schedules (x : ScheduleRegistry) (s : AppState) : AppState :=
  {| app_store := app_store s; app_nats_url := app_nats_url s; app_node_id := app_node_id s;
     app_logs := app_logs s; app_schedules := x;
     app_instances := app_instances s; app_health := app_health s;
     app_workflows := app_workflows s; app_auth_disabled := app_auth_disabled s;
     app_started_at := app_started_at s; app_published := app_published s;
     app_archive_tasks := app_archive_tasks s |}.
Definition set_instances (x : InstanceRegistry) (s : AppState) : AppState :=
  {| app_store := app_store s; app_nats_url := app_nats_url s; app_node_id := app_node_id s;
     app_logs := app_logs s; app_schedules := app_schedules s;
     app_instances := x; app_health := app_health s;
     app_workflows := app_workflows s; app_auth_disabled := app_auth_disabled s;
     app_started_at := app_started_at s; app_published := app_published s;
     app_archive_tasks := app_archive_tasks s |}.
Definition set_health (x : HealthRegistry) (s : AppState) : AppState :=
  {| app_store := app_store s; app_nats_url := app_nats_url s; app_node_id := app_node_id s;
     app_logs := app_logs s; app_schedules := app_schedules s;
     app_instances := app_instances s; app_health := x;
     app_workflows := app_workflows s; app_auth_disabled := app_auth_disabled s;
     app_started_at := app_started_at s; app_published := app_published s;
     app_archive_tasks := app_archive_tasks s |}.
Definition set_workflows (x : WorkflowRegistry) (s : AppState) : AppState :=
  {| app_store := app_store s; app_nats_url := app_nats_url s; app_node_id := app_node_id s;
     app_logs := app_logs s; app_schedules := app_schedules s;
     app_instances := app_instances s; app_health := app_health s;
     app_workflows := x; app_auth_disabled := app_auth_disabled s;
     app_started_at := app_started_at s; app_published := app_published s;
     app_archive_tasks := app_archive_tasks s |}.
Definition set_published (x : list (string * Message)) (s : AppState) : AppState :=
  {| app_store := app_store s; app_nats_url := app_nats_url s; app_node_id := app_node_id s;
     app_logs := app_logs s; app_schedules := app_schedules s;
     app_instances := app_instances s; app_health := app_health s;
     app_workflows := app_workflows s; app_auth_disabled := app_auth_disabled s;
     app_started_at := app_started_at s; app_published := x;
     app_archive_tasks := app_archive_tasks s |}.

(** The state [main] builds over an opened store. *)
Definition initial_state (store : Db) (nats_url : string) (auth_disabled : bool)
    (started_at : Instant) : AppState :=
  {| app_store := store; app_nats_url := nats_url; app_node_id := None;
     app_logs := LogBuffer_default; app_schedules := ∅;
     app_instances := InstanceRegistry_default; app_health := ∅; app_workflows := ∅;
     app_auth_disabled := auth_disabled; app_started_at := started_at;
     app_published := []; app_archive_tasks := [] |}.

Definition on_store {A} (m : M Db A) : M AppState A := zoom app_store set_store m.

(** [state.nats.publish(subject, payload)]. *)
Definition publish (subject : string) (msg : Message) : M AppState (result unit Fault) :=
  io ≫= λ flt,
  match flt with
  | Some e => mret (Err e)
  | None => modify (λ s, set_published (app_published s ++ [(subject, msg)]) s) ≫= λ _,
            mret (Ok tt)
  end.

(** [Envelope::new(None, payload)]. *)
Definition new_envelope {P} (payload : P) : M AppState (Envelope P) :=
  id ← new_v4;
  t ← now;
  mret (Envelope_new id t None payload).

(** ** Errors of the HTTP API *)

Inductive StatusCode : Type := BAD_REQUEST | NOT_FOUND | INTERNAL_SERVER_ERROR.

Record ApiError : Type := { ae_status : StatusCode; ae_message : string }.

Definition bad_request (msg : string) : ApiError :=
  {| ae_status := BAD_REQUEST; ae_message := msg |}.
Definition not_found (msg : string) : ApiError :=
  {| ae_status := NOT_FOUND; ae_message := msg |}.
Definition internal (msg : string) : ApiError :=
  {| ae_status := INTERNAL_SERVER_ERROR; ae_message := msg |}.

Section controller.
Context {J : SerdeJson} {RC : ResourceCodec} {TM : Rfc3339} {HO : HashOrder}
  {CL : ControllerLibs}.

Definition api_store_error (e : StoreError) : ApiError :=
  {| ae_status := INTERNAL_SERVER_ERROR; ae_message := store_error_str e |}.

(** ** Dispatch *)

Definition workload_kind_str (kind : WorkloadKind) : string :=
  match kind with WService => "Service" | WTask => "Task" end.

(** The placement of a workload, from its resource when that can be read. *)
Definition placement_of (r : result (option Resource) StoreError) : Placement :=
  match r with
  | Ok (Some res) =>
      match body res with
      | BService spec _ => svc_placement spec
      | BTask spec _ => task_placement spec
      | _ => Placement_default
      end
  | _ => Placement_default
  end.

(** One iteration of the loop over the observed nodes. *)
Definition candidate_of (cutoff : Instant) (n : ObservedNode) : option CandidateNode :=
  if (on_last_seen_at n <? cutoff)%Z then None
  else match on_inventory_json n ≫= inventory_from_json with
       | Some inv =>
           Some {| cn_node_id := on_node_id n; cn_arch := inv_arch inv; cn_os := inv_os inv;
                   cn_gpus := inv_gpus inv; cn_roles := []; cn_labels := ∅ |}
       | None => None
       end.

(** The load the scheduler sees for a node. *)
Definition load_of (instances : list InstanceRecord) (id : string) : NodeLoad :=
  {| running_instances := len_u32 (List.filter
       (λ r, bool_decide (ir_node r = Some id) && alive r) instances) |}.

Definition thirty_seconds : Z := 30000000000.

Definition pick_node_for_dispatch (name : ResourceName) (kind : WorkloadKind)
    : M AppState (option string) :=
  r ← on_store (get_resource (workload_kind_str kind) "_" name);
  let placement := placement_of r in
  ns ← on_store list_nodes;
  let observed := match ns with Ok l => l | Err _ => [] end in
  t ← now;
  let cutoff := (t - thirty_seconds)%Z in
  let candidates := omap (candidate_of cutoff) observed in
  s ← get;
  match candidates with
  | [] => mret (app_node_id s)
  | _ => mret (pick_best candidates placement (load_of (snapshot_all (app_instances s))))
  end.

(** The health check of a Service, when its resource can be read. *)
Definition health_check_of (kind : WorkloadKind) (name : ResourceName)
    : M AppState (option HealthCheck) :=
  match kind with
  | WService =>
      r ← on_store (get_resource "Service" "_" name);
      mret (match r with
            | Ok (Some res) =>
                match body res with BService spec _ => svc_health spec | _ => None end
            | _ => None
            end)
  | WTask => mret None
  end.

Definition no_live_nodes : ApiError :=
  bad_request "no live nodes match the workload's placement".

Definition dispatch_workload (kind : WorkloadKind) (name : ResourceName) (runtime : Runtime)
    (generation replicas : Z) : M AppState (result (string * Uuid) ApiError) :=
  picked ← pick_node_for_dispatch name kind;
  match picked with
  | None => mret (Err no_live_nodes)
  | Some node =>
      instance_id ← new_v4;
      health_check ← health_check_of kind name;
      envelope ← new_envelope
        {| run_instance_id := instance_id; run_kind := kind; run_name := name;
           run_runtime := runtime; run_generation := generation; run_replicas := replicas;
           run_health_check := health_check; run_slot_indices := [] |};
      sent ← publish (for_node TControlRun node) (MRun envelope);
      mret (match sent with
            | Ok _ => Ok (node, instance_id)
            | Err e => Err (internal ("publish control.run: " +:+ e))
            end)
  end.

Definition dispatch_workload_with_slots (kind : WorkloadKind) (name : ResourceName)
    (runtime : Runtime) (generation replicas : Z) (slot_indices : list Z)
    : M AppState (result (string * Uuid) ApiError) :=
  picked ← pick_node_for_dispatch name kind;
  match picked with
  | None => mret (Err no_live_nodes)
  | Some node =>
      instance_id ← new_v4;
      health_check ← health_check_of kind name;
      envelope ← new_envelope
        {| run_instance_id := instance_id; run_kind := kind; run_name := name;
           run_runtime := runtime; run_generation := generation; run_replicas := replicas;
           run_health_check := health_check; run_slot_indices := slot_indices |};
      sent ← publish (for_node TControlRun node) (MRun envelope);
      mret (match sent with
            | Ok _ => Ok (node, instance_id)
            | Err e => Err (internal ("publish control.run: " +:+ e))
            end)
  end.

(** [state.instances.record_dispatch(id, kind, name, Some(&node), replicas)]. *)
Definition note_dispatch (id : Uuid) (kind name node : string) (replicas : Z)
    : M AppState unit :=
  t ← now;
  modify (λ s, set_instances
    (record_dispatch (app_instances s) t id kind name (Some node) replicas) s).

(** ** Subscribers

    Each takes the decoded envelope, [None] for a malformed one. *)

Definition on_heartbeat (env : option (Envelope Heartbeat)) : M AppState unit :=
  match env with
  | Some e =>
      let hb := env_payload e in
      _ ← modify (set_node_id (Some (hb_node_id hb)));
      _ ← on_store (touch_node (hb_node_id hb) (hb_agent_version hb));
      mret tt
  | None => mret tt
  end.

Definition on_inventory (env : option (Envelope NodeInventory)) : M AppState unit :=
  match env with
  | Some e =>
      let inv := env_payload e in
      match inventory_to_json inv with
      | Err _ => mret tt
      | Ok inv_json =>
          _ ← on_store (set_node_inventory (inv_node_id inv) (inv_agent_version inv) inv_json);
          mret tt
      end
  | None => mret tt
  end.

Definition stream_str (s : LogStream) : string :=
  match s with Stdout => "stdout" | Stderr => "stderr" end.

Definition on_log (env : option (Envelope LogLine)) : M AppState unit :=
  match env with
  | Some e =>
      let line := env_payload e in
      let stream := stream_str (ll_stream line) in
      s ← get;
      let kind := default "Service" (kind_for_name (app_instances s) (ll_service line)) in
      let entry := {| le_at := env_at e; le_node_id := ll_node_id line;
                      le_stream := stream; le_line := ll_line line |} in
      _ ← modify (λ s, set_logs (push (app_logs s) kind (ll_service line) entry)
            (app_archive_tasks s ++
               [{| at_kind := kind; at_name := ll_service line; at_node := ll_node_id line;
                   at_stream := stream; at_line := ll_line line |}]) s);
      match ll_instance_id line with
      | Some iid => modify (λ s, set_instances
          (note_line (app_instances s) iid kind (ll_service line) (ll_node_id line)
             (ll_replica_index line) (env_at e)) s)
      | None => mret tt
      end
  | None => mret tt
  end.

(** A spawned archive task runs, at any later time and in any order; its result
    is dropped. *)
Definition run_archive_task (n : nat) : M AppState unit :=
  s ← get;
  match app_archive_tasks s !! n with
  | Some t =>
      _ ← modify (λ s, set_logs (app_logs s) (delete n (app_archive_tasks s)) s);
      _ ← on_store (append_log (at_kind t) (at_name t) (at_node t) (at_stream t) (at_line t));
      mret tt
  | None => mret tt
  end.

Definition on_task_event (env : option (Envelope TaskEvent)) : M AppState unit :=
  match env with
  | Some e =>
      let ev := env_payload e in
      match match te_outcome ev with
            | OSucceeded code => Some (code, "succeeded")
            | OFailed code _ => Some (code, "failed")
            | OCancelled _ => Some ((-1)%Z, "cancelled")
            | _ => None
            end with
      | Some (code, kind_str) =>
          t ← now;
          modify (λ s, set_instances
            (record_exit (app_instances s) t (te_task_id ev) code kind_str).2 s)
      | None => mret tt
      end
  | None => mret tt
  end.

(** [format!("{:?}", status).to_lowercase()]. *)
Definition health_status_str (s : HealthStatus) : string :=
  match s with Healthy => "healthy" | Unhealthy => "unhealthy" | UnknownHealth => "unknown" end.

Definition on_service_health (env : option (Envelope ServiceHealth)) : M AppState unit :=
  match env with
  | Some e =>
      let h := env_payload e in
      match uuid_parse_str (Bus.sh_instance_id h) with
      | Some id =>
          t ← now;
          modify (λ s, set_health
            (<[id := {| hs_service := Bus.sh_service h; hs_status := health_status_str (Bus.sh_status h);
                        hs_consecutive_failures := Bus.sh_consecutive_failures h;
                        hs_last_at := t; hs_message := Bus.sh_message h |}]> (app_health s)) s)
      | None => mret tt
      end
  | None => mret tt
  end.

(** ** The reconciler *)

Definition observation_of (health : HealthRegistry) (r : InstanceRecord) : InstanceObservation :=
  {| ob_instance_id := ir_instance_id r; ob_replica_index := ir_replica_index r;
     ob_exited := negb (alive r); ob_exit_code := ir_exit_code r;
     ob_unhealthy := alive r &&
       match health !! ir_instance_id r with
       | Some h => String.eqb (hs_status h) "unhealthy"
       | None => false
       end |}.

Definition observations (g : InstanceRegistry) (health : HealthRegistry) (name : string)
    : list InstanceObservation :=
  observation_of health <$>
    omap (λ i, by_id g !! i) (default [] (by_workload g !! ("Service", name))).

(** The loop over the ids to purge. *)
Definition purge_all (ids : list Uuid) : M AppState unit :=
  for_each ids (λ id,
    modify (λ s, set_health (delete id (app_health s))
                   (set_instances (purge (app_instances s) id) s))).

Definition reconcile_service (health_snap : HealthRegistry) (svc : Resource) : M AppState unit :=
  let name := md_name (metadata svc) in
  let generation := md_generation (metadata svc) in
  match body svc with
  | BService spec _ =>
      match svc_runtime spec with
      | None => mret tt
      | Some runtime =>
          s ← get;
          match decide_reconcile spec (observations (app_instances s) health_snap name) with
          | NoOp => mret tt
          | RedispatchAll replicas ids =>
              _ ← purge_all ids;
              r ← dispatch_workload WService name runtime (default 0%Z generation) replicas;
              match r with
              | Ok (node, id) => note_dispatch id "Service" name node replicas
              | Err _ => mret tt
              end
          | DispatchPartial slot_indices ids =>
              _ ← purge_all ids;
              let desired := desired_replicas spec in
              r ← dispatch_workload_with_slots WService name runtime (default 0%Z generation)
                    desired slot_indices;
              match r with
              | Ok (node, id) => note_dispatch id "Service" name node desired
              | Err _ => mret tt
              end
          end
      end
  | _ => mret tt
  end.

Definition reconcile_once : M AppState (result unit StoreError) :=
  let! services := on_store (list_by_kind "Service") in
  s ← get;
  _ ← for_each services (reconcile_service (app_health s));
  mret (Ok tt).

(** ** The workflow runner *)

(** The loop that builds [task_states] from the instance snapshot. *)
Definition task_exit (r : InstanceRecord) : option TaskExitKind :=
  match ir_exit_kind r with
  | Some k => if String.eqb k "succeeded" then Some TaskSucceeded
              else if String.eqb k "failed" then Some TaskFailed else None
  | None => None
  end.

Definition note_exit (m : gmap string TaskExitKind) (r : InstanceRecord)
    : gmap string TaskExitKind :=
  if String.eqb (ir_kind r) "Task" then
    match task_exit r with Some k => <[ir_name r := k]> m | None => m end
  else m.

Definition task_states (g : InstanceRegistry) : gmap string TaskExitKind :=
  foldl note_exit ∅ (snapshot_all g).

(** One step the planner asked for: the status it ends the tick with. *)
Definition dispatch_step (spec : WorkflowSpec) (steps : gmap string StepStatus)
    (step_name : string) : M AppState (gmap string StepStatus) :=
  match List.find (λ s, bool_decide (ws_name s = step_name)) (wf_steps spec) with
  | None => mret steps
  | Some step =>
      t ← on_store (get_resource "Task" "_" (ws_task step));
      match t with
      | Ok (Some task) =>
          match match body task with BTask tspec _ => task_runtime tspec | _ => None end with
          | None => mret (<[ws_name step := Failed]> steps)
          | Some runtime =>
              r ← dispatch_workload WTask (ws_task step) runtime 0 1;
              match r with
              | Ok (node, id) =>
                  _ ← note_dispatch id "Task" (ws_task step) node 1;
                  mret (<[ws_name step := Running]> steps)
              | Err _ => mret (<[ws_name step := Failed]> steps)
              end
          end
      | _ => mret (<[ws_name step := Failed]> steps)
      end
  end.

(** The [or_insert_with] of a workflow not seen before. *)
Definition fresh_steps (spec : WorkflowSpec) : gmap string StepStatus :=
  list_to_map (reverse ((λ s, (ws_name s, Pending)) <$> wf_steps spec)).

Definition workflow_entry (name : string) (spec : WorkflowSpec) : M AppState WorkflowProgress :=
  s ← get;
  match app_workflows s !! name with
  | Some p => mret p
  | None =>
      t ← now;
      let p := {| wpr_steps := fresh_steps spec; wpr_started_at := t; wpr_finished_at := None |} in
      _ ← modify (λ s, set_workflows (<[name := p]> (app_workflows s)) s);
      mret p
  end.

Definition workflow_tick (wf : Resource) : M AppState unit :=
  let name := md_name (metadata wf) in
  match body wf with
  | BWorkflow spec _ =>
      progress ← workflow_entry name spec;
      match wpr_finished_at progress with
      | Some _ => mret tt
      | None =>
          s ← get;
          let plan := advance_workflow
            {| wi_spec := spec; wi_progress := wpr_steps progress;
               wi_task_states := task_states (app_instances s) |} in
          let steps := next_progress plan ∪ wpr_steps progress in
          steps ← fold_each (dispatch_step spec) steps (dispatch plan);
          fin ← (if finished plan then t ← now; mret (Some t)
                 else mret (wpr_finished_at progress));
          modify (λ s, set_workflows
            (<[name := {| wpr_steps := steps; wpr_started_at := wpr_started_at progress;
                          wpr_finished_at := fin |}]> (app_workflows s)) s)
      end
  | _ => mret tt
  end.

Definition workflow_tick_once : M AppState (result unit StoreError) :=
  let! workflows := on_store (list_by_kind "Workflow") in
  _ ← for_each workflows workflow_tick;
  mret (Ok tt).

(** ** The schedule tick *)

(** [state.schedules.observe(name, f)]: reads the clock for a new schedule only. *)
Definition observe_schedule (name : string) (f : ScheduleObservation → ScheduleObservation)
    : M AppState unit :=
  s ← get;
  match app_schedules s !! name with
  | Some _ => modify (λ s, set_schedules (observe (app_schedules s) 0%Z name f) s)
  | None => t ← now; modify (λ s, set_schedules (observe (app_schedules s) t name f) s)
  end.

(** Five fields are POSIX cron: the crate wants a seconds field in front. *)
Definition cron_expr (spec_cron : string) : string :=
  if bool_decide (split_whitespace_count spec_cron = 5) then "0 " +:+ spec_cron else spec_cron.

Definition resolve_schedule_target (spec : ScheduleSpec)
    : M AppState (result (ResourceName * Runtime) string) :=
  match sched_task_template spec with
  | Some template =>
      mret (match task_runtime template with
            | Some rt => Ok ("inline-task", rt)
            | None => Err "task_template has no runtime"
            end)
  | None =>
      match sched_task spec with
      | Some task_name =>
          r ← on_store (get_resource "Task" "_" task_name);
          mret (match r with
                | Err e => Err ("store: " +:+ store_error_str e)
                | Ok None => Err ("referenced Task '" +:+ task_name +:+ "' not found")
                | Ok (Some task) =>
                    match body task with
                    | BTask spec _ =>
                        match task_runtime spec with
                        | Some rt => Ok (task_name, rt)
                        | None => Err "referenced Task has no runtime"
                        end
                    | _ => Err "referenced resource is not a Task"
                    end
                end)
      | None =>
          mret (Err "schedule has no task or task_template (should not happen if validate() ran)")
      end
  end.

(** The updates of an observation. *)
Definition obs_error (msg : string) (o : ScheduleObservation) : ScheduleObservation :=
  {| armed_at := armed_at o; last_fired_at := last_fired_at o;
     last_instance_id := last_instance_id o; next_fire_at := next_fire_at o;
     last_error := Some msg; fire_count := fire_count o |}.
Definition obs_next (t : option Instant) (o : ScheduleObservation) : ScheduleObservation :=
  {| armed_at := armed_at o; last_fired_at := last_fired_at o;
     last_instance_id := last_instance_id o; next_fire_at := t;
     last_error := last_error o; fire_count := fire_count o |}.
Definition obs_fired (t : Instant) (id : Uuid) (next : option Instant) (o : ScheduleObservation)
    : ScheduleObservation :=
  {| armed_at := armed_at o; last_fired_at := Some t; last_instance_id := Some id;
     next_fire_at := next; last_error := None; fire_count := wrap_u32 (fire_count o + 1) |}.

Definition schedule_tick (now_ : Instant) (sched : Resource) : M AppState unit :=
  let name := md_name (metadata sched) in
  match body sched with
  | BSchedule spec _ =>
      match cron_from_str (cron_expr (sched_cron spec)) with
      | Err e => observe_schedule name (λ o, obs_next None (obs_error ("cron parse: " +:+ e) o))
      | Ok parsed =>
          s ← get;
          match app_schedules s !! name with
          | None => observe_schedule name (obs_next (cron_after parsed now_))
          | Some o =>
              let after := default (armed_at o) (last_fired_at o) in
              let next := cron_after parsed after in
              _ ← observe_schedule name (obs_next next);
              match next with
              | None => mret tt
              | Some t =>
                  if (now_ <? t)%Z then mret tt
                  else
                    target ← resolve_schedule_target spec;
                    match target with
                    | Err e => observe_schedule name (obs_error e)
                    | Ok (workload_name, runtime) =>
                        r ← dispatch_workload WTask workload_name runtime 1 1;
                        match r with
                        | Ok (_, id) =>
                            observe_schedule name (obs_fired now_ id (cron_after parsed now_))
                        | Err e => observe_schedule name (obs_error (ae_message e))
                        end
                    end
              end
          end
      end
  | _ => mret tt
  end.

Definition scheduler_tick_once : M AppState (result unit StoreError) :=
  let! schedules := on_store (list_by_kind "Schedule") in
  t ← now;
  _ ← for_each schedules (schedule_tick t);
  mret (Ok tt).

End controller.
