(* ===== verification/Dispatch.v ===== *)
(** * The dispatch path and the reconciler: theorems

    What [dispatch_workload] publishes, where it sends a workload, and what one
    reconciliation of a Service does. *)

From Stdlib Require Import ZArith Lia Bool Sorted.
From stdpp Require Import base list gmap strings.
From S2P Require Import Prelude Text Types Effect Scheduler Bus Reconcile Workflow Store Registry Controller.

(** ** Computations that only read *)

Definition readonly {S A} (m : M S A) : Prop := ∀ o s u, (m o (s, u)).2.1 = s.

Lemma readonly_ret {S A} (a : A) : readonly (mret (M := M S) a).
Proof. done. Qed.
Lemma readonly_bind {S A B} (m : M S A) (f : A → M S B) :
  readonly m → (∀ a, readonly (f a)) → readonly (m ≫= f).
Proof.
  intros Hm Hf o s u. unfold mbind, M_bind. specialize (Hm o s u).
  destruct (m o (s, u)) as [a [s' u']]. simpl in *. subst s'. apply Hf.
Qed.
Lemma readonly_now {S} : readonly (S := S) now.
Proof. done. Qed.
Lemma readonly_new_v4 {S} : readonly (S := S) new_v4.
Proof. done. Qed.
Lemma readonly_get {S} : readonly (S := S) get.
Proof. done. Qed.
Lemma readonly_query {A} (f : Db → A * Db) : (∀ d, (f d).2 = d) → readonly (query f).
Proof. intros Hf o d u. rewrite query_run. simpl. by destruct (or_fault o (us_io u)). Qed.
Lemma readonly_map_each {A B} (f : A → M Db B) l : (∀ x, readonly (f x)) → readonly (map_each f l).
Proof.
  intros Hf. induction l as [|x l IH]; simpl; [apply readonly_ret|].
  repeat (apply readonly_bind; [done|intros ?]). apply readonly_ret.
Qed.

Lemma set_store_id s : set_store (app_store s) s = s.
Proof. by destruct s. Qed.

Lemma readonly_on_store {A} (m : M Db A) : readonly m → readonly (on_store m).
Proof.
  intros Hm o s u. unfold on_store, zoom. specialize (Hm o (app_store s) u).
  destruct (m o (app_store s, u)) as [a [d u']]. simpl in *. subst d. apply set_store_id.
Qed.

#[export] Hint Resolve readonly_ret readonly_bind readonly_now readonly_new_v4 readonly_get
  readonly_map_each readonly_on_store : orion.

Section reads.
Context {J : SerdeJson} {RC : ResourceCodec} {TM : Rfc3339} {HO : HashOrder}
  {CL : ControllerLibs}.

Lemma readonly_get_resource k ns n : readonly (get_resource k ns n).
Proof.
  unfold get_resource. apply readonly_bind; [by apply readonly_query|].
  intros [r|e]; apply readonly_ret.
Qed.

Lemma readonly_list_by_kind k : readonly (list_by_kind k).
Proof.
  unfold list_by_kind. apply readonly_bind; [by apply readonly_query|].
  intros [r|e]; apply readonly_ret.
Qed.

Lemma readonly_list_nodes : readonly list_nodes.
Proof.
  unfold list_nodes. apply readonly_bind; [by apply readonly_query|].
  intros [r|e]; [|apply readonly_ret]. apply readonly_bind; [|intros ?; apply readonly_ret].
  apply readonly_map_each. intros x. unfold observed_of_row.
  apply readonly_bind; [|intros ?; apply readonly_ret].
  destruct (parse_from_rfc3339 _); auto with orion.
Qed.

Lemma readonly_pick name kind : readonly (pick_node_for_dispatch name kind).
Proof.
  unfold pick_node_for_dispatch.
  apply readonly_bind; [apply readonly_on_store, readonly_get_resource|intros r].
  apply readonly_bind; [apply readonly_on_store, readonly_list_nodes|intros ns].
  apply readonly_bind; [apply readonly_now|intros t].
  apply readonly_bind; [apply readonly_get|intros s]. destruct (omap _ _); apply readonly_ret.
Qed.

Lemma readonly_health_check kind name : readonly (health_check_of kind name).
Proof.
  destruct kind; [|apply readonly_ret].
  apply readonly_bind; [apply readonly_on_store, readonly_get_resource|intros ?; apply readonly_ret].
Qed.

Lemma readonly_new_envelope {P} (p : P) : readonly (new_envelope p).
Proof. unfold new_envelope. auto with orion. Qed.

Lemma readonly_resolve spec : readonly (resolve_schedule_target spec).
Proof.
  unfold resolve_schedule_target. destruct (sched_task_template spec); [apply readonly_ret|].
  destruct (sched_task spec); [|apply readonly_ret].
  apply readonly_bind; [apply readonly_on_store, readonly_get_resource|intros ?; apply readonly_ret].
Qed.

(** Running a reading computation first. *)
Lemma run_readonly {S A B} (m : M S A) (f : A → M S B) o s u :
  readonly m → (m ≫= f) o (s, u) = f (m o (s, u)).1 o (s, (m o (s, u)).2.2).
Proof.
  intros Hm. unfold mbind, M_bind. specialize (Hm o s u).
  destruct (m o (s, u)) as [a [s' u']]. simpl in *. by subst s'.
Qed.

End reads.

(** ** What a dispatch does *)

Section dispatch.
Context {J : SerdeJson} {RC : ResourceCodec} {TM : Rfc3339} {HO : HashOrder}
  {CL : ControllerLibs}.

(** The state with one more [ControlRun] published to a node. *)
Definition with_run (node : string) (env : Envelope ControlRun) (s : AppState) : AppState :=
  set_published (app_published s ++ [(for_node TControlRun node, MRun env)]) s.

(** The outcome of a dispatch: an error that changes nothing, or one [ControlRun]
    for the workload, under a fresh id, on the picked node's subject. *)
Inductive dispatched (kind : WorkloadKind) (name : ResourceName) (runtime : Runtime)
    (generation replicas : Z) (slots : list Z) (o : Oracle) (s : AppState) (u : Used)
    : result (string * Uuid) ApiError → AppState → Prop :=
| dispatched_err e :
    dispatched kind name runtime generation replicas slots o s u (Err e) s
| dispatched_ok node id i hc env :
    (pick_node_for_dispatch name kind o (s, u)).1 = Some node →
    id = or_uuid o i →
    env_payload env = {| run_instance_id := id; run_kind := kind; run_name := name;
      run_runtime := runtime; run_generation := generation; run_replicas := replicas;
      run_health_check := hc; run_slot_indices := slots |} →
    dispatched kind name runtime generation replicas slots o s u (Ok (node, id))
      (with_run node env s).

Lemma dispatch_slots_run kind name runtime generation replicas slots o s u :
  let x := dispatch_workload_with_slots kind name runtime generation replicas slots o (s, u) in
  dispatched kind name runtime generation replicas slots o s u x.1 x.2.1.
Proof.
  cbv zeta. unfold dispatch_workload_with_slots.
  rewrite (run_readonly _ _ _ _ _ (readonly_pick name kind)).
  destruct (pick_node_for_dispatch name kind o (s, u)) as [[node|] [s0 u0]] eqn:Ep;
    simpl; [|apply dispatched_err].
  rewrite (run_readonly _ _ _ _ _ readonly_new_v4).
  rewrite (run_readonly _ _ _ _ _ (readonly_health_check kind name)).
  rewrite (run_readonly _ _ _ _ _ (readonly_new_envelope _)). simpl.
  unfold publish, io, modify, mbind, M_bind, mret, M_ret. simpl.
  destruct (or_fault o _); simpl; [apply dispatched_err|].
  eapply dispatched_ok; [by rewrite Ep|done|]. simpl. done.
Qed.

Lemma dispatch_run kind name runtime generation replicas o s u :
  let x := dispatch_workload kind name runtime generation replicas o (s, u) in
  dispatched kind name runtime generation replicas [] o s u x.1 x.2.1.
Proof. apply dispatch_slots_run. Qed.

Lemma dispatch_slots_ok kind name runtime gen reps slots o s u node :
  fault_free o → (pick_node_for_dispatch name kind o (s, u)).1 = Some node →
  ∃ i u' env,
    dispatch_workload_with_slots kind name runtime gen reps slots o (s, u) =
    (Ok (node, or_uuid o i), (with_run node env s, u')) ∧
    run_slot_indices (env_payload env) = slots ∧ run_instance_id (env_payload env) = or_uuid o i.
Proof.
  intros Hf Hp. unfold dispatch_workload_with_slots.
  rewrite (run_readonly _ _ _ _ _ (readonly_pick name kind)), Hp.
  rewrite (run_readonly _ _ _ _ _ readonly_new_v4).
  rewrite (run_readonly _ _ _ _ _ (readonly_health_check kind name)).
  rewrite (run_readonly _ _ _ _ _ (readonly_new_envelope _)).
  unfold publish, io, modify, mbind, M_bind, mret, M_ret. rewrite Hf.
  do 3 eexists. split; [reflexivity|]. done.
Qed.

Lemma dispatch_none kind name runtime gen reps slots o s u :
  (pick_node_for_dispatch name kind o (s, u)).1 = None →
  (dispatch_workload_with_slots kind name runtime gen reps slots o (s, u)).1 = Err no_live_nodes.
Proof.
  intros Hp. unfold dispatch_workload_with_slots.
  by rewrite (run_readonly _ _ _ _ _ (readonly_pick name kind)), Hp.
Qed.

(** Without faults a dispatch succeeds exactly when a node is picked. *)
Lemma dispatch_quiet kind name runtime gen reps slots o s u :
  fault_free o →
  fst <$> result_ok (dispatch_workload_with_slots kind name runtime gen reps slots o (s, u)).1 =
  (pick_node_for_dispatch name kind o (s, u)).1.
Proof.
  intros Hf. destruct (pick_node_for_dispatch name kind o (s, u)).1 as [node|] eqn:Hp.
  - by destruct (dispatch_slots_ok kind name runtime gen reps slots o s u node Hf Hp)
      as (i & u' & env & -> & _).
  - by rewrite (dispatch_none _ _ _ _ _ _ _ _ _ Hp).
Qed.

(** What the store holds under the default namespace. *)
Definition stored (d : Db) (kind name : string) : result (option Resource) StoreError :=
  match db_resource d !! (kind, "_", name) with
  | Some row => match decode_body (row_body row) with Ok r => Ok (Some r) | Err e => Err e end
  | None => Ok None
  end.

Lemma get_run kind name o d u :
  or_fault o (us_io u) = None → (get_resource kind "_" name o (d, u)).1 = stored d kind name.
Proof.
  intros Hf. unfold get_resource, stored, mbind, M_bind, mret, M_ret. rewrite query_run, Hf. simpl.
  by destruct (db_resource d !! (kind, "_", name)).
Qed.

(** The placement a dispatch goes by: that of the stored workload, or none when the query
    for it fails. *)
Definition dispatch_placement (o : Oracle) (s : AppState) (u : Used) (kind : WorkloadKind)
    (name : ResourceName) : Placement :=
  match or_fault o (us_io u) with
  | Some _ => Placement_default
  | None => placement_of (stored (app_store s) (workload_kind_str kind) name)
  end.

Lemma placement_read o s u kind name :
  placement_of (get_resource (workload_kind_str kind) "_" name o (app_store s, u)).1 =
  dispatch_placement o s u kind name.
Proof.
  unfold dispatch_placement. destruct (or_fault o (us_io u)) eqn:E; [|by rewrite get_run].
  unfold get_resource, mbind, M_bind, mret, M_ret. by rewrite query_run, E.
Qed.

Lemma on_store_val {A} (m : M Db A) o s u : (on_store m o (s, u)).1 = (m o (app_store s, u)).1.
Proof. unfold on_store, zoom. by destruct (m o (app_store s, u)) as [a [d u']]. Qed.

(** The observed nodes that were seen within 30 seconds of [t] and have a readable
    inventory, the best of them for a placement, or the last heartbeat's node. *)
Definition choice (s : AppState) (placement : Placement) (observed : list ObservedNode)
    (t : Instant) : option string :=
  match omap (candidate_of (t - thirty_seconds)%Z) observed with
  | [] => app_node_id s
  | cs => pick_best cs placement (load_of (snapshot_all (app_instances s)))
  end.

(** The node list a dispatch reads (empty when the query fails) and the time it
    compares the heartbeats with. *)
Definition listed (o : Oracle) (s : AppState) (u : Used) (observed : list ObservedNode)
    (t : Instant) : Prop :=
  ∃ u1, us_clock u1 = us_clock u ∧
    let x := list_nodes o (app_store s, u1) in
    observed = default [] (result_ok x.1) ∧ t = or_clock o (us_clock x.2.2).

Lemma on_store_used {A} (m : M Db A) o s u : (on_store m o (s, u)).2.2 = (m o (app_store s, u)).2.2.
Proof. unfold on_store, zoom. by destruct (m o (app_store s, u)) as [a [d u']]. Qed.

Lemma get_clock kind name o d u : us_clock (get_resource kind "_" name o (d, u)).2.2 = us_clock u.
Proof.
  unfold get_resource, mbind, M_bind, mret, M_ret. rewrite query_run.
  destruct (or_fault o (us_io u)); [done|]. simpl. by destruct (db_resource d !! (kind, "_", name)).
Qed.

(** Where a workload goes. *)
Lemma pick_run name kind o s u :
  ∃ observed t, listed o s u observed t ∧
    (pick_node_for_dispatch name kind o (s, u)).1 =
    choice s (dispatch_placement o s u kind name) observed t.
Proof.
  unfold pick_node_for_dispatch.
  rewrite (run_readonly _ _ _ _ _ (readonly_on_store _ (readonly_get_resource _ _ _))).
  rewrite (run_readonly _ _ _ _ _ (readonly_on_store _ readonly_list_nodes)).
  rewrite (run_readonly _ _ _ _ _ readonly_now).
  rewrite (run_readonly _ _ _ _ _ readonly_get). cbv beta zeta.
  rewrite !on_store_val, !on_store_used, placement_read.
  set (g := get_resource (workload_kind_str kind) "_" name o (app_store s, u)).
  set (x := list_nodes o (app_store s, g.2.2)).
  exists (default [] (result_ok x.1)), (or_clock o (us_clock x.2.2)). split.
  - exists g.2.2. split; [apply get_clock|done].
  - unfold get, now, choice. destruct x as [r [d u2]], r; simpl; [by destruct (omap _ _)|done].
Qed.

End dispatch.

(** ** Where workloads are placed *)

Section placement.
Context {J : SerdeJson} {RC : ResourceCodec} {TM : Rfc3339} {HO : HashOrder}
  {CL : ControllerLibs}.

(** A node the controller saw within the last 30 seconds before [t], with the inventory it
    reported when that can be read. *)
Definition live_with (t : Instant) (n : ObservedNode) (inv : NodeInventory) : Prop :=
  (t - thirty_seconds <= on_last_seen_at n)%Z ∧
  on_inventory_json n ≫= inventory_from_json = Some inv.
Definition live_node (t : Instant) (n : ObservedNode) : Prop := ∃ inv, live_with t n inv.

(** A placement a reported node meets.  The dispatch takes no labels from the inventory, so
    a placement that asks for one is never met. *)
Definition fits (p : Placement) (inv : NodeInventory) : Prop :=
  (pl_arch p = [] ∨ inv_arch inv ∈ pl_arch p) ∧ (pl_os p = [] ∨ inv_os inv ∈ pl_os p) ∧
  (∀ req, pl_gpu p = Some req → ∃ g, g ∈ inv_gpus inv ∧ gpu_ok g req) ∧
  pl_node_labels p = ∅.

(** A node that runs fewer instances than another, or as many under a smaller id. *)
Definition less_busy (s : AppState) (a b : string) : Prop :=
  let running id := running_instances (load_of (snapshot_all (app_instances s)) id) in
  (running a < running b)%Z ∨ (running a = running b ∧ String.compare a b ≠ Gt).

(** The node a workload is placed on: a live one that fits the placement, none that fits
    being less busy; or, with no live node, the node of the last heartbeat. *)
Definition placed (s : AppState) (p : Placement) (observed : list ObservedNode) (t : Instant)
    (node : string) : Prop :=
  (∃ n inv, n ∈ observed ∧ on_node_id n = node ∧ live_with t n inv ∧ fits p inv ∧
     ∀ m inv', m ∈ observed → live_with t m inv' → fits p inv' → less_busy s node (on_node_id m)) ∨
  ((∀ n, n ∈ observed → ¬ live_node t n) ∧ app_node_id s = Some node).

(** No node fits, and there is no other choice. *)
Definition unplaceable (s : AppState) (p : Placement) (observed : list ObservedNode)
    (t : Instant) : Prop :=
  (∀ n inv, n ∈ observed → live_with t n inv → ¬ fits p inv) ∧
  ((∀ n, n ∈ observed → ¬ live_node t n) → app_node_id s = None).

Definition bare_candidate (id : string) (inv : NodeInventory) : CandidateNode :=
  {| cn_node_id := id; cn_arch := inv_arch inv; cn_os := inv_os inv; cn_gpus := inv_gpus inv;
     cn_roles := []; cn_labels := ∅ |}.

Lemma candidate_of_live t n c :
  candidate_of (t - thirty_seconds)%Z n = Some c ↔
  ∃ inv, live_with t n inv ∧ c = bare_candidate (on_node_id n) inv.
Proof.
  unfold candidate_of, live_with. destruct (Z.ltb_spec (on_last_seen_at n) (t - thirty_seconds)).
  { split; [done|]. intros (inv & [? _] & _). lia. }
  destruct (on_inventory_json n ≫= inventory_from_json) as [inv|]; [|split; [done|by intros (? & [_ ?] & _)]].
  split; [|by intros (? & [_ [= <-]] & ->)]. intros [= <-]. by exists inv.
Qed.

Lemma in_candidates t (observed : list ObservedNode) (c : CandidateNode) :
  c ∈ omap (candidate_of (t - thirty_seconds)%Z) observed ↔
  ∃ n inv, n ∈ observed ∧ live_with t n inv ∧ c = bare_candidate (on_node_id n) inv.
Proof. rewrite list_elem_of_omap. setoid_rewrite candidate_of_live. naive_solver. Qed.

Lemma bare_satisfies p id inv : satisfies (bare_candidate id inv) p ↔ fits p inv.
Proof.
  unfold satisfies, fits. simpl. repeat f_equiv. rewrite map_subseteq_spec. split; [|by intros ->].
  intros H. apply map_empty. intros k. destruct (pl_node_labels p !! k) as [v|] eqn:E; [|done].
  by apply H in E.
Qed.

Lemma bare_score p load id inv :
  score_entry p load (bare_candidate id inv) =
  ((- running_instances (load id))%Z, running_instances (load id), id).
Proof.
  unfold score_entry, score_node. rewrite map_count_none; [done|]. intros k v _. apply bool_decide_eq_false. cbn. by rewrite lookup_empty.
Qed.

Lemma no_candidates t (observed : list ObservedNode) :
  omap (candidate_of (t - thirty_seconds)%Z) observed = [] ↔ ∀ n, n ∈ observed → ¬ live_node t n.
Proof.
  split.
  - intros E n Hn [inv Hl]. apply (not_elem_of_nil (bare_candidate (on_node_id n) inv)).
    rewrite <- E. apply in_candidates. eauto.
  - intros H. apply elem_of_nil_inv. intros c (n & inv & Hn & Hl & _)%in_candidates.
    by apply (H n Hn); exists inv.
Qed.

Lemma choice_spec s p observed t :
  match choice s p observed t with
  | Some node => placed s p observed t node
  | None => unplaceable s p observed t
  end.
Proof.
  unfold choice, placed, unplaceable. pose proof (no_candidates t observed) as Hno.
  destruct (omap _ observed) as [|c0 cs0] eqn:Ec.
  { pose proof (proj1 Hno eq_refl) as Hn. destruct (app_node_id s); [by right|]. split; [|done].
    intros n inv Hin Hl _. apply (Hn n Hin). by exists inv. }
  assert (¬ ∀ n, n ∈ observed → ¬ live_node t n) as Hsome by (intros H; by apply Hno in H).
  rewrite <- Ec. clear c0 cs0 Ec Hno. set (load := load_of _).
  destruct (pick_best _ p load) as [node|] eqn:E.
  - left. apply pick_best_spec in E as (c & (n & inv & Hn & Hl & ->)%in_candidates & <- & Hs & Hbest).
    apply bare_satisfies in Hs. exists n, inv. split_and!; [done..|]. intros m inv' Hm Hl' Hf.
    specialize (Hbest (bare_candidate (on_node_id m) inv')). rewrite !bare_score in Hbest.
    unfold ranks_before, less_busy in *. fold load. simpl in *.
    destruct Hbest as [H|[H|H]]; [apply in_candidates; eauto|by apply bare_satisfies|left; lia|left; lia|].
    right. split; [lia|apply H].
  - rewrite pick_best_none_iff in E. split; [|done]. intros n inv Hn Hl Hf.
    apply (E (bare_candidate (on_node_id n) inv)); [apply in_candidates; eauto|by apply bare_satisfies].
Qed.

(** Candidates carry no labels, so a label constraint excludes them all. *)
Lemma labelled_choice s p observed t n :
  pl_node_labels p ≠ ∅ → n ∈ observed → live_node t n → choice s p observed t = None.
Proof.
  intros Hl Hn Hlive. pose proof (choice_spec s p observed t) as H.
  destruct (choice s p observed t) as [node|]; [exfalso|done].
  destruct H as [(m & inv & _ & _ & _ & (_ & _ & _ & Hf) & _)|[H _]]; [done|by apply (H n)].
Qed.

End placement.

(** ** One reconciliation of a Service *)

Section reconcile.
Context {J : SerdeJson} {RC : ResourceCodec} {TM : Rfc3339} {HO : HashOrder}
  {CL : ControllerLibs}.

Definition purge_one (s : AppState) (id : Uuid) : AppState :=
  set_health (delete id (app_health s)) (set_instances (purge (app_instances s) id) s).

Lemma purge_all_run ids o s u : purge_all ids o (s, u) = (tt, (foldl purge_one s ids, u)).
Proof.
  revert s. unfold purge_all. induction ids as [|id ids IH]; intros s; [done|]. simpl.
  unfold mbind, M_bind, modify. apply IH.
Qed.

(** Purging leaves the bus, the store and the node registry alone, and forgets the
    purged instances and their health. *)
Lemma purge_fold_fields ids s :
  let s' := foldl purge_one s ids in
  app_published s' = app_published s ∧ app_store s' = app_store s ∧
  app_node_id s' = app_node_id s ∧
  (∀ id, id ∈ ids → by_id (app_instances s') !! id = None ∧ app_health s' !! id = None) ∧
  (∀ id, id ∉ ids → by_id (app_instances s') !! id = by_id (app_instances s) !! id).
Proof.
  revert s. induction ids as [|i ids IH]; intros s; simpl.
  { split_and!; try done. intros id Hid. by apply elem_of_nil in Hid. }
  destruct (IH (purge_one s i)) as (-> & -> & -> & Hin & Hout). split_and!; try done.
  - intros id [->|Hid]%elem_of_cons; [|by apply Hin].
    destruct (decide (i ∈ ids)) as [Hi|Hi]; [by apply Hin|].
    split; [rewrite (Hout i Hi); apply lookup_delete_eq|].
    assert (∀ l s, app_health s !! i = None → app_health (foldl purge_one s l) !! i = None) as Hl.
    { induction l as [|j l IHl]; intros s0 Hs0; [done|]. apply IHl. simpl.
      apply lookup_delete_None. by right. }
    apply Hl, lookup_delete_eq.
  - intros id [Hne Hid]%not_elem_of_cons. rewrite Hout by done. simpl.
    by rewrite lookup_delete_ne.
Qed.

Lemma note_dispatch_run id kind name node n o s u :
  note_dispatch id kind name node n o (s, u) =
  (tt, (set_instances (record_dispatch (app_instances s) (or_clock o (us_clock u)) id kind name
                         (Some node) n) s,
        {| us_clock := us_clock u + 1; us_uuid := us_uuid u; us_io := us_io u |})).
Proof. done. Qed.

(** The tail both launching branches share. *)
Definition launch (ids : list Uuid) (name : string)
    (m : M AppState (result (string * Uuid) ApiError)) (n : Z) : M AppState unit :=
  _ ← purge_all ids;
  r ← m;
  match r with
  | Ok (node, id) => note_dispatch id "Service" name node n
  | Err _ => mret tt
  end.

(** The states a launch can end in. *)
Definition launched_state (ids : list Uuid) (name : string) (reps : Z) (slots : list Z) (n : Z)
    (o : Oracle) (s s' : AppState) (u : Used) : Prop :=
  let s1 := foldl purge_one s ids in
  s' = s1 ∨
  ∃ node i env t, s' = set_instances (record_dispatch (app_instances s1) t (or_uuid o i)
                          "Service" name (Some node) n) (with_run node env s1) ∧
    run_instance_id (env_payload env) = or_uuid o i ∧
    run_name (env_payload env) = name ∧ run_kind (env_payload env) = WService ∧
    run_replicas (env_payload env) = reps ∧ run_slot_indices (env_payload env) = slots ∧
    (pick_node_for_dispatch name WService o (s1, u)).1 = Some node.

Lemma launch_run ids name runtime gen reps slots n o s u :
  launched_state ids name reps slots n o s
    (launch ids name (dispatch_workload_with_slots WService name runtime gen reps slots) n
       o (s, u)).2.1 u.
Proof.
  unfold launched_state. cbv zeta. unfold launch, mbind, M_bind. rewrite purge_all_run.
  set (s1 := foldl purge_one s ids).
  pose proof (dispatch_slots_run WService name runtime gen reps slots o s1 u) as Hd.
  cbv zeta in Hd.
  destruct (dispatch_workload_with_slots _ _ _ _ _ _ o (s1, u)) as [r [s2 u2]]. simpl in Hd.
  destruct Hd as [e|node id i hc env Hpick -> Henv]; [by left|]. right.
  exists node, i, env, (or_clock o (us_clock u2)). by rewrite Henv.
Qed.

(** A decision to launch, carried out: the purged instances are gone from both
    registries, and either nothing is launched (no node, or a fault), or one run is
    published and its instance is known and indexed. *)
Definition carried_out (o : Oracle) (s s' : AppState) (name : string) (ids : list Uuid)
    (reps : Z) (slots : list Z) : Prop :=
  (∀ id, id ∈ ids → app_health s' !! id = None ∧
     ((∀ i, or_uuid o i ≠ id) → by_id (app_instances s') !! id = None)) ∧
  (app_published s' = app_published s ∨
   ∃ node env, app_published s' = app_published s ++ [(for_node TControlRun node, MRun env)] ∧
     run_name (env_payload env) = name ∧ run_kind (env_payload env) = WService ∧
     run_replicas (env_payload env) = reps ∧ run_slot_indices (env_payload env) = slots ∧
     is_Some (by_id (app_instances s') !! run_instance_id (env_payload env)) ∧
     ∃ known, by_workload (app_instances s') !! ("Service", name) = Some known ∧
              run_instance_id (env_payload env) ∈ known).

Lemma launch_carried_out ids name reps slots n o s s' u :
  launched_state ids name reps slots n o s s' u → carried_out o s s' name ids reps slots.
Proof.
  intros Hl. destruct (purge_fold_fields ids s) as (Hpub & _ & _ & Hin & _).
  destruct Hl as [->|(node & i & env & t & -> & Hid & ? & ? & ? & ? & _)].
  { split; [|by left]. intros id Hi. by destruct (Hin id Hi). }
  split.
  - intros id Hi. destruct (Hin id Hi) as [Hg Hh]. split; [done|]. intros Hne. simpl.
    by rewrite lookup_insert_ne.
  - right. exists node, env. rewrite Hid. simpl. rewrite Hpub, lookup_insert_eq.
    split_and!; try done. apply index_id_in.
Qed.

(** Without faults, a launch with a node to run on publishes. *)
Lemma launch_quiet ids name runtime gen reps slots n o s u node :
  fault_free o → (pick_node_for_dispatch name WService o (foldl purge_one s ids, u)).1 = Some node →
  app_published (launch ids name (dispatch_workload_with_slots WService name runtime gen reps slots)
    n o (s, u)).2.1 ≠ app_published s.
Proof.
  intros Hf Hp. unfold launch, mbind, M_bind. rewrite purge_all_run.
  destruct (dispatch_slots_ok WService name runtime gen reps slots o _ u node Hf Hp)
    as (i & u' & env & -> & _).
  destruct (purge_fold_fields ids s) as (Hpub & _). simpl. rewrite Hpub. intros E.
  apply (f_equal length) in E. rewrite length_app in E. simpl in E. lia.
Qed.

Lemma reconcile_service_run h svc spec status runtime o s u :
  body svc = BService spec status → svc_runtime spec = Some runtime →
  let name := md_name (metadata svc) in
  let gen := default 0%Z (md_generation (metadata svc)) in
  reconcile_service h svc o (s, u) =
  match decide_reconcile spec (observations (app_instances s) h name) with
  | NoOp => (tt, (s, u))
  | RedispatchAll n ids =>
      launch ids name (dispatch_workload_with_slots WService name runtime gen n []) n o (s, u)
  | DispatchPartial slots ids =>
      launch ids name (dispatch_workload_with_slots WService name runtime gen
        (desired_replicas spec) slots) (desired_replicas spec) o (s, u)
  end.
Proof.
  intros Hb Hr name gen. unfold reconcile_service. rewrite Hb, Hr.
  unfold mbind at 1, M_bind at 1, get. fold name.
  by destruct (decide_reconcile spec _).
Qed.

End reconcile.

(** ** Replicas that never log *)

Section silent.
Context {J : SerdeJson} {RC : ResourceCodec} {TM : Rfc3339} {HO : HashOrder}
  {CL : ControllerLibs}.

(** Every instance the registry knows of a Service is alive and in slot 0: what a
    dispatch records, before any replica logs a line. *)
Definition silent (g : InstanceRegistry) (h : HealthRegistry) (name : string) : Prop :=
  observations g h name ≠ [] ∧
  ∀ i, i ∈ observations g h name → is_alive i = true ∧ ob_replica_index i = 0%Z.

Lemma silent_decision spec l :
  l ≠ [] → (∀ i, i ∈ l → is_alive i = true ∧ ob_replica_index i = 0%Z) →
  counts_fit spec l → (2 <= desired_replicas spec)%Z →
  decide_reconcile spec l = DispatchPartial (range_u32 1 (desired_replicas spec)) [].
Proof.
  intros Hne Hall Hf Hd.
  assert (∀ i, i ∈ l → is_restartable (svc_restart_policy spec) i = false) as Hnr.
  { intros i Hi. unfold is_restartable. by rewrite (proj1 (Hall i Hi)). }
  assert (restart_ids spec l = []) as Hids.
  { unfold restart_ids. apply elem_of_nil_inv. intros x (i & _ & Hi)%list_elem_of_fmap.
    apply elem_of_bfilter in Hi as [Hi E]. rewrite Hnr in E; done. }
  rewrite <- Hids. apply decide_reconcile_iff; [done|].
  assert (∀ s, missing spec l s ↔ (1 <= s < desired_replicas spec)%Z) as Hm.
  { intros s. unfold missing. destruct l as [|i0 l0]; [done|]. split.
    - intros [Hs Hno]. assert (s ≠ 0%Z); [|lia]. intros ->.
      apply (Hno i0); [by left|]. apply Hall. by left.
    - intros Hs. split; [lia|]. intros i Hi. rewrite (proj2 (Hall i Hi)). lia. }
  assert (∀ s, ¬ to_restart spec l s) as Hr.
  { intros s (i & Hi & E & _). rewrite Hnr in E; done. }
  constructor.
  - exists 1%Z. left. apply Hm. lia.
  - left. destruct l as [|i l0]; [done|]. exists i. split; [by left|]. apply Hall. by left.
  - clear. unfold range_u32. generalize (Z.to_nat (desired_replicas spec - 1)) as k. intros k.
    assert (∀ n a, StronglySorted Z.lt ((λ k, (1 + Z.of_nat k)%Z) <$> seq a n)) as Hs; [|apply Hs].
    induction n as [|n IH]; intros a; csimpl; constructor; [apply IH|].
    apply Forall_fmap, Forall_forall. intros j Hj%elem_of_seq. simpl. lia.
  - intros s. rewrite elem_of_range_u32, Hm. naive_solver.
Qed.

Lemma record_dispatch_silent g h name t id node n :
  silent g h name → by_id g !! id = None → h !! id = None →
  silent (record_dispatch g t id "Service" name (Some node) n) h name.
Proof.
  intros [Hne Hall] Hid Hh. unfold silent, observations in *.
  set (ids := default [] (by_workload g !! ("Service", name))) in *.
  unfold record_dispatch. rewrite Hid. simpl. unfold index_id. rewrite lookup_insert_eq. simpl.
  fold ids. set (r := Build_InstanceRecord _ _ _ _ _ _ _ _ _ _ _ _).
  set (ids' := if bool_decide (id ∈ ids) then ids else ids ++ [id]).
  assert (∀ i, i ∈ ids → i ∈ ids') as Hsub.
  { intros i Hi. subst ids'. case_bool_decide; [done|]. apply elem_of_app. by left. }
  split.
  - destruct (omap (λ i, by_id g !! i) ids) as [|r0 rs] eqn:E; [done|].
    assert (r0 ∈ omap (λ i, by_id g !! i) ids) as Hr0 by (rewrite E; by left).
    apply list_elem_of_omap in Hr0 as (i & Hi & Hr0).
    assert (observation_of h r0 ∈ observation_of h <$> omap (λ i, <[id:=r]> (by_id g) !! i) ids')
      as Hin; [|intros En; rewrite En in Hin; by apply elem_of_nil in Hin].
    apply list_elem_of_fmap_2, list_elem_of_omap. exists i. split; [by apply Hsub|].
    rewrite lookup_insert_ne; [done|]. congruence.
  - intros ob Hob. apply list_elem_of_fmap in Hob as (r1 & -> & Hr1).
    apply list_elem_of_omap in Hr1 as (i & Hi & Hr1). destruct (decide (id = i)) as [<-|Hn].
    + rewrite lookup_insert_eq in Hr1. injection Hr1 as <-. unfold is_alive, observation_of.
      simpl. rewrite Hh. done.
    + rewrite lookup_insert_ne in Hr1 by done. apply Hall.
      apply list_elem_of_fmap_2, list_elem_of_omap. exists i. split; [|done].
      subst ids'. revert Hi. case_bool_decide; [done|].
      intros [Hi|Hi]%elem_of_app; [done|]. apply list_elem_of_singleton in Hi. congruence.
Qed.

End silent.

(** ** Concrete libraries *)

Definition demo_inventory : NodeInventory :=
  {| inv_node_id := "n1"; inv_agent_version := "1"; inv_arch := Arm64; inv_os := Linux;
     inv_acceleration := None; inv_gpus := []; inv_cpu_cores := 8; inv_mem_total_bytes := 0;
     inv_disk_gb := None; inv_runtimes := ["native"]; inv_roles := []; inv_labels := ∅;
     inv_address := None |}.

(** One inventory text, and cron schedules that fire every [period] seconds. *)
Definition demo_libs : ControllerLibs (J := toy_json) :=
  {| inventory_to_json := λ _, Ok "inv";
     inventory_from_json := λ s, if String.eqb s "inv" then Some demo_inventory else None;
     CronSchedule := Z;
     cron_from_str := λ s, if String.eqb s "0 * * * * *" then Ok 60000000000%Z else Err "bad";
     cron_after := λ p t, Some ((t / p + 1) * p)%Z;
     uuid_parse_str := λ _, Some 7%N |}.

(** The Service "api": three replicas of a native program. *)
Definition demo_api : Resource (J := toy_json) :=
  demo_resource (J := toy_json) "api" (BService
    {| svc_runtime := Some (RNative "./api" [] ∅); svc_replicas := Some 3%Z;
       svc_placement := Placement_default; svc_requires := CapabilitySelector_default;
       svc_capabilities := []; svc_ports := []; svc_health := None;
       svc_restart_policy := Always |} None).

Definition demo_api_codec : ResourceCodec (J := toy_json) :=
  {| resource_to_json := λ r, Ok (md_name (metadata r));
     resource_from_json := λ _, Ok demo_api |}.

(** A controller that has heard one heartbeat, and has dispatched "api" once. *)
Definition demo_state : AppState :=
  set_instances (record_dispatch InstanceRegistry_default 5%Z 7%N "Service" "api" (Some "n1") 3%Z)
    (set_node_id (Some "n1") (initial_state Db_empty "nats://127.0.0.1:4222" false 0%Z)).

(** A Service that asks for a node label, stored next to a node with an inventory. *)
Definition demo_labelled_svc : Resource (J := toy_json) :=
  demo_resource (J := toy_json) "api" (BService
    {| svc_runtime := Some (RNative "./api" [] ∅); svc_replicas := None;
       svc_placement := {| pl_arch := []; pl_os := []; pl_gpu := None; pl_acceleration := None;
                           pl_node_labels := {["site" := "belmont"]};
                           pl_prefer := PlacementPreferences_default |};
       svc_requires := CapabilitySelector_default; svc_capabilities := []; svc_ports := [];
       svc_health := None; svc_restart_policy := Always |} None).

Definition demo_label_codec : ResourceCodec (J := toy_json) :=
  {| resource_to_json := λ r, Ok (md_name (metadata r));
     resource_from_json := λ _, Ok demo_labelled_svc |}.

Definition demo_labelled : AppState :=
  initial_state
    (set_observed_node {["n1" := {| nr_agent_version := "1"; nr_inventory := Some "inv";
                                    nr_last_seen_at := "5" |}]}
       (set_resource {[("Service", "_", "api") :=
          {| row_generation := 1; row_body := "api"; row_updated_at := "1" |}]} Db_empty))
    "nats://127.0.0.1:4222" false 0%Z.

(** ** Claims *)


(** A label constraint makes a workload undispatchable.  The candidates the dispatch
    path builds carry no labels, so as soon as one node is live with a readable
    inventory, a workload whose stored placement asks for any node label is refused,
    whatever labels the nodes have, and nothing is published. *)
Theorem labelled_workload_undispatchable {J : SerdeJson} {RC : ResourceCodec} {TM : Rfc3339}
    {HO : HashOrder} {CL : ControllerLibs} (kind : WorkloadKind) (name : ResourceName)
    (runtime : Runtime) (generation replicas : Z) (o : Oracle) (s : AppState) (u : Used)
    (Hf : fault_free o)
    (Hl : pl_node_labels (placement_of (stored (app_store s) (workload_kind_str kind) name)) ≠ ∅)
    (Hlive : ∀ observed t, listed o s u observed t → ∃ n, n ∈ observed ∧ live_node t n) :
  let x := dispatch_workload kind name runtime generation replicas o (s, u) in
  x.1 = Err no_live_nodes ∧ x.2.1 = s.
Proof.
  cbv zeta. destruct (pick_run name kind o s u) as (observed & i & Hobs & Hpick).
  destruct (Hlive observed i Hobs) as (n & Hn & Ht).
  rewrite (labelled_choice s _ observed _ n) in Hpick; [|unfold dispatch_placement; by rewrite Hf|done|done].
  pose proof (dispatch_run kind name runtime generation replicas o s u) as Hd.
  pose proof (dispatch_none kind name runtime generation replicas [] o s u Hpick) as He.
  change (dispatch_workload_with_slots kind name runtime generation replicas [])
    with (dispatch_workload kind name runtime generation replicas) in He.
  cbv zeta in Hd. destruct (dispatch_workload _ _ _ _ _ o (s, u)) as [r [s' u']]. simpl in *.
  subst r. split; [done|]. by inversion Hd.
Qed.

Lemma labelled_workload_undispatchable_witness :
  let x := dispatch_workload (RC := demo_label_codec) (TM := demo_clock) (HO := canonical_order)
             (CL := demo_libs) WService "api" (RNative "./api" [] ∅) 0%Z 1%Z demo_oracle
             (demo_labelled, Used_init) in
  x.1 = Err no_live_nodes ∧ x.2.1 = demo_labelled.
Proof.
  apply (labelled_workload_undispatchable (RC := demo_label_codec) (TM := demo_clock)
    (HO := canonical_order) (CL := demo_libs) WService "api").
  - intros n. reflexivity.
  - vm_compute. discriminate.
  - intros observed t ([c v f] & Hc & Ho & Ht). simpl in Hc. subst c.
    vm_compute in Ho, Ht. subst observed t. eexists. split; [by left|].
    exists demo_inventory. split; [vm_compute; discriminate|vm_compute; reflexivity].
Defined.

(** C6: reconciling a Service follows the decision: a [NoOp] changes nothing; otherwise
    the instances named for purging leave the instance and health registries, and at
    most one [ControlRun] is published, for this Service, with all replicas and no slot
    list, or with exactly the slots the decision names, and its instance is then known
    under the Service.  When nothing fails and a node can be picked, the run is
    published. *)
Theorem reconcile_service_follows_decision {J : SerdeJson} {RC : ResourceCodec} {TM : Rfc3339}
    {HO : HashOrder} {CL : ControllerLibs} (h : HealthRegistry) (svc : Resource)
    (spec : ServiceSpec) (status : option Status) (runtime : Runtime)
    (o : Oracle) (s : AppState) (u : Used)
    (Hb : body svc = BService spec status) (Hr : svc_runtime spec = Some runtime) :
  let name := md_name (metadata svc) in
  let s' := (reconcile_service h svc o (s, u)).2.1 in
  let picked ids := (pick_node_for_dispatch name WService o (foldl purge_one s ids, u)).1 in
  match decide_reconcile spec (observations (app_instances s) h name) with
  | NoOp => s' = s
  | RedispatchAll n ids => carried_out o s s' name ids n [] ∧
      (fault_free o → is_Some (picked ids) → app_published s' ≠ app_published s)
  | DispatchPartial slots ids => carried_out o s s' name ids (desired_replicas spec) slots ∧
      (fault_free o → is_Some (picked ids) → app_published s' ≠ app_published s)
  end.
Proof.
  cbv zeta. rewrite (reconcile_service_run h svc spec status runtime o s u Hb Hr).
  destruct (decide_reconcile spec _) as [|n ids|slots ids]; [done|..];
    (split; [eapply launch_carried_out, launch_run|]);
    intros Hf [node Hn]; by eapply launch_quiet.
Qed.

Lemma reconcile_service_follows_decision_witness :
  let s' := (reconcile_service (RC := demo_api_codec) (TM := demo_clock) (HO := canonical_order)
               (CL := demo_libs) ∅ demo_api demo_oracle (demo_state, Used_init)).2.1 in
  carried_out demo_oracle demo_state s' "api" [] 3%Z [1%Z; 2%Z] ∧
  app_published s' ≠ app_published demo_state.
Proof.
  pose proof (reconcile_service_follows_decision (RC := demo_api_codec) (TM := demo_clock)
    (HO := canonical_order) (CL := demo_libs) ∅ demo_api _ None (RNative "./api" [] ∅)
    demo_oracle demo_state Used_init eq_refl eq_refl) as H. cbv zeta in H.
  replace (decide_reconcile _ _) with (DispatchPartial [1%Z; 2%Z] []) in H
    by (vm_compute; reflexivity).
  destruct H as [H1 H2]. split; [exact H1|]. apply H2.
  - intros n. reflexivity.
  - vm_compute. eauto.
Defined.

(** Replicas that do not log are launched again on every tick.  A dispatch of two or
    more replicas records only slot 0; as long as no other slot is observed, each
    reconciliation publishes another [ControlRun] for all the slots 1 to n-1, and leaves
    a registry in the same situation, so the next one does the same. *)
Theorem silent_replicas_relaunched {J : SerdeJson} {RC : ResourceCodec} {TM : Rfc3339}
    {HO : HashOrder} {CL : ControllerLibs} (h : HealthRegistry) (svc : Resource)
    (spec : ServiceSpec) (status : option Status) (runtime : Runtime)
    (o : Oracle) (s : AppState) (u : Used) (node : string)
    (Hb : body svc = BService spec status) (Hr : svc_runtime spec = Some runtime)
    (Hs : silent (app_instances s) h (md_name (metadata svc)))
    (Hd : (2 <= desired_replicas spec)%Z)
    (Hfit : counts_fit spec (observations (app_instances s) h (md_name (metadata svc))))
    (Hf : fault_free o)
    (Hn : (pick_node_for_dispatch (md_name (metadata svc)) WService o (s, u)).1 = Some node)
    (Hfresh : ∀ i, by_id (app_instances s) !! or_uuid o i = None ∧ h !! or_uuid o i = None) :
  let s' := (reconcile_service h svc o (s, u)).2.1 in
  (∃ env, app_published s' = app_published s ++ [(for_node TControlRun node, MRun env)] ∧
          run_slot_indices (env_payload env) = range_u32 1 (desired_replicas spec)) ∧
  silent (app_instances s') h (md_name (metadata svc)).
Proof.
  cbv zeta. rewrite (reconcile_service_run h svc spec status runtime o s u Hb Hr).
  destruct Hs as [Hne Hall]. rewrite silent_decision by done.
  unfold launch, mbind, M_bind. rewrite purge_all_run. simpl.
  destruct (dispatch_slots_ok WService (md_name (metadata svc)) runtime
    (default 0%Z (md_generation (metadata svc))) (desired_replicas spec)
    (range_u32 1 (desired_replicas spec)) o s u node Hf Hn) as (i & u' & env & -> & Hsl & _).
  simpl. split; [by exists env|].
  apply record_dispatch_silent; [done|apply Hfresh|apply Hfresh].
Qed.

Lemma silent_replicas_relaunched_witness :
  let s' := (reconcile_service (RC := demo_api_codec) (TM := demo_clock) (HO := canonical_order)
               (CL := demo_libs) ∅ demo_api quiet_oracle (demo_state, Used_init)).2.1 in
  (∃ env, app_published s' = [(for_node TControlRun "n1", MRun env)] ∧
          run_slot_indices (env_payload env) = [1%Z; 2%Z]) ∧
  silent (app_instances s') ∅ "api".
Proof.
  apply (silent_replicas_relaunched (RC := demo_api_codec) (TM := demo_clock)
    (HO := canonical_order) (CL := demo_libs) ∅ demo_api _ None (RNative "./api" [] ∅)
    quiet_oracle demo_state Used_init "n1" eq_refl eq_refl).
  - split; [vm_compute; discriminate|].
    intros i Hi. apply list_elem_of_singleton in Hi as ->. split; reflexivity.
  - vm_compute. discriminate.
  - vm_compute. discriminate.
  - apply quiet_fault_free.
  - vm_compute. reflexivity.
  - intros i. split; [|apply lookup_empty].
    apply lookup_insert_None. split; [apply lookup_empty|]. simpl. lia.
Defined.
