(* ===== verification/Loops.v ===== *)
(** * The schedule tick and the workflow runner: theorems

    When a schedule fires and what it leaves behind, how a workflow tick carries
    its plan out, and which exit a workflow sees for a task. *)

From Stdlib Require Import ZArith Lia Bool.
From stdpp Require Import base list gmap strings.
From S2P Require Import Prelude Text Types Effect Scheduler Bus Reconcile Workflow Store Registry Controller Dispatch.

Section schedules.
Context {J : SerdeJson} {RC : ResourceCodec} {TM : Rfc3339} {HO : HashOrder}
  {CL : ControllerLibs}.

(** Observing a schedule that is already tracked. *)
Lemma observe_run name f o s u ob :
  app_schedules s !! name = Some ob →
  observe_schedule name f o (s, u) =
  (tt, (set_schedules (<[name := f ob]> (app_schedules s)) s, u)).
Proof.
  intros H. unfold observe_schedule, mbind, M_bind, get. rewrite H.
  unfold modify, observe. by rewrite H.
Qed.

(** Why a due schedule cannot fire although no call fails: its target does not
    resolve, or no node takes the workload. *)
Definition firing_refused (spec : ScheduleSpec) (o : Oracle) (u : Used) (s : AppState) : Prop :=
  ∃ x, match (resolve_schedule_target spec o (set_schedules x s, u)).1 with
       | Err _ => True
       | Ok (wname, _) =>
           ∃ u1, (pick_node_for_dispatch wname WTask o (set_schedules x s, u1)).1 = None
       end.

(** The outcome of a tick for a tracked schedule with observation [ob], from [s] to
    [s']: not due, fired, or due and failed. *)
Inductive tick_outcome (spec : ScheduleSpec) (parsed : CronSchedule) (now_ : Instant)
    (name : string) (ob : ScheduleObservation) (o : Oracle) (u : Used) (s s' : AppState) : Prop :=
| tick_not_due ob' :
    (∀ t, cron_after parsed (default (armed_at ob) (last_fired_at ob)) = Some t → (now_ < t)%Z) →
    app_published s' = app_published s →
    app_schedules s' = <[name := ob']> (app_schedules s) →
    ob' = obs_next (cron_after parsed (default (armed_at ob) (last_fired_at ob))) ob →
    tick_outcome spec parsed now_ name ob o u s s'
| tick_fired t ob' node env x runtime :
    cron_after parsed (default (armed_at ob) (last_fired_at ob)) = Some t → (t <= now_)%Z →
    app_published s' = app_published s ++ [(for_node TControlRun node, MRun env)] →
    run_kind (env_payload env) = WTask → run_replicas (env_payload env) = 1%Z →
    (resolve_schedule_target spec o (set_schedules x s, u)).1 =
      Ok (run_name (env_payload env), runtime) →
    run_runtime (env_payload env) = runtime →
    app_schedules s' = <[name := ob']> (app_schedules s) →
    last_fired_at ob' = Some now_ →
    last_instance_id ob' = Some (run_instance_id (env_payload env)) →
    last_error ob' = None → fire_count ob' = wrap_u32 (fire_count ob + 1) →
    tick_outcome spec parsed now_ name ob o u s s'
| tick_failed t ob' :
    cron_after parsed (default (armed_at ob) (last_fired_at ob)) = Some t → (t <= now_)%Z →
    app_published s' = app_published s →
    app_schedules s' = <[name := ob']> (app_schedules s) →
    last_fired_at ob' = last_fired_at ob → fire_count ob' = fire_count ob →
    is_Some (last_error ob') →
    (fault_free o → firing_refused spec o u s) →
    tick_outcome spec parsed now_ name ob o u s s'.

Lemma schedule_tick_run now_ sched spec status parsed ob o s u :
  body sched = BSchedule spec status →
  cron_from_str (cron_expr (sched_cron spec)) = Ok parsed →
  app_schedules s !! md_name (metadata sched) = Some ob →
  tick_outcome spec parsed now_ (md_name (metadata sched)) ob o u s
    (schedule_tick now_ sched o (s, u)).2.1.
Proof.
  intros Hb Hc Ho. set (name := md_name (metadata sched)) in *.
  unfold schedule_tick. rewrite Hb, Hc. fold name.
  rewrite (run_readonly _ _ _ _ _ readonly_get). simpl. rewrite Ho.
  set (next := cron_after parsed (default (armed_at ob) (last_fired_at ob))).
  unfold mbind at 1, M_bind at 1. rewrite (observe_run _ _ _ _ _ ob Ho).
  destruct next as [t|] eqn:En.
  2: { eapply tick_not_due; [|done|done|by f_equal]. fold next. rewrite En. done. }
  destruct (Z.ltb_spec now_ t) as [Hlt|Hge].
  { eapply tick_not_due; [|done|done|by f_equal]. fold next. rewrite En. by intros ? [= <-]. }
  match goal with |- context [set_schedules ?x s] => set (s1 := set_schedules x s) end.
  assert (app_schedules s1 !! name = Some (obs_next (Some t) ob)) as Ho1
    by (simpl; apply lookup_insert_eq).
  rewrite (run_readonly _ _ _ _ _ (readonly_resolve spec)).
  destruct (resolve_schedule_target spec o (s1, u)) as [[[wname runtime]|e] [s2 u2]] eqn:Er;
    cbn [fst snd].
  2: { rewrite (observe_run _ _ _ _ _ _ Ho1). simpl.
       eapply (tick_failed _ _ _ _ _ _ _ _ _ t); [done|lia|done|apply insert_insert_eq|done..|].
       intros _. exists (app_schedules s1). change (set_schedules (app_schedules s1) s) with s1.
       by rewrite Er. }
  unfold mbind, M_bind.
  pose proof (dispatch_run WTask wname runtime 1 1 o s1 u2) as Hd. cbv zeta in Hd.
  pose proof (dispatch_quiet WTask wname runtime 1 1 [] o s1 u2) as Hq.
  change (dispatch_workload_with_slots WTask wname runtime 1 1 [])
    with (dispatch_workload WTask wname runtime 1 1) in Hq.
  destruct (dispatch_workload WTask wname runtime 1 1 o (s1, u2)) as [r [s3 u3]]. simpl in Hd, Hq.
  destruct Hd as [e|node id i hc env _ -> Henv].
  - rewrite (observe_run _ _ _ _ _ _ Ho1). simpl.
    eapply (tick_failed _ _ _ _ _ _ _ _ _ t); [done|lia|done|apply insert_insert_eq|done..|].
    intros Hf. exists (app_schedules s1). change (set_schedules (app_schedules s1) s) with s1.
    rewrite Er. exists u2. by rewrite <- (Hq Hf).
  - rewrite (observe_run _ _ _ (with_run node env s1) _ (obs_next (Some t) ob)) by done. simpl.
    eapply (tick_fired _ _ _ _ _ _ _ _ _ t _ node env (app_schedules s1) runtime); [done|lia|done|by rewrite Henv
      |by rewrite Henv|change (set_schedules (app_schedules s1) s) with s1; by rewrite Er, Henv
      |by rewrite Henv      |apply insert_insert_eq|done|simpl; by rewrite Henv|done|done].
Qed.

End schedules.

(** ** Carrying a workflow plan out *)

Section workflows.
Context {J : SerdeJson} {RC : ResourceCodec} {TM : Rfc3339} {HO : HashOrder}
  {CL : ControllerLibs}.

(** A message that runs the task of a step named [n]. *)
Definition runs_step (spec : WorkflowSpec) (n : string) (m : string * Message) : Prop :=
  ∃ node env step, m = (for_node TControlRun node, MRun env) ∧
    step ∈ wf_steps spec ∧ ws_name step = n ∧
    run_kind (env_payload env) = WTask ∧ run_name (env_payload env) = ws_task step ∧
    run_replicas (env_payload env) = 1%Z.

Definition runnable_task (d : Db) (name : string) : Prop :=
  ∃ task tspec status runtime, stored d "Task" name = Ok (Some task) ∧
    body task = BTask tspec status ∧ task_runtime tspec = Some runtime.

(** Why a planned step is not sent although no call fails: its task is not stored
    with a runtime, or no node takes it. *)
Definition step_refused (spec : WorkflowSpec) (o : Oracle) (s : AppState) (n : string) : Prop :=
  ∃ step, step ∈ wf_steps spec ∧ ws_name step = n ∧
    (¬ runnable_task (app_store s) (ws_task step) ∨
     ∃ s1 u1, app_store s1 = app_store s ∧ app_node_id s1 = app_node_id s ∧
       (pick_node_for_dispatch (ws_task step) WTask o (s1, u1)).1 = None).

Lemma step_refused_store spec o s s' n :
  app_store s' = app_store s → app_node_id s' = app_node_id s →
  step_refused spec o s' n → step_refused spec o s n.
Proof. intros H1 H2. unfold step_refused. by rewrite H1, H2. Qed.

Lemma dispatch_step_run spec steps n o s u :
  n ∈ ws_name <$> wf_steps spec →
  let x := dispatch_step spec steps n o (s, u) in
  app_workflows x.2.1 = app_workflows s ∧ app_store x.2.1 = app_store s ∧
  app_node_id x.2.1 = app_node_id s ∧
  ((x.1 = <[n := Failed]> steps ∧ app_published x.2.1 = app_published s ∧
    (fault_free o → step_refused spec o s n)) ∨
   (∃ m, x.1 = <[n := Running]> steps ∧ app_published x.2.1 = app_published s ++ [m] ∧
         runs_step spec n m)).
Proof.
  intros Hn. cbv zeta. unfold dispatch_step.
  assert (∃ step, List.find (λ s, bool_decide (ws_name s = n)) (wf_steps spec) = Some step)
    as [step Hstep].
  { apply list_elem_of_fmap in Hn as (st & -> & Hst).
    apply (find_is_Some (λ s', bool_decide (ws_name s' = ws_name st)) _ st Hst).
    by apply bool_decide_eq_true. }
  rewrite Hstep. apply find_Some in Hstep as [Hin Hname%bool_decide_eq_true].
  rewrite (run_readonly _ _ _ _ _ (readonly_on_store _ (readonly_get_resource _ _ _))).
  rewrite on_store_val. pose proof (get_run "Task" (ws_task step) o (app_store s) u) as Hg.
  set (u1 := (on_store (get_resource "Task" "_" (ws_task step)) o (s, u)).2.2).
  assert (∀ x, (get_resource "Task" "_" (ws_task step) o (app_store s, u)).1 = x →
    match x with
    | Ok (Some task) => match body task with BTask tspec _ => task_runtime tspec | _ => None end
    | _ => None
    end = None → fault_free o → step_refused spec o s n) as Href.
  { intros x <- Hx Hf. exists step. split_and!; [done|done|]. left.
    intros (task & tspec & status & rt & Hst & Hb & Hrt). rewrite (Hg (Hf _)), Hst, Hb, Hrt in Hx. done. }
  destruct (get_resource "Task" "_" (ws_task step) o (app_store s, u)).1 as [[task|]|e];
    [|subst n; simpl; split_and!; try done; left; split_and!; try done; by eapply Href..].
  specialize (Href _ eq_refl). simpl in Href.
  destruct (match body task with BTask tspec _ => task_runtime tspec | _ => None end)
    as [runtime|]; [|subst n; simpl; split_and!; try done; left; split_and!; try done; by apply Href].
  unfold mbind, M_bind.
  pose proof (dispatch_run WTask (ws_task step) runtime 0 1 o s u1) as Hd. cbv zeta in Hd.
  pose proof (dispatch_quiet WTask (ws_task step) runtime 0 1 [] o s u1) as Hq.
  change (dispatch_workload_with_slots WTask (ws_task step) runtime 0 1 [])
    with (dispatch_workload WTask (ws_task step) runtime 0 1) in Hq.
  destruct (dispatch_workload WTask (ws_task step) runtime 0 1 o (s, u1)) as [r [s2 u2]].
  simpl in Hd, Hq. destruct Hd as [e|node id i hc env _ -> Henv].
  - subst n. simpl. split_and!; try done. left. split_and!; try done. intros Hf.
    exists step. split_and!; [done|done|]. right. exists s, u1. by rewrite <- (Hq Hf).
  - subst n. simpl. split_and!; try done. right. eexists. split; [reflexivity|].
    split; [reflexivity|]. exists node, env, step. by rewrite Henv.
Qed.

(** The whole dispatch loop: some of the asked steps are sent, in order, and run;
    the others fail; no other step changes. *)
Lemma dispatch_loop_run spec l steps o s u :
  NoDup l → (∀ n, n ∈ l → n ∈ ws_name <$> wf_steps spec) →
  let x := fold_each (dispatch_step spec) steps l o (s, u) in
  ∃ sent msgs, sublist sent l ∧ app_workflows x.2.1 = app_workflows s ∧
    app_published x.2.1 = app_published s ++ msgs ∧ Forall2 (runs_step spec) sent msgs ∧
    (fault_free o → ∀ n, n ∈ l → n ∉ sent → step_refused spec o s n) ∧
    ∀ n, x.1 !! n =
      if bool_decide (n ∈ l) then Some (if bool_decide (n ∈ sent) then Running else Failed)
      else steps !! n.
Proof.
  cbv zeta. intros Hnd. revert steps s u. induction Hnd as [|n l Hn Hnd IH]; intros steps s u Hl.
  { exists [], []. simpl. split_and!; [constructor|done|by rewrite app_nil_r|constructor| |done].
    intros _ n Hn. by apply elem_of_nil in Hn. }
  simpl. unfold mbind, M_bind.
  pose proof (dispatch_step_run spec steps n o s u (Hl n ltac:(by left))) as Hd. cbv zeta in Hd.
  destruct (dispatch_step spec steps n o (s, u)) as [steps1 [s1 u1]]. simpl in Hd.
  destruct (IH steps1 s1 u1) as (sent & msgs & Hsub & Hw & Hpub & Hf & Href & Hst).
  { intros k Hk. apply Hl. by right. }
  assert (n ∉ sent) as Hns by (intros Hin; apply Hn; by eapply elem_of_sublist).
  assert (∀ k, k ≠ n → bool_decide (k ∈ n :: l) = bool_decide (k ∈ l)) as Hk.
  { intros k Hne. apply bool_decide_ext. rewrite elem_of_cons. naive_solver. }
  destruct Hd as (Hw1 & Hs1 & Hn1 & Hd).
  assert (fault_free o → ∀ k, k ∈ l → k ∉ sent → step_refused spec o s k) as Hrest.
  { intros Hff k Hkl Hks. by eapply step_refused_store, Href. }
  destruct Hd as [(-> & Hp & Hno)|(m & -> & Hp & Hm)].
  - exists sent, msgs. split_and!; [by constructor|congruence|by rewrite Hpub, Hp|done| |].
    { intros Hff k [->|Hkl]%elem_of_cons Hks; [by apply Hno|by apply Hrest]. }
    intros k. rewrite Hst. destruct (decide (k = n)) as [->|Hne].
    + rewrite bool_decide_eq_false_2, lookup_insert_eq by done.
      by rewrite bool_decide_eq_true_2, bool_decide_eq_false_2 by (done || by left).
    + by rewrite (Hk k Hne), lookup_insert_ne.
  - exists (n :: sent), (m :: msgs).
    split_and!; [by constructor|congruence|by rewrite Hpub, Hp, <- app_assoc|by constructor| |].
    { intros Hff k [->|Hkl]%elem_of_cons Hks; [by destruct Hks; left|].
      apply Hrest; [done|done|]. intros Hin. apply Hks. by right. }
    intros k. rewrite Hst. destruct (decide (k = n)) as [->|Hne].
    + rewrite bool_decide_eq_false_2, lookup_insert_eq by done.
      by rewrite !bool_decide_eq_true_2 by (by left).
    + rewrite (Hk k Hne), lookup_insert_ne by done.
      assert (bool_decide (k ∈ n :: sent) = bool_decide (k ∈ sent)) as ->; [|done].
      apply bool_decide_ext. rewrite elem_of_cons. naive_solver.
Qed.

(** The step statuses a workflow enters a tick with. *)
Definition entry_steps (spec : WorkflowSpec) (s : AppState) (name : string)
    : gmap string StepStatus :=
  match app_workflows s !! name with Some p => wpr_steps p | None => fresh_steps spec end.

Lemma workflow_entry_run name spec o s u :
  (∀ p, app_workflows s !! name = Some p → wpr_finished_at p = None) →
  ∃ p s1 u1, workflow_entry name spec o (s, u) = (p, (s1, u1)) ∧
    wpr_steps p = entry_steps spec s name ∧ wpr_finished_at p = None ∧
    app_published s1 = app_published s ∧ app_instances s1 = app_instances s ∧
    app_store s1 = app_store s ∧ app_node_id s1 = app_node_id s ∧
    ∀ x, <[name := x]> (app_workflows s1) = <[name := x]> (app_workflows s).
Proof.
  intros Hf. unfold workflow_entry, entry_steps, mbind, M_bind, get.
  destruct (app_workflows s !! name) as [p|] eqn:E.
  - exists p, s, u. split_and!; auto.
  - do 3 eexists. split; [reflexivity|]. split_and!; try done. intros x. apply insert_insert_eq.
Qed.

(** The planner keeps every step it is given. *)
Lemma tick_keeps spec p ts n : next_progress (tick spec p ts) !! n = None → p !! n = None.
Proof.
  intros Hn. destruct (p !! n) as [a|] eqn:E; [|done].
  assert (entering spec p n = Some a) as He by (unfold entering; by rewrite E).
  destruct (advance_forward spec p ts n a He) as (b & Hb & _). unfold tick in Hn. congruence.
Qed.

Lemma workflow_tick_run wf spec status o s u :
  body wf = BWorkflow spec status →
  (∀ p, app_workflows s !! md_name (metadata wf) = Some p → wpr_finished_at p = None) →
  let name := md_name (metadata wf) in
  let plan := tick spec (entry_steps spec s name) (task_states (app_instances s)) in
  let s' := (workflow_tick wf o (s, u)).2.1 in
  ∃ p' sent msgs, app_workflows s' = <[name := p']> (app_workflows s) ∧
    app_published s' = app_published s ++ msgs ∧
    sublist sent (dispatch plan) ∧ Forall2 (runs_step spec) sent msgs ∧
    (∀ n, wpr_steps p' !! n =
       if bool_decide (n ∈ dispatch plan)
       then Some (if bool_decide (n ∈ sent) then Running else Failed)
       else next_progress plan !! n) ∧
    (fault_free o → ∀ n, n ∈ dispatch plan → n ∉ sent → step_refused spec o s n) ∧
    (is_Some (wpr_finished_at p') ↔ finished plan = true).
Proof.
  intros Hb Hf name plan. unfold workflow_tick. rewrite Hb. fold name.
  destruct (workflow_entry_run name spec o s u Hf)
    as (p & s1 & u1 & He & Hsteps & Hfin & Hpub & Hinst & Hsto & Hnid & Hins).
  unfold mbind, M_bind. rewrite He, Hfin. simpl. rewrite Hsteps, Hinst.
  change (advance_workflow _) with plan.
  destruct (dispatch_loop_run spec (dispatch plan)
    (next_progress plan ∪ entry_steps spec s name) o s1 u1) as (sent & msgs & Hsub & Hw & Hp & Hrun & Href & Hst).
  { apply advance_NoDup. }
  { intros n (st & Hin & <-)%dispatched_is_step. by apply list_elem_of_fmap_2. }
  destruct (fold_each _ _ _ o (s1, u1)) as [steps [s2 u2]]. simpl in *.
  assert (∀ n, (next_progress plan ∪ entry_steps spec s name) !! n = next_progress plan !! n) as Hu.
  { intros n. rewrite lookup_union. destruct (next_progress plan !! n) eqn:E.
    - by destruct (entry_steps spec s name !! n).
    - by rewrite (tick_keeps _ _ _ _ E). }
  destruct (finished plan) eqn:Efin; simpl; rewrite Hw, Hins;
    (eexists; exists sent, msgs; split; [reflexivity|]); rewrite Hp, Hpub; simpl;
    split_and!; try done; try (intros n; rewrite Hst, Hu; done);
    intros Hff n Hn Hns; by eapply step_refused_store, Href.
Qed.

End workflows.

(** ** Concrete runs *)

(** The order opposite to [canonical_order]. *)
Definition reversed_order : HashOrder :=
  {| hash_iter := λ K _ _ A m, reverse (map_to_list m);
     hash_iter_perm := λ K _ _ A m, reverse_Permutation _ |}.

(** Two runs of the Task "t": the first failed, the second, later, succeeded. *)
Definition demo_two_runs : InstanceRegistry :=
  let g := record_dispatch InstanceRegistry_default 1%Z 1%N "Task" "t" (Some "n1") 1%Z in
  let g := (record_exit g 2%Z 1%N 1%Z "failed").2 in
  let g := record_dispatch g 3%Z 2%N "Task" "t" (Some "n1") 1%Z in
  (record_exit g 4%Z 2%N 0%Z "succeeded").2.

Definition demo_sched_spec : ScheduleSpec (J := toy_json) :=
  {| sched_cron := "* * * * *"; sched_task := None;
     sched_task_template := Some {| task_runtime := Some (RNative "./job" [] ∅);
       task_placement := Placement_default; task_requires := CapabilitySelector_default;
       task_prefer_data_locality := false; task_timeout_seconds := None;
       task_retry := None |} |}.

Definition demo_schedule : Resource (J := toy_json) :=
  demo_resource (J := toy_json) "nightly" (BSchedule demo_sched_spec None).

Definition demo_armed : ScheduleObservation :=
  {| armed_at := 5%Z; last_fired_at := None; last_instance_id := None; next_fire_at := None;
     last_error := None; fire_count := 0%Z |}.

Definition demo_sched_state : AppState :=
  set_schedules {["nightly" := demo_armed]} demo_state.

Definition demo_wf_resource : Resource (J := toy_json) :=
  demo_resource (J := toy_json) "etl" (BWorkflow demo_workflow None).

(** ** Claims *)

(** C7: what a tick does with a tracked schedule.  It fires, publishing exactly one
    one-replica Task run and recording the time, the instance and one more fire, only
    when a cron time after the last fire (or after arming) has passed; when none has,
    it only updates the next fire time; when firing fails, it publishes nothing,
    keeps the last fire time, so the next tick retries, and records the error; it fails
    only when a call does, the target does not resolve, or no node takes it. *)
Theorem schedule_tick_outcomes {J : SerdeJson} {RC : ResourceCodec} {TM : Rfc3339}
    {HO : HashOrder} {CL : ControllerLibs} (now_ : Instant) (sched : Resource)
    (spec : ScheduleSpec) (status : option Status) (parsed : CronSchedule)
    (ob : ScheduleObservation) (o : Oracle) (s : AppState) (u : Used)
    (Hb : body sched = BSchedule spec status)
    (Hc : cron_from_str (cron_expr (sched_cron spec)) = Ok parsed)
    (Ho : app_schedules s !! md_name (metadata sched) = Some ob) :
  tick_outcome spec parsed now_ (md_name (metadata sched)) ob o u s
    (schedule_tick now_ sched o (s, u)).2.1.
Proof. by eapply schedule_tick_run. Qed.

Lemma schedule_tick_outcomes_witness :
  tick_outcome (RC := demo_api_codec) (TM := demo_clock) (HO := canonical_order) (CL := demo_libs)
    demo_sched_spec 60000000000%Z 70000000000%Z "nightly" demo_armed quiet_oracle Used_init
    demo_sched_state
    (schedule_tick (RC := demo_api_codec) (TM := demo_clock) (HO := canonical_order)
       (CL := demo_libs) 70000000000%Z demo_schedule quiet_oracle
       (demo_sched_state, Used_init)).2.1.
Proof.
  apply (schedule_tick_outcomes (RC := demo_api_codec) (TM := demo_clock) (HO := canonical_order)
    (CL := demo_libs) 70000000000%Z demo_schedule
    demo_sched_spec None 60000000000%Z demo_armed quiet_oracle demo_sched_state Used_init).
  - reflexivity.
  - vm_compute. reflexivity.
  - vm_compute. reflexivity.
Defined.

(** C8: a workflow tick carries its plan out.  For an unfinished workflow, the runner
    stores exactly the planner's next statuses, except that each step the planner asks
    to dispatch is running when its task was published and failed otherwise; one
    one-replica Task run is published per running one, in plan order, and the workflow
    is stamped finished exactly when the plan says so.  When no call fails, a planned
    step is not sent only because its task is not stored with a runtime or no node
    takes it. *)
Theorem workflow_tick_follows_plan {J : SerdeJson} {RC : ResourceCodec} {TM : Rfc3339}
    {HO : HashOrder} {CL : ControllerLibs} (wf : Resource) (spec : WorkflowSpec)
    (status : option Status) (o : Oracle) (s : AppState) (u : Used)
    (Hb : body wf = BWorkflow spec status)
    (Hf : ∀ p, app_workflows s !! md_name (metadata wf) = Some p → wpr_finished_at p = None) :
  let name := md_name (metadata wf) in
  let plan := tick spec (entry_steps spec s name) (task_states (app_instances s)) in
  let s' := (workflow_tick wf o (s, u)).2.1 in
  ∃ p' sent msgs, app_workflows s' = <[name := p']> (app_workflows s) ∧
    app_published s' = app_published s ++ msgs ∧
    sublist sent (dispatch plan) ∧ Forall2 (runs_step spec) sent msgs ∧
    (∀ n, wpr_steps p' !! n =
       if bool_decide (n ∈ dispatch plan)
       then Some (if bool_decide (n ∈ sent) then Running else Failed)
       else next_progress plan !! n) ∧
    (fault_free o → ∀ n, n ∈ dispatch plan → n ∉ sent → step_refused spec o s n) ∧
    (is_Some (wpr_finished_at p') ↔ finished plan = true).
Proof. by eapply workflow_tick_run. Qed.

Lemma workflow_tick_follows_plan_witness :
  let plan := tick demo_workflow (entry_steps demo_workflow demo_state "etl")
    (task_states (HO := canonical_order) (app_instances demo_state)) in
  let s' := (workflow_tick (RC := demo_api_codec) (TM := demo_clock) (HO := canonical_order)
    (CL := demo_libs) demo_wf_resource quiet_oracle (demo_state, Used_init)).2.1 in
  ∃ p' sent msgs, app_workflows s' = <["etl" := p']> (app_workflows demo_state) ∧
    app_published s' = app_published demo_state ++ msgs ∧
    sublist sent (dispatch plan) ∧ Forall2 (runs_step demo_workflow) sent msgs ∧
    (∀ n, wpr_steps p' !! n =
       if bool_decide (n ∈ dispatch plan)
       then Some (if bool_decide (n ∈ sent) then Running else Failed)
       else next_progress plan !! n) ∧
    (fault_free quiet_oracle → ∀ n, n ∈ dispatch plan → n ∉ sent →
       step_refused (RC := demo_api_codec) (TM := demo_clock) (HO := canonical_order)
         (CL := demo_libs) demo_workflow quiet_oracle demo_state n) ∧
    (is_Some (wpr_finished_at p') ↔ finished plan = true).
Proof.
  apply (workflow_tick_follows_plan (RC := demo_api_codec) (TM := demo_clock)
    (HO := canonical_order) (CL := demo_libs) demo_wf_resource demo_workflow None).
  - reflexivity.
  - intros p Hp. discriminate Hp.
Defined.

(** The exit a workflow sees for a task is not the most recent one.  When a task ran
    twice, first failing and later succeeding, the map handed to the planner holds
    either exit, depending on the iteration order of the instance table. *)
Theorem task_states_not_most_recent :
  task_states (HO := canonical_order) demo_two_runs !! "t" ≠
  task_states (HO := reversed_order) demo_two_runs !! "t" ∧
  ∃ r1 r2, by_id demo_two_runs !! 1%N = Some r1 ∧ by_id demo_two_runs !! 2%N = Some r2 ∧
    ir_exited_at r1 = Some 2%Z ∧ ir_exit_kind r1 = Some "failed" ∧
    ir_exited_at r2 = Some 4%Z ∧ ir_exit_kind r2 = Some "succeeded".
Proof.
  split; [vm_compute; discriminate|]. do 2 eexists. split; [vm_compute; reflexivity|].
  split; [vm_compute; reflexivity|]. by split_and!.
Qed.
