(* ===== verification/System.v ===== *)
(** * The controller as a transition system

    The handlers and loops run concurrently and interleave at every await.  Each
    of them is a sequence of atomic changes: one lock held, one statement run, one
    message published.  [atom] is the relation of those changes; every handler is
    shown to be a sequence of atoms, so an invariant of [atom] holds in every state
    any interleaving reaches. *)

From Stdlib Require Import ZArith Lia Bool.
From stdpp Require Import base list gmap strings.
From S2P Require Import Prelude Text Types Effect Scheduler Bus Reconcile Workflow Store Registry Controller Dispatch Loops Api.

(** A message on the subject of its node and verb; a run asks for at least one
    replica. *)
Definition message_ok (m : string * Message) : Prop :=
  match m.2 with
  | MRun env => (∃ node, m.1 = for_node TControlRun node) ∧ (1 <= run_replicas (env_payload env))%Z
  | MStop env => ∃ node, m.1 = for_node TControlStop node
  end.

Inductive atom (s : AppState) : AppState → Prop :=
| atom_store d : atom s (set_store d s)
| atom_node n : atom s (set_node_id n s)
| atom_push kind name e t : atom s (set_logs (push (app_logs s) kind name e) t s)
| atom_tasks t : atom s (set_logs (app_logs s) t s)
| atom_instances g : reg_step (app_instances s) g → atom s (set_instances g s)
| atom_health h : atom s (set_health h s)
| atom_workflows w : atom s (set_workflows w s)
| atom_schedules x : atom s (set_schedules x s)
| atom_publish m : message_ok m → atom s (set_published (app_published s ++ [m]) s).

(** ** The invariant *)

Record app_inv (s : AppState) : Prop := {
  app_index : reg_inv (app_instances s);
  app_rings : ∀ k ring, rings (app_logs s) !! k = Some ring → length ring ≤ LOG_RING_CAPACITY;
  app_messages : Forall message_ok (app_published s)
}.

Lemma push_bounded b kind name e :
  (∀ k ring, rings b !! k = Some ring → length ring ≤ LOG_RING_CAPACITY) →
  ∀ k ring, rings (push b kind name e) !! k = Some ring → length ring ≤ LOG_RING_CAPACITY.
Proof.
  intros Hb k ring. unfold push. cbn [rings]. destruct (decide ((kind, name) = k)) as [<-|Hne].
  - rewrite lookup_insert_eq. intros Heq. apply (inj Some) in Heq as <-.
    rewrite length_app. cbn [length].
    assert (length (default [] (rings b !! (kind, name))) ≤ LOG_RING_CAPACITY) as Hl.
    { destruct (rings b !! (kind, name)) eqn:E; [by eapply Hb|simpl; lia]. }
    destruct (Nat.leb_spec LOG_RING_CAPACITY (length (default [] (rings b !! (kind, name))))) as [H|H].
    + assert (∀ l : list LogEntry, length (tail l) = length l - 1) as ->
        by (intros []; simpl; lia).
      assert (1 ≤ LOG_RING_CAPACITY) by (unfold LOG_RING_CAPACITY; lia). lia.
    + lia.
  - rewrite lookup_insert_ne by done. apply Hb.
Qed.

Lemma atom_inv s s' : app_inv s → atom s s' → app_inv s'.
Proof.
  intros [Hi Hr Hm] Ha. destruct Ha; split; simpl; try done.
  - by apply push_bounded.
  - by eapply reg_step_inv.
  - apply Forall_app. split; [done|]. by apply Forall_singleton.
Qed.

Lemma initial_inv d url auth t : app_inv (initial_state d url auth t).
Proof.
  split; simpl; [apply reg_inv_default| |constructor].
  intros k ring H. by rewrite lookup_empty in H.
Qed.

Lemma atoms_inv s s' : rtc atom s s' → app_inv s → app_inv s'.
Proof. induction 1; eauto using atom_inv. Qed.

(** ** Computations made of atoms *)

Definition by_atoms {A} (m : M AppState A) : Prop := ∀ o s u, rtc atom s (m o (s, u)).2.1.

Lemma by_atoms_readonly {A} (m : M AppState A) : readonly m → by_atoms m.
Proof. intros Hm o s u. rewrite Hm. done. Qed.

Lemma by_atoms_ret {A} (a : A) : by_atoms (mret (M := M AppState) a).
Proof. intros o s u. done. Qed.

Lemma by_atoms_bind {A B} (m : M AppState A) (f : A → M AppState B) :
  by_atoms m → (∀ a, by_atoms (f a)) → by_atoms (m ≫= f).
Proof.
  intros Hm Hf o s u. unfold mbind, M_bind. specialize (Hm o s u).
  destruct (m o (s, u)) as [a [s' u']]. simpl in Hm. etrans; [exact Hm|]. apply Hf.
Qed.

Lemma by_atoms_now : by_atoms now.
Proof. intros o s u. done. Qed.
Lemma by_atoms_get : by_atoms get.
Proof. intros o s u. done. Qed.

Lemma by_atoms_modify f : (∀ s, atom s (f s)) → by_atoms (modify f).
Proof. intros Hf o s u. by apply rtc_once. Qed.

Lemma by_atoms_on_store {A} (m : M Db A) : by_atoms (on_store m).
Proof. intros o s u. rewrite on_store_run. apply rtc_once, atom_store. Qed.

Lemma by_atoms_for_each {A} (l : list A) f : (∀ x, by_atoms (f x)) → by_atoms (for_each l f).
Proof.
  intros Hf. induction l as [|x l IH]; [apply by_atoms_ret|]. by apply by_atoms_bind.
Qed.

Lemma by_atoms_fold_each {A B} (f : B → A → M AppState B) b l :
  (∀ b x, by_atoms (f b x)) → by_atoms (fold_each f b l).
Proof.
  intros Hf. revert b. induction l as [|x l IH]; intros b; [apply by_atoms_ret|].
  by apply by_atoms_bind.
Qed.

#[export] Hint Resolve by_atoms_ret by_atoms_bind by_atoms_now by_atoms_get by_atoms_on_store
  by_atoms_for_each by_atoms_fold_each : orion.
#[export] Hint Constructors atom reg_step : orion.

Section handlers.
Context {J : SerdeJson} {RC : ResourceCodec} {TM : Rfc3339} {HO : HashOrder}
  {CL : ControllerLibs} {AL : ApiLibs}.

Lemma with_run_atom s node env :
  (1 <= run_replicas (env_payload env))%Z → atom s (with_run node env s).
Proof. intros H. apply atom_publish. split; [by exists node|done]. Qed.

Lemma by_atoms_dispatch_slots kind name runtime gen reps slots :
  (1 <= reps)%Z → by_atoms (dispatch_workload_with_slots kind name runtime gen reps slots).
Proof.
  intros Hr o s u. pose proof (dispatch_slots_run kind name runtime gen reps slots o s u) as Hd.
  destruct Hd as [e|node id i hc env _ _ Henv]; [done|].
  apply rtc_once, with_run_atom. by rewrite Henv.
Qed.

Lemma by_atoms_dispatch kind name runtime gen reps :
  (1 <= reps)%Z → by_atoms (dispatch_workload kind name runtime gen reps).
Proof. apply by_atoms_dispatch_slots. Qed.

Lemma by_atoms_note_dispatch id kind name node n : by_atoms (note_dispatch id kind name node n).
Proof.
  apply by_atoms_bind; [apply by_atoms_now|]. intros t. apply by_atoms_modify.
  intros s. apply atom_instances, step_dispatch.
Qed.

Lemma by_atoms_purge_all ids : by_atoms (purge_all ids).
Proof.
  apply by_atoms_for_each. intros id o s u. simpl.
  eapply rtc_l; [apply atom_instances, (step_purge _ id)|].
  eapply rtc_l; [apply (atom_health _ (delete id (app_health s)))|]. apply rtc_refl.
Qed.

Lemma decide_replicas spec l n ids :
  decide_reconcile spec l = RedispatchAll n ids → n = desired_replicas spec.
Proof.
  unfold decide_reconcile. cbv zeta. destruct (_ =? 0)%Z; [done|].
  destruct (_ && _); [|done]. by intros [= <- _].
Qed.

Lemma by_atoms_reconcile_service h svc : by_atoms (reconcile_service h svc).
Proof.
  unfold reconcile_service. destruct (body svc); try apply by_atoms_ret.
  destruct (svc_runtime spec) as [runtime|]; [|apply by_atoms_ret].
  apply by_atoms_bind; [apply by_atoms_get|]. intros s.
  assert (1 <= desired_replicas spec)%Z by (unfold desired_replicas; lia).
  destruct (decide_reconcile spec _) as [|n ids|slots ids] eqn:E; [apply by_atoms_ret|..];
    (apply by_atoms_bind; [apply by_atoms_purge_all|intros _]);
    (apply by_atoms_bind; [|intros [[node id]|e]; [apply by_atoms_note_dispatch|apply by_atoms_ret]]).
  - apply by_atoms_dispatch. by rewrite (decide_replicas _ _ _ _ E).
  - by apply by_atoms_dispatch_slots.
Qed.

Lemma by_atoms_dispatch_step spec steps n : by_atoms (dispatch_step spec steps n).
Proof.
  unfold dispatch_step. destruct (List.find _ _) as [step|]; [|apply by_atoms_ret].
  apply by_atoms_bind; [apply by_atoms_on_store|]. intros [[task|]|e]; try apply by_atoms_ret.
  destruct (match body task with BTask tspec _ => task_runtime tspec | _ => None end)
    as [runtime|]; [|apply by_atoms_ret].
  apply by_atoms_bind; [by apply by_atoms_dispatch|].
  intros [[node id]|e]; [|apply by_atoms_ret].
  apply by_atoms_bind; [apply by_atoms_note_dispatch|intros _; apply by_atoms_ret].
Qed.

Lemma by_atoms_workflow_tick wf : by_atoms (workflow_tick wf).
Proof.
  unfold workflow_tick. destruct (body wf); try apply by_atoms_ret.
  apply by_atoms_bind.
  { unfold workflow_entry. apply by_atoms_bind; [apply by_atoms_get|]. intros s.
    destruct (app_workflows s !! _); [apply by_atoms_ret|].
    apply by_atoms_bind; [apply by_atoms_now|intros t].
    apply by_atoms_bind; [|intros _; apply by_atoms_ret].
    apply by_atoms_modify. intros s'. apply atom_workflows. }
  intros p. destruct (wpr_finished_at p); [apply by_atoms_ret|].
  apply by_atoms_bind; [apply by_atoms_get|intros s].
  apply by_atoms_bind; [apply by_atoms_fold_each, by_atoms_dispatch_step|intros steps].
  apply by_atoms_bind; [destruct (finished _); auto with orion|intros fin].
  apply by_atoms_modify. intros s'. apply atom_workflows.
Qed.

Lemma by_atoms_observe name f : by_atoms (observe_schedule name f).
Proof.
  unfold observe_schedule. apply by_atoms_bind; [apply by_atoms_get|intros s].
  assert (∀ t, by_atoms (modify (λ s, set_schedules (observe (app_schedules s) t name f) s))) as Hm.
  { intros t. apply by_atoms_modify. intros s'. apply atom_schedules. }
  destruct (app_schedules s !! name); [apply Hm|].
  apply by_atoms_bind; [apply by_atoms_now|done].
Qed.

Lemma by_atoms_schedule_tick t sched : by_atoms (schedule_tick t sched).
Proof.
  unfold schedule_tick. destruct (body sched); try apply by_atoms_ret.
  destruct (cron_from_str _) as [parsed|e]; [|apply by_atoms_observe].
  apply by_atoms_bind; [apply by_atoms_get|intros s].
  destruct (app_schedules s !! _) as [ob|]; [|apply by_atoms_observe].
  apply by_atoms_bind; [apply by_atoms_observe|intros _].
  destruct (cron_after _ _) as [ft|]; [|apply by_atoms_ret].
  destruct (t <? ft)%Z; [apply by_atoms_ret|].
  apply by_atoms_bind; [apply by_atoms_readonly, readonly_resolve|].
  intros [[wname runtime]|e]; [|apply by_atoms_observe].
  apply by_atoms_bind; [by apply by_atoms_dispatch|].
  intros [[node id]|e]; apply by_atoms_observe.
Qed.

(** *** Subscribers and HTTP handlers *)

Lemma by_atoms_heartbeat env : by_atoms (on_heartbeat env).
Proof.
  destruct env; [|apply by_atoms_ret].
  apply by_atoms_bind; [apply by_atoms_modify; intros s; apply atom_node|intros _].
  apply by_atoms_bind; [apply by_atoms_on_store|intros _; apply by_atoms_ret].
Qed.

Lemma by_atoms_inventory env : by_atoms (on_inventory env).
Proof.
  destruct env as [e|]; [|apply by_atoms_ret]. unfold on_inventory.
  destruct (inventory_to_json _); [|apply by_atoms_ret].
  apply by_atoms_bind; [apply by_atoms_on_store|intros _; apply by_atoms_ret].
Qed.

Lemma by_atoms_log env : by_atoms (on_log env).
Proof.
  destruct env as [e|]; [|apply by_atoms_ret]. unfold on_log.
  apply by_atoms_bind; [apply by_atoms_get|intros s].
  apply by_atoms_bind; [apply by_atoms_modify; intros s'; apply atom_push|intros _].
  destruct (ll_instance_id _); [|apply by_atoms_ret].
  apply by_atoms_modify. intros s'. apply atom_instances, step_line.
Qed.

Lemma by_atoms_archive n : by_atoms (run_archive_task n).
Proof.
  unfold run_archive_task. apply by_atoms_bind; [apply by_atoms_get|intros s].
  destruct (app_archive_tasks s !! n); [|apply by_atoms_ret].
  apply by_atoms_bind; [apply by_atoms_modify; intros s'; apply atom_tasks|intros _].
  apply by_atoms_bind; [apply by_atoms_on_store|intros _; apply by_atoms_ret].
Qed.

Lemma by_atoms_task_event env : by_atoms (on_task_event env).
Proof.
  destruct env as [e|]; [|apply by_atoms_ret]. unfold on_task_event.
  destruct (match te_outcome _ with
            | OSucceeded code => _ | OFailed code _ => _ | OCancelled _ => _ | _ => _ end)
    as [[code how]|]; [|apply by_atoms_ret].
  apply by_atoms_bind; [apply by_atoms_now|intros t]. apply by_atoms_modify. intros s.
  apply atom_instances, step_exit.
Qed.

Lemma by_atoms_health env : by_atoms (on_service_health env).
Proof.
  destruct env as [e|]; [|apply by_atoms_ret]. unfold on_service_health.
  destruct (uuid_parse_str _); [|apply by_atoms_ret].
  apply by_atoms_bind; [apply by_atoms_now|intros t]. apply by_atoms_modify. intros s.
  apply atom_health.
Qed.

Lemma by_atoms_apply q text : by_atoms (apply_resource q text).
Proof.
  unfold apply_resource. destruct (from_yaml text) as [r|e]; [|apply by_atoms_ret].
  destruct (validate r); [|apply by_atoms_ret]. destruct (is_dry_run q); [apply by_atoms_ret|].
  apply by_atoms_bind; [apply by_atoms_on_store|intros ?; apply by_atoms_ret].
Qed.

Lemma by_atoms_dispatch_resource kind name : by_atoms (dispatch_resource kind name).
Proof.
  unfold dispatch_resource. destruct (_ && _); [apply by_atoms_ret|].
  apply by_atoms_bind; [apply by_atoms_on_store|]. intros [[r|]|e]; try apply by_atoms_ret.
  destruct (dispatch_target r) as [[[runtime reps]|e]|] eqn:E; try apply by_atoms_ret.
  apply by_atoms_bind.
  { apply by_atoms_dispatch. unfold dispatch_target in E. destruct (body r); try done.
    - destruct (svc_runtime spec); [|done]. injection E as _ <-. lia.
    - destruct (task_runtime spec); [|done]. by injection E as _ <-. }
  intros [[node id]|e]; [|apply by_atoms_ret].
  apply by_atoms_bind; [apply by_atoms_note_dispatch|intros _; apply by_atoms_ret].
Qed.

Lemma by_atoms_stop_one kind name acc rec : by_atoms (stop_one kind name acc rec).
Proof.
  unfold stop_one. destruct (ir_node rec) as [node|]; [|apply by_atoms_ret].
  apply by_atoms_bind; [apply by_atoms_readonly, readonly_new_envelope|intros env].
  apply by_atoms_bind; [|intros [?|?]; apply by_atoms_ret].
  unfold publish. apply by_atoms_bind; [intros o s u; done|intros [f|]; [apply by_atoms_ret|]].
  apply by_atoms_bind; [|intros _; apply by_atoms_ret]. apply by_atoms_modify. intros s.
  apply atom_publish. by exists node.
Qed.

Lemma by_atoms_stop kind name : by_atoms (stop_workload kind name).
Proof.
  intros o s u. unfold stop_workload. unfold mbind at 1, M_bind at 1, get.
  destruct (drain_for (app_instances s) kind name) as [recs g] eqn:E.
  assert (reg_step (app_instances s) g) as Hg.
  { pose proof (step_drain (app_instances s) kind name) as H. by rewrite E in H. }
  unfold mbind at 1, M_bind at 1, modify.
  eapply rtc_l; [by apply (atom_instances _ g)|]. destruct recs as [|rec recs]; [apply by_atoms_ret|].
  apply (by_atoms_bind (fold_each (stop_one kind name) (0%Z, []) (rec :: recs)));
    [apply by_atoms_fold_each, by_atoms_stop_one|intros ?; apply by_atoms_ret].
Qed.

(** Everything that makes the controller act. *)
Inductive Event : Type :=
| EvHeartbeat (env : option (Envelope Heartbeat))
| EvInventory (env : option (Envelope NodeInventory))
| EvLog (env : option (Envelope LogLine))
| EvArchive (n : nat)
| EvTaskEvent (env : option (Envelope TaskEvent))
| EvHealth (env : option (Envelope ServiceHealth))
| EvReconcile
| EvWorkflow
| EvSchedule
| EvApply (dry_run : option string) (text : string)
| EvDelete (kind name : string)
| EvDispatch (kind name : string)
| EvStop (kind name : string)
| EvRestart (kind name : string).

(** A computation whose answer is dropped. *)
Definition ignore {A} (m : M AppState A) : M AppState unit := _ ← m; mret tt.

Definition handle (ev : Event) : M AppState unit :=
  match ev with
  | EvHeartbeat env => on_heartbeat env
  | EvInventory env => on_inventory env
  | EvLog env => on_log env
  | EvArchive n => run_archive_task n
  | EvTaskEvent env => on_task_event env
  | EvHealth env => on_service_health env
  | EvReconcile => ignore reconcile_once
  | EvWorkflow => ignore workflow_tick_once
  | EvSchedule => ignore scheduler_tick_once
  | EvApply q text => ignore (apply_resource q text)
  | EvDelete kind name => ignore (delete_resource_handler kind name)
  | EvDispatch kind name => ignore (dispatch_resource kind name)
  | EvStop kind name => ignore (stop_workload kind name)
  | EvRestart kind name => ignore (restart_workload kind name)
  end.

Lemma by_atoms_ignore {A} (m : M AppState A) : by_atoms m → by_atoms (ignore m).
Proof. intros Hm. apply by_atoms_bind; [done|intros _; apply by_atoms_ret]. Qed.

(** A tick: read a table, then handle each of its resources. *)
Lemma by_atoms_tick {A} (m : M Db (result A StoreError)) (k : A → M AppState (result unit StoreError)) :
  (∀ a, by_atoms (k a)) → by_atoms (let! x := on_store m in k x).
Proof.
  intros Hk. apply by_atoms_bind; [apply by_atoms_on_store|].
  intros [a|e]; [apply Hk|apply by_atoms_ret].
Qed.

Lemma handle_atoms ev : by_atoms (handle ev).
Proof.
  destruct ev; simpl; try apply by_atoms_ignore;
    auto using by_atoms_heartbeat, by_atoms_inventory, by_atoms_log, by_atoms_archive,
      by_atoms_task_event, by_atoms_health, by_atoms_apply, by_atoms_dispatch_resource,
      by_atoms_stop.
  - apply by_atoms_tick. intros l. apply by_atoms_bind; [apply by_atoms_get|intros s].
    apply by_atoms_bind; [apply by_atoms_for_each, by_atoms_reconcile_service|auto with orion].
  - apply by_atoms_tick. intros l.
    apply by_atoms_bind; [apply by_atoms_for_each, by_atoms_workflow_tick|auto with orion].
  - apply by_atoms_tick. intros l. apply by_atoms_bind; [apply by_atoms_now|intros t].
    apply by_atoms_bind; [apply by_atoms_for_each, by_atoms_schedule_tick|auto with orion].
  - apply by_atoms_bind; [apply by_atoms_on_store|intros ?; apply by_atoms_ret].
  - apply by_atoms_bind; [apply by_atoms_stop|intros r].
    apply by_atoms_bind; [apply by_atoms_dispatch_resource|intros ?; apply by_atoms_ret].
Qed.

End handlers.

(** ** Claims *)

(** C9: the controller's invariant.  Every event handler and control loop is, under any
    clock, failures and UUIDs, a sequence of atomic changes; and in every state that
    any sequence of atomic changes reaches from start-up, so under any interleaving of
    the handlers, each known instance is indexed under its workload, no log ring
    exceeds its capacity, and each published message went to the subject of its node
    and verb, with every run asking for at least one replica. *)
Theorem controller_invariant {J : SerdeJson} {RC : ResourceCodec} {TM : Rfc3339}
    {HO : HashOrder} {CL : ControllerLibs} {AL : ApiLibs} :
  (∀ (ev : Event) (o : Oracle) (s : AppState) (u : Used),
     rtc atom s (handle ev o (s, u)).2.1) ∧
  (∀ (d : Db) (url : string) (auth : bool) (t : Instant) (s : AppState),
     rtc atom (initial_state d url auth t) s → app_inv s).
Proof.
  split; [intros ev o s u; apply handle_atoms|].
  intros d url auth t s Hs. eapply atoms_inv; [exact Hs|apply initial_inv].
Qed.
