(* ===== verification/Auth.v ===== *)
(** * Cluster authentication and secrets (crates/orion-auth, orion-runtime/src/secrets.rs)

    How the cluster token is found, the bearer check of the HTTP API, and the
    resolver of [plaintext://] secrets.  The process environment is a map and the
    file system a function; [HeaderValue::to_str] is a parameter. *)

From Stdlib Require Import ZArith Lia Bool Ascii.
From stdpp Require Import base list gmap strings.
From S2P Require Import Prelude Text.

Definition ENV_TOKEN : string := "ORION_CLUSTER_TOKEN".
Definition ENV_DISABLED : string := "ORION_AUTH_DISABLED".

(** The kinds of [io::Error] the source tells apart. *)
Inductive IoError : Type := IoNotFound | IoOther (msg : string).

Inductive AuthError : Type := MissingToken | AuthIo (e : IoError).

Inductive AuthMode : Type := Enforce (token : string) | Disabled.

(** The environment variables (readable as Unicode) and the files. *)
Record Env : Type := {
  env_var : gmap string string;
  env_read : string → result string IoError
}.

(** [PathBuf::push] of a relative path. *)
Definition path_push (base rel : string) : string :=
  if bool_decide (base = EmptyString) || ends_with "/" base then base +:+ rel
  else base +:+ "/" +:+ rel.

Definition is_disabled (e : Env) : bool :=
  match env_var e !! ENV_DISABLED with
  | Some v => bool_decide (v ∈ ["1"; "true"; "TRUE"; "yes"; "YES"])
  | None => false
  end.

Definition token_path (e : Env) : string :=
  match env_var e !! "ORION_TOKEN_FILE" with
  | Some p => p
  | None =>
      match env_var e !! "HOME" with
      | Some home => path_push home ".config/orion/cluster.token"
      | None => "/etc/orion/cluster.token"
      end
  end.

(** The tail of [from_env]: the token file. *)
Definition token_from_file (e : Env) : result AuthMode AuthError :=
  match env_read e (token_path e) with
  | Ok s =>
      let t := trim s in
      if bool_decide (t = EmptyString) then Err MissingToken else Ok (Enforce t)
  | Err IoNotFound => Err MissingToken
  | Err err => Err (AuthIo err)
  end.

Definition from_env (e : Env) : result AuthMode AuthError :=
  if is_disabled e then Ok Disabled
  else match env_var e !! ENV_TOKEN with
       | Some t =>
           let t := trim t in
           if bool_decide (t = EmptyString) then token_from_file e else Ok (Enforce t)
       | None => token_from_file e
       end.

Definition token (m : AuthMode) : option string :=
  match m with Enforce t => Some t | Disabled => None end.

Definition mode_is_disabled (m : AuthMode) : bool :=
  match m with Disabled => true | Enforce _ => false end.

(** A byte string, as numbers. *)
Fixpoint as_bytes (s : string) : list Z :=
  match s with
  | EmptyString => []
  | String a s' => Z.of_N (N_of_ascii a) :: as_bytes s'
  end.

(** The accumulator loop of [constant_time_eq]. *)
Definition diff_bytes (a b : list Z) : Z :=
  foldl (λ diff xy, Z.lor diff (Z.lxor xy.1 xy.2)) 0%Z (zip a b).

Definition constant_time_eq (a b : list Z) : bool :=
  if negb (length a =? length b) then false else (diff_bytes a b =? 0)%Z.

(** What the middleware does with a request. *)
Inductive Verdict : Type := Pass | Reject (msg : string).

Section bearer.
(** [HeaderValue::to_str] on the raw header. *)
Variable to_str : string → option string.

Definition require_bearer (mode : AuthMode) (authorization : option string) : Verdict :=
  if mode_is_disabled mode then Pass
  else match token mode with
       | None => Reject "auth not configured"
       | Some want =>
           let got := (authorization ≫= to_str) ≫= strip_prefix "Bearer " in
           match got with
           | Some g => if constant_time_eq (as_bytes g) (as_bytes want) then Pass
                       else Reject "invalid bearer token"
           | None => Reject "invalid bearer token"
           end
       end.

End bearer.

(** ** Secrets *)

Inductive SecretError : Type :=
| Malformed (vault_ref : string)
| UnknownScheme (scheme : string)
| SecretNotFound (name : string)
| SecretIo (e : IoError).

(** [PlaintextResolver::default_root]. *)
Definition default_root (e : Env) : string :=
  match env_var e !! "ORION_SECRETS_DIR" with
  | Some p => p
  | None =>
      match env_var e !! "HOME" with
      | Some h => path_push h ".config/orion/secrets"
      | None => "/var/lib/orion/secrets"
      end
  end.

Definition resolve (root : string) (read : string → result (list Z) IoError) (vault_ref : string)
    : result (list Z) SecretError :=
  match split_once "://" vault_ref with
  | None => Err (Malformed vault_ref)
  | Some (scheme, rest) =>
      if negb (String.eqb scheme "plaintext") then Err (UnknownScheme scheme)
      else if bool_decide (rest = EmptyString) || contains ".." rest || contains "/" rest
      then Err (Malformed vault_ref)
      else match read (path_push root rest) with
           | Ok b => Ok b
           | Err IoNotFound => Err (SecretNotFound rest)
           | Err e => Err (SecretIo e)
           end
  end.

(** ** Lemmas *)

Lemma as_bytes_range s x : x ∈ as_bytes s → (0 <= x < 256)%Z.
Proof.
  induction s as [|a s IH]; simpl; [intros H; by apply elem_of_nil in H|].
  intros [->|H]%elem_of_cons; [|by apply IH].
  pose proof (N_ascii_bounded a). lia.
Qed.

Lemma as_bytes_inj s t : as_bytes s = as_bytes t → s = t.
Proof.
  revert t. induction s as [|a s IH]; intros [|b t]; simpl; intros H; try done.
  injection H as Hab Hst. f_equal; [|by apply IH].
  rewrite <- (ascii_N_embedding a), <- (ascii_N_embedding b). f_equal. lia.
Qed.

Lemma lor_zero_iff x y : Z.lor x y = 0%Z ↔ x = 0%Z ∧ y = 0%Z.
Proof. split; [apply Z.lor_eq_0_iff|intros [-> ->]; done]. Qed.

Lemma diff_acc l d :
  foldl (λ diff xy, Z.lor diff (Z.lxor xy.1 xy.2)) d l = 0%Z ↔
  d = 0%Z ∧ Forall (λ xy : Z * Z, xy.1 = xy.2) l.
Proof.
  revert d. induction l as [|[x y] l IH]; intros d; simpl.
  { split; [by intros ->|by intros [-> _]]. }
  rewrite IH, lor_zero_iff, Forall_cons. simpl. rewrite Z.lxor_eq_0_iff. tauto.
Qed.

Lemma constant_time_eq_true a b : constant_time_eq a b = true ↔ a = b.
Proof.
  unfold constant_time_eq. destruct (Nat.eqb_spec (length a) (length b)) as [Hl|Hl]; simpl.
  2: { split; [done|]. by intros ->. }
  unfold diff_bytes. rewrite Z.eqb_eq, diff_acc. split.
  - intros [_ Hf]. revert b Hl Hf. induction a as [|x a IH]; intros [|y b] Hl Hf; try done.
    simpl in *. apply Forall_cons in Hf as [Hxy Hf]. simpl in Hxy.
    f_equal; [done|]. apply IH; [lia|done].
  - intros ->. split; [done|]. clear Hl. induction b; simpl; constructor; done.
Qed.

Lemma strip_bearer v g : strip_prefix "Bearer " v = Some g ↔ v = "Bearer " +:+ g.
Proof. apply strip_prefix_Some. Qed.

Lemma require_bearer_pass to_str mode h :
  require_bearer to_str mode h = Pass ↔
  mode = Disabled ∨ ∃ t, mode = Enforce t ∧ h ≫= to_str = Some ("Bearer " +:+ t).
Proof.
  pose proof strip_bearer as Hs.
  unfold require_bearer. generalize dependent "Bearer ". intros bearer Hs.
  destruct mode as [t|]; simpl.
  2: { split; [by left|done]. }
  destruct (h ≫= to_str) as [v|]; simpl; [|naive_solver].
  destruct (strip_prefix bearer v) as [g|] eqn:E.
  - apply Hs in E as ->.
    destruct (constant_time_eq (as_bytes g) (as_bytes t)) eqn:Ec.
    + apply constant_time_eq_true, as_bytes_inj in Ec as ->. naive_solver.
    + split; [done|]. intros [?|(t' & [= <-] & [= Hv])]; [done|].
      assert (Some g = Some t) as [= ->].
      { rewrite <- (proj2 (Hs (bearer +:+ g) g)) by done. by apply Hs. }
      assert (constant_time_eq (as_bytes t) (as_bytes t) = true) by by apply constant_time_eq_true.
      congruence.
  - split; [done|]. intros [?|(t' & [= <-] & [= Hv%Hs])]; [done|]. congruence.
Qed.

Lemma from_env_token e t : from_env e = Ok (Enforce t) → t ≠ EmptyString ∧ is_disabled e = false.
Proof.
  assert (token_from_file e = Ok (Enforce t) → t ≠ EmptyString) as Hfile.
  { unfold token_from_file. destruct (env_read e (token_path e)) as [s|[]]; try done.
    cbv zeta. case_bool_decide; [done|]. by intros [= <-]. }
  unfold from_env. destruct (is_disabled e); [done|].
  destruct (env_var e !! ENV_TOKEN) as [v|]; [|by intros H; split; [apply Hfile|]].
  cbv zeta. case_bool_decide as Hv; [by intros H; split; [apply Hfile|]|].
  by intros [= <-].
Qed.

Lemma from_env_disabled e : from_env e = Ok Disabled ↔ is_disabled e = true.
Proof.
  unfold from_env. destruct (is_disabled e); [done|]. split; [|done].
  assert (token_from_file e ≠ Ok Disabled) as Hf.
  { unfold token_from_file. destruct (env_read e (token_path e)) as [s|[]]; try done.
    cbv zeta. by case_bool_decide. }
  destruct (env_var e !! ENV_TOKEN); [cbv zeta; case_bool_decide|]; done.
Qed.

Lemma split_once_Some sep s l r : split_once sep s = Some (l, r) → s = l +:+ sep +:+ r.
Proof.
  revert l r. induction s as [|a s IH]; intros l r; simpl.
  - destruct (strip_prefix sep EmptyString) eqn:E; [|done].
    intros [= <- <-]. by apply strip_prefix_Some in E.
  - destruct (strip_prefix sep (String a s)) eqn:E.
    + intros [= <- <-]. by apply strip_prefix_Some in E.
    + intros H. apply fmap_Some in H as ([l' r'] & H & [= -> ->]).
      by rewrite (IH _ _ H).
Qed.

Lemma contains_slash s : contains "/" s = has_char "/"%char s.
Proof.
  induction s as [|a s IH]; [done|]. simpl. rewrite IH. f_equal.
  unfold starts_with, strip_prefix. rewrite Ascii.eqb_sym. by destruct (Ascii.eqb a _).
Qed.

(** ** Claims *)

(** C20: the cluster token decides who gets in.  With the mode resolved from the
    environment, a request passes exactly when auth was disabled explicitly, or its
    Authorization header is [Bearer ] followed by exactly the configured token; the
    configured token is never empty, so a missing, blank or unset token cannot open
    the API. *)
Theorem bearer_auth_correct (to_str : string → option string) (e : Env) (mode : AuthMode)
    (h : option string) (Hm : from_env e = Ok mode) :
  (require_bearer to_str mode h = Pass ↔
     is_disabled e = true ∨
     ∃ t, t ≠ EmptyString ∧ mode = Enforce t ∧ h ≫= to_str = Some ("Bearer " +:+ t)) ∧
  (mode = Disabled ↔ is_disabled e = true).
Proof.
  assert (mode = Disabled ↔ is_disabled e = true) as Hd.
  { rewrite <- from_env_disabled, Hm. split; [by intros ->|by intros [= ->]]. }
  split; [|done]. rewrite require_bearer_pass, <- Hd. split.
  - intros [?|(t & -> & Ht)]; [by left|]. right. exists t.
    by destruct (from_env_token e t Hm).
  - intros [?|(t & _ & ? & ?)]; [by left|]. right. eauto.
Qed.

Definition demo_env : Env :=
  {| env_var := {[ENV_TOKEN := " s3cret "]}; env_read := λ _, Err IoNotFound |}.

Lemma bearer_auth_correct_witness :
  require_bearer Some (Enforce "s3cret") (Some "Bearer s3cret") = Pass.
Proof.
  apply (bearer_auth_correct Some demo_env (Enforce "s3cret") (Some "Bearer s3cret")).
  - vm_compute. reflexivity.
  - right. exists "s3cret". split; [discriminate|]. split; reflexivity.
Defined.

(** A plaintext secret is a direct child of the secrets directory.  A reference
    resolves exactly when it is [plaintext://] followed by a non-empty name without
    slash and without [..], and then to what reading that entry of the directory gives:
    no reference reaches a file outside the directory. *)
Theorem secret_stays_in_root (root : string) (read : string → result (list Z) IoError)
    (vault_ref : string) (b : list Z) :
  resolve root read vault_ref = Ok b ↔
  ∃ n, vault_ref = "plaintext://" +:+ n ∧ n ≠ EmptyString ∧ has_char "/"%char n = false ∧
       contains ".." n = false ∧ read (path_push root n) = Ok b.
Proof.
  unfold resolve. split.
  - destruct (split_once "://" vault_ref) as [[scheme rest]|] eqn:E; [|done].
    apply split_once_Some in E as ->.
    destruct (String.eqb_spec scheme "plaintext") as [->|]; simpl; [|done].
    destruct (_ || _) eqn:Eg; [done|]. apply orb_false_iff in Eg as [Eg Es].
    apply orb_false_iff in Eg as [Ee%bool_decide_eq_false Ed].
    destruct (read (path_push root rest)) as [x|[]] eqn:Er; try done. intros [= <-].
    exists rest. rewrite contains_slash in Es. done.
  - intros (n & -> & Hne & Hs & Hd & Hr).
    assert (split_once "://" ("plaintext://" +:+ n) = Some ("plaintext", n)) as -> by done.
    simpl. rewrite bool_decide_eq_false_2, Hd, contains_slash, Hs by done. simpl. by rewrite Hr.
Qed.
