(* ===== verification/Inventory.v ===== *)
(** * What an agent reports about its node (crates/orion-agent/src/main.rs)

    The inventory message: architecture, GPUs read from the output of
    [nvidia-smi], [lspci] or [system_profiler], acceleration, and the runtimes of
    the registered adapters.  The commands of the host and the build target are
    parameters. *)

From Stdlib Require Import ZArith Lia Bool Ascii.
From stdpp Require Import base list gmap strings pretty.
From S2P Require Import Prelude Text Types Parse Effect Scheduler Bus Metrics Runtime Docker.

(** The output of each command, [None] when it could not be run; the build
    target; the package version; serde_json. *)
Class HostFacts {J : SerdeJson} : Type := {
  target_aarch64 : bool;
  target_macos : bool;
  cargo_pkg_version : string;
  env_hostname : option string;
  hostname_cmd : option Output;
  nvidia_smi : option Output;
  lspci : option Output;
  system_profiler : option Output;
  sysctl_brand : option Output;
  json_from_slice : string → option Value
}.

(** What [sysinfo] reports. *)
Record SysInfo : Type := {
  sys_cpus : Z;
  sys_total_memory : Z;
  sys_used_memory : Z;
  sys_load_one : f32;
  sys_uptime_seconds : Z
}.

Section inventory.
Context {J : SerdeJson} {HF : HostFacts} {UC : UnicodeCase} {HO : HashOrder}.

Definition hostname : option string :=
  match env_hostname with
  | Some h => Some h
  | None =>
      match hostname_cmd with
      | Some o => trim <$> from_utf8 (out_stdout o)
      | None => None
      end
  end.

Definition detect_arch : Arch := if target_aarch64 then Arm64 else X86_64.
Definition detect_os : OperatingSystem := if target_macos then Macos else Linux.

Definition parse_vram_to_gb (s : string) : option Z :=
  let s := to_lowercase (trim s) in
  match split_whitespace s with
  | [] => None
  | word :: rest =>
      num ← parse_f64 word;
      let unit := default "mb" (head rest) in
      let k := f64_of_Z 1024 in
      gb ← (if bool_decide (unit ∈ ["gb"; "gigabytes"]) then Some num
            else if bool_decide (unit ∈ ["mb"; "megabytes"]) then Some (f64_div num k)
            else if bool_decide (unit ∈ ["kb"; "kilobytes"])
            then Some (f64_div (f64_div num k) k)
            else None);
      Some (f64_as_u32 (f64_max (f64_round gb) (f64_of_Z 1)))
  end.

Definition get_str (v : Value) (key : string) : option string := value_get v key ≫= value_as_str.

Definition or_else {A} (a b : option A) : option A := match a with Some _ => a | None => b end.

Definition mac_vendor (model : string) : option GpuVendor :=
  let s := to_lowercase model in
  if contains "nvidia" s || contains "geforce" s || contains "quadro" s then Some Nvidia
  else if contains "amd" s || contains "radeon" s then Some Amd
  else if contains "apple" s then Some Apple
  else if contains "intel" s || contains "iris" s || contains "uhd" s then Some Intel
  else None.

Definition mac_gpu (entry : Value) : option NodeGpu :=
  let model := or_else (get_str entry "sppci_model") (get_str entry "_name") in
  vendor ← mac_vendor (default "" model);
  let vram := or_else (get_str entry "spdisplays_vram") (get_str entry "sppci_vram_shared")
              ≫= parse_vram_to_gb in
  Some {| gpu_vendor := vendor; gpu_vram_gb := default 0%Z vram; gpu_name := model |}.

Definition parse_macos_system_profiler (v : Value) : list NodeGpu :=
  match value_get v "SPDisplaysDataType" ≫= value_as_array with
  | Some arr => omap mac_gpu arr
  | None => []
  end.

Definition apple_silicon_marketing_name : string :=
  match sysctl_brand with
  | Some o =>
      if out_success o then
        let s := trim (from_utf8_lossy (out_stdout o)) in
        if bool_decide (s = "") then "Apple Silicon" else s
      else "Apple Silicon"
  | None => "Apple Silicon"
  end.

Definition detect_gpus_macos (arch : Arch) (total_memory_bytes : Z) : list NodeGpu :=
  match arch with
  | Arm64 =>
      let vram_gb := wrap_u32 ((total_memory_bytes / 2) / 1073741824) in
      [{| gpu_vendor := Apple; gpu_vram_gb := Z.max vram_gb 1;
          gpu_name := Some apple_silicon_marketing_name |}]
  | _ =>
      match system_profiler with
      | Some o =>
          if out_success o then
            match json_from_slice (out_stdout o) with
            | Some parsed => parse_macos_system_profiler parsed
            | None => []
            end
          else []
      | None => []
      end
  end.

(** [((vram_mib as f64 / 1024.0).round() as u32).max(1)]. *)
Definition vram_of_mib (mib : Z) : Z :=
  Z.max (f64_as_u32 (f64_round (f64_div (f64_of_Z mib) (f64_of_Z 1024)))) 1.

Definition nvidia_line (line : string) : option NodeGpu :=
  match trim <$> split_on "," line with
  | name :: vram :: _ =>
      vram_mib ← parse_u32 vram;
      Some {| gpu_vendor := Nvidia; gpu_vram_gb := vram_of_mib vram_mib; gpu_name := Some name |}
  | _ => None
  end.

Definition parse_nvidia_smi (stdout : string) : list NodeGpu := omap nvidia_line (lines stdout).

Definition lspci_vendor (lower : string) : option GpuVendor :=
  if contains "nvidia" lower then Some Nvidia
  else if contains "amd" lower || contains "advanced micro devices" lower || contains "radeon" lower
  then Some Amd
  else if contains "intel" lower then Some Intel
  else None.

Definition lspci_line (line : string) : option NodeGpu :=
  if negb (contains "VGA" line) && negb (contains "3D controller" line)
     && negb (contains "Display controller" line) then None
  else
    vendor ← lspci_vendor (to_lowercase line);
    Some {| gpu_vendor := vendor; gpu_vram_gb := 0;
            gpu_name := trim <$> split_on ":" line !! 2 |}.

Definition parse_lspci (stdout : string) : list NodeGpu := omap lspci_line (lines stdout).

Definition detect_gpus_linux : list NodeGpu :=
  let from_lspci :=
    match lspci with
    | Some o => if out_success o then parse_lspci (from_utf8_lossy (out_stdout o)) else []
    | None => []
    end in
  match nvidia_smi with
  | Some o =>
      if out_success o then
        match parse_nvidia_smi (from_utf8_lossy (out_stdout o)) with
        | [] => from_lspci
        | parsed => parsed
        end
      else from_lspci
  | None => from_lspci
  end.

Definition detect_gpus (arch : Arch) (os : OperatingSystem) (total_memory_bytes : Z)
    : list NodeGpu :=
  match os with
  | Macos => detect_gpus_macos arch total_memory_bytes
  | Linux => detect_gpus_linux
  end.

Definition has_vendor (v : GpuVendor) (gpus : list NodeGpu) : bool :=
  existsb (λ g, bool_decide (gpu_vendor g = v)) gpus.

Definition primary_acceleration (gpus : list NodeGpu) (os : OperatingSystem)
    : option Acceleration :=
  if has_vendor Apple gpus then Some Metal
  else if has_vendor Nvidia gpus then Some Cuda
  else if has_vendor Amd gpus then Some Rocm
  else match os with Macos => Some Coreml | Linux => None end.

Definition build_inventory {S} (node_id : NodeId) (sys : SysInfo) (registry : RuntimeRegistry S)
    : NodeInventory :=
  let arch := detect_arch in
  let os := detect_os in
  let gpus := detect_gpus arch os (sys_total_memory sys) in
  {| inv_node_id := node_id; inv_agent_version := cargo_pkg_version; inv_arch := arch;
     inv_os := os; inv_acceleration := primary_acceleration gpus os; inv_gpus := gpus;
     inv_cpu_cores := wrap_u32 (sys_cpus sys); inv_mem_total_bytes := sys_total_memory sys;
     inv_disk_gb := None; inv_runtimes := RuntimeRegistry_names registry; inv_roles := [];
     inv_labels := ∅; inv_address := None |}.

End inventory.

(** ** What is read is what was reported *)

(** The text [nvidia-smi --format=csv,noheader,nounits] prints for a list of
    cards, each a name and its memory in MiB. *)
Definition nvidia_text (cards : list (string * Z)) : string :=
  unlines ((λ card, card.1 +:+ ", " +:+ pretty card.2) <$> cards).

Definition card_ok (card : string * Z) : Prop :=
  is_line card.1 ∧ has_char "," card.1 = false ∧ trim card.1 = card.1 ∧ is_u32 card.2.

Lemma trim_blank_numeral (z : Z) : trim (" " +:+ pretty z) = pretty z.
Proof.
  pose proof (pretty_solid z) as Hs. pose proof (trim_solid _ Hs) as Ht.
  destruct (pretty z) as [|c s] eqn:E.
  { by vm_compute. }
  unfold trim in *. apply andb_true_iff in Hs as [Hc _].
  rewrite trim_start_solid in Ht by done. rewrite <- Ht at 2. f_equal.
  pose proof (proj1 (solid_split c Hc) s) as Hn.
  unfold trim_start. change (" " +:+ String c s) with (String " " (String c s)).
  assert (strip_one whitespace_chars (String " " (String c s)) = Some (String c s)) as H1
    by reflexivity.
  revert H1 Hn. generalize whitespace_chars as ws. intros ws H1 Hn.
  cbn [String.length strip_all]. rewrite H1. by rewrite Hn.
Qed.

Lemma nvidia_line_reads (card : string * Z) :
  card_ok card →
  nvidia_line (card.1 +:+ ", " +:+ pretty card.2) =
  Some {| gpu_vendor := Nvidia; gpu_vram_gb := vram_of_mib card.2; gpu_name := Some card.1 |}.
Proof.
  intros (_ & Hcomma & Htrim & Hu). unfold nvidia_line.
  change (", " +:+ pretty card.2) with (String "," (" " +:+ pretty card.2)).
  rewrite split_on_app by done.
  rewrite (split_on_single "," (" " +:+ pretty card.2)).
  - cbn [fmap list_fmap]. rewrite Htrim, trim_blank_numeral.
    unfold parse_u32. by rewrite parse_unsigned_pretty.
  - rewrite has_char_app, pretty_Z_chars; done.
Qed.

Lemma nvidia_lines cards :
  Forall card_ok cards → Forall is_line ((λ card, card.1 +:+ ", " +:+ pretty card.2) <$> cards).
Proof.
  intros H. apply Forall_fmap. eapply Forall_impl; [exact H|].
  intros card ([Hn Hc] & _). split; simpl; rewrite !has_char_app, ?Hn, ?Hc, pretty_Z_chars; done.
Qed.

(** Every card [nvidia-smi] lists is reported, in order, under its own name
    and with its memory, whatever the names contain besides commas and line
    breaks; and a card is never reported with less than 1 GB. *)
Theorem nvidia_smi_roundtrip cards :
  Forall card_ok cards →
  parse_nvidia_smi (nvidia_text cards) =
    ((λ card, {| gpu_vendor := Nvidia; gpu_vram_gb := vram_of_mib card.2;
                 gpu_name := Some card.1 |}) <$> cards) ∧
  Forall (λ g, (1 <= gpu_vram_gb g)%Z) (parse_nvidia_smi (nvidia_text cards)).
Proof.
  intros H. assert (parse_nvidia_smi (nvidia_text cards) =
    ((λ card, {| gpu_vendor := Nvidia; gpu_vram_gb := vram_of_mib card.2;
                 gpu_name := Some card.1 |}) <$> cards)) as E.
  { unfold parse_nvidia_smi, nvidia_text. rewrite lines_unlines by by apply nvidia_lines.
    induction H as [|card cards Hc Hcs IH]; [done|]. csimpl.
    rewrite nvidia_line_reads by done. by rewrite IH. }
  split; [done|]. rewrite E. apply Forall_fmap, Forall_forall. intros card _. simpl.
  unfold vram_of_mib. lia.
Qed.

Lemma nvidia_smi_roundtrip_witness :
  gpu_vram_gb <$> parse_nvidia_smi (nvidia_text [("NVIDIA GeForce RTX 4090", 24564%Z); ("T4", 200%Z)])
  = [24%Z; 1%Z].
Proof.
  destruct (nvidia_smi_roundtrip [("NVIDIA GeForce RTX 4090", 24564%Z); ("T4", 200%Z)]) as [-> _].
  - repeat constructor; by vm_compute.
  - vm_compute. reflexivity.
Defined.

(** The [lspci] fallback knows no memory sizes: on a node inventoried that way
    no requirement for video memory is ever met, whatever the cards are. *)
Theorem lspci_meets_no_vram_requirement `{UnicodeCase} out req m :
  req_min_vram_gb req = Some m → (0 < m)%Z → gpu_matches (parse_lspci out) req = false.
Proof.
  intros Hm Hpos. apply not_true_is_false. rewrite gpu_matches_spec. intros (g & Hg & _ & Hv).
  unfold parse_lspci in Hg. apply list_elem_of_omap in Hg as (line & _ & Hl).
  unfold lspci_line in Hl. destruct (_ && _); [done|].
  destruct (lspci_vendor _); [|done]. simpl in Hl. simplify_eq. specialize (Hv m Hm). simpl in Hv. lia.
Qed.

Lemma lspci_meets_no_vram_requirement_witness :
  gpu_matches (parse_lspci (UC := ascii_case) "01:00.0 VGA compatible controller: NVIDIA GA102")
    {| req_vendor := None; req_min_vram_gb := Some 8%Z |} = false.
Proof.
  apply (lspci_meets_no_vram_requirement (H := ascii_case) _ _ 8); [reflexivity|lia].
Defined.
