(* ===== verification/Agent.v ===== *)
(** * The node agent (crates/orion-agent/src/main.rs)

    The agent's instance registry, the handling of control messages, the exit and
    log forwarders, the health probes, and the heartbeat tick.  The adapters are
    used through the [RuntimeAdapter] interface, over any host state. *)

From Stdlib Require Import ZArith Lia Bool Ascii.
From stdpp Require Import base list gmap strings pretty.
From S2P Require Import Prelude Text Types Parse Effect Bus Runtime Docker Inventory.

(** ** Libraries and the surroundings of the agent *)

Class AgentLibs : Type := {
  (** The bytes of a control message, and serde_json on them; [Err] carries its
      error text. *)
  Payload : Type;
  decode_run : Payload → result (Envelope ControlRun) string;
  decode_stop : Payload → result (Envelope ControlStop) string;
  (** The probes: an HTTP GET (status code and its text), a TCP connect, and the
      exit of a command, each within its time limit. *)
  http_get : string → result (Z * string) string;
  tcp_connect : Z → result unit string;
  exec_status : string → list string → result (bool * string) string
}.

(** ** State *)

Record InstanceMeta : Type := {
  im_kind : WorkloadKind;
  im_name : ResourceName;
  im_replica_index : Z;
  im_started_at : Instant
}.

Notation AgentInstances := (gmap Uuid InstanceMeta).

Definition instances_record (id : Uuid) (m : InstanceMeta) (r : AgentInstances) : AgentInstances :=
  <[id := m]> r.
Definition instances_get (r : AgentInstances) (id : Uuid) : option InstanceMeta := r !! id.
Definition instances_forget (id : Uuid) (r : AgentInstances) : AgentInstances := delete id r.

(** What the agent publishes. *)
Inductive AgentMessage : Type :=
| AHeartbeat (m : Envelope Heartbeat)
| AInventory (m : Envelope NodeInventory)
| ALog (m : Envelope LogLine)
| AExit (m : Envelope TaskEvent)
| AHealth (m : Envelope ServiceHealth).

(** A spawned [probe_loop]: its arguments and its local counter. *)
Record ProbeLoop : Type := {
  pb_service : ResourceName;
  pb_instance_id : Uuid;
  pb_check : HealthCheck;
  pb_failures : Z;
  pb_returned : bool
}.

Record AgentState (S : Type) : Type := {
  ag_host : S;
  ag_instances : AgentInstances;
  ag_probes : list ProbeLoop;
  ag_tick_count : Z;
  ag_published : list (string * AgentMessage)
}.
Arguments ag_host {S}.
Arguments ag_instances {S}.
Arguments ag_probes {S}.
Arguments ag_tick_count {S}.
Arguments ag_published {S}.

Definition AgentState_new {S} (host : S) : AgentState S :=
  {| ag_host := host; ag_instances := ∅; ag_probes := []; ag_tick_count := 0;
     ag_published := [] |}.

Definition set_host {S} (x : S) (s : AgentState S) : AgentState S :=
  {| ag_host := x; ag_instances := ag_instances s; ag_probes := ag_probes s;
     ag_tick_count := ag_tick_count s; ag_published := ag_published s |}.
Definition set_metas {S} (x : AgentInstances) (s : AgentState S) : AgentState S :=
  {| ag_host := ag_host s; ag_instances := x; ag_probes := ag_probes s;
     ag_tick_count := ag_tick_count s; ag_published := ag_published s |}.
Definition set_probes {S} (x : list ProbeLoop) (s : AgentState S) : AgentState S :=
  {| ag_host := ag_host s; ag_instances := ag_instances s; ag_probes := x;
     ag_tick_count := ag_tick_count s; ag_published := ag_published s |}.
Definition set_ticks {S} (x : Z) (s : AgentState S) : AgentState S :=
  {| ag_host := ag_host s; ag_instances := ag_instances s; ag_probes := ag_probes s;
     ag_tick_count := x; ag_published := ag_published s |}.
Definition add_published {S} (subject : string) (m : AgentMessage) (s : AgentState S)
    : AgentState S :=
  {| ag_host := ag_host s; ag_instances := ag_instances s; ag_probes := ag_probes s;
     ag_tick_count := ag_tick_count s; ag_published := ag_published s ++ [(subject, m)] |}.

Definition on_host {S A} (m : M S A) : M (AgentState S) A := zoom ag_host set_host m.

(** ** Pure parts *)

Definition runtime_adapter_name (r : Runtime) : string :=
  match r with
  | RNative _ _ _ => "native"
  | RDocker _ _ _ _ => "docker"
  | RPython _ _ _ => "python"
  | RJava _ _ => "java"
  | RNode _ _ => "node"
  | RSpark _ _ => "spark"
  | RLlm _ _ => "llm"
  | RHomeAssistant _ => "homeassistant"
  | RWasm _ => "wasm"
  | RPeer _ _ => "peer"
  end.

Definition replica_env (idx count : Z) (envs : gmap string string) : gmap string string :=
  <["ORION_REPLICA_COUNT" := pretty count]> (<["ORION_REPLICA_INDEX" := pretty idx]> envs).

Definition inject_replica_env (rt : Runtime) (idx count : Z) : Runtime :=
  match rt with
  | RNative exec args env => RNative exec args (replica_env idx count env)
  | RDocker image args env ports => RDocker image args (replica_env idx count env) ports
  | _ => rt
  end.

(** The outcome reported for an exit notice. *)
Definition exit_outcome (n : ExitNotice) : TaskOutcome :=
  match en_exit_code n with
  | Some 0%Z => OSucceeded 0
  | Some c => OFailed c (en_message n)
  | None => OFailed (-1) (en_message n)
  end.

Definition log_stream (s : OutStream) : LogStream :=
  match s with OutStdout => Stdout | OutStderr => Stderr end.

Inductive AgentError : Type :=
| BadPayload (msg : string)
| NoAdapter (kind : string)
| AdapterFailed (e : RuntimeError).

(** The slots a [ControlRun] asks for: [partial_mode], [slots], [total_replicas]. *)
Definition partial_mode (spec : ControlRun) : bool :=
  negb (bool_decide (run_slot_indices spec = [])).
Definition run_slots (spec : ControlRun) : list Z :=
  if partial_mode spec then run_slot_indices spec
  else range_u32 0 (Z.max (run_replicas spec) 1).
Definition total_replicas (spec : ControlRun) : Z :=
  if partial_mode spec then Z.max (run_replicas spec) 1 else len_u32 (run_slots spec).

Definition probe_interval (hc : HealthCheck) : Z :=
  match hc with HcHttp _ _ i _ | HcTcp _ i _ | HcExec _ i _ => i end.
Definition probe_threshold (hc : HealthCheck) : Z :=
  match hc with HcHttp _ _ _ t | HcTcp _ _ t | HcExec _ _ t => t end.

(** The period of the probe ticker, in seconds. *)
Definition probe_period (hc : HealthCheck) : Z := Z.max (probe_interval hc) 1.

Section agent.
Context {UT : UuidText} {HO : HashOrder} {AL : AgentLibs} {S : Type}.
Context (registry : RuntimeRegistry S) (node_id : NodeId).

(** The two channels of the agent. *)
Definition log_tx : Sink := 0.
Definition exit_tx : Sink := 1.

(** [serde_json::to_vec(&env)] and [nats.publish]: a failure of either is logged
    and the message is lost. *)
Definition agent_publish (subject : string) (m : AgentMessage) : M (AgentState S) unit :=
  flt ← io;
  match flt with
  | Some _ => mret tt
  | None => modify (add_published subject m)
  end.

Definition agent_envelope {P} (payload : P) : M (AgentState S) (Envelope P) :=
  id ← new_v4;
  t ← now;
  mret (Envelope_new id t (Some node_id) payload).

(** ** The forwarders *)

Definition forward_exit (notice : ExitNotice) : M (AgentState S) unit :=
  s ← get;
  match instances_get (ag_instances s) (en_instance_id notice) with
  | None => mret tt
  | Some meta =>
      let payload := {| te_task_id := en_instance_id notice; te_node_id := node_id;
                        te_outcome := exit_outcome notice |} in
      _ ← modify (λ s, set_metas (instances_forget (en_instance_id notice) (ag_instances s)) s);
      env ← agent_envelope payload;
      agent_publish (as_str TTaskEvents) (AExit env)
  end.

Definition forward_log (id : Uuid) (stream : OutStream) (line : string)
    : M (AgentState S) unit :=
  s ← get;
  match instances_get (ag_instances s) id with
  | None => mret tt
  | Some meta =>
      env ← agent_envelope
        {| ll_node_id := node_id; ll_service := im_name meta; ll_instance_id := Some id;
           ll_replica_index := im_replica_index meta; ll_stream := log_stream stream;
           ll_line := line |};
      agent_publish (for_node TLogs node_id) (ALog env)
  end.

(** ** Control messages *)

(** One iteration of the loop over the slots. *)
Definition launch_slot (adapter : RuntimeAdapter S) (spec : ControlRun) (idx : Z)
    : M (AgentState S) (result unit AgentError) :=
  id ← (if negb (partial_mode spec) && (idx =? 0)%Z then mret (run_instance_id spec) else new_v4);
  t ← now;
  _ ← modify (λ s, set_metas (instances_record id
        {| im_kind := run_kind spec; im_name := run_name spec; im_replica_index := idx;
           im_started_at := t |} (ag_instances s)) s);
  r ← on_host (ra_launch adapter
        {| ls_instance_id := id; ls_name := run_name spec;
           ls_runtime := inject_replica_env (run_runtime spec) idx (total_replicas spec);
           ls_log_sink := Some log_tx; ls_exit_sink := Some exit_tx |});
  match r with
  | Err e => mret (Err (AdapterFailed e))
  | Ok _ =>
      match run_health_check spec with
      | Some hc =>
          _ ← modify (λ s, set_probes (ag_probes s ++
            [{| pb_service := run_name spec; pb_instance_id := id; pb_check := hc;
                pb_failures := 0; pb_returned := false |}]) s);
          mret (Ok tt)
      | None => mret (Ok tt)
      end
  end.

Fixpoint launch_slots (adapter : RuntimeAdapter S) (spec : ControlRun) (slots : list Z)
    : M (AgentState S) (result unit AgentError) :=
  match slots with
  | [] => mret (Ok tt)
  | idx :: slots' =>
      let! _ := launch_slot adapter spec idx in
      launch_slots adapter spec slots'
  end.

Definition handle_run (spec : ControlRun) : M (AgentState S) (result unit AgentError) :=
  let adapter_name := runtime_adapter_name (run_runtime spec) in
  match RuntimeRegistry_get registry adapter_name with
  | None => mret (Err (NoAdapter adapter_name))
  | Some adapter => launch_slots adapter spec (run_slots spec)
  end.

(** [a.stop(id)] on every adapter, its result dropped. *)
Definition stop_everywhere (id : Uuid) : M (AgentState S) unit :=
  for_each (RuntimeRegistry_names registry) (λ name,
    match RuntimeRegistry_get registry name with
    | Some a => _ ← on_host (ra_stop a id); mret tt
    | None => mret tt
    end).

Definition handle_stop (spec : ControlStop) : M (AgentState S) unit :=
  _ ← stop_everywhere (stop_instance_id spec);
  modify (λ s, set_metas (instances_forget (stop_instance_id spec) (ag_instances s)) s).

Definition dispatch_control (subject : string) (payload : Payload)
    : M (AgentState S) (result unit AgentError) :=
  if ends_with ".run" subject then
    match decode_run payload with
    | Err e => mret (Err (BadPayload e))
    | Ok env => handle_run (env_payload env)
    end
  else if ends_with ".stop" subject then
    match decode_stop payload with
    | Err e => mret (Err (BadPayload e))
    | Ok env => _ ← handle_stop (env_payload env); mret (Ok tt)
    end
  else mret (Ok tt).

(** ** Health probes *)

Definition run_probe (hc : HealthCheck) : result unit string :=
  match hc with
  | HcHttp path port _ _ =>
      let url := "http://127.0.0.1:" +:+ pretty port +:+ path in
      let? resp := http_get url in
      if (200 <=? fst resp)%Z && (fst resp <? 300)%Z then Ok tt
      else Err ("http " +:+ url +:+ " → " +:+ snd resp)
  | HcTcp port _ _ => tcp_connect port
  | HcExec command _ _ =>
      match command with
      | [] => Err "exec health check has empty command"
      | cmd :: args =>
          let? status := exec_status cmd args in
          if fst status then Ok tt else Err ("exec exit " +:+ snd status)
      end
  end.

(** The status and message of a probe, and the new failure count. *)
Definition probe_verdict (threshold failures : Z) (r : result unit string)
    : HealthStatus * option string * Z :=
  match r with
  | Ok _ => (Healthy, None, 0%Z)
  | Err e =>
      let failures' := saturating_add_u32 failures 1 in
      if (threshold <=? failures')%Z then (Unhealthy, Some e, failures')
      else (UnknownHealth, Some e, failures')
  end.

(** One tick of probe loop [n], with the result of the probe it runs. *)
Definition probe_tick (n : nat) (r : result unit string) : M (AgentState S) unit :=
  s ← get;
  match ag_probes s !! n with
  | Some p =>
      if pb_returned p then mret tt
      else match instances_get (ag_instances s) (pb_instance_id p) with
      | None => modify (λ s, set_probes (<[n :=
          {| pb_service := pb_service p; pb_instance_id := pb_instance_id p;
             pb_check := pb_check p; pb_failures := pb_failures p; pb_returned := true |}]>
          (ag_probes s)) s)
      | Some _ =>
          let '(status, message, failures) :=
            probe_verdict (probe_threshold (pb_check p)) (pb_failures p) r in
          _ ← modify (λ s, set_probes (<[n :=
            {| pb_service := pb_service p; pb_instance_id := pb_instance_id p;
               pb_check := pb_check p; pb_failures := failures; pb_returned := false |}]>
            (ag_probes s)) s);
          env ← agent_envelope
            {| Bus.sh_node_id := node_id; Bus.sh_service := pb_service p;
               Bus.sh_instance_id := uuid_to_string (pb_instance_id p);
               Bus.sh_status := status; Bus.sh_message := message;
               Bus.sh_consecutive_failures := failures |};
          agent_publish (as_str TServiceHealth) (AHealth env)
      end
  | None => mret tt
  end.

(** ** The heartbeat tick *)

Context {J : SerdeJson} {HF : HostFacts} {UC : UnicodeCase}.

Definition publish_inventory (sys : SysInfo) : M (AgentState S) unit :=
  env ← agent_envelope (build_inventory node_id sys registry);
  agent_publish (as_str TNodeInventory) (AInventory env).

(** [inventory_every_n_heartbeats > 0 && tick_count.is_multiple_of(..)]. *)
Definition inventory_due (every_n tick_count : Z) : bool :=
  (0 <? every_n)%Z && (tick_count mod every_n =? 0)%Z.

Definition agent_tick (every_n : Z) (sys : SysInfo) : M (AgentState S) unit :=
  s ← get;
  let tick_count := wrap_u32 (ag_tick_count s + 1) in
  _ ← put (set_ticks tick_count s);
  _ ← (if inventory_due every_n tick_count then publish_inventory sys else mret tt);
  env ← agent_envelope
    {| hb_node_id := node_id; hb_agent_version := cargo_pkg_version;
       hb_uptime_seconds := sys_uptime_seconds sys; hb_cpu_load_1m := sys_load_one sys;
       hb_mem_used_bytes := sys_used_memory sys; hb_mem_total_bytes := sys_total_memory sys;
       hb_labels := ∅ |};
  agent_publish (as_str THeartbeat) (AHeartbeat env).

(** ** Runs

    What can happen to a started agent, in any order: a control message arrives, an
    adapter's notice or log line is received, a probe loop ticks, the heartbeat
    ticker fires, and the host moves on by itself. *)

Inductive AgentEvent : Type :=
| EvControl (subject : string) (payload : Payload)
| EvExit (notice : ExitNotice)
| EvLog (id : Uuid) (stream : OutStream) (line : string)
| EvProbe (n : nat) (r : result unit string)
| EvTick (every_n : Z) (sys : SysInfo)
| EvHost (step : M S unit).

Definition agent_event (e : AgentEvent) : M (AgentState S) unit :=
  match e with
  | EvControl subject payload => dispatch_control subject payload ≫= λ _, mret tt
  | EvExit notice => forward_exit notice
  | EvLog id stream line => forward_log id stream line
  | EvProbe n r => probe_tick n r
  | EvTick every_n sys => agent_tick every_n sys
  | EvHost step => on_host step
  end.

Definition agent_run (es : list AgentEvent) : M (AgentState S) unit := for_each es agent_event.

End agent.

(** ** The adapters of a started agent *)

Record Host `{DockerCli} : Type := { host_native : Native; host_docker : Docker }.

Definition lift_adapter {S T} (proj : S → T) (inj : T → S → S) (a : RuntimeAdapter T)
    : RuntimeAdapter S :=
  {| ra_name := ra_name a; ra_available := zoom proj inj (ra_available a);
     ra_launch := λ spec, zoom proj inj (ra_launch a spec);
     ra_stop := λ id, zoom proj inj (ra_stop a id) |}.

Section host.
Context {OS : HostOs} {UT : UuidText} {DC : DockerCli} {HO : HashOrder}.

Definition host_native_adapter : RuntimeAdapter Host :=
  lift_adapter host_native (λ n h, {| host_native := n; host_docker := host_docker h |})
    native_adapter.
Definition host_docker_adapter : RuntimeAdapter Host :=
  lift_adapter host_docker (λ d h, {| host_native := host_native h; host_docker := d |})
    docker_adapter.

(** The registry [main] builds: native always, docker when its daemon answers. *)
Definition agent_registry : M Host (RuntimeRegistry Host) :=
  let reg := register host_native_adapter RuntimeRegistry_new in
  available ← ra_available host_docker_adapter;
  mret (if (available : bool) then register host_docker_adapter reg else reg).

End host.
