(* ===== verification/AgentFacts.v ===== *)
(** * Theorems about the node agent

    What a control message does on every path, how exits and probes are reported,
    what the agent stays silent about, how often it sends its inventory, and that
    its adapters match the runtimes they are given. *)

From Stdlib Require Import ZArith Lia Bool Ascii.
From stdpp Require Import base list gmap strings pretty.
From S2P Require Import Prelude Text Types Parse Effect Bus Runtime Docker Inventory Agent.

(** ** Instances the agent has not launched

    A message is about an instance when it names it. *)

Definition about `{UuidText} (id : Uuid) (m : AgentMessage) : Prop :=
  match m with
  | AExit env => te_task_id (env_payload env) = id
  | ALog env => ll_instance_id (env_payload env) = Some id
  | AHealth env => Bus.sh_instance_id (env_payload env) = uuid_to_string id
  | AHeartbeat _ | AInventory _ => False
  end.

(** A control message that makes the agent use the id it carries: a full
    [ControlRun] (one without a list of slots) for that instance. *)
Definition asks_for `{AgentLibs} (id : Uuid) (subject : string) (payload : Payload) : Prop :=
  ∃ env, decode_run payload = Ok env ∧ partial_mode (env_payload env) = false ∧
         run_instance_id (env_payload env) = id.

(** The agent has no record of [id] and has said nothing about it since [base] was
    published. *)
Record unknown `{UuidText} {S} (id : Uuid) (base : list (string * AgentMessage))
    (s : AgentState S) : Prop := {
  un_meta : ag_instances s !! id = None;
  un_published : ∃ new, ag_published s = base ++ new ∧ Forall (λ m, ¬ about id m.2) new
}.

Section unknown.
Context {UT : UuidText} {HO : HashOrder} {AL : AgentLibs} {S : Type}.
Context {J : SerdeJson} {HF : HostFacts} {UC : UnicodeCase}.
Context (registry : RuntimeRegistry S) (node_id : NodeId).
Context (o : Oracle) (id : Uuid) (base : list (string * AgentMessage)).
Hypothesis Huuid : ∀ n, or_uuid o n ≠ id.
Hypothesis Htext : Inj (=) (=) uuid_to_string.

Notation keeps_unknown := (keeps o (unknown (S := S) id base)).

Lemma unknown_host {A} (m : M S A) : keeps_unknown (on_host m).
Proof.
  intros s u []. unfold on_host, zoom. destruct (m o (ag_host s, u)) as [a [h u']]. by split.
Qed.

Lemma unknown_publish subject m : ¬ about id m → keeps_unknown (agent_publish subject m).
Proof.
  intros Hm. apply keeps_bind; [by intros s u|]. intros [e|]; [apply keeps_ret|].
  apply keeps_modify. intros s [Hs (new & Hnew & Hall)]. split; [done|]. simpl.
  exists (new ++ [(subject, m)]). rewrite Hnew, app_assoc. split; [done|].
  apply Forall_app. by repeat constructor.
Qed.

(** Publishing an envelope around a payload. *)
Lemma unknown_envelope {P} (payload : P) subject (wrap : Envelope P → AgentMessage) :
  (∀ env, env_payload env = payload → ¬ about id (wrap env)) →
  keeps_unknown (agent_envelope node_id payload ≫= λ env, agent_publish subject (wrap env)).
Proof.
  intros H s u Hs. unfold agent_envelope, mbind, M_bind, new_v4, now. by apply unknown_publish; [apply H|].
Qed.

Lemma unknown_forget i : keeps_unknown (modify (λ s, set_metas (instances_forget i (ag_instances s)) s)).
Proof.
  apply keeps_modify. intros s []. split; [|done..]. simpl. unfold instances_forget.
  apply lookup_delete_None. by right.
Qed.

Lemma unknown_exit notice : keeps_unknown (forward_exit node_id notice).
Proof.
  apply keeps_get. intros s Hs. unfold instances_get.
  destruct (ag_instances s !! _) as [meta|] eqn:E; [|apply keeps_ret].
  apply keeps_bind; [apply unknown_forget|]. intros _. apply unknown_envelope.
  intros env Henv. simpl. rewrite Henv. simpl. intros Hi. by rewrite Hi, (un_meta id base s Hs) in E.
Qed.

Lemma unknown_log i stream line : keeps_unknown (forward_log node_id i stream line).
Proof.
  apply keeps_get. intros s Hs. unfold instances_get.
  destruct (ag_instances s !! _) as [meta|] eqn:E; [|apply keeps_ret].
  apply unknown_envelope. intros env Henv. simpl. rewrite Henv. simpl. intros [= ->]. by rewrite (un_meta id base s Hs) in E.
Qed.

(** The slots of a run, given that none of them takes the id [id]. *)
Lemma unknown_slot adapter spec idx :
  (partial_mode spec = false → run_instance_id spec ≠ id) →
  keeps_unknown (launch_slot adapter spec idx).
Proof.
  intros Hid. unfold launch_slot.
  assert (∀ i, i ≠ id → keeps_unknown
    (t ← now;
     _ ← modify (λ s, set_metas (instances_record i
        {| im_kind := run_kind spec; im_name := run_name spec; im_replica_index := idx;
           im_started_at := t |} (ag_instances s)) s);
     r ← on_host (ra_launch adapter
        {| ls_instance_id := i; ls_name := run_name spec;
           ls_runtime := inject_replica_env (run_runtime spec) idx (total_replicas spec);
           ls_log_sink := Some log_tx; ls_exit_sink := Some exit_tx |});
     match r with
     | Err e => mret (Err (AdapterFailed e))
     | Ok _ =>
         match run_health_check spec with
         | Some hc =>
             _ ← modify (λ s, set_probes (ag_probes s ++
               [{| pb_service := run_name spec; pb_instance_id := i; pb_check := hc;
                   pb_failures := 0; pb_returned := false |}]) s);
             mret (Ok tt)
         | None => mret (Ok tt)
         end
     end)) as Hrest.
  { intros i Hi. apply keeps_bind; [by intros s u|]. intros t. apply keeps_bind.
    { apply keeps_modify. intros s []. split; [|done..]. simpl. by apply lookup_insert_None. }
    intros _. apply keeps_bind; [apply unknown_host|]. intros [li|e]; [|apply keeps_ret].
    destruct (run_health_check spec) as [hc|]; [|apply keeps_ret].
    apply keeps_bind; [|intros; apply keeps_ret]. apply keeps_modify. intros s []. by split. }
  destruct (partial_mode spec) eqn:Hp; simpl.
  - apply keeps_new_v4. intros n. by apply Hrest.
  - destruct (idx =? 0)%Z; simpl; [|apply keeps_new_v4; intros n; by apply Hrest].
    intros s u. apply Hrest. auto.
Qed.

Lemma unknown_slots adapter spec slots :
  (partial_mode spec = false → run_instance_id spec ≠ id) →
  keeps_unknown (launch_slots adapter spec slots).
Proof.
  intros Hid. induction slots as [|idx slots IH]; [apply keeps_ret|].
  apply keeps_bind; [by apply unknown_slot|]. intros [?|e]; [done|apply keeps_ret].
Qed.

Lemma unknown_control subject payload :
  ¬ asks_for id subject payload → keeps_unknown (dispatch_control registry subject payload).
Proof.
  intros Hno. unfold dispatch_control. destruct (ends_with ".run" subject).
  { destruct (decode_run payload) as [env|e] eqn:Hd; [|apply keeps_ret].
    unfold handle_run. destruct (RuntimeRegistry_get _ _); [|apply keeps_ret].
    apply unknown_slots. intros Hp Hid. apply Hno. by exists env. }
  destruct (ends_with ".stop" subject); [|apply keeps_ret].
  destruct (decode_stop payload) as [env|e]; [|apply keeps_ret].
  apply keeps_bind; [|intros; apply keeps_ret]. unfold handle_stop.
  apply keeps_bind; [|intros; apply unknown_forget]. apply keeps_for_each. intros name _.
  destruct (RuntimeRegistry_get _ _); [|apply keeps_ret].
  apply keeps_bind; [apply unknown_host|intros; apply keeps_ret].
Qed.

Lemma unknown_probe n r : keeps_unknown (probe_tick node_id n r).
Proof.
  apply keeps_get. intros s Hs.
  assert (∀ q, keeps_unknown (modify (λ s, set_probes (<[n := q]> (ag_probes s)) s))) as Hset.
  { intros q. apply keeps_modify. intros s' []. by split. }
  destruct (ag_probes s !! n) as [p|] eqn:Hp; [|apply keeps_ret].
  destruct (pb_returned p); [apply keeps_ret|]. unfold instances_get.
  destruct (ag_instances s !! _) as [m|] eqn:Hm; [|apply Hset].
  destruct (probe_verdict _ _ r) as [[status message] failures].
  apply keeps_bind; [apply Hset|]. intros _. apply unknown_envelope.
  intros env Henv. simpl. rewrite Henv. simpl. intros E%Htext.
  by rewrite E, (un_meta id base s Hs) in Hm.
Qed.

Lemma unknown_tick every_n sys : keeps_unknown (agent_tick registry node_id every_n sys).
Proof.
  apply keeps_get. intros s Hs. apply keeps_bind; [apply keeps_put; destruct Hs; by split|].
  intros _. apply keeps_bind.
  - destruct (inventory_due _ _); [|apply keeps_ret]. apply unknown_envelope. by intros env _ [].
  - intros _. apply unknown_envelope. by intros env _ [].
Qed.

Lemma unknown_run es :
  (∀ subject payload, EvControl subject payload ∈ es → ¬ asks_for id subject payload) →
  keeps_unknown (agent_run registry node_id es).
Proof.
  intros Hes. apply keeps_for_each. intros e He. destruct e; simpl.
  - apply keeps_bind; [apply unknown_control; by eapply Hes|intros; apply keeps_ret].
  - apply unknown_exit.
  - apply unknown_log.
  - apply unknown_probe.
  - apply unknown_tick.
  - apply unknown_host.
Qed.

End unknown.

(** ** What a run message does

    [fits_slot spec idx id ls]: the launch of slot [idx] of [spec] as instance
    [id]: the workload's own runtime with the slot's index and the replica count
    in its environment. *)

Definition env_for (idx count : Z) (env env' : gmap string string) : Prop :=
  env' !! "ORION_REPLICA_INDEX" = Some (pretty idx) ∧
  env' !! "ORION_REPLICA_COUNT" = Some (pretty count) ∧
  ∀ k, k ≠ "ORION_REPLICA_INDEX" → k ≠ "ORION_REPLICA_COUNT" → env' !! k = env !! k.

Definition fits_slot (spec : ControlRun) (idx : Z) (id : Uuid) (ls : LaunchSpec) : Prop :=
  ls_instance_id ls = id ∧ ls_name ls = run_name spec ∧
  ls_log_sink ls = Some log_tx ∧ ls_exit_sink ls = Some exit_tx ∧
  let count := Z.max (run_replicas spec) 1 in
  match run_runtime spec, ls_runtime ls with
  | RNative exec args env, RNative exec' args' env' =>
      exec' = exec ∧ args' = args ∧ env_for idx count env env'
  | RDocker image args env ports, RDocker image' args' env' ports' =>
      image' = image ∧ args' = args ∧ ports' = ports ∧ env_for idx count env env'
  | rt, rt' => rt' = rt
  end.

(** The slots a message asks for, and the id of each. *)
Definition asked_slots (spec : ControlRun) : list Z :=
  match run_slot_indices spec with
  | [] => Z.of_nat <$> seq 0 (Z.to_nat (Z.max (run_replicas spec) 1))
  | slots => slots
  end.

Definition id_for (o : Oracle) (spec : ControlRun) (idx : Z) (id : Uuid) : Prop :=
  if decide (run_slot_indices spec = [] ∧ idx = 0%Z) then id = run_instance_id spec
  else ∃ n, id = or_uuid o n.

(** A chain of successful launches on the host. *)
Inductive launches {S} (a : RuntimeAdapter S) (o : Oracle) : list LaunchSpec → S → S → Prop :=
| launches_nil h : launches a o [] h h
| launches_cons ls lss h h' h'' u u' li :
    ra_launch a ls o (h, u) = (Ok li, (h', u')) →
    launches a o lss h' h'' → launches a o (ls :: lss) h h''.

(** The metadata recorded for an attempted slot. *)
Definition noted (spec : ControlRun) (idx : Z) (m : InstanceMeta) : Prop :=
  im_kind m = run_kind spec ∧ im_name m = run_name spec ∧ im_replica_index m = idx.

(** A slot that was attempted: its index, id and launch. *)
Record Attempt : Type := { at_idx : Z; at_id : Uuid; at_spec : LaunchSpec }.

Definition attempt_ok (o : Oracle) (spec : ControlRun) (x : Attempt) : Prop :=
  id_for o spec (at_idx x) (at_id x) ∧ fits_slot spec (at_idx x) (at_id x) (at_spec x).

(** The agent's own records after the attempts. *)
Definition metas_after {S} (spec : ControlRun) (xs : list Attempt) (s s' : AgentState S) : Prop :=
  (∀ id, id ∉ (at_id <$> xs) → ag_instances s' !! id = ag_instances s !! id) ∧
  (∀ x, x ∈ xs → ∃ y m, y ∈ xs ∧ at_id y = at_id x ∧
     ag_instances s' !! at_id x = Some m ∧ noted spec (at_idx y) m).

Lemma run_slots_asked spec : run_slots spec = asked_slots spec.
Proof.
  unfold run_slots, partial_mode, asked_slots. destruct (run_slot_indices spec); simpl; [|done].
  unfold range_u32. by rewrite Z.sub_0_r.
Qed.

Lemma total_replicas_asked spec :
  is_u32 (run_replicas spec) → total_replicas spec = Z.max (run_replicas spec) 1.
Proof.
  intros Hu. unfold total_replicas. destruct (partial_mode spec) eqn:E; [done|].
  unfold run_slots. rewrite E. unfold is_u32, u32_max in Hu.
  rewrite len_u32_small; rewrite length_range_u32; unfold u32_max; lia.
Qed.

Lemma inject_env_for idx count env : env_for idx count env (replica_env idx count env).
Proof.
  unfold replica_env. split_and!.
  - by rewrite lookup_insert_ne, lookup_insert_eq.
  - by rewrite lookup_insert_eq.
  - intros k H1 H2. by rewrite !lookup_insert_ne.
Qed.

Lemma launch_slot_fits spec idx id :
  is_u32 (run_replicas spec) →
  fits_slot spec idx id {| ls_instance_id := id; ls_name := run_name spec;
    ls_runtime := inject_replica_env (run_runtime spec) idx (total_replicas spec);
    ls_log_sink := Some log_tx; ls_exit_sink := Some exit_tx |}.
Proof.
  intros Hu. unfold fits_slot. rewrite total_replicas_asked by done. simpl.
  split_and!; [done..|]. destruct (run_runtime spec); simpl; auto using inject_env_for.
Qed.

Section outcome.
Context {UT : UuidText} {S : Type} (a : RuntimeAdapter S) (spec : ControlRun) (o : Oracle).
Hypothesis Hu32 : is_u32 (run_replicas spec).

(** One slot: its attempt, and either a launch or the adapter's error. *)
Lemma launch_slot_run idx (s : AgentState S) u :
  ∃ x h' u1 u2 r s' m,
    at_idx x = idx ∧ attempt_ok o spec x ∧
    launch_slot a spec idx o (s, u) = (match r with Ok _ => Ok tt | Err e => Err (AdapterFailed e) end,
                                       (s', u2)) ∧
    ra_launch a (at_spec x) o (ag_host s, u1) = (r, (h', u2)) ∧
    ag_host s' = h' ∧ ag_published s' = ag_published s ∧ noted spec idx m ∧
    ag_instances s' = <[at_id x := m]> (ag_instances s).
Proof.
  assert (∃ id v, id_for o spec idx id ∧
    (if negb (partial_mode spec) && (idx =? 0)%Z then mret (run_instance_id spec) else new_v4)
      o (s, u) = (id, (s, v))) as (id & v & Hid & Hrun).
  { unfold id_for, partial_mode. case_decide as Hd.
    - destruct Hd as [-> ->]. by exists (run_instance_id spec), u.
    - assert (negb (negb (bool_decide (run_slot_indices spec = []))) && (idx =? 0)%Z = false) as ->.
      { rewrite negb_involutive. apply andb_false_iff.
        destruct (decide (run_slot_indices spec = [])) as [E|E].
        - right. apply Z.eqb_neq. tauto.
        - left. by apply bool_decide_eq_false. }
      eexists _, _. split; [|reflexivity]. eauto. }
  unfold launch_slot, mbind, M_bind. rewrite Hrun. cbn -[ra_launch]. unfold zoom. cbn [ag_host].
  match goal with |- context [ra_launch a ?ls o (?h, ?w)] =>
    destruct (ra_launch a ls o (h, w)) as [r [h' u2]] eqn:E; exists {| at_idx := idx; at_id := id; at_spec := ls |}, h', w, u2, r
  end.
  destruct r as [li|e]; [destruct (run_health_check spec)|]; eexists _, _;
    (split_and!; [done|split; [done|by apply launch_slot_fits]|reflexivity|done|done|done|..|reflexivity]);
    by split_and!.
Qed.

Lemma metas_after_cons x xs (s s1 s' : AgentState S) m :
  ag_instances s1 = <[at_id x := m]> (ag_instances s) → noted spec (at_idx x) m →
  metas_after spec xs s1 s' → metas_after spec (x :: xs) s s'.
Proof.
  intros H1 Hm [Hother Hin]. split.
  - intros id Hid. rewrite fmap_cons, not_elem_of_cons in Hid. destruct Hid as [Hne Hid].
    rewrite Hother by done. by rewrite H1, lookup_insert_ne.
  - assert (∀ z, z ∈ xs → ∃ y m, y ∈ x :: xs ∧ at_id y = at_id z ∧
      ag_instances s' !! at_id z = Some m ∧ noted spec (at_idx y) m) as Htail.
    { intros z Hz. destruct (Hin z Hz) as (y & m' & Hy & ? & ? & ?). exists y, m'.
      split_and!; [by right|done..]. }
    intros z [->|Hz]%elem_of_cons; [|by apply Htail].
    destruct (decide (at_id x ∈ at_id <$> xs)) as [Hx|Hx].
    + apply list_elem_of_fmap in Hx as (z & Hz & Hzin). rewrite Hz. by apply Htail.
    + exists x, m. split_and!; [by left|done| |done]. rewrite Hother by done.
      by rewrite H1, lookup_insert_eq.
Qed.

Lemma launch_slots_run slots (s : AgentState S) u :
  ∃ done, Forall (attempt_ok o spec) done ∧
  let '(r, (s', _)) := launch_slots a spec slots o (s, u) in
  ag_published s' = ag_published s ∧
  match r with
  | Ok _ => at_idx <$> done = slots ∧ launches a o (at_spec <$> done) (ag_host s) (ag_host s') ∧
            metas_after spec done s s'
  | Err (AdapterFailed e) => ∃ x h rest u1 u2,
      attempt_ok o spec x ∧ slots = (at_idx <$> done) ++ at_idx x :: rest ∧
      launches a o (at_spec <$> done) (ag_host s) h ∧
      ra_launch a (at_spec x) o (h, u1) = (Err e, (ag_host s', u2)) ∧
      metas_after spec (done ++ [x]) s s'
  | Err _ => False
  end.
Proof.
  revert s u. induction slots as [|idx slots IH]; intros s u.
  { exists []. split; [done|]. simpl. split_and!; [done..|constructor|].
    split; [done|]. by intros x ?%elem_of_nil. }
  destruct (launch_slot_run idx s u)
    as (x & h' & u1 & u2 & r & s1 & m & Hidx & Hok & Hrun & Hl & Hh & Hpub & Hm & Hmeta).
  cbn [launch_slots]. unfold mbind, M_bind. rewrite Hrun. destruct r as [li|e].
  - destruct (IH s1 u2) as (done & Hdone & H). exists (x :: done). split; [by constructor|].
    subst h' idx. destruct (launch_slots a spec slots o (s1, u2)) as [r [s' u']].
    destruct H as [Hp H]. split; [congruence|]. destruct r as [[]|[]]; try done.
    + destruct H as (Hs & Hls & Hms). split_and!; [by rewrite fmap_cons, Hs|by econstructor|].
      by eapply metas_after_cons.
    + destruct H as (y & h & rest & v1 & v2 & Hy & Hs & Hls & Hfail & Hms).
      exists y, h, rest, v1, v2. split_and!; [done|by rewrite Hs|by econstructor|done|].
      by eapply metas_after_cons.
  - exists []. split; [done|]. split; [done|]. exists x, (ag_host s), slots, u1, u2.
    subst. split_and!; [done|done|constructor|done|].
    eapply metas_after_cons; [done|done|]. split; [done|]. by intros y ?%elem_of_nil.
Qed.

End outcome.

(** ** Claims *)

Section claims.
Context {UT : UuidText} {HO : HashOrder} {AL : AgentLibs} {S : Type}.
Context {J : SerdeJson} {HF : HostFacts} {UC : UnicodeCase}.
Context (registry : RuntimeRegistry S) (node_id : NodeId).

(** C14: a run message whose runtime has an adapter: the host changes exactly by
    the launches of the slots the message asks for, in order, each under the right
    id (the message's own for slot 0 of a full run, a fresh one otherwise) and with
    the workload's runtime plus the slot's environment; every attempted slot is
    recorded.  The first launch that fails ends the run with its error: the slots
    before it keep running, the ones after it are not attempted, and the failed
    one stays recorded.  Nothing is published either way. *)
Theorem run_message_launches_slots subject payload env a o s u :
  ends_with ".run" subject = true → decode_run payload = Ok env →
  let spec := env_payload env in
  is_u32 (run_replicas spec) →
  registry !! runtime_adapter_name (run_runtime spec) = Some a →
  ∃ done, Forall (attempt_ok o spec) done ∧
  let '(r, (s', _)) := dispatch_control registry subject payload o (s, u) in
  ag_published s' = ag_published s ∧
  match r with
  | Ok _ => at_idx <$> done = asked_slots spec ∧
            launches a o (at_spec <$> done) (ag_host s) (ag_host s') ∧ metas_after spec done s s'
  | Err (AdapterFailed e) => ∃ x h rest u1 u2,
      attempt_ok o spec x ∧ asked_slots spec = (at_idx <$> done) ++ at_idx x :: rest ∧
      launches a o (at_spec <$> done) (ag_host s) h ∧
      ra_launch a (at_spec x) o (h, u1) = (Err e, (ag_host s', u2)) ∧
      metas_after spec (done ++ [x]) s s'
  | Err _ => False
  end.
Proof.
  intros Hsub Hdec spec Hu Ha. unfold dispatch_control. rewrite Hsub, Hdec. fold spec.
  unfold handle_run, RuntimeRegistry_get. rewrite Ha, <- run_slots_asked.
  by apply launch_slots_run.
Qed.

Lemma launch_slots_published a spec slots o (s : AgentState S) u :
  ag_published (launch_slots a spec slots o (s, u)).2.1 = ag_published s.
Proof.
  revert s u. induction slots as [|idx slots IH]; intros s u; [done|].
  assert (ag_published (launch_slot a spec idx o (s, u)).2.1 = ag_published s) as H1.
  { unfold launch_slot, mbind, M_bind. destruct (negb _ && _); simpl; unfold zoom;
      (destruct (ra_launch a _ _ _) as [[|] [??]]; [destruct (run_health_check spec)|]; done). }
  cbn [launch_slots]. unfold mbind, M_bind.
  destruct (launch_slot a spec idx o (s, u)) as [[[]|e] [s1 u1]]; simpl in *; [|done].
  by rewrite IH.
Qed.

Lemma launch_slots_run_errors a spec slots o (s : AgentState S) u :
  let r := (launch_slots a spec slots o (s, u)).1 in
  r = Ok tt ∨ ∃ e, r = Err (AdapterFailed e).
Proof.
  revert s u. induction slots as [|idx slots IH]; intros s u; [by left|].
  assert (let r := (launch_slot a spec idx o (s, u)).1 in
    r = Ok tt ∨ ∃ e, r = Err (AdapterFailed e)) as H1.
  { unfold launch_slot, mbind, M_bind. destruct (negb _ && _); simpl; unfold zoom;
      (destruct (ra_launch a _ _ _) as [[|] [??]]; [destruct (run_health_check spec)|]; simpl; eauto). }
  cbn [launch_slots]. unfold mbind, M_bind.
  destruct (launch_slot a spec idx o (s, u)) as [[[]|e] [s1 u1]]; simpl in *; [apply IH|].
  destruct H1 as [?|[e' ?]]; naive_solver.
Qed.

Lemma stop_everywhere_fields id o (s : AgentState S) u :
  let s' := (stop_everywhere registry id o (s, u)).2.1 in
  ag_published s' = ag_published s ∧ ag_instances s' = ag_instances s.
Proof.
  apply (always_for_each (λ s', ag_published s' = ag_published s ∧ ag_instances s' = ag_instances s));
    [|done].
  intros name _. destruct (RuntimeRegistry_get registry name) as [a|]; [|apply always_ret].
  apply always_bind; [|intros; apply always_ret]. intros o' s' u' H. unfold on_host, zoom.
  by destruct (ra_stop a id o' (ag_host s', u')) as [? [??]].
Qed.

(** The cases of a control message that its subject or payload rules out. *)
Ltac other_cases Hother :=
  cbv zeta; split_and!; try done;
  try (by intros ? [? ?]); try (by intros ? ? [=]); try (by intros ? [=]);
  try (by intros []; auto); try (by intros ? [? ?]%Hother);
  try (by intros _ []).

(** C17: the errors of a control message.  A run or stop payload that does not decode, and
    a runtime kind without an adapter on this node, are refused with that error before
    anything changes; every other error of a run comes from an adapter.  A stop that
    decodes always succeeds and forgets its instance, whatever the adapters did.  Restart
    and drain messages, and any other subject, are accepted and change nothing.  And no
    failure is ever reported: the agent publishes nothing in answer to a control message. *)
Theorem control_message_errors subject payload o (s : AgentState S) u :
  let '(r, (s', _)) := dispatch_control registry subject payload o (s, u) in
  let is_run := ends_with ".run" subject = true in
  let is_stop := ends_with ".run" subject = false ∧ ends_with ".stop" subject = true in
  ag_published s' = ag_published s ∧
  (∀ e, is_run → decode_run payload = Err e → r = Err (BadPayload e) ∧ s' = s) ∧
  (∀ env k, is_run → decode_run payload = Ok env →
     runtime_adapter_name (run_runtime (env_payload env)) = k → registry !! k = None →
     r = Err (NoAdapter k) ∧ s' = s) ∧
  (∀ env k, is_run → decode_run payload = Ok env →
     runtime_adapter_name (run_runtime (env_payload env)) = k → is_Some (registry !! k) →
     r = Ok tt ∨ ∃ e, r = Err (AdapterFailed e)) ∧
  (∀ e, is_stop → decode_stop payload = Err e → r = Err (BadPayload e) ∧ s' = s) ∧
  (∀ env, is_stop → decode_stop payload = Ok env →
     r = Ok tt ∧ ag_instances s' = delete (stop_instance_id (env_payload env)) (ag_instances s)) ∧
  (¬ is_run → ¬ is_stop → r = Ok tt ∧ s' = s) ∧
  (∀ n, subject = for_node TControlRestart n ∨ subject = for_node TControlDrain n →
     r = Ok tt ∧ s' = s).
Proof.
  destruct (dispatch_control registry subject payload o (s, u)) as [r [s' u']] eqn:E.
  unfold dispatch_control in E.
  assert (∀ n, subject = for_node TControlRestart n ∨ subject = for_node TControlDrain n →
    ends_with ".run" subject = false ∧ ends_with ".stop" subject = false) as Hother.
  { intros n Hn. split; apply not_true_is_false; intros (x & Hx)%ends_with_true;
      destruct Hn as [->| ->]; cbn [for_node] in Hx; rewrite <- !string_app_assoc in Hx;
      apply suffix_conflict in Hx; vm_compute (string_rev ".run") in Hx;
      vm_compute (string_rev ".stop") in Hx; vm_compute (string_rev ".restart") in Hx;
      vm_compute (string_rev ".drain") in Hx; cancel_prefix Hx; discriminate Hx. }
  destruct (ends_with ".run" subject) eqn:Hrun.
  - destruct (decode_run payload) as [env|e] eqn:Hd.
    + unfold handle_run, RuntimeRegistry_get in E.
      destruct (registry !! runtime_adapter_name (run_runtime (env_payload env))) as [a|] eqn:Ha.
      * pose proof (launch_slots_published a (env_payload env) (run_slots (env_payload env)) o s u)
          as Hp. pose proof (launch_slots_run_errors a (env_payload env)
          (run_slots (env_payload env)) o s u) as He. rewrite E in Hp, He. simpl in Hp, He.
        other_cases Hother. intros ? k _ [= <-] <-. congruence.
      * unfold mret, M_ret in E. simplify_eq.
        other_cases Hother; [by intros ? k _ [= <-] <- _|intros ? k _ [= <-] <-; rewrite Ha; by intros []].
    + unfold mret, M_ret in E. simplify_eq. other_cases Hother. by intros e' _ [= ->].
  - destruct (ends_with ".stop" subject) eqn:Hstop.
    + destruct (decode_stop payload) as [env|e] eqn:Hd; unfold mret, M_ret in E.
      * unfold handle_stop, mbind, M_bind in E.
        pose proof (stop_everywhere_fields (stop_instance_id (env_payload env)) o s u) as [Hp Hi].
        destruct (stop_everywhere _ _ _ _) as [? [s1 u1]]. simpl in E, Hp, Hi. simplify_eq. simpl.
        other_cases Hother. intros env' _ [= <-]. by rewrite Hi.
      * simplify_eq. other_cases Hother. by intros e' _ [= ->].
    + unfold mret, M_ret in E. simplify_eq. other_cases Hother.
Qed.

(** Exits are reported at most once.  The first notice about an instance the
    agent knows is published as its outcome (success exactly for code 0, [-1] for a
    process without a code) and forgets the instance, so that every later notice
    about it is dropped; when that one publish fails, the exit is lost for good. *)
Theorem exit_reported_at_most_once notice o (s : AgentState S) u :
  let id := en_instance_id notice in
  let s' := (forward_exit node_id notice o (s, u)).2.1 in
  match ag_instances s !! id with
  | None => s' = s
  | Some _ =>
      ag_instances s' = delete id (ag_instances s) ∧
      match or_fault o (us_io u) with
      | Some _ => ag_published s' = ag_published s
      | None => ∃ env, ag_published s' = ag_published s ++ [("orion.task.events", AExit env)] ∧
          te_task_id (env_payload env) = id ∧ te_node_id (env_payload env) = node_id ∧
          match te_outcome (env_payload env) with
          | OSucceeded c => c = 0%Z ∧ en_exit_code notice = Some 0%Z
          | OFailed c msg => msg = en_message notice ∧ en_exit_code notice ≠ Some 0%Z ∧
              c = default (-1)%Z (en_exit_code notice)
          | _ => False
          end
      end
  end ∧
  ∀ notice' o' u', en_instance_id notice' = id →
    (forward_exit node_id notice' o' (s', u')).2.1 = s'.
Proof.
  intros id s'.
  assert (∀ n o' u' (t : AgentState S), ag_instances t !! en_instance_id n = None →
    (forward_exit node_id n o' (t, u')).2.1 = t) as Hdrop.
  { intros n o' u' t Ht. unfold forward_exit, mbind, M_bind, get, instances_get. by rewrite Ht. }
  destruct (ag_instances s !! id) as [meta|] eqn:Hm.
  - assert (ag_instances s' = delete id (ag_instances s)) as Hdel.
    { unfold s', forward_exit, agent_envelope, agent_publish, mbind, M_bind, get, instances_get.
      fold id. rewrite Hm. simpl. by destruct (or_fault o (us_io u)). }
    split; [split; [done|]|].
    + unfold s', forward_exit, agent_envelope, agent_publish, mbind, M_bind, get, instances_get.
      fold id. rewrite Hm. simpl. destruct (or_fault o (us_io u)); [done|]. simpl.
      eexists. split_and!; [done..|]. simpl. unfold exit_outcome.
      destruct (en_exit_code notice) as [[]|]; simpl; done.
    + intros n o' u' Hn. apply Hdrop. rewrite Hn, Hdel. apply lookup_delete_eq.
  - assert (s' = s) as Hs by by apply Hdrop. split; [done|]. intros n o' u' Hn.
    apply Hdrop. by rewrite Hs, Hn.
Qed.

(** The agent says nothing about an instance it does not know: on every run
    from a state without a record of [id] in which no full run message names [id]
    (and fresh ids are fresh), no exit, log line or health report about [id] is
    published.  So after a stop message for an instance its exit, and whatever it
    still prints, is never reported; and the id carried by a run message with a
    slot list is never reported on at all. *)
Theorem agent_silent_about_unknown es o id (s : AgentState S) u :
  Inj (=) (=) uuid_to_string → (∀ n, or_uuid o n ≠ id) →
  ag_instances s !! id = None →
  (∀ subject payload, EvControl subject payload ∈ es → ¬ asks_for id subject payload) →
  let s' := (agent_run registry node_id es o (s, u)).2.1 in
  ag_instances s' !! id = None ∧
  ∃ new, ag_published s' = ag_published s ++ new ∧ Forall (λ m, ¬ about id m.2) new.
Proof.
  intros Htext Huuid Hs Hes s'.
  assert (unknown id (ag_published s) s) as Hun.
  { split; [done|]. exists []. by rewrite app_nil_r. }
  pose proof (unknown_run registry node_id o id (ag_published s) Huuid Htext es Hes s u Hun) as [? ?].
  by split.
Qed.

End claims.

(** ** Health probes against their meaning

    [failing_run rs k]: the history [rs] ends in exactly [k] failed probes. *)

Definition failed {A E} (r : result A E) : Prop := match r with Ok _ => False | Err _ => True end.

Definition failing_run (rs : list (result unit string)) (k : nat) : Prop :=
  ∃ pre suf, rs = pre ++ suf ∧ length suf = k ∧ Forall failed suf ∧
    (pre = [] ∨ ∃ pre', pre = pre' ++ [Ok tt]).

(** The report due after the history [rs], whose last probe is [r]. *)
Definition report_due (threshold : Z) (rs : list (result unit string)) (r : result unit string)
    (h : ServiceHealth) : Prop :=
  ∃ k, failing_run rs k ∧
    Bus.sh_consecutive_failures h = Z.min (Z.of_nat k) u32_max ∧
    match r with
    | Ok _ => Bus.sh_status h = Healthy ∧ Bus.sh_message h = None
    | Err e => Bus.sh_message h = Some e ∧
        Bus.sh_status h = (if decide (threshold <= Z.min (Z.of_nat k) u32_max)%Z
                           then Unhealthy else UnknownHealth)
    end.

Lemma failing_run_ok rs : failing_run (rs ++ [Ok tt]) 0.
Proof. exists (rs ++ [Ok tt]), []. rewrite app_nil_r. split_and!; eauto. Qed.

Lemma failing_run_err rs k e : failing_run rs k → failing_run (rs ++ [Err e]) (S k).
Proof.
  intros (pre & suf & -> & <- & Hf & Hpre). exists pre, (suf ++ [Err e]).
  rewrite <- app_assoc, length_app, Nat.add_1_r. split_and!; [done..| |done].
  apply Forall_app. by repeat constructor.
Qed.

(** The verdict follows the history. *)
Lemma probe_verdict_due threshold rs k r :
  failing_run rs k →
  let '(status, message, failures) := probe_verdict threshold (Z.min (Z.of_nat k) u32_max) r in
  (∃ k', failing_run (rs ++ [r]) k' ∧ failures = Z.min (Z.of_nat k') u32_max) ∧
  ∀ node svc id, report_due threshold (rs ++ [r]) r
    {| Bus.sh_node_id := node; Bus.sh_service := svc; Bus.sh_instance_id := id;
       Bus.sh_status := status; Bus.sh_message := message;
       Bus.sh_consecutive_failures := failures |}.
Proof.
  intros Hk. destruct r as [[]|e]; simpl.
  - split; [exists 0|intros; exists 0]; (split; [apply failing_run_ok|done]).
  - assert (saturating_add_u32 (Z.min (Z.of_nat k) u32_max) 1 = Z.min (Z.of_nat (S k)) u32_max) as ->.
    { unfold saturating_add_u32, u32_max. lia. }
    pose proof (failing_run_err rs k e Hk) as Hk'.
    destruct (Z.leb_spec threshold (Z.min (Z.of_nat (S k)) u32_max)).
    all: split; [eauto|intros; exists (S k); split_and!; [done..|]].
    + by rewrite decide_True.
    + by rewrite decide_False by lia.
Qed.

Section probes.
Context {UT : UuidText} {HO : HashOrder} {S : Type} (node_id : NodeId) (n : nat) (o : Oracle).
Hypothesis Ho : fault_free o.

Lemma probe_tick_run r (s : AgentState S) u p m :
  ag_probes s !! n = Some p → pb_returned p = false →
  ag_instances s !! pb_instance_id p = Some m →
  ∃ s' u' env, probe_tick node_id n r o (s, u) = (tt, (s', u')) ∧
    let '(status, message, failures) :=
      probe_verdict (probe_threshold (pb_check p)) (pb_failures p) r in
    ag_probes s' !! n = Some {| pb_service := pb_service p; pb_instance_id := pb_instance_id p;
      pb_check := pb_check p; pb_failures := failures; pb_returned := false |} ∧
    ag_instances s' = ag_instances s ∧
    ag_published s' = ag_published s ++ [("orion.service.health", AHealth env)] ∧
    env_payload env = {| Bus.sh_node_id := node_id; Bus.sh_service := pb_service p;
      Bus.sh_instance_id := uuid_to_string (pb_instance_id p); Bus.sh_status := status;
      Bus.sh_message := message; Bus.sh_consecutive_failures := failures |}.
Proof.
  intros Hp Hr Hm. unfold probe_tick, agent_envelope, agent_publish, mbind, M_bind, get, instances_get.
  rewrite Hp, Hr, Hm. destruct (probe_verdict _ _ r) as [[status message] failures]. simpl.
  rewrite Ho. simpl. eexists _, _, _. split; [reflexivity|]. simpl.
  split_and!; [|done..]. apply list_lookup_insert_eq. by eapply lookup_lt_Some.
Qed.

Lemma probe_ticks_run rs hist k (s : AgentState S) u p m :
  ag_probes s !! n = Some p → pb_returned p = false →
  ag_instances s !! pb_instance_id p = Some m →
  failing_run hist k → pb_failures p = Z.min (Z.of_nat k) u32_max →
  ∃ envs,
    ag_published (for_each rs (probe_tick node_id n) o (s, u)).2.1 =
      ag_published s ++ ((λ env, ("orion.service.health", AHealth env)) <$> envs) ∧
    length envs = length rs ∧
    ∀ i r env, rs !! i = Some r → envs !! i = Some env →
      report_due (probe_threshold (pb_check p)) (hist ++ take (Datatypes.S i) rs) r (env_payload env).
Proof.
  revert hist k s u p. induction rs as [|r rs IH]; intros hist k s u p Hp Hr Hm Hk Hf.
  { exists []. by rewrite app_nil_r. }
  destruct (probe_tick_run r s u p m Hp Hr Hm) as (s' & u' & env & Hrun & Hv).
  rewrite Hf in Hv. pose proof (probe_verdict_due (probe_threshold (pb_check p)) hist k r Hk) as Hd.
  destruct (probe_verdict _ _ r) as [[status message] failures].
  destruct Hd as [(k' & Hk' & Hf') Hdue]. destruct Hv as (Hp' & Hm' & Hpub & Henv).
  destruct (IH (hist ++ [r]) k' s' u' _ Hp') as (envs & He & Hlen & Hall);
    [done|by rewrite Hm'|done|done|].
  exists (env :: envs). cbn [for_each]. unfold mbind at 1, M_bind at 1. rewrite Hrun, He, Hpub, <- app_assoc.
  split_and!; [done|simpl; congruence|].
  intros [|i] r' env' Hi Henv'; simpl in Hi, Henv'; simplify_eq.
  - rewrite Henv. simpl. apply Hdue.
  - specialize (Hall i r' env' Hi Henv'). by rewrite <- app_assoc in Hall.
Qed.

(** C15: a probe loop reports its history: for a known instance and without
    failing publishes, each probe is followed by exactly one report, whose failure
    count is the number of failed probes in a row up to then (saturated at
    [u32::MAX]), [Healthy] after a success and, after a failure, [Unhealthy]
    exactly when that count has reached the threshold. *)
Theorem probe_loop_reports_history rs (s : AgentState S) u p m :
  ag_probes s !! n = Some p → pb_returned p = false → pb_failures p = 0%Z →
  ag_instances s !! pb_instance_id p = Some m →
  ∃ envs,
    ag_published (for_each rs (probe_tick node_id n) o (s, u)).2.1 =
      ag_published s ++ ((λ env, ("orion.service.health", AHealth env)) <$> envs) ∧
    length envs = length rs ∧
    ∀ i r env, rs !! i = Some r → envs !! i = Some env →
      report_due (probe_threshold (pb_check p)) (take (Datatypes.S i) rs) r (env_payload env).
Proof.
  intros Hp Hr Hf Hm. apply (probe_ticks_run rs [] 0 s u p m); [done..| |].
  - exists [], []. split_and!; [done..|by left].
  - rewrite Hf. unfold u32_max. lia.
Qed.

End probes.

(** ** The heartbeat ticker *)

Section ticks.
Context {UT : UuidText} {HO : HashOrder} {AL : AgentLibs} {S : Type}.
Context {J : SerdeJson} {HF : HostFacts} {UC : UnicodeCase}.
Context (registry : RuntimeRegistry S) (node_id : NodeId) (o : Oracle).
Hypothesis Ho : fault_free o.

Definition is_heartbeat (m : string * AgentMessage) : bool :=
  match m.2 with AHeartbeat _ => true | _ => false end.
Definition is_inventory (m : string * AgentMessage) : bool :=
  match m.2 with AInventory _ => true | _ => false end.

(** One tick publishes one heartbeat, after an inventory when one is due. *)
Lemma agent_tick_run every_n sys (s : AgentState S) u :
  let count := wrap_u32 (ag_tick_count s + 1) in
  ∃ s' u' new, agent_tick registry node_id every_n sys o (s, u) = (tt, (s', u')) ∧
    ag_tick_count s' = count ∧ ag_published s' = ag_published s ++ new ∧
    length (List.filter is_heartbeat new) = 1 ∧
    length (List.filter is_inventory new) = if inventory_due every_n count then 1 else 0.
Proof.
  intros count. unfold agent_tick, publish_inventory, agent_envelope, agent_publish, mbind, M_bind,
    get, put. fold count. destruct (inventory_due every_n count); simpl; rewrite Ho; simpl.
  - rewrite Ho. simpl. eexists _, _, [_; _]. split_and!; [reflexivity|done|simpl; by rewrite <- app_assoc|done..].
  - eexists _, _, [_]. by split_and!.
Qed.

(** Among [n] ticks in a row one count is a multiple of [n], also when the count
    wraps around on the way. *)
Lemma count_hits n c :
  (0 < n <= u32_max)%Z → is_u32 c →
  ∃ k, (1 <= k <= n)%Z ∧ inventory_due n (wrap_u32 (c + k)) = true.
Proof.
  unfold is_u32, u32_max, inventory_due, wrap_u32. intros Hn Hc.
  assert ((0 <? n)%Z = true) as -> by (apply Z.ltb_lt; lia).
  pose proof (Z.mod_pos_bound c n). pose proof (Z.div_mod c n).
  destruct (Z.le_gt_cases (n * (c / n) + n) 4294967295) as [Hle|Hgt].
  - exists (n - c mod n)%Z. split; [lia|]. apply Z.eqb_eq. rewrite (Z.mod_small _ 4294967296) by lia.
    replace (c + (n - c mod n))%Z with ((c / n + 1) * n)%Z by lia. by apply Z.mod_mul; lia.
  - exists (4294967296 - c)%Z. split; [lia|]. apply Z.eqb_eq.
    by replace (c + (4294967296 - c))%Z with 4294967296%Z by lia.
Qed.

Lemma ticks_run every_n (syss : list SysInfo) (s : AgentState S) u :
  is_u32 (ag_tick_count s) →
  ∃ new, ag_published (agent_run registry node_id (EvTick every_n <$> syss) o (s, u)).2.1 =
           ag_published s ++ new ∧
    length (List.filter is_heartbeat new) = length syss ∧
    ∀ k, (1 <= k <= Z.of_nat (length syss))%Z →
      inventory_due every_n (wrap_u32 (ag_tick_count s + k)) = true →
      0 < length (List.filter is_inventory new).
Proof.
  revert s u. induction syss as [|sys syss IH]; intros s u Hc.
  { exists []. rewrite app_nil_r. split_and!; [done..|]. simpl. lia. }
  destruct (agent_tick_run every_n sys s u) as (s1 & u1 & new1 & Hrun & Hc1 & Hp & Hhb & Hinv).
  destruct (IH s1 u1) as (new & He & Hh & Hi).
  { rewrite Hc1. apply wrap_u32_range. }
  exists (new1 ++ new). unfold agent_run in *. cbn [fmap list_fmap for_each agent_event].
  unfold mbind at 1, M_bind at 1. rewrite Hrun, He, Hp, <- app_assoc.
  rewrite !List.filter_app, !length_app. split_and!; [done|simpl; lia|].
  intros k Hk Hdue. destruct (decide (k = 1%Z)) as [->|Hne].
  - rewrite Hinv, Hdue. lia.
  - assert (0 < length (List.filter is_inventory new)); [|lia].
    apply (Hi (k - 1)%Z); [simpl in Hk; lia|]. rewrite Hc1.
    replace (wrap_u32 (wrap_u32 (ag_tick_count s + 1) + (k - 1)))
      with (wrap_u32 (ag_tick_count s + k)); [done|].
    unfold wrap_u32. rewrite Zplus_mod_idemp_l. f_equal. lia.
Qed.

(** C35: every tick sends exactly one heartbeat, and the inventory is sent at least
    once in every [n] consecutive ticks, from any tick count of the [u32] counter,
    also across its wrap-around; so a restarted controller has the inventory after
    [n] heartbeats. *)
Theorem inventory_within_n_ticks every_n syss (s : AgentState S) u :
  (0 < every_n <= u32_max)%Z → is_u32 (ag_tick_count s) →
  (every_n <= Z.of_nat (length syss))%Z →
  ∃ new, ag_published (agent_run registry node_id (EvTick every_n <$> syss) o (s, u)).2.1 =
           ag_published s ++ new ∧
    length (List.filter is_heartbeat new) = length syss ∧
    0 < length (List.filter is_inventory new).
Proof.
  intros Hn Hc Hlen. destruct (ticks_run every_n syss s u Hc) as (new & Hp & Hh & Hi).
  destruct (count_hits every_n (ag_tick_count s) Hn Hc) as (k & Hk & Hdue).
  exists new. split_and!; [done..|]. apply (Hi k); [lia|done].
Qed.

End ticks.

(** ** The adapters of a started agent *)

Section host.
Context {OS : HostOs} {UT : UuidText} {DC : DockerCli} {HO : HashOrder}.

Lemma lift_laws {S T} (proj : S → T) (inj : T → S → S) a tracked takes :
  (∀ t s, proj (inj t s) = t) → (∀ s, inj (proj s) s = s) →
  AdapterLaws a tracked takes →
  AdapterLaws (lift_adapter proj inj a) (λ s, tracked (proj s)) takes.
Proof.
  intros Hpi Hip L. split; simpl.
  - intros spec o s u. unfold zoom. pose proof (launch_law spec o (proj s) u) as H.
    destruct (ra_launch a spec o (proj s, u)) as [[li|e] [t u']]; rewrite Hpi; [done|].
    destruct H as [H1 H2]. split; [done|]. intros Ht. by rewrite H2.
  - intros spec o s u x y. unfold zoom. pose proof (mismatch_law spec o (proj s) u x y) as H.
    by destruct (ra_launch a spec o (proj s, u)) as [r [t u']].
  - intros id o s u. unfold zoom. pose proof (stop_law id o (proj s) u) as H.
    destruct (ra_stop a id o (proj s, u)) as [r [t u']]. simpl in *. by rewrite Hpi.
  - intros id o s u Hid. unfold zoom. by rewrite stop_unknown, Hip.
Qed.

#[export] Instance host_native_laws :
  AdapterLaws host_native_adapter (λ h, dom (nv_children (host_native h)))
    (λ r, match r with RNative _ _ _ => true | _ => false end).
Proof. apply (lift_laws host_native _ native_adapter (λ s, dom (nv_children s))); [done|by intros []|apply _]. Qed.

#[export] Instance host_docker_laws :
  AdapterLaws host_docker_adapter (λ h, dom (dc_containers (host_docker h)))
    (λ r, match r with RDocker _ _ _ _ => true | _ => false end).
Proof. apply (lift_laws host_docker _ docker_adapter (λ s, dom (dc_containers s))); [done|by intros []|apply _]. Qed.

Definition native_only : RuntimeRegistry Host := register host_native_adapter RuntimeRegistry_new.
Definition native_and_docker : RuntimeRegistry Host := register host_docker_adapter native_only.

Lemma hash_keys_perm {S} (reg : RuntimeRegistry S) : hash_keys reg ≡ₚ (map_to_list reg).*1.
Proof. unfold hash_keys. by rewrite hash_iter_perm. Qed.

Lemma elem_of_names {S} (reg : RuntimeRegistry S) k :
  k ∈ RuntimeRegistry_names reg ↔ is_Some (reg !! k).
Proof.
  unfold RuntimeRegistry_names. rewrite elem_of_sort_by, hash_keys_perm, list_elem_of_fmap. split.
  - intros ([k' a] & -> & Ha%elem_of_map_to_list). eauto.
  - intros [a Ha]. exists (k, a). by rewrite elem_of_map_to_list.
Qed.

Lemma names_native : RuntimeRegistry_names native_only = ["native"].
Proof.
  unfold RuntimeRegistry_names. pose proof (hash_keys_perm native_only) as H.
  assert ((map_to_list native_only).*1 ≡ₚ ["native"]) as Hp.
  { unfold native_only, register, RuntimeRegistry_new.
    rewrite map_to_list_insert, map_to_list_empty by apply lookup_empty. done. }
  rewrite Hp in H. symmetry in H. apply Permutation_length_1_inv in H as ->. done.
Qed.

Lemma names_both : RuntimeRegistry_names native_and_docker = ["docker"; "native"].
Proof.
  unfold RuntimeRegistry_names. pose proof (hash_keys_perm native_and_docker) as H.
  assert ((map_to_list native_and_docker).*1 ≡ₚ ["docker"; "native"]) as Hp.
  { unfold native_and_docker, native_only, register, RuntimeRegistry_new.
    rewrite !map_to_list_insert, map_to_list_empty by done. done. }
  rewrite Hp in H. symmetry in H. apply Permutation_length_2_inv in H as [->| ->]; done.
Qed.

Lemma registry_native_get k a :
  native_only !! k = Some a → k = "native" ∧ a = host_native_adapter.
Proof. unfold native_only, register. intros [[<- <-]|[_ ?]]%lookup_insert_Some; done. Qed.

Lemma registry_both_get k a :
  native_and_docker !! k = Some a →
  (k = "docker" ∧ a = host_docker_adapter) ∨ (k = "native" ∧ a = host_native_adapter).
Proof.
  unfold native_and_docker, register at 1.
  intros [[<- <-]|[_ ?%registry_native_get]]%lookup_insert_Some; [by left|by right].
Qed.

Lemma native_never_mismatches rt spec idx count o h u x y :
  runtime_adapter_name rt = "native" → ls_runtime spec = inject_replica_env rt idx count →
  (ra_launch host_native_adapter spec o (h, u)).1 ≠ Err (Mismatch x y).
Proof.
  intros Hrt Hs Hm. apply (mismatch_law (AdapterLaws := host_native_laws)) in Hm.
  rewrite Hs in Hm. by destruct rt.
Qed.

Lemma docker_never_mismatches rt spec idx count o h u x y :
  runtime_adapter_name rt = "docker" → ls_runtime spec = inject_replica_env rt idx count →
  (ra_launch host_docker_adapter spec o (h, u)).1 ≠ Err (Mismatch x y).
Proof.
  intros Hrt Hs Hm. apply (mismatch_law (AdapterLaws := host_docker_laws)) in Hm.
  rewrite Hs in Hm. by destruct rt.
Qed.

(** C33: the agent hands every workload to an adapter of its kind.  The registry
    built at start-up offers native, and docker exactly when its daemon answers;
    whatever runtime a message carries, the adapter looked up for it never answers
    [Mismatch], with or without the replica environment; and runtimes of all other
    kinds have no adapter. *)
Theorem adapters_match_their_kind o h u :
  let '(reg, (_, _)) := agent_registry o (h, u) in
  RuntimeRegistry_names reg =
    (match (docker ["version"] (dc_world (host_docker h))).1 with
     | Ok out => if out_success out then ["docker"; "native"] else ["native"]
     | Err _ => ["native"]
     end) ∧
  ∀ rt,
    (is_Some (RuntimeRegistry_get reg (runtime_adapter_name rt)) ↔
       runtime_adapter_name rt ∈ RuntimeRegistry_names reg) ∧
    (Runtime_kind rt ≠ KNative → Runtime_kind rt ≠ KDocker →
       RuntimeRegistry_get reg (runtime_adapter_name rt) = None) ∧
    ∀ a spec idx count o' h' u' x y,
      RuntimeRegistry_get reg (runtime_adapter_name rt) = Some a →
      ls_runtime spec = inject_replica_env rt idx count →
      (ra_launch a spec o' (h', u')).1 ≠ Err (Mismatch x y).
Proof.
  destruct (agent_registry o (h, u)) as [reg [h1 u1]] eqn:E.
  assert (reg = match (docker ["version"] (dc_world (host_docker h))).1 with
    | Ok out => if out_success out then native_and_docker else native_only
    | Err _ => native_only
    end) as Hreg.
  { unfold agent_registry, host_docker_adapter, docker_adapter, lift_adapter, ra_available,
      docker_available, run_docker, zoom, mbind, M_bind, mret, M_ret in E.
    destruct (docker ["version"] _) as [[out|e] w]; simpl in *; [destruct (out_success out)|];
      by injection E as <- _ _. }
  split; [subst reg; repeat case_match; auto using names_native, names_both|].
  assert (reg = native_only ∨ reg = native_and_docker) as Hcases by (subst reg; repeat case_match; auto).
  intros rt. unfold RuntimeRegistry_get. split_and!.
  - by rewrite elem_of_names.
  - intros H1 H2. apply eq_None_not_Some. intros [a Ha].
    destruct Hcases as [->| ->]; [apply registry_native_get in Ha as [? _]
      |apply registry_both_get in Ha as [[? _]|[? _]]]; by destruct rt.
  - intros a spec idx count o' h' u' x y Ha Hs. destruct Hcases as [->| ->].
    + apply registry_native_get in Ha as [? ->]. by eapply native_never_mismatches.
    + apply registry_both_get in Ha as [[? ->]|[? ->]];
        [by eapply docker_never_mismatches|by eapply native_never_mismatches].
Qed.

End host.

(** ** Concrete runs

    An agent over the native adapter only, with two run messages it can decode: a
    full one and one for slot 2 alone. *)

Definition demo_uuid : UuidText := {| uuid_to_string := pretty |}.

Definition demo_control (slots : list Z) : ControlRun :=
  {| run_instance_id := 7%N; run_kind := WService; run_name := "web";
     run_runtime := RNative "/bin/web" [] ∅; run_generation := 1; run_replicas := 2;
     run_health_check := Some (HcTcp 80 10 2); run_slot_indices := slots |}.

Definition demo_message {P} (payload : P) : Envelope P := Envelope_new 1%N 0%Z None payload.

Definition demo_agent_libs : AgentLibs :=
  {| Payload := string;
     decode_run := λ s, if bool_decide (s = "full") then Ok (demo_message (demo_control []))
                        else if bool_decide (s = "slot 2") then Ok (demo_message (demo_control [2%Z]))
                        else Err "expected value";
     decode_stop := λ s, if bool_decide (s = "stop 7")
                         then Ok (demo_message {| stop_instance_id := 7%N; stop_reason := None;
                                                  stop_grace_seconds := None |})
                         else Err "expected value";
     http_get := λ _, Err "refused";
     tcp_connect := λ _, Err "refused";
     exec_status := λ _ _, Ok (true, "exit status: 0") |}.

Definition demo_facts : HostFacts (J := toy_json) :=
  {| target_aarch64 := false; target_macos := false; cargo_pkg_version := "0.1.0";
     env_hostname := Some "pi-1"; hostname_cmd := None; nvidia_smi := None; lspci := None;
     system_profiler := None; sysctl_brand := None; json_from_slice := λ _, None |}.

Definition demo_registry : RuntimeRegistry Native :=
  register (native_adapter (OS := demo_os)) RuntimeRegistry_new.

Definition demo_agent : AgentState Native := AgentState_new NativeAdapter_new.

Definition demo_sys : SysInfo :=
  {| sys_cpus := 4; sys_total_memory := 8000000000; sys_used_memory := 100;
     sys_load_one := SpecFloat.S754_zero false; sys_uptime_seconds := 5 |}.

Lemma run_message_launches_slots_witness :
  ∃ done, at_idx <$> done = [0%Z; 1%Z] ∧
    Forall (attempt_ok quiet_oracle (demo_control [])) done.
Proof.
  destruct (run_message_launches_slots (HO := canonical_order) (AL := demo_agent_libs)
    demo_registry "orion.control.pi-1.run" "full" (demo_message (demo_control []))
    (native_adapter (OS := demo_os)) quiet_oracle demo_agent Used_init)
    as (done & Hok & H); [vm_compute; reflexivity|reflexivity|by split|reflexivity|].
  exists done. split; [|exact Hok]. by destruct H as (_ & H & _).
Defined.

Lemma agent_silent_about_unknown_witness :
  let s' := (agent_run (UT := demo_uuid) (HO := canonical_order) (AL := demo_agent_libs)
    (HF := demo_facts) (UC := ascii_case) demo_registry "pi-1"
    [EvControl (AL := demo_agent_libs) "orion.control.pi-1.run" "slot 2";
     EvExit {| en_instance_id := 7%N; en_exit_code := Some 0%Z; en_message := "exited code=0" |}]
    quiet_oracle (demo_agent, Used_init)).2.1 in
  ag_instances s' !! 7%N = None.
Proof.
  apply (agent_silent_about_unknown (UT := demo_uuid) (HO := canonical_order)
    (AL := demo_agent_libs) (HF := demo_facts) (UC := ascii_case) demo_registry "pi-1"
    [EvControl (AL := demo_agent_libs) "orion.control.pi-1.run" "slot 2";
     EvExit {| en_instance_id := 7%N; en_exit_code := Some 0%Z; en_message := "exited code=0" |}]
    quiet_oracle 7%N demo_agent Used_init).
  - apply _.
  - intros n. simpl. lia.
  - reflexivity.
  - intros subject payload H. repeat apply elem_of_cons in H as [H|H]; [|done|by apply elem_of_nil in H].
    injection H as -> ->. intros (env & Hd & Hp & _). vm_compute in Hd. injection Hd as <-. done.
Defined.

Lemma exit_reported_at_most_once_witness :
  (forward_exit (S := Native) "pi-1"
     {| en_instance_id := 9%N; en_exit_code := None; en_message := "killed" |}
     quiet_oracle (demo_agent, Used_init)).2.1 = demo_agent.
Proof.
  apply (exit_reported_at_most_once "pi-1"
    {| en_instance_id := 9%N; en_exit_code := Some 0%Z; en_message := "" |}
    quiet_oracle demo_agent Used_init). reflexivity.
Defined.

Lemma control_message_errors_witness :
  let known := {[7%N := {| im_kind := WService; im_name := "web"; im_replica_index := 0%Z;
                           im_started_at := 0%Z |}]} in
  let agent := set_metas known demo_agent in
  let message subject payload := dispatch_control (AL := demo_agent_libs) (HO := canonical_order)
    demo_registry subject payload quiet_oracle (agent, Used_init) in
  (message "orion.control.pi-1.run" "{}").1 = Err (BadPayload "expected value") ∧
  (message "orion.control.pi-1.stop" "{}").1 = Err (BadPayload "expected value") ∧
  (message "orion.control.pi-1.stop" "{}").2.1 = agent ∧
  ag_instances (message "orion.control.pi-1.stop" "stop 7").2.1 = ∅ ∧
  (message "orion.control.pi-1.restart" "{}").2.1 = agent.
Proof.
  cbv zeta. set (agent := set_metas _ demo_agent).
  assert (∀ subject payload, let '(r, (s', _)) := dispatch_control (AL := demo_agent_libs)
    (HO := canonical_order) demo_registry subject payload quiet_oracle (agent, Used_init) in _) as H
    by (intros subject payload; apply (control_message_errors (AL := demo_agent_libs)
          (HO := canonical_order) demo_registry subject payload quiet_oracle agent Used_init)).
  split; [|split; [|split; [|split]]].
  - specialize (H "orion.control.pi-1.run" "{}"). destruct (dispatch_control _ _ _ _ _) as [r [s' u']].
    destruct H as (_ & H & _). by apply (H "expected value").
  - specialize (H "orion.control.pi-1.stop" "{}"). destruct (dispatch_control _ _ _ _ _) as [r [s' u']].
    destruct H as (_ & _ & _ & _ & H & _). by apply (H "expected value").
  - specialize (H "orion.control.pi-1.stop" "{}"). destruct (dispatch_control _ _ _ _ _) as [r [s' u']].
    destruct H as (_ & _ & _ & _ & H & _). by apply (H "expected value").
  - specialize (H "orion.control.pi-1.stop" "stop 7").
    destruct (dispatch_control _ _ _ _ _) as [r [s' u']]. destruct H as (_ & _ & _ & _ & _ & H & _).
    specialize (H (demo_message {| stop_instance_id := 7%N; stop_reason := None;
                                   stop_grace_seconds := None |})).
    simpl. rewrite (proj2 (H ltac:(by split) eq_refl)). apply delete_singleton_eq.
  - specialize (H "orion.control.pi-1.restart" "{}"). destruct (dispatch_control _ _ _ _ _) as [r [s' u']].
    destruct H as (_ & _ & _ & _ & _ & _ & _ & H). apply (H "pi-1"). by left.
Defined.

(** The agent after the full run: two probe loops. *)
Definition demo_running : AgentState Native :=
  (agent_run (UT := demo_uuid) (HO := canonical_order) (AL := demo_agent_libs)
     (HF := demo_facts) (UC := ascii_case) demo_registry "pi-1"
     [EvControl (AL := demo_agent_libs) "orion.control.pi-1.run" "full"] quiet_oracle (demo_agent, Used_init)).2.1.

Lemma probe_loop_reports_history_witness :
  ∃ envs,
    ag_published (for_each [Err "refused"; Err "refused"] (probe_tick (UT := demo_uuid) "pi-1" 0)
      quiet_oracle (demo_running, Used_init)).2.1 =
    ((λ env, ("orion.service.health", AHealth env)) <$> envs) ∧ length envs = 2.
Proof.
  destruct (probe_loop_reports_history (UT := demo_uuid) "pi-1" 0 quiet_oracle quiet_fault_free
    [Err "refused"; Err "refused"] demo_running Used_init
    {| pb_service := "web"; pb_instance_id := 7%N; pb_check := HcTcp 80 10 2; pb_failures := 0;
       pb_returned := false |}
    {| im_kind := WService; im_name := "web"; im_replica_index := 0;
       im_started_at := 1700000000000000000%Z |}) as (envs & He & Hl & _);
    [vm_compute; reflexivity|reflexivity|reflexivity|vm_compute; reflexivity|].
  exists envs. split; [exact He|exact Hl].
Defined.

Lemma inventory_within_n_ticks_witness :
  ∃ new, ag_published (agent_run (UT := demo_uuid) (HO := canonical_order) (AL := demo_agent_libs)
    (HF := demo_facts) (UC := ascii_case) demo_registry "pi-1"
    (EvTick 2 <$> [demo_sys; demo_sys]) quiet_oracle (demo_agent, Used_init)).2.1 = new ∧
    0 < length (List.filter is_inventory new).
Proof.
  destruct (inventory_within_n_ticks (UT := demo_uuid) (HO := canonical_order)
    (AL := demo_agent_libs) (HF := demo_facts) (UC := ascii_case) demo_registry "pi-1"
    quiet_oracle quiet_fault_free 2 [demo_sys; demo_sys] demo_agent Used_init)
    as (new & H & _ & Hi); [unfold u32_max; lia|by split|simpl; lia|].
  exists new. split; [exact H|exact Hi].
Defined.

(** A docker that is not installed. *)
Definition no_docker : DockerCli :=
  {| DockerWorld := unit; docker := λ _ w, (Err "No such file or directory", w) |}.

Lemma adapters_match_their_kind_witness :
  RuntimeRegistry_names (H := canonical_order) (agent_registry (OS := demo_os) (UT := demo_uuid)
    (DC := no_docker) quiet_oracle
    ({| host_native := NativeAdapter_new; host_docker := DockerAdapter_new (DC := no_docker) tt |},
     Used_init)).1 = ["native"].
Proof.
  pose proof (adapters_match_their_kind (OS := demo_os) (UT := demo_uuid) (DC := no_docker)
    (HO := canonical_order) quiet_oracle
    {| host_native := NativeAdapter_new; host_docker := DockerAdapter_new (DC := no_docker) tt |}
    Used_init) as H.
  destruct (agent_registry _ _) as [reg [??]]. by destruct H as [H _].
Defined.
