(* ===== verification/Cluster.v ===== *)
(** * Controller and agent together

    The controller's messages carried to an agent that runs native workloads, and
    the agent's messages carried back: what the two programs do to each other.
    The bus delivers an envelope as it was sent; the codec of the control messages
    is a parameter that reads back what it wrote. *)

From Stdlib Require Import ZArith Lia Bool Sorted.
From stdpp Require Import base list gmap strings pretty.
From S2P Require Import Prelude Text Types Parse Effect Bus Reconcile Store Registry Controller Dispatch Runtime Docker Inventory Agent AgentFacts.

(** ** A stop message and the process it is about *)

Section stopped.
Context {OS : HostOs} {UT : UuidText} {HO : HashOrder} {AL : AgentLibs}.
Context {J : SerdeJson} {HF : HostFacts} {UC : UnicodeCase}.
Context (node_id : NodeId).

(** The registry of an agent on a host without docker. *)
Definition native_registry : RuntimeRegistry Native := register native_adapter RuntimeRegistry_new.

(** The host only moves by the steps of the native adapter's own tasks and by
    processes ending. *)
Definition host_event (e : AgentEvent) (pid : Pid) : Prop :=
  match e with
  | EvHost step => ∃ ne, step = native_event ne ∧ ∀ status, ne ≠ NEnds pid status
  | _ => True
  end.

Definition agent_at_large (pid : Pid) (p : Process) (s : AgentState Native) : Prop :=
  at_large pid p (ag_host s).

Lemma at_large_on_host {A} pid p (m : M Native A) :
  always (at_large pid p) m → always (agent_at_large pid p) (on_host m).
Proof. intros H. by apply (always_zoom _ (at_large pid p)). Qed.

Lemma native_registry_get name a :
  RuntimeRegistry_get native_registry name = Some a → a = native_adapter.
Proof.
  unfold RuntimeRegistry_get, native_registry, register.
  intros [[_ <-]|[_ H]]%lookup_insert_Some; [done|]. by destruct (lookup_empty_Some _ _ H).
Qed.

Lemma at_large_launch pid p spec : always (at_large pid p) (native_launch spec).
Proof.
  intros o s u Hs. pose proof (at_large_event pid p (NLaunch spec) ltac:(done) o s u Hs) as H.
  unfold native_event, mbind, M_bind in H. by destruct (native_launch spec o (s, u)) as [? [??]].
Qed.

Lemma at_large_stop pid p i : always (at_large pid p) (native_stop i).
Proof.
  intros o s u Hs. pose proof (at_large_event pid p (NStop i) ltac:(done) o s u Hs) as H.
  unfold native_event, mbind, M_bind in H. by destruct (native_stop i o (s, u)) as [? [??]].
Qed.

(** Publishing and bookkeeping leave the host alone. *)
Lemma at_large_modify pid p (f : AgentState Native → AgentState Native) :
  (∀ s, ag_host (f s) = ag_host s) → always (agent_at_large pid p) (modify f).
Proof. intros H. apply always_modify. intros s Hs. unfold agent_at_large. by rewrite H. Qed.

Lemma at_large_publish pid p subject m :
  always (agent_at_large pid p) (agent_publish (S := Native) subject m).
Proof.
  apply always_bind; [apply always_io|]. intros []; [apply always_ret|by apply at_large_modify].
Qed.

Lemma at_large_envelope {P} pid p (payload : P) :
  always (agent_at_large pid p) (agent_envelope (S := Native) node_id payload).
Proof.
  apply always_bind; [apply always_new_v4|]. intros i. apply always_bind; [apply always_now|].
  intros t. apply always_ret.
Qed.

Lemma at_large_slots pid p spec slots :
  always (agent_at_large pid p) (launch_slots native_adapter spec slots).
Proof.
  induction slots as [|idx slots IH]; [apply always_ret|]. apply always_try; [|done].
  apply always_bind.
  { destruct (negb _ && _); [apply always_ret|apply always_new_v4]. }
  intros id. apply always_bind; [apply always_now|]. intros t.
  apply always_bind; [by apply at_large_modify|]. intros _.
  apply always_bind; [apply at_large_on_host, at_large_launch|]. intros [li|e]; [|apply always_ret].
  destruct (run_health_check spec); [|apply always_ret].
  apply always_bind; [by apply at_large_modify|]. intros _. apply always_ret.
Qed.

Lemma at_large_control pid p subject payload :
  always (agent_at_large pid p) (dispatch_control native_registry subject payload).
Proof.
  unfold dispatch_control. destruct (ends_with ".run" subject).
  { destruct (decode_run payload) as [env|]; [|apply always_ret]. unfold handle_run.
    destruct (RuntimeRegistry_get _ _) as [a|] eqn:Ha; [|apply always_ret].
    apply native_registry_get in Ha as ->. apply at_large_slots. }
  destruct (ends_with ".stop" subject); [|apply always_ret].
  destruct (decode_stop payload) as [env|]; [|apply always_ret].
  apply always_bind; [|intros; apply always_ret]. unfold handle_stop.
  apply always_bind; [|intros; by apply at_large_modify]. apply always_for_each. intros name _.
  destruct (RuntimeRegistry_get _ _) as [a|] eqn:Ha; [|apply always_ret].
  apply native_registry_get in Ha as ->.
  apply always_bind; [apply at_large_on_host, at_large_stop|intros; apply always_ret].
Qed.

Lemma at_large_agent_event pid p e :
  host_event e pid → always (agent_at_large pid p) (agent_event native_registry node_id e).
Proof.
  intros He. destruct e as [subject payload|notice|i stream line|n r|every_n sys|step]; simpl.
  - apply always_bind; [apply at_large_control|intros; apply always_ret].
  - apply always_bind; [apply always_get|]. intros s. destruct (instances_get _ _); [|apply always_ret].
    apply always_bind; [by apply at_large_modify|]. intros _.
    apply always_bind; [apply at_large_envelope|]. intros env. apply at_large_publish.
  - apply always_bind; [apply always_get|]. intros s. destruct (instances_get _ _); [|apply always_ret].
    apply always_bind; [apply at_large_envelope|]. intros env. apply at_large_publish.
  - apply always_bind; [apply always_get|]. intros s. destruct (ag_probes s !! n) as [q|]; [|apply always_ret].
    destruct (pb_returned q); [apply always_ret|].
    destruct (instances_get _ _); [|by apply at_large_modify].
    destruct (probe_verdict _ _ r) as [[status message] failures].
    apply always_bind; [by apply at_large_modify|]. intros _.
    apply always_bind; [apply at_large_envelope|]. intros env. apply at_large_publish.
  - intros o s u Hs. unfold agent_tick.
    assert (∀ every_n count, always (agent_at_large pid p)
      (_ ← (if inventory_due every_n count then publish_inventory native_registry node_id sys else mret tt);
       env ← agent_envelope node_id
         {| hb_node_id := node_id; hb_agent_version := cargo_pkg_version;
            hb_uptime_seconds := sys_uptime_seconds sys; hb_cpu_load_1m := sys_load_one sys;
            hb_mem_used_bytes := sys_used_memory sys; hb_mem_total_bytes := sys_total_memory sys;
            hb_labels := ∅ |};
       agent_publish (as_str THeartbeat) (AHeartbeat env))) as H; [|by apply H].
    intros en count. apply always_bind.
    + destruct (inventory_due _ _); [|apply always_ret].
      apply always_bind; [apply at_large_envelope|]. intros env. apply at_large_publish.
    + intros _. apply always_bind; [apply at_large_envelope|]. intros env. apply at_large_publish.
  - destruct He as (ne & -> & Hne). by apply at_large_on_host, at_large_event.
Qed.

(** A stop message does not end a native workload.  Once the wait task of a
    process has been scheduled, the process keeps running through everything the
    agent does, stop messages for its instance included, until it ends by itself;
    and the stop message makes the agent forget it. *)
Theorem stopped_process_keeps_running nes es o u n t pid p (s : AgentState Native) :
  ag_host s = (native_run nes o (NativeAdapter_new, u)).2.1 →
  nv_tasks (ag_host s) !! n = Some t → wt_state t = WWaiting pid →
  nv_procs (ag_host s) !! pid = Some p → pr_status p = None →
  (∀ e, e ∈ es → host_event e pid) →
  ∀ o' u', nv_procs (ag_host (agent_run native_registry node_id es o' (s, u')).2.1) !! pid = Some p ∧
  ∀ subject payload env, ends_with ".run" subject = false → ends_with ".stop" subject = true →
    decode_stop payload = Ok env → stop_instance_id (env_payload env) = wt_id t →
    let s' := (dispatch_control native_registry subject payload o' (s, u')).2.1 in
    nv_procs (ag_host s') !! pid = Some p ∧ ag_instances s' !! wt_id t = None.
Proof.
  intros Hh Hn Hw Hp Hst Hes o' u'.
  assert (native_inv (ag_host s)) as Hs by (rewrite Hh; apply native_run_inv, native_inv_new).
  assert (agent_at_large pid p s) as Hl.
  { split_and!; [done..|]. intros c Hc. assert (inl c = inr n) as E; [|done].
    eapply (nv_own _ Hs _ _ pid); [by constructor|by econstructor]. }
  split.
  - apply (always_for_each (agent_at_large pid p) es (agent_event native_registry node_id)); [|done].
    intros e He. apply at_large_agent_event. auto.
  - intros subject payload env Hrun Hstop Hd Hid s'. split.
    + by apply (at_large_control pid p subject payload).
    + unfold s', dispatch_control. rewrite Hrun, Hstop, Hd.
      unfold handle_stop, mbind, M_bind. rewrite Hid.
      destruct (stop_everywhere _ _ _ _) as [? [s1 u1]]. simpl. apply lookup_delete_eq.
Qed.

End stopped.

(** ** An exit, from the process to the reconciler *)

Section exits.
Context {J : SerdeJson} {S : Type} (node_id : NodeId).

(** What a decision forgets, and the slots it launches. *)
Definition purged_by (a : ReconcileAction) : list Uuid :=
  match a with NoOp => [] | RedispatchAll _ ids | DispatchPartial _ ids => ids end.
Definition starts_slot (a : ReconcileAction) (slot : Z) : Prop :=
  match a with
  | NoOp => False
  | RedispatchAll n _ => (0 <= slot < n)%Z
  | DispatchPartial slots _ => slot ∈ slots
  end.

(** No replica is alive, not every slot has ended for good, and some slot is missing or is
    to be restarted: the whole Service is dispatched again. *)
Definition all_down (spec : ServiceSpec) (l : list InstanceObservation) : Prop :=
  (∀ i, i ∈ l → is_alive i = false) ∧
  (Z.of_nat (size (terminals spec l)) < desired_replicas spec)%Z ∧
  ∃ s, missing spec l s ∨ to_restart spec l s.

(** The restart policies, on the exit code of a process ([None] when a signal
    killed it). *)
Definition policy_restarts (policy : RestartPolicy) (code : option Z) : Prop :=
  policy = Always ∨ (policy = OnFailure ∧ code ≠ Some 0%Z).

Lemma exited_restartable policy i c code :
  ob_exited i = true → ob_exit_code i = Some c → (c = 0%Z ↔ code = Some 0%Z) →
  is_restartable policy i = true ↔ policy_restarts policy code.
Proof.
  intros He Hc Hcode. unfold is_restartable, is_alive, restart_due, policy_restarts.
  rewrite He, Hc. simpl. destruct policy; simpl; [by split; auto| |].
  - rewrite bool_decide_eq_true. split; [intros H; right; naive_solver|].
    intros [?|[_ H]]; [done|naive_solver].
  - split; [done|]. by intros [?|[? _]].
Qed.

Lemma purged_ids spec l i :
  counts_fit spec l → i ∈ l → (∀ j, j ∈ l → ob_instance_id j = ob_instance_id i → j = i) →
  ob_instance_id i ∈ purged_by (decide_reconcile spec l) ↔
  is_restartable (svc_restart_policy spec) i = true.
Proof.
  intros Hf Hi Huniq. pose proof (decide_reconcile_refines spec l Hf) as Ha.
  assert (ob_instance_id i ∈ restart_ids spec l ↔ is_restartable (svc_restart_policy spec) i = true) as Hids.
  { unfold restart_ids. rewrite list_elem_of_fmap. setoid_rewrite elem_of_bfilter. split.
    - intros (j & E & Hj & Hr). by rewrite <- (Huniq j Hj).
    - intros Hr. by exists i. }
  destruct Ha as [Hno| |]; simpl; [|done..]. split; [by intros ?%not_elem_of_nil|]. intros Hr.
  destruct (Hno (ob_replica_index i)) as [_ []]. by exists i.
Qed.

(** The slots a decision launches, among those an observed instance holds. *)
Lemma started_slots spec l i :
  counts_fit spec l → i ∈ l → let a := decide_reconcile spec l in let k := ob_replica_index i in
  (all_down spec l → starts_slot a k ↔ (0 <= k < desired_replicas spec)%Z) ∧
  (¬ all_down spec l → starts_slot a k ↔ to_restart spec l k).
Proof.
  intros Hf Hi a k. pose proof (decide_reconcile_refines spec l Hf) as Ha. fold a in Ha.
  assert (¬ missing spec l k) as Hm by (intros [_ Hm]; by apply (Hm i)).
  destruct Ha as [Hno|Hsome Hd Ht|slots Hsome Hd _ Hslots]; simpl.
  - split; [|intros _; split; [done|apply Hno]]. intros (_ & _ & s & Hs).
    destruct (Hno s) as [? ?]. by destruct Hs.
  - split; [done|]. intros []. by split_and!.
  - rewrite Hslots. split; [|naive_solver]. intros (Hall & Hlt & _). exfalso.
    destruct Hd as [(j & Hj & E)|]; [by rewrite Hall in E|lia].
Qed.

Lemma forward_exit_known notice o (a : AgentState S) u meta :
  fault_free o → ag_instances a !! en_instance_id notice = Some meta →
  ∃ env, ag_published (forward_exit node_id notice o (a, u)).2.1 =
           ag_published a ++ [("orion.task.events", AExit env)] ∧
    env_payload env = {| te_task_id := en_instance_id notice; te_node_id := node_id;
                         te_outcome := exit_outcome notice |}.
Proof.
  intros Hf Ha. unfold forward_exit, agent_envelope, agent_publish, mbind, M_bind, get, instances_get.
  rewrite Ha. simpl. rewrite Hf. simpl. eauto.
Qed.

(** The controller's record after the event of an exit. *)
Lemma on_exit_recorded env o c u r notice node :
  env_payload env = {| te_task_id := en_instance_id notice; te_node_id := node;
                       te_outcome := exit_outcome notice |} →
  by_id (app_instances c) !! en_instance_id notice = Some r →
  ∃ r', (on_task_event (Some env) o (c, u)).2.1 =
      set_instances {| by_id := <[en_instance_id notice := r']> (by_id (app_instances c));
                       by_workload := by_workload (app_instances c) |} c ∧
    alive r' = false ∧ ir_exit_code r' = Some (default (-1)%Z (en_exit_code notice)) ∧
    ir_replica_index r' = ir_replica_index r ∧ ir_instance_id r' = ir_instance_id r.
Proof.
  intros Hp Hr. unfold on_task_event. rewrite Hp. cbn [te_outcome te_task_id].
  unfold exit_outcome, mbind, M_bind, record_exit.
  destruct (en_exit_code notice) as [[|q|q]|]; simpl; rewrite Hr; simpl;
    (eexists; split_and!; [reflexivity|done..]).
Qed.

(** C13: an exit reaches the reconciler with the right meaning.  The notice of an
    adapter about an instance both sides know is published by the agent, recorded by
    the controller as an exit with that code ([-1] without one), and touches no other
    instance.  The next decision about its Service purges the instance exactly when the
    restart policy says so for that exit.  Unless the whole Service is down, it launches
    the slot exactly when the policy says so for this instance or for another dead one of
    the same slot; when the whole Service is down, it launches every slot below the replica
    count, this one too, whatever the policy says of its exit. *)
Theorem exit_reaches_reconciler notice o (a : AgentState S) u (c : AppState) u' meta r
    spec name ids h :
  let id := en_instance_id notice in
  let restarts := policy_restarts (svc_restart_policy spec) (en_exit_code notice) in
  fault_free o → ag_instances a !! id = Some meta →
  reg_inv (app_instances c) → by_id (app_instances c) !! id = Some r →
  by_workload (app_instances c) !! ("Service", name) = Some ids → id ∈ ids →
  ∃ env,
    ag_published (forward_exit node_id notice o (a, u)).2.1 =
      ag_published a ++ [("orion.task.events", AExit env)] ∧
    let c' := (on_task_event (Some env) o (c, u')).2.1 in
    (∃ r', by_id (app_instances c') !! id = Some r' ∧ alive r' = false ∧
       ir_exit_code r' = Some (default (-1)%Z (en_exit_code notice)) ∧
       ir_replica_index r' = ir_replica_index r) ∧
    (∀ i, i ≠ id → by_id (app_instances c') !! i = by_id (app_instances c) !! i) ∧
    let l := observations (app_instances c') h name in
    let decision := decide_reconcile spec l in
    let slot := ir_replica_index r in
    (counts_fit spec l →
       (id ∈ purged_by decision ↔ restarts) ∧
       (¬ all_down spec l → starts_slot decision slot ↔
          restarts ∨ ∃ j, j ∈ l ∧ ob_instance_id j ≠ id ∧ ob_replica_index j = slot ∧
                          is_restartable (svc_restart_policy spec) j = true) ∧
       (all_down spec l → starts_slot decision slot ↔ (0 <= slot < desired_replicas spec)%Z)).
Proof.
  intros id restarts Hf Ha Hreg Hr Hw Hid.
  destruct (forward_exit_known notice o a u meta Hf Ha) as (env & Hpub & Hpay).
  exists env. split; [done|].
  destruct (on_exit_recorded env o c u' r notice node_id Hpay Hr) as (r' & Hc' & Hal & Hcode & Hidx & Hi').
  cbv zeta. rewrite Hc'. cbn [by_id by_workload app_instances set_instances].
  assert (observation_of h r' ∈ observations {| by_id := <[id := r']> (by_id (app_instances c));
    by_workload := by_workload (app_instances c) |} h name) as Hin.
  { unfold observations. simpl. rewrite Hw. simpl. apply list_elem_of_fmap_2, list_elem_of_omap.
    exists id. by rewrite lookup_insert_eq. }
  assert (∀ i, i ∈ observations {| by_id := <[id := r']> (by_id (app_instances c));
    by_workload := by_workload (app_instances c) |} h name → ob_instance_id i = id →
    i = observation_of h r') as Huniq.
  { unfold observations. simpl. rewrite Hw. simpl. intros i (x & -> & Hx)%list_elem_of_fmap Hxi.
    apply list_elem_of_omap in Hx as (j & _ & Hj). simpl in Hxi.
    destruct (decide (id = j)) as [<-|Hne]; [by rewrite lookup_insert_eq in Hj; simplify_eq|].
    rewrite lookup_insert_ne in Hj by done. apply (inv_id _ Hreg) in Hj. congruence. }
  assert (ob_instance_id (observation_of h r') = id) as Hoid.
  { simpl. rewrite Hi'. by apply (inv_id _ Hreg). }
  assert (is_restartable (svc_restart_policy spec) (observation_of h r') = true ↔
    policy_restarts (svc_restart_policy spec) (en_exit_code notice)) as Hiff.
  { eapply exited_restartable; [simpl; by rewrite Hal|done|].
    destruct (en_exit_code notice); simpl; split; congruence. }
  split_and!.
  - exists r'. by rewrite lookup_insert_eq.
  - intros i Hne. by rewrite lookup_insert_ne.
  - intros Hfit. set (l := observations _ h name) in *.
    pose proof (purged_ids spec l _ Hfit Hin) as Hpurge. rewrite Hoid, Hiff in Hpurge.
    destruct (started_slots spec l _ Hfit Hin) as [Hdown Hup]. cbn [ob_replica_index observation_of] in *.
    rewrite Hidx in *. split_and!; [by apply Hpurge| |done].
    intros Hn. rewrite (Hup Hn). split.
    + intros (j & Hj & Hres & Hk). destruct (decide (ob_instance_id j = id)) as [E|E].
      * left. apply Hiff. by rewrite <- (Huniq j Hj E).
      * right. by exists j.
    + intros [Hpol|(j & Hj & _ & Hk & Hres)]; [|by exists j].
      exists (observation_of h r'). split_and!; [done|by apply Hiff|done].
Qed.

End exits.

(** ** Replicas that print nothing

    A controller and one native agent: each pass of the reconciler is followed by
    the delivery of what it published. *)

Record Cluster : Type := { cl_controller : AppState; cl_agent : AgentState Native }.

Definition on_controller {A} (m : M AppState A) : M Cluster A :=
  zoom cl_controller (λ c s, {| cl_controller := c; cl_agent := cl_agent s |}) m.
Definition on_agent {A} (m : M (AgentState Native) A) : M Cluster A :=
  zoom cl_agent (λ a s, {| cl_controller := cl_controller s; cl_agent := a |}) m.

Section silent_cluster.
Context {J : SerdeJson} {RC : ResourceCodec} {TM : Rfc3339} {HO : HashOrder} {CL : ControllerLibs}.
Context {OS : HostOs} {AL : AgentLibs}.
Context (encode : Message → Payload).

(** serde_json reads back the envelope it wrote. *)
Hypothesis decode_encode : ∀ env, decode_run (encode (MRun env)) = Ok env.

(** The bus hands a message to the agent that subscribed to its subject. *)
Definition deliver (node : NodeId) (m : string * Message) : M Cluster unit :=
  if bool_decide (m.1 ∈ control_subjects_for_node node) then
    _ ← on_agent (dispatch_control native_registry m.1 (encode m.2)); mret tt
  else mret tt.

Definition cluster_pass (node : NodeId) (svc : Resource) : M Cluster unit :=
  before ← get;
  _ ← on_controller (s ← get; reconcile_service (app_health s) svc);
  after ← get;
  for_each (drop (length (app_published (cl_controller before)))
              (app_published (cl_controller after))) (deliver node).

Definition cluster_passes (node : NodeId) (svc : Resource) (n : nat) : M Cluster unit :=
  for_each (replicate n svc) (cluster_pass node).

Lemma draws_query {A} (f : Db → A * Db) : draws (query f).
Proof.
  apply draws_bind; [apply draws_io|]. intros []; [apply draws_ret|].
  apply draws_bind; [apply draws_get|]. intros d. destruct (f d). auto with orion.
Qed.

Lemma draws_try {S A B E} (m : M S (result A E)) (k : A → M S (result B E)) :
  draws m → (∀ a, draws (k a)) → draws (let! x := m in k x).
Proof. intros Hm Hk. apply draws_bind; [done|]. intros []; [apply Hk|apply draws_ret]. Qed.

Lemma draws_map_each {A B} (f : A → M Db B) l : (∀ x, draws (f x)) → draws (map_each f l).
Proof.
  intros Hf. induction l as [|x l IH]; cbn [map_each]; [apply draws_ret|].
  apply draws_bind; [done|]. intros y. apply draws_bind; [done|]. intros ys. apply draws_ret.
Qed.

Lemma draws_get_resource k ns n : draws (get_resource k ns n).
Proof. apply draws_try; [apply draws_query|]. intros row. apply draws_ret. Qed.

Lemma draws_list_nodes : draws list_nodes.
Proof.
  apply draws_try; [apply draws_query|]. intros rows. apply draws_bind; [|intros; apply draws_ret].
  apply draws_map_each. intros e. apply draws_bind; [|intros; apply draws_ret].
  destruct (parse_from_rfc3339 _); auto with orion.
Qed.

Lemma draws_pick name kind : draws (pick_node_for_dispatch name kind).
Proof.
  apply draws_bind; [apply draws_zoom, draws_get_resource|]. intros r.
  apply draws_bind; [apply draws_zoom, draws_list_nodes|]. intros ns.
  apply draws_bind; [apply draws_now|]. intros t.
  apply draws_bind; [apply draws_get|]. intros s. destruct (omap _ _); apply draws_ret.
Qed.

Lemma draws_health_check kind name : draws (health_check_of kind name).
Proof.
  destruct kind; [|apply draws_ret]. apply draws_bind; [apply draws_zoom, draws_get_resource|].
  intros r. apply draws_ret.
Qed.

(** A dispatch that succeeds, with the id it draws. *)
Lemma dispatch_slots_drawn kind name runtime gen reps slots o s u node :
  fault_free o → (pick_node_for_dispatch name kind o (s, u)).1 = Some node →
  ∃ i u' env hc,
    dispatch_workload_with_slots kind name runtime gen reps slots o (s, u) =
    (Ok (node, or_uuid o i), (with_run node env s, u')) ∧
    us_uuid u ≤ i < us_uuid u' ∧
    env_payload env = {| run_instance_id := or_uuid o i; run_kind := kind; run_name := name;
      run_runtime := runtime; run_generation := gen; run_replicas := reps;
      run_health_check := hc; run_slot_indices := slots |}.
Proof.
  intros Hf Hp. unfold dispatch_workload_with_slots.
  pose proof (draws_pick name kind o s u) as D1.
  rewrite (run_readonly _ _ _ _ _ (readonly_pick name kind)), Hp.
  rewrite (run_readonly _ _ _ _ _ readonly_new_v4).
  set (u1 := (pick_node_for_dispatch name kind o (s, u)).2.2) in *.
  set (u2 := (new_v4 o (s, u1)).2.2).
  pose proof (draws_health_check kind name o s u2) as D2.
  rewrite (run_readonly _ _ _ _ _ (readonly_health_check kind name)).
  rewrite (run_readonly _ _ _ _ _ (readonly_new_envelope _)).
  unfold publish, io, modify, mbind, M_bind, mret, M_ret. rewrite Hf.
  eexists (us_uuid u1), _, _, _. split; [reflexivity|]. split; [|reflexivity].
  simpl in D2 |- *. lia.
Qed.

Lemma draws_native_launch spec : draws (native_launch spec).
Proof.
  unfold native_launch. destruct (ls_runtime spec); auto with orion.
  apply draws_bind; [apply draws_io|]. intros []; [apply draws_ret|].
  apply draws_bind; [apply draws_get|]. intros s. apply draws_bind; auto with orion.
Qed.

Lemma draws_native_stop i : draws (native_stop i).
Proof.
  apply draws_bind; [apply draws_get|]. intros s. destruct (nv_children s !! i); [|apply draws_ret].
  destruct (child_in s _); apply draws_bind; auto with orion. intros _.
  apply draws_bind; auto with orion. intros []; auto with orion.
Qed.

Lemma draws_slots spec slots : draws (launch_slots native_adapter spec slots).
Proof.
  induction slots as [|idx slots IH]; [apply draws_ret|]. apply draws_try; [|done].
  apply draws_bind; [destruct (negb _ && _); auto with orion|]. intros id.
  apply draws_bind; [apply draws_now|]. intros t. apply draws_bind; [apply draws_modify|].
  intros _. apply draws_bind; [apply draws_zoom, draws_native_launch|]. intros []; [|apply draws_ret].
  destruct (run_health_check spec); auto with orion.
Qed.

Lemma native_launches_size o lss h h' :
  launches native_adapter o lss h h' → size (nv_procs h') = size (nv_procs h) + length lss.
Proof.
  induction 1 as [h|ls lss h h' h'' u u' li Hl _ IH]; [simpl; lia|]. rewrite IH. simpl.
  unfold native_adapter, ra_launch, native_launch in Hl. destruct (ls_runtime ls); try done.
  unfold mbind, M_bind, io, get, put in Hl. destruct (or_fault o (us_io u)); [done|].
  injection Hl as _ <- _. simpl. rewrite map_size_insert_None by apply fork_pid_fresh. lia.
Qed.

(** Without faults a native run message starts one process per slot. *)
Lemma native_run_size subject payload env exec args vars o (a : AgentState Native) u :
  fault_free o → ends_with ".run" subject = true → decode_run payload = Ok env →
  is_u32 (run_replicas (env_payload env)) →
  run_runtime (env_payload env) = RNative exec args vars →
  let x := dispatch_control native_registry subject payload o (a, u) in
  size (nv_procs (ag_host x.2.1)) =
    size (nv_procs (ag_host a)) + length (asked_slots (env_payload env)) ∧
  us_uuid u ≤ us_uuid x.2.2.
Proof.
  intros Hf Hsub Hdec Hu Hrt x. unfold x, dispatch_control. rewrite Hsub, Hdec.
  unfold handle_run. rewrite Hrt. cbn [runtime_adapter_name]. unfold RuntimeRegistry_get.
  assert (native_registry !! "native" = Some native_adapter) as -> by apply lookup_insert_eq.
  split; [|apply draws_slots]. rewrite run_slots_asked.
  destruct (launch_slots_run native_adapter (env_payload env) o Hu (asked_slots (env_payload env)) a u)
    as (done & Hdone & H).
  destruct (launch_slots native_adapter _ _ o (a, u)) as [r [s' u']]. destruct H as [_ H].
  destruct r as [[]|e].
  - destruct H as (Hslots & Hl & _). simpl. rewrite (native_launches_size _ _ _ _ Hl).
    by rewrite length_fmap, <- Hslots, length_fmap.
  - exfalso. destruct e as [|k|e]; try done.
    destruct H as (y & h & rest & u1 & u2 & [_ Hfit] & _ & _ & Hl & _).
    destruct Hfit as (_ & _ & _ & _ & Hfit). rewrite Hrt in Hfit. simpl in Hl.
    unfold native_launch in Hl. destruct (ls_runtime (at_spec y)); try done.
    unfold mbind, M_bind, io, get, put in Hl. by rewrite Hf in Hl.
Qed.

Context (svc : Resource) (spec : ServiceSpec) (status : option Status).
Context (exec : string) (args : list string) (vars : gmap string string) (node : string).
Context (o : Oracle) (d : Db) (last : NodeIdRegistry).
Notation name := (md_name (metadata svc)).
Hypothesis Hbody : body svc = BService spec status.
Hypothesis Hruntime : svc_runtime spec = Some (RNative exec args vars).
Hypothesis Hdesired : (2 <= desired_replicas spec)%Z.
Hypothesis Hf : fault_free o.
Hypothesis Hdistinct : uuids_distinct o.
(** The controller finds the agent's node whenever its store says what it says now. *)
Hypothesis Hpick : ∀ s u, app_store s = d → app_node_id s = last →
  (pick_node_for_dispatch name WService o (s, u)).1 = Some node.

Definition known_ids (g : InstanceRegistry) : list Uuid :=
  default [] (by_workload g !! ("Service", name)).

(** The controller knows only its own dispatches of the Service. *)
Record only_dispatches (c : AppState) (u : Used) : Prop := {
  od_silent : silent (app_instances c) ∅ name;
  od_health : app_health c = ∅;
  od_store : app_store c = d;
  od_last : app_node_id c = last;
  od_fresh : ∀ i, us_uuid u ≤ i → by_id (app_instances c) !! or_uuid o i = None
}.

Lemma length_omap_le {A B} (f : A → option B) l : length (omap f l) ≤ length l.
Proof.
  induction l as [|x l IH]; csimpl; [done|].
  destruct (f x); [apply le_n_S, IH|apply Nat.le_le_succ_r, IH].
Qed.

Lemma observations_le (g : InstanceRegistry) : length (observations g ∅ name) ≤ length (known_ids g).
Proof. unfold observations. rewrite length_fmap. apply length_omap_le. Qed.

Lemma known_ids_dispatch g t id n :
  length (known_ids (record_dispatch g t id "Service" name (Some node) n)) ≤
    S (length (known_ids g)).
Proof.
  unfold known_ids, record_dispatch. cbn [by_workload]. unfold index_id.
  rewrite lookup_insert_eq. simpl.
  case_bool_decide; [apply Nat.le_succ_diag_r|]. rewrite length_app, Nat.add_1_r. apply le_n.
Qed.

(** One pass of the controller: it asks for the slots from 1 on, again. *)
Lemma controller_pass_run c u :
  only_dispatches c u →
  (Z.of_nat (length (known_ids (app_instances c))) + desired_replicas spec <= u32_max)%Z →
  ∃ c' u' env, reconcile_service (app_health c) svc o (c, u) = (tt, (c', u')) ∧
    app_published c' = app_published c ++ [(for_node TControlRun node, MRun env)] ∧
    only_dispatches c' u' ∧ us_uuid u ≤ us_uuid u' ∧
    length (known_ids (app_instances c')) ≤ S (length (known_ids (app_instances c))) ∧
    run_runtime (env_payload env) = RNative exec args vars ∧
    run_replicas (env_payload env) = desired_replicas spec ∧
    run_slot_indices (env_payload env) = range_u32 1 (desired_replicas spec).
Proof.
  intros [[Hne Hall] Hh Hst Hlast Hfresh] Hk.
  pose proof (observations_le (app_instances c)) as Hle.
  rewrite Hh, (reconcile_service_run ∅ svc spec status _ o c u Hbody Hruntime).
  rewrite silent_decision by (done || unfold counts_fit; lia).
  unfold launch, mbind, M_bind. rewrite purge_all_run. simpl.
  destruct (dispatch_slots_drawn WService name (RNative exec args vars)
    (default 0%Z (md_generation (metadata svc))) (desired_replicas spec)
    (range_u32 1 (desired_replicas spec)) o c u node Hf (Hpick c u Hst Hlast))
    as (i & u' & env & hc & -> & Hi & Henv).
  eexists _, _, env. split; [reflexivity|]. rewrite Henv. simpl.
  split_and!; [done| |lia|apply known_ids_dispatch|done..].
  split; simpl; [|done..|].
  - apply record_dispatch_silent; [by split|apply Hfresh; lia|apply lookup_empty].
  - intros j Hj. rewrite lookup_insert_ne; [apply Hfresh; lia|].
    intros E%Hdistinct. lia.
Qed.

Lemma run_subject_ends : ends_with ".run" (for_node TControlRun node) = true.
Proof. apply ends_with_true. exists ("orion.control." +:+ node). by rewrite string_app_assoc. Qed.

Lemma cluster_pass_run c a u :
  only_dispatches c u →
  (Z.of_nat (length (known_ids (app_instances c))) + desired_replicas spec <= u32_max)%Z →
  ∃ c' a' u', cluster_pass node svc o ({| cl_controller := c; cl_agent := a |}, u) =
      (tt, ({| cl_controller := c'; cl_agent := a' |}, u')) ∧
    only_dispatches c' u' ∧
    length (known_ids (app_instances c')) ≤ S (length (known_ids (app_instances c))) ∧
    size (nv_procs (ag_host a')) =
      size (nv_procs (ag_host a)) + Z.to_nat (desired_replicas spec - 1).
Proof.
  intros Hc Hk. destruct (controller_pass_run c u Hc Hk)
    as (c' & u1 & env & Hrun & Hpub & Hc' & Hu & Hids & Hrt & Hreps & Hslots).
  pose proof (native_run_size (for_node TControlRun node) (encode (MRun env)) env exec args vars
    o a u1 Hf run_subject_ends (decode_encode env)) as Hag. cbv zeta in Hag.
  destruct (dispatch_control native_registry (for_node TControlRun node) (encode (MRun env)) o (a, u1))
    as [r [a' u2]] eqn:Ed.
  exists c', a', u2. split.
  { unfold cluster_pass, on_controller, deliver, on_agent, zoom, mbind, M_bind, get. simpl.
    rewrite Hrun. simpl. rewrite Hpub, drop_app_length. cbn [for_each].
    assert (for_node TControlRun node ∈ control_subjects_for_node node) as Hsub by by left.
    revert Hsub Ed. generalize (for_node TControlRun node) as subject. intros subject Hsub Ed.
    unfold mbind, M_bind. simpl. rewrite bool_decide_eq_true_2 by done.
    cbn [cl_agent cl_controller]. by rewrite Ed. }
  destruct Hag as [Hsize Hu2]; [rewrite Hreps; unfold is_u32; lia|done|]. simpl in *.
  split_and!; [|done|].
  - destruct Hc'. split; [done..|]. intros j Hj. apply od_fresh0. lia.
  - rewrite Hsize. f_equal. unfold asked_slots. rewrite Hslots.
    destruct (range_u32 1 (desired_replicas spec)) eqn:E.
    + apply (f_equal length) in E. rewrite length_range_u32 in E. simpl in E. lia.
    + by rewrite <- E, length_range_u32.
Qed.

(** C37: replicas that print nothing multiply.  As long as the replicas of a Service
    write no log line, the controller knows only its own dispatches, and every pass
    of the reconciler makes the agent start all the slots from 1 on once more: after
    [n] passes there are [n * (replicas - 1)] more processes. *)
Theorem silent_replicas_multiply n c a u :
  only_dispatches c u →
  (Z.of_nat (length (known_ids (app_instances c)) + n) + desired_replicas spec <= u32_max)%Z →
  size (nv_procs (ag_host (cl_agent (cluster_passes node svc n o
         ({| cl_controller := c; cl_agent := a |}, u)).2.1))) =
  size (nv_procs (ag_host a)) + n * Z.to_nat (desired_replicas spec - 1).
Proof.
  unfold cluster_passes. revert c a u. induction n as [|n IH]; intros c a u Hc Hk.
  { simpl. lia. }
  destruct (cluster_pass_run c a u Hc) as (c' & a' & u' & Hrun & Hc' & Hids & Hsize); [lia|].
  cbn [replicate for_each]. unfold mbind at 1, M_bind at 1. rewrite Hrun.
  rewrite IH; [|done|lia]. rewrite Hsize. lia.
Qed.

End silent_cluster.

(** ** Concrete runs *)

(** Messages delivered as they are. *)
Definition wire_libs : AgentLibs :=
  {| Payload := Message;
     decode_run := λ m, match m with MRun env => Ok env | MStop _ => Err "missing field" end;
     decode_stop := λ m, match m with MStop env => Ok env | MRun _ => Err "missing field" end;
     http_get := λ _, Err "refused"; tcp_connect := λ _, Err "refused";
     exec_status := λ _ _, Ok (true, "exit status: 0") |}.

Definition demo_stop : Message :=
  MStop (demo_message {| stop_instance_id := 7%N; stop_reason := None; stop_grace_seconds := None |}).

(** An agent whose one workload is waited for. *)
Definition demo_waiting : AgentState Native :=
  set_host (native_run (H := demo_os) [NLaunch (demo_spec 7%N); NWaitStart 0] quiet_oracle
    (NativeAdapter_new, Used_init)).2.1 demo_agent.

Lemma stopped_process_keeps_running_witness :
  nv_procs (ag_host (dispatch_control (HO := canonical_order) (AL := wire_libs)
    (native_registry (OS := demo_os)) "orion.control.pi-1.stop" demo_stop quiet_oracle
    (demo_waiting, Used_init)).2.1) !! 1%N ≠ None.
Proof.
  destruct (stopped_process_keeps_running (OS := demo_os) (UT := demo_uuid) (HO := canonical_order)
    (AL := wire_libs) (HF := demo_facts) (UC := ascii_case) "pi-1"
    [NLaunch (demo_spec 7%N); NWaitStart 0] [] quiet_oracle Used_init 0
    (demo_task (WWaiting 1%N)) 1%N
    {| pr_exec := "/bin/web"; pr_args := ["-v"]; pr_env := ∅; pr_piped := true; pr_status := None |}
    demo_waiting) with (o' := quiet_oracle) (u' := Used_init) as [_ H].
  - reflexivity.
  - vm_compute. reflexivity.
  - reflexivity.
  - vm_compute. reflexivity.
  - reflexivity.
  - intros e He. by apply elem_of_nil in He.
  - destruct (H "orion.control.pi-1.stop" demo_stop
      (demo_message {| stop_instance_id := 7%N; stop_reason := None; stop_grace_seconds := None |})
      eq_refl eq_refl eq_refl eq_refl) as [Hp _].
    intros E. pose proof (eq_trans (eq_sym Hp) E) as F. discriminate F.
Defined.

(** The Service "api" of the controller's demo, and an agent that runs it: one
    instance of slot 0, known to both. *)
Definition demo_known : AgentState Native :=
  set_metas {[7%N := {| im_kind := WService; im_name := "api"; im_replica_index := 0%Z;
                        im_started_at := 0%Z |}]} demo_agent.

Definition demo_api_spec : ServiceSpec (J := toy_json) :=
  {| svc_runtime := Some (RNative "./api" [] ∅); svc_replicas := Some 3%Z;
     svc_placement := Placement_default; svc_requires := CapabilitySelector_default;
     svc_capabilities := []; svc_ports := []; svc_health := None;
     svc_restart_policy := Always |}.

Definition demo_crash : ExitNotice :=
  {| en_instance_id := 7%N; en_exit_code := None; en_message := "killed" |}.

Lemma exit_reaches_reconciler_witness :
  ∃ env, let c' := (on_task_event (Some env) quiet_oracle (demo_state, Used_init)).2.1 in
    ag_published (forward_exit "n1" demo_crash quiet_oracle (demo_known, Used_init)).2.1 =
      [("orion.task.events", AExit env)] ∧
    let decision := decide_reconcile demo_api_spec (observations (app_instances c') ∅ "api") in
    7%N ∈ purged_by decision ∧ starts_slot decision 0%Z.
Proof.
  destruct (exit_reaches_reconciler (J := toy_json) "n1" demo_crash quiet_oracle demo_known Used_init
    demo_state Used_init
    {| im_kind := WService; im_name := "api"; im_replica_index := 0%Z; im_started_at := 0%Z |}
    {| ir_instance_id := 7%N; ir_kind := "Service"; ir_name := "api"; ir_node := Some "n1";
       ir_replica_index := 0%Z; ir_dispatched_at := Some 5%Z; ir_first_seen_at := None;
       ir_last_seen_at := None; ir_line_count := 0%Z; ir_exited_at := None;
       ir_exit_code := None; ir_exit_kind := None |} demo_api_spec "api" [7%N] ∅)
    as (env & Hpub & _ & _ & Hdec).
  - exact quiet_fault_free.
  - reflexivity.
  - apply record_dispatch_inv, reg_inv_default.
  - reflexivity.
  - reflexivity.
  - by left.
  - exists env. split; [exact Hpub|]. vm_compute in Hpub. injection Hpub as <-.
    destruct Hdec as (Hpurge & _ & Hdown); [vm_compute; discriminate|]. split.
    + apply Hpurge. by left.
    + apply Hdown; [|by split]. split_and!.
      * intros i Hi. vm_compute in Hi. by apply list_elem_of_singleton in Hi as ->.
      * vm_compute. reflexivity.
      * exists 1%Z. left. split; [by split|]. intros i Hi. vm_compute in Hi.
        by apply list_elem_of_singleton in Hi as ->.
Defined.

Lemma silent_replicas_multiply_witness :
  size (nv_procs (ag_host (cl_agent (cluster_passes (RC := demo_api_codec) (TM := demo_clock)
    (HO := canonical_order) (CL := demo_libs) (OS := demo_os) (AL := wire_libs) id "n1" demo_api 5
    quiet_oracle ({| cl_controller := demo_state; cl_agent := demo_agent |}, Used_init)).2.1))) = 10.
Proof.
  rewrite (silent_replicas_multiply (RC := demo_api_codec) (TM := demo_clock)
    (HO := canonical_order) (CL := demo_libs) (OS := demo_os) (AL := wire_libs) id (λ _, eq_refl)
    demo_api demo_api_spec None "./api" [] ∅ "n1" quiet_oracle Db_empty (Some "n1") eq_refl eq_refl).
  - reflexivity.
  - vm_compute. discriminate.
  - exact quiet_fault_free.
  - exact quiet_distinct.
  - intros s u Hs Hn. unfold pick_node_for_dispatch.
    rewrite (run_readonly _ _ _ _ _ (readonly_on_store _ (readonly_get_resource _ _ _))).
    rewrite (run_readonly _ _ _ _ _ (readonly_on_store _ readonly_list_nodes)).
    rewrite (run_readonly _ _ _ _ _ readonly_now), (run_readonly _ _ _ _ _ readonly_get).
    rewrite !on_store_val, Hs. by rewrite <- Hn.
  - split.
    + split; [vm_compute; discriminate|]. intros i Hi. apply list_elem_of_singleton in Hi as ->.
      split; reflexivity.
    + reflexivity.
    + reflexivity.
    + reflexivity.
    + intros i _. apply lookup_insert_None. split; [apply lookup_empty|]. simpl. lia.
  - vm_compute. discriminate.
Defined.
