(* ===== verification/Outbox.v ===== *)
(** * Publishing to a queue

    The adapters (file watcher, scraper, sidecar, SQLite tap, Kafka bridge, webhook)
    all end in [js.publish(subject, payload)] on a JetStream context.  The outbox is
    the list of the messages the broker's client accepted, in order; a payload is
    the record that is serialised. *)

From Stdlib Require Import ZArith Lia Bool.
From stdpp Require Import base list gmap strings.
From S2P Require Import Prelude Types Effect.

Notation Outbox E := (list (string * E)).

(** [let _ = js.publish(subject, payload).await?.await]: the publication may fail,
    which the caller propagates; what the acknowledgement says is dropped. *)
Definition js_publish {E} (subject : string) (ev : E) : M (Outbox E) (result unit Fault) :=
  r ← io;
  match r with
  | Some f => mret (Err f)
  | None => _ ← modify (λ sent, sent ++ [(subject, ev)]); _ ← io; mret (Ok tt)
  end.

(** [for x in l { body(x)?; }]. *)
Fixpoint try_each {S A E} (l : list A) (body : A → M S (result unit E)) : M S (result unit E) :=
  match l with
  | [] => mret (Ok tt)
  | x :: l' => let! _ := body x in try_each l' body
  end.

(** A body that emits [h x], or fails and emits nothing. *)
Definition emits {S A B E} (out : S → list B) (h : A → list B) (o : Oracle)
    (body : A → M S (result unit E)) : Prop :=
  ∀ x s u, let r := body x o (s, u) in
    match r.1 with Ok _ => out r.2.1 = out s ++ h x | Err _ => out r.2.1 = out s end.

(** A body that cannot fail. *)
Definition succeeds {S A E} (o : Oracle) (body : A → M S (result unit E)) : Prop :=
  ∀ x s u, (body x o (s, u)).1 = Ok tt.

Section loops.
Context {S A B E : Type} (out : S → list B) (h : A → list B) (o : Oracle).
Context (body : A → M S (result unit E)).

Lemma try_each_cons x l s u :
  try_each (x :: l) body o (s, u) =
  match body x o (s, u) with
  | (Ok _, su) => try_each l body o su
  | (Err e, su) => (Err e, su)
  end.
Proof. cbn [try_each]. unfold mbind, M_bind. by destruct (body x o (s, u)) as [[[]|e] su]. Qed.

(** The loop emits what a prefix of its list stands for, and the whole of it when
    it ends normally. *)
Lemma try_each_prefix l s u :
  emits out h o body →
  let r := try_each l body o (s, u) in
  ∃ k, out r.2.1 = out s ++ (take k l ≫= h) ∧ (r.1 = Ok tt → k = length l).
Proof.
  intros Hb. revert s u. induction l as [|x l IH]; intros s u.
  { exists 0. by rewrite app_nil_r. }
  rewrite try_each_cons. specialize (Hb x s u).
  destruct (body x o (s, u)) as [[[]|e] [s' u']]; simpl in Hb.
  - destruct (IH s' u') as (k & Hk & Hl). exists (Datatypes.S k).
    rewrite Hk, Hb. csimpl. rewrite app_assoc. split; [done|]. intros H. by rewrite Hl.
  - exists 0. simpl. by rewrite app_nil_r.
Qed.

Lemma try_each_all l s u :
  emits out h o body → succeeds o body →
  let r := try_each l body o (s, u) in r.1 = Ok tt ∧ out r.2.1 = out s ++ (l ≫= h).
Proof.
  intros Hb Ho. assert (∀ s u, (try_each l body o (s, u)).1 = Ok tt) as H.
  { clear s u. induction l as [|x l IH]; intros s u; [done|].
    rewrite try_each_cons. specialize (Ho x s u).
    destruct (body x o (s, u)) as [[[]|e] [s' u']]; [apply IH|done]. }
  split; [done|]. destruct (try_each_prefix l s u Hb) as (k & -> & Hk).
  by rewrite (Hk (H s u)), firstn_all.
Qed.

(** A body that always succeeds and whose effect on the state is a function. *)
Lemma try_each_pure (f : S → A → S) l s u :
  (∀ x s u, (body x o (s, u)).1 = Ok tt ∧ (body x o (s, u)).2.1 = f s x) →
  (try_each l body o (s, u)).1 = Ok tt ∧ (try_each l body o (s, u)).2.1 = foldl f s l.
Proof.
  intros Hb. revert s u. induction l as [|x l IH]; intros s u; [done|].
  rewrite try_each_cons. destruct (Hb x s u) as [H1 H2].
  destruct (body x o (s, u)) as [r [s' u']]. simpl in *. subst. apply IH.
Qed.

(** An invariant of the body is one of the loop. *)
Lemma try_each_keeps (P : S → Prop) l :
  (∀ x, x ∈ l → keeps o P (body x)) → keeps o P (try_each l body).
Proof.
  induction l as [|x l IH]; intros H s u Hs; [done|]. rewrite try_each_cons.
  specialize (H x (list_elem_of_here _ _)) as Hx. specialize (Hx s u Hs).
  destruct (body x o (s, u)) as [[[]|e] [s' u']]; [|done].
  apply IH; [|done]. intros y Hy. apply H. by right.
Qed.

End loops.

Lemma try_each_app {S A E} (body : A → M S (result unit E)) l1 l2 o su :
  try_each (l1 ++ l2) body o su =
  match try_each l1 body o su with
  | (Ok _, su') => try_each l2 body o su'
  | (Err e, su') => (Err e, su')
  end.
Proof.
  revert su. induction l1 as [|x l1 IH]; intros [s u]; [done|].
  rewrite <- app_comm_cons, !try_each_cons.
  destruct (body x o (s, u)) as [[[]|e] su']; [apply IH|done].
Qed.

(** A list that grows by chunks, as it is after each. *)
Fixpoint growing {A} (l : list A) (chunks : list (list A)) : list (list A) :=
  match chunks with
  | [] => []
  | c :: cs => (l ++ c) :: growing (l ++ c) cs
  end.

Lemma growing_app {A} (l : list A) cs1 cs2 :
  growing l (cs1 ++ cs2) = growing l cs1 ++ growing (l ++ concat cs1) cs2.
Proof.
  revert l. induction cs1 as [|c cs1 IH]; intros l; simpl; [by rewrite app_nil_r|].
  by rewrite IH, <- app_assoc.
Qed.

(** What a publication does to the outbox. *)
Lemma js_publish_run {E} subject (ev : E) o sent u :
  let r := js_publish subject ev o (sent, u) in
  match or_fault o (us_io u) with
  | Some f => r.1 = Err f ∧ r.2.1 = sent
  | None => r.1 = Ok tt ∧ r.2.1 = sent ++ [(subject, ev)]
  end.
Proof. unfold js_publish, mbind, M_bind, io. simpl. by destruct (or_fault o (us_io u)). Qed.
