(* ===== verification/Watcher.v ===== *)
(** * The file watcher (crates/orion-file-watcher)

    Tails files by polling: a cursor per path, rewound when the file shrank, and one
    queue message per line read.  What a poll sees of the file system is an input:
    the length the metadata reports and the bytes a read of the file gives. *)

From Stdlib Require Import ZArith Lia Bool Ascii.
From stdpp Require Import base list gmap strings pretty.
From S2P Require Import Prelude Text Types Effect Parse Store Outbox.

Record FileEvent : Type := {
  fe_path : string;
  fe_line : string;
  fe_at : string;
  fe_subject : string
}.

Record Cursor : Type := { offset : nat }.
Definition Cursor_default : Cursor := {| offset := 0 |}.

(** [Cursor::advance]: where to read from, and whether the file was rotated. *)
Definition advance (c : Cursor) (new_size : nat) : nat * bool :=
  if new_size <? offset c then (0, true) else (offset c, false).

(** [CursorMap]: the key is the path's text, lossily decoded. *)
Notation CursorMap := (gmap string Cursor).
Definition CursorMap_get (m : CursorMap) (path : string) : Cursor :=
  default Cursor_default (m !! from_utf8_lossy path).
Definition CursorMap_update (m : CursorMap) (path : string) (off : nat) : CursorMap :=
  <[from_utf8_lossy path := {| offset := off |}]> m.

Definition line_end (c : ascii) : bool := Ascii.eqb c newline || Ascii.eqb c carriage_return.

Section watcher.
Context {T : Rfc3339}.

Definition make_event (subject path line : string) (at_ : Instant) : FileEvent :=
  {| fe_path := from_utf8_lossy path;
     fe_line := trim_end_matches line_end line;
     fe_at := to_rfc3339 at_;
     fe_subject := subject |}.

Record Watcher : Type := {
  w_cursors : CursorMap;
  w_sent : Outbox FileEvent
}.
Definition set_cursors (m : CursorMap) (w : Watcher) : Watcher :=
  {| w_cursors := m; w_sent := w_sent w |}.
Definition set_sent (l : Outbox FileEvent) (w : Watcher) : Watcher :=
  {| w_cursors := w_cursors w; w_sent := l |}.

(** What the file system answers: the length in the metadata, if the file exists,
    and the bytes of the file when it is opened, sought and read. *)
Record FileView : Type := {
  fv_len : option nat;
  fv_bytes : result string Fault
}.

(** [main]: the paths of the command line, or of $WATCH_PATHS. *)
Definition watch_paths (paths : list string) (env : option string) : result (list string) string :=
  let paths := match paths, env with
               | [], Some s => split_on (ascii_of_N 58) s
               | _, _ => paths
               end in
  match paths with
  | [] => Err "no paths to watch — pass --path or set WATCH_PATHS"
  | _ => Ok paths
  end.

(** The cursors start at the current sizes unless [--from-start] is given. *)
Definition seed_cursors (from_start : bool) (views : list (string * FileView)) : CursorMap :=
  if from_start then ∅
  else foldl (λ m '(p, v), match fv_len v with
                           | Some n => CursorMap_update m p n
                           | None => m
                           end) ∅ views.

(** One line: skipped when blank, else published. *)
Definition publish_line (subject path line : string) : M Watcher (result unit Fault) :=
  if bool_decide (trim line = EmptyString) then mret (Ok tt)
  else t ← now; zoom w_sent set_sent (js_publish subject (make_event subject path line t)).

Definition poll_one (path : string) (v : FileView) (subject : string)
    : M Watcher (result unit Fault) :=
  match fv_len v with
  | None => mret (Ok tt)
  | Some size =>
      w ← get;
      let cur := CursorMap_get (w_cursors w) path in
      let '(start, _) := advance cur size in
      if size <=? start then mret (Ok tt)
      else match fv_bytes v with
           | Err e => mret (Err e)
           | Ok bytes =>
               let buf := drop_str start bytes in
               _ ← modify (set_cursors
                     (CursorMap_update (w_cursors w) path (start + String.length buf)));
               try_each (split_inclusive newline (from_utf8_lossy buf))
                 (publish_line subject path)
           end
  end.

(** One tick of [main]'s loop: a poll error is only a warning. *)
Definition watch_tick (subject : string) (views : list (string * FileView)) : M Watcher unit :=
  for_each views (λ '(p, v), _ ← poll_one p v subject; mret tt).

Fixpoint watch_run (subject : string) (ticks : list (list (string * FileView))) : M Watcher unit :=
  match ticks with
  | [] => mret tt
  | t :: ticks' => _ ← watch_tick subject t; watch_run subject ticks'
  end.

End watcher.

(** ** Specification

    The lines a text stands for: its non-blank lines, without their terminators. *)
Definition tail_lines (text : string) : list string :=
  trim_end_matches line_end <$>
    filter (λ l, trim l ≠ EmptyString) (split_inclusive newline text).

Definition sent_lines (w : Watcher) : list string := (λ m, fe_line m.2) <$> w_sent w.

(** The contents a growing file has at successive polls. *)
Fixpoint grow (content : string) (chunks : list string) : list string :=
  match chunks with
  | [] => []
  | c :: cs => (content +:+ c) :: grow (content +:+ c) cs
  end.

Definition view_of (content : string) : FileView :=
  {| fv_len := Some (String.length content); fv_bytes := Ok content |}.

(** Text of whole lines. *)
Definition whole_lines (s : string) : Prop :=
  s = EmptyString ∨ ∃ s', s = s' +:+ String newline EmptyString.

(** ** Lemmas *)

Lemma split_inclusive_nonempty c s : s ≠ EmptyString → split_inclusive c s ≠ [].
Proof.
  destruct s as [|a s]; [done|]. intros _. simpl. destruct (Ascii.eqb a c); [done|].
  by destruct (split_inclusive c s).
Qed.

Lemma whole_lines_cons c s : whole_lines (String c s) → c = newline ∧ s = EmptyString ∨ s ≠ EmptyString ∧ whole_lines s.
Proof.
  intros [?|([|c' s'] & H)]; [done|..].
  - autorewrite with orion_str in H. injection H as -> ->. by left.
  - autorewrite with orion_str in H. injection H as -> ->. right. split; [|right; eauto].
    destruct s'; autorewrite with orion_str; done.
Qed.

Lemma split_inclusive_whole a b :
  whole_lines a →
  split_inclusive newline (a +:+ b) = split_inclusive newline a ++ split_inclusive newline b.
Proof.
  induction a as [|c a IH]; intros Hw; [by rewrite string_app_empty|].
  rewrite string_app_cons. apply whole_lines_cons in Hw as [[-> ->]|[Hne Hw]].
  { by rewrite string_app_empty. }
  cbn [split_inclusive]. rewrite IH by done.
  destruct (Ascii.eqb c newline); [done|].
  apply split_inclusive_nonempty with (c := newline) in Hne.
  by destruct (split_inclusive newline a).
Qed.

Lemma tail_lines_whole a b : whole_lines a → tail_lines (a +:+ b) = tail_lines a ++ tail_lines b.
Proof. intros H. unfold tail_lines. by rewrite split_inclusive_whole, filter_app, fmap_app. Qed.

(** Valid UTF-8 is decoded as it is. *)
Lemma take_cont_app n s ok l r :
  take_cont n s = (ok, l, r) → s = l +:+ r ∧ String.length r ≤ String.length s.
Proof.
  revert s ok l r. induction n as [|n IH]; intros s ok l r; simpl.
  { intros [= <- <- <-]. by rewrite string_app_empty. }
  destruct s as [|c s]; [by intros [= <- <- <-]|].
  destruct (byte_in 128 191 c); [|by intros [= <- <- <-]; rewrite string_app_empty].
  destruct (take_cont n s) as [[ok' l'] r'] eqn:E. intros [= <- <- <-].
  apply IH in E as [-> ?]. rewrite string_app_cons. split; [done|]. simpl. lia.
Qed.

Lemma utf8_step_app c s ch r :
  utf8_step c s = (Some ch, r) → String c s = ch +:+ r ∧ String.length r ≤ String.length s.
Proof.
  unfold utf8_step. destruct (_ <? _)%N.
  { intros [= <- <-]. by rewrite string_app_cons, string_app_empty. }
  destruct (lead_info c) as [[[lo hi] more]|]; [|done]. destruct s as [|d s]; [done|].
  destruct (byte_in lo hi d); [|done].
  destruct (take_cont more s) as [[[] l] r'] eqn:E; [|done]. intros [= <- <-].
  apply take_cont_app in E as [-> ?]. rewrite !string_app_cons. split; [done|]. simpl. lia.
Qed.

Lemma lossy_go_valid n s :
  String.length s ≤ n → utf8_valid_go n s = true → lossy_go n s = s.
Proof.
  revert s. induction n as [|n IH]; intros [|c s] Hl; simpl in *; [done|lia|done|].
  destruct (utf8_step c s) as [[ch|] r] eqn:E; [|done]. apply utf8_step_app in E as [-> ?].
  simpl. intros Hv. rewrite IH by (done || lia). done.
Qed.

Lemma from_utf8_lossy_valid s : from_utf8 s = Some s → from_utf8_lossy s = s.
Proof.
  unfold from_utf8, from_utf8_lossy. destruct (utf8_valid_go _ _) eqn:E; [|done].
  intros _. by apply lossy_go_valid.
Qed.

Section polls.
Context {T : Rfc3339} (o : Oracle) (subject path : string).

Definition piece_lines (piece : string) : list string :=
  if bool_decide (trim piece = EmptyString) then [] else [trim_end_matches line_end piece].

Lemma piece_lines_all pieces :
  pieces ≫= piece_lines =
  trim_end_matches line_end <$> filter (λ l, trim l ≠ EmptyString) pieces.
Proof.
  induction pieces as [|l ls IH]; [done|]. csimpl. rewrite IH. unfold piece_lines.
  rewrite filter_cons. case_bool_decide; by destruct (decide _).
Qed.

Lemma publish_line_run line w u :
  trim line ≠ EmptyString →
  let r := publish_line subject path line o (w, u) in
  match or_fault o (us_io u) with
  | Some f => r.1 = Err f ∧ r.2.1 = w
  | None => r.1 = Ok tt ∧ r.2.1 = set_sent (w_sent w ++
      [(subject, make_event subject path line (or_clock o (us_clock u)))]) w
  end.
Proof.
  intros Hl. unfold publish_line. rewrite bool_decide_eq_false_2 by done.
  unfold mbind, M_bind, zoom, now. cbn [fst snd].
  destruct (js_publish _ _ _ _) as [r [l u']] eqn:E.
  epose proof (js_publish_run _ _ _ _ _) as HP. erewrite E in HP. simpl in HP.
  destruct (or_fault o (us_io u)); destruct HP as [-> ->]; [|done]. by destruct w.
Qed.

Lemma publish_line_blank line w u :
  trim line = EmptyString → publish_line subject path line o (w, u) = (Ok tt, (w, u)).
Proof. intros Hl. unfold publish_line. by rewrite bool_decide_eq_true_2. Qed.

Lemma publish_line_emits : emits sent_lines piece_lines o (publish_line subject path).
Proof.
  intros line w u. unfold piece_lines. case_bool_decide as Hl.
  { rewrite publish_line_blank by done. by rewrite app_nil_r. }
  pose proof (publish_line_run line w u Hl) as H. cbv zeta in *.
  destruct (or_fault o (us_io u)); destruct H as [-> ->]; [done|].
  unfold sent_lines. simpl. by rewrite fmap_app.
Qed.

Lemma publish_line_succeeds : fault_free o → succeeds o (publish_line subject path).
Proof.
  intros Hf line w u. destruct (decide (trim line = EmptyString)) as [Hl|Hl].
  { by rewrite publish_line_blank. }
  pose proof (publish_line_run line w u Hl) as H. rewrite Hf in H. apply H.
Qed.

(** Publishing leaves the cursors alone. *)
Lemma publish_line_cursors line w u :
  w_cursors (publish_line subject path line o (w, u)).2.1 = w_cursors w.
Proof.
  destruct (decide (trim line = EmptyString)) as [Hl|Hl].
  { by rewrite publish_line_blank. }
  pose proof (publish_line_run line w u Hl) as H. cbv zeta in H.
  by destruct (or_fault o (us_io u)); destruct H as [_ ->].
Qed.

Lemma publish_lines_cursors ls w u :
  w_cursors (try_each ls (publish_line subject path) o (w, u)).2.1 = w_cursors w.
Proof.
  revert w u. induction ls as [|l ls IH]; intros w u; [done|]. rewrite try_each_cons.
  pose proof (publish_line_cursors l w u) as H.
  destruct (publish_line _ _ _ _ _) as [[[]|e] [w' u']]; simpl in *; [|done]. by rewrite IH.
Qed.

(** A poll of a file that did not shrink. *)
Lemma poll_one_eq content off w u :
  CursorMap_get (w_cursors w) path = {| offset := off |} → off ≤ String.length content →
  poll_one path (view_of content) subject o (w, u) =
  if String.length content <=? off then (Ok tt, (w, u))
  else try_each (split_inclusive newline (from_utf8_lossy (drop_str off content)))
         (publish_line subject path) o
         (set_cursors (CursorMap_update (w_cursors w) path
            (off + String.length (drop_str off content))) w, u).
Proof.
  intros Hc Hoff. unfold poll_one, view_of. cbn [fv_len fv_bytes].
  unfold mbind, M_bind, get, modify. rewrite Hc. unfold advance. cbn [offset].
  rewrite (proj2 (Nat.ltb_ge _ _)) by done. by destruct (_ <=? _).
Qed.

Lemma CursorMap_get_update (m : CursorMap) off :
  CursorMap_get (CursorMap_update m path off) path = {| offset := off |}.
Proof. unfold CursorMap_get, CursorMap_update. by rewrite lookup_insert_eq. Qed.

(** A poll after the file grew by [c]. *)
Lemma poll_grown before c w u :
  CursorMap_get (w_cursors w) path = {| offset := String.length before |} →
  from_utf8 c = Some c →
  let r := poll_one path (view_of (before +:+ c)) subject o (w, u) in
  CursorMap_get (w_cursors r.2.1) path = {| offset := String.length (before +:+ c) |} ∧
  ∃ k, sent_lines r.2.1 = sent_lines w ++ (take k (split_inclusive newline c) ≫= piece_lines) ∧
       (fault_free o → k = length (split_inclusive newline c)).
Proof.
  intros Hc Hv. rewrite (poll_one_eq _ _ _ _ Hc), drop_str_app, string_length_app
    by (rewrite string_length_app; lia).
  destruct (Nat.leb_spec (String.length before + String.length c) (String.length before)) as [Hz|Hz].
  - destruct c; simpl in *; [|lia]. rewrite Nat.add_0_r. split; [done|].
    exists 0. by rewrite app_nil_r.
  - rewrite from_utf8_lossy_valid by done.
    set (w' := set_cursors _ w). split.
    { rewrite publish_lines_cursors. apply CursorMap_get_update. }
    destruct (try_each_prefix sent_lines piece_lines o (publish_line subject path)
      (split_inclusive newline c) w' u publish_line_emits) as (k & Hk & Hl).
    exists k. split; [exact Hk|]. intros Hf. apply Hl.
    apply (try_each_all sent_lines piece_lines); [apply publish_line_emits|].
    by apply publish_line_succeeds.
Qed.

Lemma watch_run_one v ticks wu :
  watch_run subject ([(path, v)] :: ticks) o wu =
  watch_run subject ticks o (poll_one path v subject o wu).2.
Proof.
  cbn [watch_run]. unfold watch_tick, for_each, mbind, M_bind, mret, M_ret.
  by destruct (poll_one path v subject o wu) as [r wu'].
Qed.

(** The polls of a growing file, one per tick. *)
Lemma watch_grown before chunks w u :
  CursorMap_get (w_cursors w) path = {| offset := String.length before |} →
  Forall (λ c, from_utf8 c = Some c) chunks →
  let w' := (watch_run subject ((λ c, [(path, view_of c)]) <$> grow before chunks) o (w, u)).2.1 in
  (∃ l, sent_lines w' = sent_lines w ++ l ∧ l `sublist_of` (chunks ≫= tail_lines)) ∧
  (fault_free o → sent_lines w' = sent_lines w ++ (chunks ≫= tail_lines)).
Proof.
  intros Hc Hv. revert before w u Hc. induction Hv as [|c cs Hcv Hv IH]; intros before w u Hc.
  { simpl. split; [exists []|]; by rewrite ?app_nil_r. }
  cbn [grow]. rewrite fmap_cons, watch_run_one.
  pose proof (poll_grown before c w u Hc Hcv) as [Hc' (k & Hk & Hl)].
  destruct (poll_one path (view_of (before +:+ c)) subject o (w, u)) as [r [w1 u1]].
  cbn [fst snd] in *. specialize (IH (before +:+ c) w1 u1 Hc') as [(l & Hw & Hs) Hfree].
  rewrite bind_cons. split.
  - rewrite Hw, Hk, <- app_assoc. eexists. split; [done|]. apply sublist_app; [|done].
    unfold tail_lines. rewrite <- piece_lines_all.
    rewrite <- (take_drop k (split_inclusive newline c)) at 2. rewrite bind_app.
    by apply sublist_inserts_r.
  - intros Hf. rewrite Hfree, Hk, (Hl Hf), firstn_all, piece_lines_all, <- app_assoc by done.
    done.
Qed.

End polls.

Lemma whole_lines_concat chunks :
  Forall whole_lines chunks →
  chunks ≫= tail_lines = tail_lines (foldr String.append EmptyString chunks).
Proof.
  induction 1 as [|c cs Hc Hcs IH]; [done|]. rewrite bind_cons, IH. simpl.
  by rewrite tail_lines_whole.
Qed.

(** ** Claims *)

(** C28: a file that only grows, by chunks of valid UTF-8, is tailed at most once and in
    order.  Whatever fails, the lines published for the chunks the polls see are a subsequence of the
    non-blank lines of those chunks; when no publication fails they are all of them,
    and if each chunk is made of whole lines they are exactly the non-blank lines of
    the text added to the file. *)
Theorem watcher_tails_growing_file {T : Rfc3339} (o : Oracle) (subject path before : string)
    (chunks : list string) (w : Watcher) (u : Used)
    (Hc : CursorMap_get (w_cursors w) path = {| offset := String.length before |})
    (Hv : Forall (λ c, from_utf8 c = Some c) chunks) :
  let w' := (watch_run subject ((λ c, [(path, view_of c)]) <$> grow before chunks) o (w, u)).2.1 in
  (∃ l, sent_lines w' = sent_lines w ++ l ∧ l `sublist_of` (chunks ≫= tail_lines)) ∧
  (fault_free o → sent_lines w' = sent_lines w ++ (chunks ≫= tail_lines)) ∧
  (fault_free o → Forall whole_lines chunks →
     sent_lines w' = sent_lines w ++ tail_lines (foldr String.append EmptyString chunks)).
Proof.
  destruct (watch_grown o subject path before chunks w u Hc Hv) as [H1 H2].
  split_and!; [done..|]. intros Hf Hw. rewrite <- whole_lines_concat by done. by apply H2.
Qed.

Definition nl_str : string := String newline EmptyString.

Lemma watcher_tails_growing_file_witness :
  sent_lines (watch_run (T := demo_clock) "orion.queue.logs"
    ((λ c, [("/var/log/x", view_of c)]) <$> grow ("old" +:+ nl_str)
       ["one" +:+ nl_str +:+ "  " +:+ nl_str +:+ "two" +:+ nl_str; "three" +:+ nl_str])
    quiet_oracle
    ({| w_cursors := CursorMap_update ∅ "/var/log/x" 4; w_sent := [] |}, Used_init)).2.1
  = ["one"; "two"; "three"].
Proof.
  destruct (watcher_tails_growing_file (T := demo_clock) quiet_oracle "orion.queue.logs"
    "/var/log/x" ("old" +:+ nl_str)
    ["one" +:+ nl_str +:+ "  " +:+ nl_str +:+ "two" +:+ nl_str; "three" +:+ nl_str]
    {| w_cursors := CursorMap_update ∅ "/var/log/x" 4; w_sent := [] |} Used_init)
    as (_ & _ & H).
  - vm_compute. reflexivity.
  - repeat constructor; vm_compute; reflexivity.
  - rewrite H; [vm_compute; reflexivity|apply quiet_fault_free|].
    apply Forall_cons; split; [right|apply Forall_singleton; right].
    + exists ("one" +:+ nl_str +:+ "  " +:+ nl_str +:+ "two"). reflexivity.
    + exists "three". reflexivity.
Defined.

(** A line the writer had not finished at a poll is published in two pieces. *)
Theorem torn_line {T : Rfc3339} (o : Oracle) (subject path a b : string) (w : Watcher) (u : Used)
    (Hf : fault_free o)
    (Hc : CursorMap_get (w_cursors w) path = {| offset := 0 |})
    (Ha : from_utf8 a = Some a) (Hb : from_utf8 (b +:+ nl_str) = Some (b +:+ nl_str)) :
  sent_lines (watch_run subject ((λ c, [(path, view_of c)]) <$> [a; a +:+ b +:+ nl_str])
    o (w, u)).2.1 = sent_lines w ++ tail_lines a ++ tail_lines (b +:+ nl_str).
Proof.
  destruct (watch_grown o subject path EmptyString [a; b +:+ nl_str] w u Hc) as [_ H];
    [by repeat constructor|].
  cbn [grow] in H. rewrite !string_app_empty in H. rewrite H by done.
  rewrite !bind_cons. cbn [mbind list_bind]. by rewrite app_nil_r.
Qed.
