(* ===== verification/Scrape.v ===== *)
(** * The Prometheus scraper (crates/orion-prom-scrape)

    Parses a scrape body into samples, publishes one message per sample, and turns
    the alerts Alertmanager posts into messages. *)

From Stdlib Require Import ZArith Lia Bool Ascii.
From stdpp Require Import base list gmap strings pretty.
From S2P Require Import Prelude Text Types Effect Parse Metrics Store Outbox.

Definition ch (n : N) : ascii := ascii_of_N n.
Definition quote_mark (c : ascii) : bool := Ascii.eqb c (ch 34).

(** ** Parsing (lib.rs)

    [Value::Object] of strings: the map from label names to values. *)
Notation Labels := (gmap string string).

Definition parse_label (obj : Labels) (kv : string) : Labels :=
  match split_once "=" (trim kv) with
  | Some (k, v) => <[trim k := trim_matches quote_mark (trim v)]> obj
  | None => obj
  end.

Definition parse_labels (s : string) : Labels := foldl parse_label ∅ (split_on (ch 44) s).

(** A slice whose end precedes its start panics. *)
Inductive Panic : Type := SliceOutOfOrder (first last : nat).

Definition slice (first last : nat) (s : string) : result string Panic :=
  if last <? first then Err (SliceOutOfOrder first last)
  else Ok (take_str (last - first) (drop_str first s)).

Definition parse_metric_head (head : string) : result (string * Labels) Panic :=
  match find_char (ch 123) head, rfind_char (ch 125) head with
  | Some start, Some end_ =>
      let? labels_str := slice (start + 1) end_ head in
      Ok (trim (take_str start head), parse_labels labels_str)
  | _, _ => Ok (trim head, ∅)
  end.

Notation Sample := (string * Labels * f64)%type.

(** One line: skipped ([None]), a sample, or a panic. *)
Definition parse_line (line : string) : option (result Sample Panic) :=
  let trimmed := trim line in
  if bool_decide (trimmed = EmptyString) || starts_with "#" trimmed then None
  else match rsplit_once space trimmed with
       | None => None
       | Some (head, val) =>
           match parse_f64 val with
           | None => None
           | Some value => Some (match parse_metric_head head with
                                 | Ok (name, labels) => Ok (name, labels, value)
                                 | Err p => Err p
                                 end)
           end
       end.

Fixpoint parse_scrape_lines (ls : list string) : result (list Sample) Panic :=
  match ls with
  | [] => Ok []
  | l :: ls' =>
      match parse_line l with
      | None => parse_scrape_lines ls'
      | Some r => let? s := r in let? rest := parse_scrape_lines ls' in Ok (s :: rest)
      end
  end.

Definition parse_scrape (body : string) : result (list Sample) Panic :=
  parse_scrape_lines (lines body).

(** ** Scraping (main.rs) *)

Record ScrapedSample : Type := {
  ss_at : string;
  ss_source : string;
  ss_name : string;
  ss_labels : Labels;
  ss_value : f64
}.

(** A comma-separated list of targets; the period is at least a second. *)
Definition comma_list (s : string) : list string :=
  filter (λ t, t ≠ EmptyString) (trim <$> split_on (ch 44) s).

Definition interval_seconds (dflt : Z) (env : option string) : Z :=
  Z.max 1 (match env with
           | Some s => default dflt (parse_u64 s)
           | None => dflt
           end).

(** What a GET answers: an error, or a status with its body (which may fail to
    arrive). *)
Inductive HttpReply : Type :=
| Unreachable
| Reply (success : bool) (text : option string).

(** A panic, or a failed publication, ends the process. *)
Inductive ScrapeExit : Type :=
| Panicked (p : Panic)
| PublishFailed (f : Fault).

Section scrape.
Context {T : Rfc3339}.

Definition publish_sample (subject url now_ : string) (s : Sample)
    : M (Outbox ScrapedSample) (result unit ScrapeExit) :=
  let '(name, labels, value) := s in
  r ← js_publish subject {| ss_at := now_; ss_source := url; ss_name := name;
                            ss_labels := labels; ss_value := value |};
  mret (match r with Ok _ => Ok tt | Err f => Err (PublishFailed f) end).

Definition scrape_target (subject : string) (target : string * HttpReply)
    : M (Outbox ScrapedSample) (result unit ScrapeExit) :=
  let '(url, reply) := target in
  match reply with
  | Reply true (Some body) =>
      match parse_scrape body with
      | Err p => mret (Err (Panicked p))
      | Ok parsed =>
          t ← now;
          try_each parsed (publish_sample subject url (to_rfc3339 t))
      end
  | _ => mret (Ok tt)
  end.

Definition scrape_tick (subject : string) (targets : list (string * HttpReply))
    : M (Outbox ScrapedSample) (result unit ScrapeExit) :=
  try_each targets (scrape_target subject).

End scrape.

(** ** Alertmanager (lib.rs, main.rs) *)

Section alerts.
Context {J : SerdeJson} {T : Rfc3339}.

Record Alert : Type := {
  al_status : string;
  al_labels : Value;
  al_annotations : Value;
  al_starts_at : string
}.

Record AlertmanagerPayload : Type := {
  ap_status : string;
  ap_receiver : string;
  ap_alerts : list Alert
}.

(** The object that is published for an alert. *)
Record AlertBody : Type := {
  ab_receiver : string;
  ab_status : string;
  ab_alert_status : string;
  ab_labels : Value;
  ab_annotations : Value;
  ab_starts_at : string;
  ab_at : string;
  ab_subject : string
}.

Definition alert_body (subject : string) (p : AlertmanagerPayload) (a : Alert) (t : Instant)
    : AlertBody :=
  {| ab_receiver := ap_receiver p; ab_status := ap_status p; ab_alert_status := al_status a;
     ab_labels := al_labels a; ab_annotations := al_annotations a;
     ab_starts_at := al_starts_at a; ab_at := to_rfc3339 t; ab_subject := subject |}.

(** The handler answers 200 whatever the publications did. *)
Definition receive_alerts (subject : string) (p : AlertmanagerPayload)
    : M (Outbox AlertBody) Z :=
  _ ← for_each (ap_alerts p) (λ a,
        t ← now;
        r ← io;
        match r with
        | Some _ => mret tt
        | None => modify (λ sent, sent ++ [(subject, alert_body subject p a t)])
        end);
  mret 200%Z.

End alerts.

(** ** Lemmas *)

Lemma rsplit_once_char c a b :
  has_char c b = false → rsplit_once c (a +:+ String c b) = Some (a, b).
Proof.
  intros Hb. unfold rsplit_once.
  rewrite string_rev_distr, string_rev_cons, string_app_assoc, string_app_cons, string_app_empty.
  rewrite split_once_char by (by rewrite has_char_rev). simpl. by rewrite !string_rev_involutive.
Qed.

(** A numeral is read as the nearest double. *)
Lemma take_digits_all s : all_chars is_ascii_digit s = true → take_digits s = (s, EmptyString).
Proof.
  induction s as [|c s IH]; [done|]. simpl. intros [-> H]%andb_true_iff. by rewrite IH.
Qed.

Lemma pretty_digits (x : N) : all_chars is_ascii_digit (pretty x) = true.
Proof.
  unfold pretty, pretty_N. case_decide; [done|]. rewrite pretty_N_go_all; [done|].
  intros y Hy.
  assert (y = 0 ∨ y = 1 ∨ y = 2 ∨ y = 3 ∨ y = 4 ∨ y = 5 ∨ y = 6 ∨ y = 7 ∨ y = 8 ∨ y = 9)%N
    by lia. by destruct_or!; subst.
Qed.

Lemma parse_unsigned_f64_digit c s :
  is_ascii_digit c = true → parse_unsigned_f64 (String c s) = parse_decimal (String c s).
Proof.
  intros Hc. unfold parse_unsigned_f64.
  destruct c as [[] [] [] [] [] [] [] []]; first [discriminate Hc|reflexivity].
Qed.

Lemma parse_f64_digit c s :
  is_ascii_digit c = true → parse_f64 (String c s) = parse_decimal (String c s).
Proof.
  intros Hc. rewrite <- parse_unsigned_f64_digit by done.
  destruct c as [[] [] [] [] [] [] [] []]; first [discriminate Hc|reflexivity].
Qed.

Lemma parse_f64_pretty (z : Z) : (0 <= z)%Z → parse_f64 (pretty z) = Some (f64_of_Z z).
Proof.
  intros Hz. assert (pretty z = pretty (Z.to_N z)) as -> by (destruct z; [done|done|lia]).
  pose proof (pretty_digits (Z.to_N z)) as Hd. pose proof (parse_digits_pretty (Z.to_N z)) as Hp.
  destruct (pretty (Z.to_N z)) as [|c s]; [done|].
  rewrite parse_f64_digit by (by apply andb_true_iff in Hd as [? _]). unfold parse_decimal.
  rewrite take_digits_all by done. rewrite Hp. simpl. f_equal. unfold f64_of_decimal.
  simpl. by rewrite Z.mul_1_r, Z2N.id.
Qed.

(** A line made of a head, a space and a solid value. *)
Lemma trim_line c head val :
  solid c = true → all_chars solid val = true → val ≠ EmptyString →
  trim (String c head +:+ val) = String c head +:+ val.
Proof.
  intros Hc Hv Hne. unfold trim. rewrite string_app_cons, trim_start_solid by done.
  rewrite <- string_app_cons. rewrite <- all_chars_rev in Hv.
  destruct (string_rev val) as [|b r] eqn:E.
  { apply (f_equal string_rev) in E. by rewrite string_rev_involutive in E. }
  apply andb_true_iff in Hv as [Hb _].
  eapply (trim_end_solid b _ (r +:+ string_rev (String c head))); [done|].
  by rewrite string_rev_distr, E, string_app_cons.
Qed.

Lemma pretty_nonempty (z : Z) : (0 <= z)%Z → pretty z ≠ EmptyString.
Proof. intros Hz E. pose proof (parse_f64_pretty z Hz) as H. by rewrite E in H. Qed.

Lemma parse_sample_line c head z r :
  solid c = true → Ascii.eqb c (ch 35) = false → (0 <= z)%Z →
  parse_metric_head (String c head) = Ok r →
  parse_line ((String c head +:+ String space EmptyString) +:+ pretty z) =
  Some (Ok (r.1, r.2, f64_of_Z z)).
Proof.
  intros Hc Hh Hz Hr. unfold parse_line.
  rewrite string_app_cons, trim_line by (done || apply pretty_solid || by apply pretty_nonempty).
  assert (String c (head +:+ String space EmptyString) +:+ pretty z =
          String c head +:+ String space (pretty z)) as ->
    by (by rewrite !string_app_cons, string_app_assoc, string_app_cons, string_app_empty).
  rewrite rsplit_once_char by (by apply pretty_Z_chars).
  rewrite parse_f64_pretty, Hr by done. rewrite string_app_cons.
  rewrite bool_decide_eq_false_2 by done.
  assert (starts_with "#" (String c (head +:+ String space (pretty z))) = false) as ->.
  { unfold starts_with, strip_prefix. change "#"%char with (ch 35).
    by rewrite Ascii.eqb_sym, Hh. }
  by destruct r.
Qed.

Lemma metric_lines_is_line m : Forall is_line (metric_lines m).
Proof.
  unfold metric_lines, is_line. repeat (constructor; [|]); [..|constructor].
  all: rewrite ?has_char_app; rewrite ?pretty_Z_chars by reflexivity; split; reflexivity.
Qed.

Lemma lines_format m : lines (format_prometheus m) = metric_lines m.
Proof.
  unfold format_prometheus. rewrite writeln_lines by apply metric_lines_ok.
  rewrite string_app_empty. apply lines_unlines, metric_lines_is_line.
Qed.

Lemma parse_lines_skip l ls :
  parse_line l = None → parse_scrape_lines (l :: ls) = parse_scrape_lines ls.
Proof. intros H. simpl. by rewrite H. Qed.

(** A head that starts with a character that is no blank and opens no comment. *)
Definition head_ok (head : string) : bool :=
  match head with String c _ => solid c && negb (Ascii.eqb c (ch 35)) | EmptyString => false end.

Lemma parse_lines_take head pre z name labels ls rest :
  pre = head +:+ String space EmptyString → head_ok head = true → (0 <= z)%Z →
  parse_metric_head head = Ok (name, labels) → parse_scrape_lines ls = Ok rest →
  parse_scrape_lines ((pre +:+ pretty z) :: ls) = Ok ((name, labels, f64_of_Z z) :: rest).
Proof.
  intros -> Hh Hz Hr Hls. destruct head as [|c head]; [done|].
  apply andb_true_iff in Hh as [Hc Hh%negb_true_iff]. cbn [parse_scrape_lines].
  erewrite parse_sample_line by done. simpl. by rewrite Hls.
Qed.

(** Nine counters that are not negative. *)
Definition counters (m : MetricsSnapshot) : list Z :=
  [uptime_seconds m; agents_total m; agents_live m; instances_alive m; instances_exited m;
   instances_failed m; health_healthy m; health_unhealthy m; schedule_fires_total m].

(** ** Claims *)

(** C29: the scraper reads the controller's own exposition text without loss: one
    sample per counter, in order, under its name, with its label when it has one, and
    with the double nearest to the counter. *)
Theorem scrape_reads_controller_metrics (m : MetricsSnapshot)
    (Hm : Forall (λ z, 0 <= z)%Z (counters m)) :
  parse_scrape (format_prometheus m) = Ok
    [ ("orion_controller_uptime_seconds", ∅, f64_of_Z (uptime_seconds m));
      ("orion_agents_total", ∅, f64_of_Z (agents_total m));
      ("orion_agents_live", ∅, f64_of_Z (agents_live m));
      ("orion_instances_alive", ∅, f64_of_Z (instances_alive m));
      ("orion_instances_exited", ∅, f64_of_Z (instances_exited m));
      ("orion_instances_failed", ∅, f64_of_Z (instances_failed m));
      ("orion_health_status", {["status" := "healthy"]}, f64_of_Z (health_healthy m));
      ("orion_health_status", {["status" := "unhealthy"]}, f64_of_Z (health_unhealthy m));
      ("orion_schedule_fires_total", ∅, f64_of_Z (schedule_fires_total m)) ].
Proof.
  unfold counters in Hm. rewrite !Forall_cons in Hm.
  destruct Hm as (?&?&?&?&?&?&?&?&?&_).
  unfold parse_scrape. rewrite lines_format. unfold metric_lines. rewrite <- !string_app_assoc.
  repeat lazymatch goal with
    | |- parse_scrape_lines ((?pre +:+ pretty _) :: _) = _ =>
        let p := eval vm_compute in (take_str (String.length pre - 1) pre) in
        apply (parse_lines_take p);
          [reflexivity|reflexivity|assumption|vm_compute; reflexivity|]
    | |- parse_scrape_lines (_ :: _) = _ => rewrite parse_lines_skip by (vm_compute; reflexivity)
    end.
  reflexivity.
Qed.

Definition demo_counters : MetricsSnapshot :=
  {| uptime_seconds := 42; agents_total := 3; agents_live := 2; instances_alive := 7;
     instances_exited := 1; instances_failed := 0; health_healthy := 4; health_unhealthy := 1;
     schedule_fires_total := 9 |}.

Lemma scrape_reads_controller_metrics_witness :
  ∃ l, parse_scrape (format_prometheus demo_counters) = Ok l ∧ length l = 9.
Proof.
  eexists. split; [apply (scrape_reads_controller_metrics demo_counters)|reflexivity].
  repeat constructor; discriminate.
Defined.

Lemma scrape_target_skips {T : Rfc3339} subject url reply o su :
  (∀ body, reply ≠ Reply true (Some body)) →
  scrape_target subject (url, reply) o su = (Ok tt, su).
Proof. intros H. destruct reply as [|[] [body|]]; try done. by destruct (H body). Qed.

Lemma find_char_app c a b :
  has_char c a = false → find_char c (a +:+ String c b) = Some (String.length a).
Proof.
  induction a as [|x a IH]; autorewrite with orion_str; simpl; [by rewrite Ascii.eqb_refl|].
  intros [-> H]%orb_false_iff. by rewrite IH.
Qed.

Lemma string_length_rev s : String.length (string_rev s) = String.length s.
Proof.
  induction s as [|c s IH]; [done|]. rewrite string_rev_cons, string_length_app, IH. simpl. lia.
Qed.

Lemma rfind_char_app c a b :
  has_char c b = false → rfind_char c (a +:+ String c b) = Some (String.length a).
Proof.
  intros Hb. unfold rfind_char.
  rewrite string_rev_distr, string_rev_cons, string_app_assoc, string_app_cons, string_app_empty.
  rewrite find_char_app by (by rewrite has_char_rev). simpl. f_equal.
  rewrite string_length_app, string_length_rev. simpl. lia.
Qed.

Lemma closed_before_open a b c :
  has_char (ch 123) (a +:+ String (ch 125) b) = false → has_char (ch 125) (b +:+ String (ch 123) c) = false →
  parse_metric_head (a +:+ String (ch 125) (b +:+ String (ch 123) c)) =
  Err (SliceOutOfOrder (String.length a + String.length b + 2) (String.length a)).
Proof.
  intros Ho Hc. unfold parse_metric_head. rewrite rfind_char_app by done.
  assert (a +:+ String (ch 125) (b +:+ String (ch 123) c) =
          (a +:+ String (ch 125) b) +:+ String (ch 123) c) as ->
    by (by rewrite string_app_assoc, string_app_cons).
  rewrite find_char_app by done. unfold slice. rewrite string_length_app. simpl.
  rewrite (proj2 (Nat.ltb_lt _ _)) by lia. simpl. do 2 f_equal. lia.
Qed.

(** A scrape body with a malformed label block ends the scraper.  A head whose
    only closing brace precedes its first opening brace is sliced out of order and
    panics; then the tick ends with the samples of the earlier targets only, whatever
    targets remain, where an unreachable target, a bad status or a body that does not
    arrive only skips its target. *)
Theorem malformed_labels_stop_scraper {T : Rfc3339} (o : Oracle) (subject url body : string)
    (before after : list (string * HttpReply)) (p : Panic) (a b c : string) su
    (Hp : parse_scrape body = Err p)
    (Ho : has_char (ch 123) (a +:+ String (ch 125) b) = false)
    (Hc : has_char (ch 125) (b +:+ String (ch 123) c) = false) :
  (∃ p', parse_metric_head (a +:+ String (ch 125) (b +:+ String (ch 123) c)) = Err p') ∧
  scrape_tick subject (before ++ (url, Reply true (Some body)) :: after) o su =
  match scrape_tick subject before o su with
  | (Ok _, su') => (Err (Panicked p), su')
  | (Err e, su') => (Err e, su')
  end ∧
  ∀ reply, (∀ text, reply ≠ Reply true (Some text)) →
    scrape_tick subject (before ++ (url, reply) :: after) o su =
    scrape_tick subject (before ++ after) o su.
Proof.
  split; [|split].
  - eexists. by apply closed_before_open.
  - unfold scrape_tick. rewrite try_each_app.
    destruct (try_each before _ o su) as [[[]|e] [s u]]; [|done].
    rewrite try_each_cons. unfold scrape_target at 1. by rewrite Hp.
  - intros reply Hr. unfold scrape_tick. rewrite !try_each_app.
    destruct (try_each before _ o su) as [[[]|e] [s u]]; [|done].
    rewrite try_each_cons. by rewrite scrape_target_skips.
Qed.

Definition bad_body : string := "up}x{ 1".

Lemma malformed_labels_stop_scraper_witness :
  (scrape_tick (T := demo_clock) "q" [("http://a", Reply true (Some bad_body));
     ("http://b", Reply true (Some "up 1"))] quiet_oracle ([], Used_init)).2.1 = [].
Proof.
  destruct (malformed_labels_stop_scraper (T := demo_clock) quiet_oracle "q" "http://a" bad_body []
    [("http://b", Reply true (Some "up 1"))] (SliceOutOfOrder 5 2) "up" "x" "" ([], Used_init))
    as (_ & H & _); [vm_compute; reflexivity..|].
  cbn [app] in H. rewrite H. reflexivity.
Defined.

(** A sample with a timestamp, which the exposition format allows, is read with the
    timestamp as its value and the value in its name. *)
Example timestamped_sample :
  parse_scrape "up 1 1700000000000" = Ok [("up 1", ∅, f64_of_Z 1700000000000)].
Proof. vm_compute. reflexivity. Qed.

(** A comma inside a label's value cuts it. *)
Example comma_in_label :
  parse_labels ("path=" +:+ String (ch 34) "/a,b" +:+ String (ch 34) EmptyString) =
  {["path" := "/a"]}.
Proof. vm_compute. reflexivity. Qed.
