(* ===== verification/Followers.v ===== *)
(** * Followers of the log archive (crates/orion-sidecar, crates/orion-opensearch-sink)

    Two processes that poll the controller's [/v1/logs-archive] with a time cursor:
    the sidecar republishes the lines that match a filter to a queue, the sink ships
    batches to OpenSearch.  The controller's side is [Api.get_logs_archive]. *)

From Stdlib Require Import ZArith Lia Bool Ascii Sorting.Sorted.
From stdpp Require Import base list gmap strings pretty sorting.
From S2P Require Import Prelude Text Types Effect Parse Store Controller Api Outbox.

(** ** Requests *)

(** A GET as reqwest sends it. *)
Record ArchiveRequest : Type := {
  aq_url : string;
  aq_query : list (string * string);
  aq_bearer : option string
}.

(** What came back: no answer, a status that is not 2xx, a body that does not decode,
    or the entries. *)
Inductive ArchiveReply : Type :=
| FetchFailed
| BadStatus
| DecodeFailed
| Entries (l : list LogArchiveEntry).

Definition is_slash (c : ascii) : bool := Ascii.eqb c (ascii_of_N 47).

Section requests.
Context {T : Rfc3339}.

Definition archive_request (controller kind name : string) (since : option Instant)
    (token : option string) : ArchiveRequest :=
  {| aq_url := trim_end_matches is_slash controller +:+ "/v1/logs-archive/" +:+ kind +:+ "/" +:+ name;
     aq_query := ("limit", "1000") ::
       match since with Some ts => [("since", to_rfc3339 ts)] | None => [] end;
     aq_bearer := token |}.

End requests.

(** ** The sidecar *)

Class RegexLib : Type := {
  Regex : Type;
  regex_new : string → result Regex string;
  is_match : Regex → string → bool
}.

Record SidecarEvent : Type := {
  se_source_service : string;
  se_stream : string;
  se_at : string;
  se_line : string;
  se_node_id : string;
  se_subject : string
}.

Record Sidecar : Type := {
  sc_since : option Instant;
  sc_sent : Outbox SidecarEvent
}.
Definition set_since (t : option Instant) (s : Sidecar) : Sidecar :=
  {| sc_since := t; sc_sent := sc_sent s |}.
Definition set_sidecar_sent (l : Outbox SidecarEvent) (s : Sidecar) : Sidecar :=
  {| sc_since := sc_since s; sc_sent := l |}.

Section sidecar.
Context {T : Rfc3339} {RX : RegexLib}.

Definition line_matches (filter : option Regex) (line : string) : bool :=
  match filter with Some r => is_match r line | None => true end.

Definition compile_filter (s : string) : result Regex string :=
  match regex_new s with Ok r => Ok r | Err e => Err ("filter regex: " +:+ e) end.

(** [SIDECAR_FILTER_REGEX]: absent or empty means no filter. *)
Definition sidecar_filter (env : option string) : result (option Regex) string :=
  match env with
  | Some (String _ _ as s) => let? r := compile_filter s in Ok (Some r)
  | _ => Ok None
  end.

Definition sidecar_event (subject : string) (e : LogArchiveEntry) : SidecarEvent :=
  {| se_source_service := la_name e; se_stream := la_stream e; se_at := to_rfc3339 (la_at e);
     se_line := la_line e; se_node_id := la_node_id e; se_subject := subject |}.

(** One entry: skipped, or the cursor moves and the line is published. *)
Definition sidecar_entry (filter : option Regex) (subject : string) (e : LogArchiveEntry)
    : M Sidecar (result unit Fault) :=
  if line_matches filter (la_line e) then
    _ ← modify (set_since (Some (la_at e)));
    zoom sc_sent set_sidecar_sent (js_publish subject (sidecar_event subject e))
  else mret (Ok tt).

Definition sidecar_tick (filter : option Regex) (subject : string) (reply : ArchiveReply)
    : M Sidecar (result unit Fault) :=
  match reply with
  | Entries entries => try_each (rev entries) (sidecar_entry filter subject)
  | _ => mret (Ok tt)
  end.

(** The loop: each tick asks with the cursor it has; a failed publication ends the
    process. *)
Definition sidecar_run (filter : option Regex) (subject : string)
    (fetches : list (option Instant → ArchiveReply)) : M Sidecar (result unit Fault) :=
  try_each fetches (λ fetch, s ← get; sidecar_tick filter subject (fetch (sc_since s))).

End sidecar.

(** ** The OpenSearch sink *)

Record LogDoc : Type := {
  ld_at : string;
  ld_kind : string;
  ld_name : string;
  ld_node_id : string;
  ld_stream : string;
  ld_line : string
}.

(** serde_json's text of the action line and of a document: one line each, since
    control characters are escaped. *)
Class BulkJson : Type := {
  index_json : string → string;
  doc_json : LogDoc → string;
  index_json_line : ∀ i, is_line (index_json i);
  doc_json_line : ∀ d, is_line (doc_json d)
}.

Definition build_bulk_body {B : BulkJson} (index : string) (docs : list LogDoc) : string :=
  foldl (λ body d, body +:+ index_json index +:+ String newline EmptyString
                        +:+ doc_json d +:+ String newline EmptyString) EmptyString docs.

(** The cursor per workload, the batches posted, and those whose POST failed. *)
Notation Cursors := (gmap string Instant).

Record Sink : Type := {
  sk_since : Cursors;
  sk_shipped : list string;
  sk_failed : list string
}.

Section sink.
Context {T : Rfc3339} {B : BulkJson}.

(** [since.entry(name).and_modify(...).or_insert(e.at)]. *)
Definition raise_cursor (name : string) (at_ : Instant) (since : Cursors) : Cursors :=
  match since !! name with
  | Some t => if (t <? at_)%Z then <[name := at_]> since else since
  | None => <[name := at_]> since
  end.

Definition log_doc (e : LogArchiveEntry) : LogDoc :=
  {| ld_at := to_rfc3339 (la_at e); ld_kind := la_kind e; ld_name := la_name e;
     ld_node_id := la_node_id e; ld_stream := la_stream e; ld_line := la_line e |}.

(** The entries of one workload, oldest first. *)
Definition sink_workload (acc : Cursors * list LogDoc) (name : string) (reply : ArchiveReply)
    : Cursors * list LogDoc :=
  match reply with
  | Entries entries =>
      foldl (λ '(since, batch) e, (raise_cursor name (la_at e) since, batch ++ [log_doc e]))
        acc (rev entries)
  | _ => acc
  end.

Definition sink_collect (names : list string) (fetch : string → option Instant → ArchiveReply)
    (since : Cursors) : Cursors * list LogDoc :=
  foldl (λ acc name, sink_workload acc name (fetch name (acc.1 !! name))) (since, []) names.

(** One tick: [ship] says whether the POST was answered with a 2xx. *)
Definition sink_tick (index : string) (names : list string)
    (fetch : string → option Instant → ArchiveReply) (ship : bool) (s : Sink) : Sink :=
  let '(since, batch) := sink_collect names fetch (sk_since s) in
  match batch with
  | [] => {| sk_since := since; sk_shipped := sk_shipped s; sk_failed := sk_failed s |}
  | _ =>
      let body := build_bulk_body index batch in
      {| sk_since := since;
         sk_shipped := if ship then sk_shipped s ++ [body] else sk_shipped s;
         sk_failed := if ship then sk_failed s else sk_failed s ++ [body] |}
  end.

End sink.

(** ** The controller's side

    What the archive answers to a follower that asks for 1000 lines. *)

Section controller_side.
Context {T : Rfc3339}.

Definition archive_reply (o : Oracle) (u : Used) (app : AppState) (kind name : string)
    (since : option Instant) : ArchiveReply :=
  match (get_logs_archive kind name (to_rfc3339 <$> since) (Some 1000%Z) o (app, u)).1 with
  | Ok es => Entries es
  | Err _ => BadStatus
  end.

(** The archive as a list of entries in the order they were appended. *)
Definition fetch (es : list LogArchiveEntry) (kind name : string) (since : option Instant)
    : ArchiveReply :=
  Entries (take 1000 (reverse (List.filter (wanted kind name since) es))).

Lemma archive_reply_fetch (valid : Instant → Prop) (L : Rfc3339Laws valid)
    o u app es kind name since :
  archive_rel valid (app_store app) es → or_fault o (us_io u) = None →
  (∀ ts, since = Some ts → valid ts) →
  archive_reply o u app kind name since = fetch es kind name since.
Proof.
  intros Hr Hf Hs. unfold archive_reply, get_logs_archive, fetch.
  assert (((to_rfc3339 <$> since) ≫= parse_from_rfc3339) = since) as ->.
  { destruct since as [ts|]; [|done]. simpl. by apply rfc3339_roundtrip, Hs. }
  unfold on_store, zoom, mbind, M_bind. simpl.
  pose proof (read_logs_run valid o (app_store app) u es kind name since 1000 Hr Hf Hs) as H.
  change (default default_archive_limit (Some 1000%Z)) with 1000%Z.
  destruct (read_logs kind name since 1000 o (app_store app, u)) as [r [d u']].
  simpl in H. by subst r.
Qed.

End controller_side.

(** ** Lemmas: the sidecar *)

Lemma rev_reverse {A} (l : list A) : rev l = reverse l.
Proof. apply rev_alt. Qed.

Section sidecar_facts.
Context {T : Rfc3339} {RX : RegexLib} (flt : option Regex) (subject source : string).

Definition matching (e : LogArchiveEntry) : bool := line_matches flt (la_line e).

(** The lines of the source that match, and when the last of them was written. *)
Definition matches (es : list LogArchiveEntry) : list LogArchiveEntry :=
  List.filter matching (List.filter (wanted "Service" source None) es).
Definition last_match (es : list LogArchiveEntry) : option Instant :=
  last (la_at <$> matches es).

Definition message (e : LogArchiveEntry) : string * SidecarEvent :=
  (subject, sidecar_event subject e).

Definition note (s : Sidecar) (e : LogArchiveEntry) : Sidecar :=
  if matching e then {| sc_since := Some (la_at e); sc_sent := sc_sent s ++ [message e] |} else s.

Lemma sidecar_entry_run o e s u :
  matching e = true →
  let r := sidecar_entry flt subject e o (s, u) in
  match or_fault o (us_io u) with
  | Some f => r.1 = Err f ∧ r.2.1 = set_since (Some (la_at e)) s
  | None => r.1 = Ok tt ∧ r.2.1 = note s e
  end.
Proof.
  intros Hm. unfold sidecar_entry, note. rewrite Hm. unfold matching in Hm. rewrite Hm.
  unfold mbind, M_bind, modify, zoom.
  destruct (js_publish _ _ _ _) as [r [l u']] eqn:E.
  epose proof (js_publish_run _ _ _ _ _) as HP. erewrite E in HP. simpl in HP.
  by destruct (or_fault o (us_io u)); destruct HP as [-> ->].
Qed.

Lemma sidecar_entry_skip o e s u :
  matching e = false → sidecar_entry flt subject e o (s, u) = (Ok tt, (s, u)).
Proof. unfold matching, sidecar_entry. by intros ->. Qed.

Lemma sidecar_entry_pure o e s u :
  fault_free o →
  (sidecar_entry flt subject e o (s, u)).1 = Ok tt ∧
  (sidecar_entry flt subject e o (s, u)).2.1 = note s e.
Proof.
  intros Hf. destruct (matching e) eqn:Hm.
  - pose proof (sidecar_entry_run o e s u Hm) as H. by rewrite Hf in H.
  - rewrite sidecar_entry_skip by done. unfold note. by rewrite Hm.
Qed.

(** A tick on entries [l], oldest first. *)
Lemma note_all l s :
  foldl note s l =
  {| sc_since := match last (la_at <$> List.filter matching l) with
                 | Some t => Some t
                 | None => sc_since s
                 end;
     sc_sent := sc_sent s ++ (message <$> List.filter matching l) |}.
Proof.
  induction l as [|e l IH] using rev_ind.
  { simpl. rewrite app_nil_r. by destruct s. }
  rewrite foldl_app, IH, List.filter_app. simpl. unfold note. destruct (matching e).
  - rewrite !fmap_app. csimpl. by rewrite last_snoc, app_assoc.
  - by rewrite app_nil_r.
Qed.

Definition later_than (since : option Instant) (e : LogArchiveEntry) : bool :=
  match since with Some ts => (ts <? la_at e)%Z | None => true end.

Lemma filter_wanted since es :
  List.filter matching (List.filter (wanted "Service" source since) es) =
  List.filter (later_than since) (matches es).
Proof.
  unfold matches. rewrite (bfilter_comm (later_than since)). f_equal.
  induction es as [|e es IH]; [done|]. cbn [List.filter].
  assert (wanted "Service" source since e = wanted "Service" source None e && later_than since e)
    as -> by (unfold wanted; by rewrite andb_true_r).
  destruct (wanted "Service" source None e); simpl; [|done].
  destruct (later_than since e); by rewrite IH.
Qed.

(** Timestamps that increase from line to line. *)
Definition at_lt (a b : LogArchiveEntry) : Prop := (la_at a < la_at b)%Z.

Lemma later_than_last m1 m2 :
  StronglySorted at_lt (m1 ++ m2) →
  List.filter (later_than (last (la_at <$> m1))) (m1 ++ m2) = m2.
Proof.
  intros H. destruct m1 as [|e m1 _] using rev_ind; [by apply bfilter_true|].
  rewrite fmap_app. csimpl. rewrite last_snoc, List.filter_app.
  apply StronglySorted_app in H as (Hlt & H1 & _).
  apply StronglySorted_app in H1 as (Hlt1 & _ & _).
  rewrite (bfilter_false _ (m1 ++ [e])), bfilter_true; [done|..].
  - intros x Hx. apply Z.ltb_lt. apply (Hlt e x); [|done]. apply elem_of_app. right. by left.
  - intros x Hx. apply Z.ltb_ge. apply elem_of_app in Hx as [Hx| ->%list_elem_of_singleton]; [|done].
    apply Z.lt_le_incl. apply (Hlt1 x e); [done|]. by left.
Qed.

(** *** Following a growing archive *)

(** At every poll, at most 1000 lines of the source are later than the last match. *)
Fixpoint paced (es : list LogArchiveEntry) (chunks : list (list LogArchiveEntry)) : Prop :=
  match chunks with
  | [] => True
  | c :: cs =>
      length (List.filter (wanted "Service" source (last_match es)) (es ++ c)) ≤ 1000 ∧
      paced (es ++ c) cs
  end.

Definition caught_up (s : Sidecar) (es : list LogArchiveEntry) : Prop :=
  sc_since s = last_match es ∧ sc_sent s = message <$> matches es.

Lemma matches_app es c : matches (es ++ c) = matches es ++ matches c.
Proof. unfold matches. by rewrite !List.filter_app. Qed.

Lemma tick_catches_up o s u es c :
  fault_free o → caught_up s es → StronglySorted at_lt (es ++ c) →
  length (List.filter (wanted "Service" source (last_match es)) (es ++ c)) ≤ 1000 →
  let r := sidecar_tick flt subject (fetch (es ++ c) "Service" source (sc_since s)) o (s, u) in
  r.1 = Ok tt ∧ caught_up r.2.1 (es ++ c).
Proof.
  intros Hf [Hs Hm] Hsort Hlen. unfold fetch, sidecar_tick. rewrite Hs, take_ge
    by (by rewrite length_reverse).
  rewrite rev_reverse, reverse_involutive. cbv zeta.
  destruct (try_each_pure o (sidecar_entry flt subject) note
    (List.filter (wanted "Service" source (last_match es)) (es ++ c)) s u) as [-> ->].
  { intros x s' u'. by apply sidecar_entry_pure. }
  split; [done|]. rewrite note_all, filter_wanted, matches_app. unfold last_match at 1 2.
  rewrite later_than_last by (rewrite <- matches_app; by do 2 apply bfilter_sorted).
  unfold caught_up, last_match. simpl. rewrite Hs, Hm, matches_app, !fmap_app.
  split; [|done]. rewrite last_app. by destruct (last (la_at <$> matches c)).
Qed.

Lemma sidecar_run_cons f fs o s u :
  sidecar_run flt subject (f :: fs) o (s, u) =
  match sidecar_tick flt subject (f (sc_since s)) o (s, u) with
  | (Ok _, su) => sidecar_run flt subject fs o su
  | (Err e, su) => (Err e, su)
  end.
Proof. unfold sidecar_run. by rewrite try_each_cons. Qed.

(** A source of replies that answers like the archive [es], to cursors taken from it. *)
Definition answers (f : option Instant → ArchiveReply) (es : list LogArchiveEntry) : Prop :=
  ∀ since, (∀ ts, since = Some ts → ts ∈ la_at <$> es) →
    f since = fetch es "Service" source since.

Lemma last_match_in es c ts : last_match es = Some ts → ts ∈ la_at <$> es ++ c.
Proof.
  intros H. apply last_Some_elem_of in H. unfold matches in H.
  apply list_elem_of_fmap in H as (e & -> & He).
  apply elem_of_bfilter in He as [[He _]%elem_of_bfilter _].
  apply list_elem_of_fmap_2. apply elem_of_app. by left.
Qed.

Lemma run_catches_up o s u es chunks fs :
  fault_free o → caught_up s es → StronglySorted at_lt (es ++ concat chunks) → paced es chunks →
  Forall2 answers fs (growing es chunks) →
  let r := sidecar_run flt subject fs o (s, u) in
  r.1 = Ok tt ∧ caught_up r.2.1 (es ++ concat chunks).
Proof.
  intros Hf. revert s u es fs. induction chunks as [|c cs IH]; intros s u es fs Hc Hs Hp Ha.
  { apply Forall2_nil_inv_r in Ha as ->. simpl. by rewrite app_nil_r. }
  destruct Hp as [Hlen Hp]. cbn [growing concat] in *. rewrite app_assoc in *.
  apply Forall2_cons_inv_r in Ha as (f & fs' & Hfe & Ha & ->).
  apply StronglySorted_app in Hs as Hs'. destruct Hs' as (_ & Hs' & _).
  rewrite sidecar_run_cons, Hfe.
  2: { destruct Hc as [-> _]. intros ts. apply last_match_in. }
  destruct (tick_catches_up o s u es c Hf Hc Hs' Hlen) as [H1 H2].
  destruct (sidecar_tick _ _ _ _ _) as [r [s' u']]. simpl in H1, H2. subst r. by apply IH.
Qed.

(** *** What a burst loses *)

(** Everything sent after [sent0] is later than [t]. *)
Definition only_later (t : Instant) (sent0 : Outbox SidecarEvent) (s : Sidecar) : Prop :=
  ∃ l, sc_sent s = sent0 ++ (message <$> l) ∧ Forall (λ e, t < la_at e)%Z l.

Definition past (t : Instant) (s : Sidecar) : Prop := ∃ t', sc_since s = Some t' ∧ (t <= t')%Z.

Lemma entry_only_later o t sent0 e :
  (t < la_at e)%Z → keeps o (only_later t sent0) (sidecar_entry flt subject e).
Proof.
  intros Ht s u (l & Hl & Hf). destruct (matching e) eqn:Hm.
  2: { rewrite sidecar_entry_skip by done. by exists l. }
  pose proof (sidecar_entry_run o e s u Hm) as H. cbv zeta in H.
  destruct (or_fault o (us_io u)); destruct H as [_ ->]; [by exists l|].
  exists (l ++ [e]). unfold note. rewrite Hm. simpl. rewrite Hl, fmap_app, app_assoc.
  split; [done|]. apply Forall_app. by split; [|apply Forall_singleton].
Qed.

Lemma entry_past o t e :
  (t < la_at e)%Z → keeps o (past t) (sidecar_entry flt subject e).
Proof.
  intros Ht s u Hp. destruct (matching e) eqn:Hm.
  2: { by rewrite sidecar_entry_skip. }
  pose proof (sidecar_entry_run o e s u Hm) as H. cbv zeta in H.
  destruct (or_fault o (us_io u)); destruct H as [_ ->]; unfold note; rewrite ?Hm;
    exists (la_at e); split; [done|lia|done|lia].
Qed.

Lemma tick_only_later o t sent0 reply :
  (∀ l e, reply = Entries l → e ∈ l → (t < la_at e)%Z) →
  keeps o (only_later t sent0) (sidecar_tick flt subject reply) ∧
  keeps o (past t) (sidecar_tick flt subject reply).
Proof.
  intros H. destruct reply as [| | |l]; try by split; apply keeps_ret.
  split; apply try_each_keeps; intros e He; rewrite rev_reverse, elem_of_reverse in He.
  - eapply entry_only_later, H; eauto.
  - eapply entry_past, H; eauto.
Qed.

Lemma fetch_later t' es l e :
  fetch es "Service" source (Some t') = Entries l → e ∈ l → (t' < la_at e)%Z.
Proof.
  intros [= <-] He. apply elem_of_take in He as (i & He & _). apply list_elem_of_lookup_2 in He.
  apply elem_of_reverse, elem_of_bfilter in He as [_ He].
  unfold wanted in He. apply andb_true_iff in He as [_ He]. by apply Z.ltb_lt.
Qed.

Lemma run_only_later o t sent0 archives :
  keeps o (λ s, only_later t sent0 s ∧ past t s)
    (sidecar_run flt subject ((λ es, fetch es "Service" source) <$> archives)).
Proof.
  unfold sidecar_run. apply try_each_keeps. intros f (es & -> & _)%list_elem_of_fmap.
  apply keeps_get. intros s [_ (t' & -> & Ht)] s' u' [H1 H2].
  destruct (tick_only_later o t sent0 (fetch es "Service" source (Some t'))) as [K1 K2].
  { intros l e Hl He. pose proof (fetch_later _ _ _ _ Hl He). lia. }
  split; [by apply K1|by apply K2].
Qed.

Lemma tick_moves_past o t s u l :
  (∀ e, e ∈ l → matching e = true ∧ (t < la_at e)%Z) → l ≠ [] →
  let r := sidecar_tick flt subject (Entries l) o (s, u) in r.1 = Ok tt → past t r.2.1.
Proof.
  intros Hl Hne. cbv zeta. unfold sidecar_tick. rewrite rev_reverse.
  assert (∀ e, e ∈ reverse l → matching e = true ∧ (t < la_at e)%Z) as Hr.
  { intros e He. apply Hl. by apply elem_of_reverse. }
  destruct (reverse l) as [|x k] eqn:E.
  { apply (f_equal reverse) in E. by rewrite reverse_involutive in E. }
  clear E. rewrite try_each_cons. destruct (Hr x (list_elem_of_here _ _)) as [Hm Hx].
  pose proof (sidecar_entry_run o x s u Hm) as H.
  destruct (sidecar_entry flt subject x o (s, u)) as [[[]|f] [s' u']]; [|done]. intros _.
  simpl in H. destruct (or_fault o (us_io u)); destruct H as [? ->]; [done|].
  apply try_each_keeps.
  - intros y Hy. apply entry_past, Hr. by right.
  - exists (la_at x). unfold note. rewrite Hm. split; [done|lia].
Qed.

(** A poll that finds 1000 lines later than [e] returns none before them. *)
Lemma fetch_after_burst since es1 es2 e l :
  StronglySorted at_lt (es1 ++ es2) → e ∈ es1 → later_than since e = true →
  1000 ≤ length (List.filter (wanted "Service" source None) es2) →
  fetch (es1 ++ es2) "Service" source since = Entries l →
  l ≠ [] ∧ ∀ x, x ∈ l → (la_at e < la_at x)%Z.
Proof.
  intros (Hlt & _ & _)%StronglySorted_app He Hs Hlen [= <-].
  assert (List.filter (wanted "Service" source since) es2 =
          List.filter (wanted "Service" source None) es2) as H2.
  { apply bfilter_ext. intros x Hx. specialize (Hlt e x He Hx). unfold at_lt in Hlt.
    unfold wanted. f_equal. unfold later_than in Hs. destruct since as [ts|]; [|done].
    apply Z.ltb_lt in Hs. apply Z.ltb_lt. lia. }
  rewrite List.filter_app, reverse_app, H2, take_app_le by (by rewrite length_reverse).
  split.
  - intros H%(f_equal length). rewrite length_take, length_reverse in H. cbn [length] in H. lia.
  - intros x Hx. apply elem_of_take in Hx as (i & Hx & _). apply list_elem_of_lookup_2 in Hx.
    apply elem_of_reverse, elem_of_bfilter in Hx as [Hx _]. by apply (Hlt e x).
Qed.

End sidecar_facts.

(** ** Claims *)

(** C26: the sidecar republishes every matching line exactly once and in order.  The
    controller's archive grows between polls, each of which goes through the archive
    handler with the text of the cursor; if the timestamps increase from line to line,
    no publication fails and no poll finds more than 1000 lines of the source later
    than the last match, then what the sidecar has sent is exactly the matching lines
    of the source in the archive. *)
Theorem sidecar_exactly_once {T : Rfc3339} {RX : RegexLib}
    (valid : Instant → Prop) (L : Rfc3339Laws valid) (o : Oracle) (u u' : Used)
    (flt : option Regex) (subject source : string)
    (apps : list AppState) (chunks : list (list LogArchiveEntry))
    (Hf : fault_free o)
    (Happs : Forall2 (λ app es, archive_rel valid (app_store app) es) apps (growing [] chunks))
    (Hs : StronglySorted at_lt (concat chunks)) (Hp : paced flt source [] chunks) :
  let r := sidecar_run flt subject
    ((λ app, archive_reply o u' app "Service" source) <$> apps) o
    ({| sc_since := None; sc_sent := [] |}, u) in
  r.1 = Ok tt ∧ sc_sent r.2.1 = message subject <$> matches flt source (concat chunks).
Proof.
  destruct (run_catches_up flt subject source o {| sc_since := None; sc_sent := [] |} u [] chunks
    ((λ app, archive_reply o u' app "Service" source) <$> apps) Hf) as [H1 [_ H2]]; try done.
  apply Forall2_fmap_l. eapply Forall2_impl; [exact Happs|]. intros app es Hr since Hin.
  apply (archive_reply_fetch valid L); [done|apply Hf|].
  intros ts Hts. destruct Hr as [Hv _]. apply Hin in Hts.
  apply list_elem_of_fmap in Hts as (e & -> & He). rewrite Forall_forall in Hv. by apply Hv.
Qed.

Definition demo_regex : RegexLib :=
  {| Regex := string; regex_new := λ s, Ok s; is_match := λ r l, contains r l |}.

Definition demo_archive (es : list LogArchiveEntry) : AppState :=
  set_store (set_log_archive (row_of_entry (T := utc_clock) <$> es) Db_empty) demo_fresh.

Definition demo_chunks : list (list LogArchiveEntry) :=
  [[demo_line 1%Z "error a"; demo_line 2%Z "fine"]; [demo_line 3%Z "error b"]].

Lemma sidecar_exactly_once_witness :
  se_line ∘ snd <$> sc_sent (sidecar_run (T := utc_clock) (RX := demo_regex) (Some "error") "q"
    ((λ app, archive_reply (T := utc_clock) quiet_oracle Used_init app "Service" "api") <$>
       (demo_archive <$> growing [] demo_chunks)) quiet_oracle
    ({| sc_since := None; sc_sent := [] |}, Used_init)).2.1 = ["error a"; "error b"].
Proof.
  destruct (sidecar_exactly_once (T := utc_clock) (RX := demo_regex)
    demo_valid utc_clock_laws quiet_oracle Used_init Used_init (Some "error") "q" "api"
    (demo_archive <$> growing [] demo_chunks) demo_chunks) as [_ H].
  - apply quiet_fault_free.
  - unfold demo_archive. simpl. repeat constructor; discriminate.
  - unfold demo_chunks. simpl. repeat constructor.
  - unfold demo_chunks. vm_compute. split; [|split]; [lia|lia|done].
  - rewrite H. vm_compute. reflexivity.
Defined.

(** A burst is lost for good.  When more than 1000 lines of the source are waiting,
    the poll returns the newest 1000 and the cursor moves past the others: whatever the
    archive answers later and whatever fails, every message sent from then on is of a
    line later than [e], so a line [e] before the newest 1000 is never published. *)
Theorem sidecar_burst_lost {T : Rfc3339} {RX : RegexLib} (o : Oracle) (u : Used) (s : Sidecar)
    (subject source : string) (es1 es2 : list LogArchiveEntry) (e : LogArchiveEntry)
    (later : list (list LogArchiveEntry))
    (Hs : StronglySorted at_lt (es1 ++ es2)) (He : e ∈ es1)
    (Hpend : later_than (sc_since s) e = true)
    (Hlen : 1000 ≤ length (List.filter (wanted "Service" source None) es2)) :
  let r := sidecar_run None subject
    ((λ es, fetch es "Service" source) <$> (es1 ++ es2) :: later) o (s, u) in
  ∃ l, sc_sent r.2.1 = sc_sent s ++ (message subject <$> l) ∧
       Forall (λ x, la_at e < la_at x)%Z l.
Proof.
  rewrite fmap_cons, sidecar_run_cons.
  destruct (fetch (es1 ++ es2) "Service" source (sc_since s)) as [| | |l] eqn:E; try done.
  destruct (fetch_after_burst source _ _ _ _ _ Hs He Hpend Hlen E) as [Hne Hl].
  destruct (tick_only_later None subject o (la_at e) (sc_sent s) (Entries l)) as [K _].
  { intros l' x [= <-]. apply Hl. }
  specialize (K s u). pose proof (tick_moves_past None subject o (la_at e) s u l) as P.
  destruct (sidecar_tick None subject (Entries l) o (s, u)) as [[[]|f] [s' u']]; simpl in *.
  - apply (run_only_later None subject source o (la_at e) (sc_sent s)). split.
    + apply K. exists []. by rewrite app_nil_r.
    + apply P; [|done|done]. intros x Hx. split; [done|]. by apply Hl.
  - apply K. exists []. by rewrite app_nil_r.
Qed.

(** 1000 lines after the first. *)
Definition demo_burst : list LogArchiveEntry :=
  (λ n, demo_line (Z.of_nat n) "x") <$> seq 1 1000.

Lemma at_lt_seq a n : StronglySorted at_lt ((λ n, demo_line (Z.of_nat n) "x") <$> seq a n).
Proof.
  revert a. induction n as [|n IH]; intros a; simpl; [constructor|]. constructor; [apply IH|].
  apply Forall_forall. intros x (k & -> & Hk%elem_of_seq)%list_elem_of_fmap.
  unfold at_lt. simpl. lia.
Qed.

Lemma sidecar_burst_lost_witness :
  ∃ l, sc_sent (sidecar_run (T := utc_clock) (RX := demo_regex) None "q"
      ((λ es, fetch es "Service" "api") <$> [[demo_line 0%Z "x"] ++ demo_burst]) quiet_oracle
      ({| sc_since := None; sc_sent := [] |}, Used_init)).2.1 = [] ++ (message (T := utc_clock) "q" <$> l)
    ∧ Forall (λ x, 0 < la_at x)%Z l.
Proof.
  apply (sidecar_burst_lost (T := utc_clock) (RX := demo_regex) quiet_oracle Used_init
    {| sc_since := None; sc_sent := [] |} "q" "api" [demo_line 0%Z "x"] demo_burst
    (demo_line 0%Z "x") []).
  - exact (at_lt_seq 0 1001).
  - by left.
  - reflexivity.
  - vm_compute. lia.
Defined.

(** ** Lemmas: the sink *)

Section sink_facts.
Context {T : Rfc3339} {B : BulkJson}.

Lemma bulk_body_acc index docs acc :
  foldl (λ body d, body +:+ index_json index +:+ String newline EmptyString
                        +:+ doc_json d +:+ String newline EmptyString) acc docs =
  acc +:+ unlines (docs ≫= λ d, [index_json index; doc_json d]).
Proof.
  revert acc. induction docs as [|d docs IH]; intros acc; [by rewrite string_app_nil_r|].
  cbn [foldl]. rewrite IH, bind_cons. unfold unlines. cbn [app foldr].
  by rewrite !string_app_assoc.
Qed.

Lemma bulk_body_lines index docs :
  lines (build_bulk_body index docs) = docs ≫= λ d, [index_json index; doc_json d].
Proof.
  unfold build_bulk_body. rewrite bulk_body_acc, string_app_empty. apply lines_unlines.
  induction docs as [|d docs IH]; csimpl; [constructor|].
  constructor; [apply index_json_line|]. constructor; [apply doc_json_line|done].
Qed.

(** The cursor of [name] is at [t] or later. *)
Definition cursor_ge (name : string) (t : Instant) (c : Cursors) : Prop :=
  ∃ t', c !! name = Some t' ∧ (t <= t')%Z.

Lemma raise_cursor_ge name t n at_ c :
  cursor_ge name t c → cursor_ge name t (raise_cursor n at_ c).
Proof.
  intros (t' & Hc & Ht). unfold raise_cursor. destruct (decide (n = name)) as [->|Hn].
  - rewrite Hc. destruct (Z.ltb_spec t' at_); [|by exists t'].
    exists at_. rewrite lookup_insert_eq. split; [done|lia].
  - exists t'. split; [|done]. destruct (c !! n) as [x|]; [destruct (x <? at_)%Z|];
      by rewrite ?lookup_insert_ne.
Qed.

Lemma raise_cursor_at name at_ c : cursor_ge name at_ (raise_cursor name at_ c).
Proof.
  unfold raise_cursor. destruct (c !! name) as [x|] eqn:E.
  - destruct (Z.ltb_spec x at_); [|by exists x].
    exists at_. rewrite lookup_insert_eq. split; [done|lia].
  - exists at_. rewrite lookup_insert_eq. split; [done|lia].
Qed.

Lemma raise_cursor_ne name n at_ c : n ≠ name → raise_cursor n at_ c !! name = c !! name.
Proof.
  intros Hn. unfold raise_cursor. destruct (c !! n) as [x|]; [destruct (x <? at_)%Z|];
    by rewrite ?lookup_insert_ne.
Qed.

(** Reading the entries of one workload: the fold over a list [l]. *)
Definition read_all (name : string) (acc : Cursors * list LogDoc) (l : list LogArchiveEntry) :=
  foldl (λ '(since, batch) e, (raise_cursor name (la_at e) since, batch ++ [log_doc e])) acc l.

Lemma read_all_batch name c b l : (read_all name (c, b) l).2 = b ++ (log_doc <$> l).
Proof.
  revert c b. induction l as [|e l IH]; intros c b; [by rewrite app_nil_r|].
  unfold read_all in *. simpl. by rewrite IH, <- app_assoc.
Qed.

Lemma read_all_ge name t n c b l :
  cursor_ge name t c → cursor_ge name t (read_all n (c, b) l).1.
Proof.
  revert c b. induction l as [|e l IH]; intros c b H; [done|].
  unfold read_all in *. simpl. by apply IH, raise_cursor_ge.
Qed.

Lemma read_all_at name c b l e : e ∈ l → cursor_ge name (la_at e) (read_all name (c, b) l).1.
Proof.
  revert c b. induction l as [|x l IH]; intros c b; [by intros ?%not_elem_of_nil|].
  intros [<-|He]%elem_of_cons; unfold read_all in *; simpl.
  - apply (read_all_ge name (la_at e) name), raise_cursor_at.
  - by apply IH.
Qed.

Lemma read_all_ne name n c b l : n ≠ name → (read_all n (c, b) l).1 !! name = c !! name.
Proof.
  intros Hn. revert c b. induction l as [|e l IH]; intros c b; [done|].
  unfold read_all in *. simpl. by rewrite IH, raise_cursor_ne.
Qed.

Lemma sink_workload_entries acc name l :
  sink_workload acc name (Entries l) = read_all name acc (rev l).
Proof. done. Qed.

(** Once the cursor of [name] is at [t], the documents of [name] collected are later. *)
Definition docs_later (name : string) (t : Instant) (es : list LogArchiveEntry)
    (batch : list LogDoc) : Prop :=
  ∀ d, d ∈ batch → ld_name d = name → ∃ x, x ∈ es ∧ d = log_doc x ∧ (t < la_at x)%Z.

Lemma fetch_entries es kind n since l x :
  fetch es kind n since = Entries l → x ∈ rev l → x ∈ es ∧ wanted kind n since x = true.
Proof.
  intros [= <-]. rewrite rev_reverse, elem_of_reverse. intros (i & Hx & _)%elem_of_take.
  apply list_elem_of_lookup_2, elem_of_reverse, elem_of_bfilter in Hx. done.
Qed.

Lemma collect_ge kind es name t names c b :
  cursor_ge name t c →
  cursor_ge name t
    (foldl (λ acc n, sink_workload acc n (fetch es kind n (acc.1 !! n))) (c, b) names).1.
Proof.
  revert c b. induction names as [|n names IH]; intros c b Hc; [done|].
  cbn [foldl fst]. destruct (fetch es kind n (c !! n)) as [| | |l]; try by apply IH.
  rewrite sink_workload_entries, (surjective_pairing (read_all _ _ _)).
  by apply IH, read_all_ge.
Qed.

Lemma collect_later kind es name t names c b :
  cursor_ge name t c → docs_later name t es b →
  let r := foldl (λ acc n, sink_workload acc n (fetch es kind n (acc.1 !! n))) (c, b) names in
  cursor_ge name t r.1 ∧ docs_later name t es r.2.
Proof.
  revert c b. induction names as [|n names IH]; intros c b Hc Hb; [done|].
  cbn [foldl fst]. destruct (fetch es kind n (c !! n)) as [| | |l] eqn:E; try by apply IH.
  rewrite sink_workload_entries, (surjective_pairing (read_all _ _ _)).
  apply IH; [by apply read_all_ge|]. rewrite read_all_batch. intros d Hd Hn.
  apply elem_of_app in Hd as [Hd|Hd]; [by apply Hb|].
  apply list_elem_of_fmap in Hd as (x & -> & Hx).
  destruct (fetch_entries _ _ _ _ _ _ E Hx) as [Hin Hw]. exists x. split_and!; [done..|].
  unfold wanted in Hw. rewrite !andb_true_iff in Hw. destruct Hw as [[_ Hnm%String.eqb_eq] Hw].
  simpl in Hn. rewrite Hnm in Hn. clear Hnm. subst name. destruct Hc as (t' & Hc & Ht).
  unfold Instant in *. rewrite Hc in Hw.
  apply Z.ltb_lt in Hw. lia.
Qed.

(** Collecting moves the cursor of a workload past every entry it reads. *)
Lemma collect_moves kind es names c b e l :
  la_name e ∈ names → fetch es kind (la_name e) (c !! la_name e) = Entries l → e ∈ l →
  cursor_ge (la_name e) (la_at e)
    (foldl (λ acc n, sink_workload acc n (fetch es kind n (acc.1 !! n))) (c, b) names).1.
Proof.
  revert c b. induction names as [|n names IH]; intros c b Hn Hf He; [by apply not_elem_of_nil in Hn|].
  cbn [foldl fst]. destruct (decide (n = la_name e)) as [->|Hne].
  - rewrite Hf, sink_workload_entries, (surjective_pairing (read_all _ _ _)).
    apply collect_ge, read_all_at. by rewrite rev_reverse, elem_of_reverse.
  - assert (la_name e ∈ names) by (by apply elem_of_cons in Hn as [?|?]).
    destruct (fetch es kind n (c !! n)) as [| | |k]; try by apply IH.
    rewrite sink_workload_entries, (surjective_pairing (read_all _ _ _)).
    apply IH; [done| |done]. by rewrite read_all_ne.
Qed.

(** Ticks over successive archives, each with the fate of its POST. *)
Definition sink_run (index : string) (kind : string) (names : list string)
    (ticks : list (list LogArchiveEntry * bool)) (s : Sink) : Sink :=
  foldl (λ s '(es, ship), sink_tick index names (fetch es kind) ship s) s ticks.

Lemma sink_tick_since index names f ship s :
  sk_since (sink_tick index names f ship s) = (sink_collect names f (sk_since s)).1.
Proof.
  unfold sink_tick. destruct (sink_collect names f (sk_since s)) as [c []]; [done|]. by destruct ship.
Qed.

Lemma sink_run_ge index kind names ticks name t s :
  cursor_ge name t (sk_since s) → cursor_ge name t (sk_since (sink_run index kind names ticks s)).
Proof.
  revert s. induction ticks as [|[es ship] ticks IH]; intros s H; [done|].
  apply IH. rewrite sink_tick_since. by apply collect_ge.
Qed.

End sink_facts.

(** The bulk body is newline-delimited JSON, an action line and a document line per
    entry of the batch, in order. *)
Theorem bulk_body_is_ndjson {B : BulkJson} (index : string) (docs : list LogDoc) :
  lines (build_bulk_body index docs) = docs ≫= λ d, [index_json index; doc_json d].
Proof. apply bulk_body_lines. Qed.

(** The sink ships a line at most once, and a batch whose POST fails is not
    retried.  The cursor of a workload moves when its lines are read, before they are
    shipped: once a tick has read a line [e], whether or not its POST succeeded, no
    later tick collects it again, whatever the archive then holds. *)
Theorem sink_never_retries {T : Rfc3339} {B : BulkJson} (valid : Instant → Prop)
    (L : Rfc3339Laws valid) (index kind : string) (names : list string) (s : Sink)
    (es es' : list LogArchiveEntry) (ship : bool) (ticks : list (list LogArchiveEntry * bool))
    (e : LogArchiveEntry) (l : list LogArchiveEntry)
    (Hn : la_name e ∈ names)
    (Hfetch : fetch es kind (la_name e) (sk_since s !! la_name e) = Entries l) (He : e ∈ l)
    (Hve : valid (la_at e)) (Hv : Forall (λ x, valid (la_at x)) es') :
  let s' := sink_run index kind names ((es, ship) :: ticks) s in
  log_doc e ∉ (sink_collect names (fetch es' kind) (sk_since s')).2.
Proof.
  intros s' Hin.
  assert (cursor_ge (la_name e) (la_at e) (sk_since s')) as Hc.
  { change s' with (sink_run index kind names ticks (sink_tick index names (fetch es kind) ship s)).
    apply sink_run_ge. rewrite sink_tick_since. by eapply collect_moves. }
  destruct (collect_later kind es' (la_name e) (la_at e) names (sk_since s') [] Hc) as [_ Hd].
  { intros d Hd%not_elem_of_nil. done. }
  destruct (Hd _ Hin eq_refl) as (x & Hx & Heq & Hlt). injection Heq as Hat _ _ _ _ _.
  rewrite Forall_forall in Hv. apply (f_equal parse_from_rfc3339) in Hat.
  rewrite !rfc3339_roundtrip in Hat by auto. injection Hat as Hat. lia.
Qed.

Program Definition demo_bulk : BulkJson :=
  {| index_json := λ _, "{}"; doc_json := λ _, "{}" |}.
Solve Obligations with done.

Lemma sink_never_retries_witness :
  let s' := sink_run (T := utc_clock) (B := demo_bulk) "orion-logs" "Service" ["api"]
    [([demo_line 1%Z "a"], false)] {| sk_since := ∅; sk_shipped := []; sk_failed := [] |} in
  log_doc (T := utc_clock) (demo_line 1%Z "a") ∉
    (sink_collect (T := utc_clock) ["api"]
       (fetch [demo_line 1%Z "a"; demo_line 2%Z "b"] "Service") (sk_since s')).2.
Proof.
  apply (sink_never_retries (T := utc_clock) (B := demo_bulk) demo_valid utc_clock_laws
    "orion-logs" "Service" ["api"] {| sk_since := ∅; sk_shipped := []; sk_failed := [] |}
    [demo_line 1%Z "a"] [demo_line 1%Z "a"; demo_line 2%Z "b"] false [] (demo_line 1%Z "a")
    [demo_line 1%Z "a"]).
  - by left.
  - reflexivity.
  - by left.
  - unfold demo_valid. simpl. lia.
  - repeat constructor; unfold demo_valid; simpl; lia.
Defined.
