(* ===== verification/Taps.v ===== *)
(** * Queue bridges (crates/orion-sqlite-tap, orion-kafka-bridge, orion-webhook)

    Three more adapters that publish to a queue: rows of a SQLite table, records of
    a Kafka topic (and the way back), and HTTP posts.  The database driver, the Kafka
    client, the HMAC and the HTTP types are libraries: classes with what the code
    calls. *)

From Stdlib Require Import ZArith Lia Bool Ascii Sorting.Sorted.
From stdpp Require Import base list gmap strings pretty sorting.
From S2P Require Import Prelude Text Types Effect Parse Store Outbox.

(** ** The SQLite tap *)

(** sqlx: a row, its column names, and [try_get] at the types the tap tries. *)
Class SqlxRow : Type := {
  Row : Type;
  columns : Row → list string;
  try_get_i64 : Row → string → option Z;
  try_get_f64 : Row → string → option f64;
  try_get_string : Row → string → option string;
  try_get_opt_string : Row → string → option (option string)
}.

Definition double_quote : string := String (ascii_of_N 34) EmptyString.

Definition build_select (table : string) (since : Z) : string :=
  "SELECT rowid AS _orion_rowid, * FROM " +:+ double_quote +:+ table +:+ double_quote +:+
  " WHERE rowid > " +:+ pretty since +:+ " ORDER BY rowid ASC LIMIT 1000".

Definition rowid_column : string := "_orion_rowid".

Section tap.
Context {J : SerdeJson} {JM : JsonMake} {T : Rfc3339} {SR : SqlxRow}.

Record CdcEvent : Type := {
  ce_at : string;
  ce_table : string;
  ce_rowid : Z;
  ce_row : Value;
  ce_subject : string
}.

Definition column_to_json (row : Row) (name : string) : Value :=
  match try_get_i64 row name with
  | Some v => json_int v
  | None =>
      match try_get_f64 row name with
      | Some v => json_float v
      | None =>
          match try_get_string row name with
          | Some v => json_string v
          | None =>
              match try_get_opt_string row name with
              | Some (Some s) => json_string s
              | Some None => value_null
              | None => value_null
              end
          end
      end
  end.

Definition row_json (r : Row) : Value :=
  json_object (foldl (λ obj name, if String.eqb name rowid_column then obj
                                  else <[name := column_to_json r name]> obj) ∅ (columns r)).

Record Tap : Type := {
  tap_cursor : Z;
  tap_sent : Outbox CdcEvent
}.
Definition set_tap_cursor (c : Z) (t : Tap) : Tap :=
  {| tap_cursor := c; tap_sent := tap_sent t |}.
Definition set_tap_sent (l : Outbox CdcEvent) (t : Tap) : Tap :=
  {| tap_cursor := tap_cursor t; tap_sent := l |}.

(** The first cursor: zero, or what the query for the greatest rowid answers. *)
Definition tap_start (from_zero : bool) (max_rowid : result (option Z) Fault) : result Z Fault :=
  if from_zero then Ok 0%Z
  else match max_rowid with Ok m => Ok (default 0%Z m) | Err f => Err f end.

Definition tap_row (table subject : string) (r : Row) : M Tap (result unit Fault) :=
  match try_get_i64 r rowid_column with
  | None => mret (Ok tt)
  | Some rowid =>
      t ← now;
      let ev := {| ce_at := to_rfc3339 t; ce_table := table; ce_rowid := rowid;
                   ce_row := row_json r; ce_subject := subject |} in
      let! _ := zoom tap_sent set_tap_sent (js_publish subject ev) in
      _ ← modify (set_tap_cursor rowid);
      mret (Ok tt)
  end.

(** One tick; [fetch_all] is the database's answer to a query text. *)
Definition tap_tick (fetch_all : string → result (list Row) Fault) (table subject : string)
    : M Tap (result unit Fault) :=
  s ← get;
  match fetch_all (build_select table (tap_cursor s)) with
  | Err _ => mret (Ok tt)
  | Ok rows => try_each rows (tap_row table subject)
  end.

Definition tap_run (dbs : list (string → result (list Row) Fault)) (table subject : string)
    : M Tap (result unit Fault) :=
  try_each dbs (λ fetch_all, tap_tick fetch_all table subject).

End tap.

(** ** The Kafka bridge *)

Inductive Direction : Type := OrionToKafka | KafkaToOrion.

Definition Direction_parse (s : string) : result Direction string :=
  if bool_decide (s ∈ ["orion->kafka"; "out"; "orion_to_kafka"]) then Ok OrionToKafka
  else if bool_decide (s ∈ ["kafka->orion"; "in"; "kafka_to_orion"]) then Ok KafkaToOrion
  else Err s.

Section kafka.
Context {J : SerdeJson} {JM : JsonMake} {T : Rfc3339}.

Record OutboundEnvelope : Type := { oe_orion_subject : string; oe_at : string; oe_body : Value }.

Record InboundEvent : Type := {
  ie_kafka_topic : string;
  ie_kafka_partition : Z;
  ie_kafka_offset : Z;
  ie_at : string;
  ie_body : Value;
  ie_subject : string
}.

(** JSON when it parses, else the text as a JSON string. *)
Definition body_value (bytes : string) : Value :=
  match from_utf8 bytes ≫= json_from_str with
  | Some v => v
  | None => json_string (from_utf8_lossy bytes)
  end.

Definition make_outbound (orion_subject body_bytes : string) (at_ : Instant) : OutboundEnvelope :=
  {| oe_orion_subject := orion_subject; oe_at := to_rfc3339 at_; oe_body := body_value body_bytes |}.

Definition make_inbound (topic : string) (partition offset : Z) (body_bytes subject : string)
    (at_ : Instant) : InboundEvent :=
  {| ie_kafka_topic := topic; ie_kafka_partition := partition; ie_kafka_offset := offset;
     ie_at := to_rfc3339 at_; ie_body := body_value body_bytes; ie_subject := subject |}.

(** The messages of the subscription, each produced to the topic; a failed produce is
    only a warning. *)
Definition run_orion_to_kafka (topic subject : string) (msgs : list string)
    : M (Outbox OutboundEnvelope) unit :=
  for_each msgs (λ payload,
    t ← now;
    r ← io;
    match r with
    | Some _ => mret tt
    | None => modify (λ sent, sent ++ [(topic, make_outbound subject payload t)])
    end).

(** A record as the consumer stream yields it. *)
Record KafkaRecord : Type := {
  kr_topic : string;
  kr_partition : Z;
  kr_offset : Z;
  kr_payload : option string
}.

Definition kafka_step (subject : string) (msg : result KafkaRecord Fault)
    : M (Outbox InboundEvent) (result unit Fault) :=
  match msg with
  | Err _ => mret (Ok tt)
  | Ok m =>
      t ← now;
      js_publish subject (make_inbound (kr_topic m) (kr_partition m) (kr_offset m)
                            (default EmptyString (kr_payload m)) subject t)
  end.

Definition run_kafka_to_orion (subject : string) (msgs : list (result KafkaRecord Fault))
    : M (Outbox InboundEvent) (result unit Fault) :=
  try_each msgs (kafka_step subject).

End kafka.

(** ** The webhook *)

(** The [hmac], [hex] and [http] crates. *)
Class WebhookLibs : Type := {
  hex_decode : string → option string;
  MacKey : Type;
  hmac_new : string → option MacKey;
  hmac_tag : MacKey → string → string;
  (** [HeaderValue::to_str]. *)
  header_to_str : string → option string
}.

Section webhook.
Context {J : SerdeJson} {JM : JsonMake} {T : Rfc3339} {WL : WebhookLibs}.

(** [mac.verify_slice(expected)]: the tag is the whole of [expected]. *)
Definition verify_hmac_sha256 (secret body header_value : string) : bool :=
  let expected := default header_value (strip_prefix "sha256=" header_value) in
  match hex_decode expected with
  | None => false
  | Some expected_bytes =>
      match hmac_new secret with
      | None => false
      | Some mac => bool_decide (hmac_tag mac body = expected_bytes)
      end
  end.

Record WebhookEvent : Type := {
  we_at : string;
  we_headers : Value;
  we_body : Value;
  we_raw_body : string;
  we_subject : string
}.

Record WebhookState : Type := { ws_subject : string; ws_secret : option string }.

(** A header map in the order it is iterated; names are lower case. *)
Notation HeaderMap := (list (string * string)).
Definition header_get (headers : HeaderMap) (name : string) : option string :=
  snd <$> List.find (λ kv, String.eqb kv.1 name) headers.

Definition signature_header (headers : HeaderMap) : string :=
  let v := match header_get headers "x-orion-signature" with
           | Some v => Some v
           | None => match header_get headers "x-hub-signature-256" with
                     | Some v => Some v
                     | None => header_get headers "x-signature-256"
                     end
           end in
  default EmptyString (v ≫= header_to_str).

Definition headers_object (headers : HeaderMap) : gmap string Value :=
  foldl (λ obj '(k, v), match header_to_str v with
                        | Some s => <[k := json_string s]> obj
                        | None => obj
                        end) ∅ headers.

(** The status answered: 200, 401 or 500. *)
Definition receive_inner (state : WebhookState) (route : option string) (headers : HeaderMap)
    (body : string) : M (Outbox WebhookEvent) Z :=
  let rejected := match ws_secret state with
                  | Some secret => negb (verify_hmac_sha256 secret body (signature_header headers))
                  | None => false
                  end in
  if rejected then mret 401%Z
  else
    let subj := match route with
                | Some r => ws_subject state +:+ "." +:+ r
                | None => ws_subject state
                end in
    let raw_body := from_utf8_lossy body in
    let body_json := default (json_string raw_body) (json_from_str raw_body) in
    t ← now;
    let event := {| we_at := to_rfc3339 t; we_headers := json_object (headers_object headers);
                    we_body := body_json; we_raw_body := raw_body; we_subject := subj |} in
    r ← io;
    match r with
    | Some _ => mret 500%Z
    | None => _ ← modify (λ sent, sent ++ [(subj, event)]); mret 200%Z
    end.

Definition receive (state : WebhookState) := receive_inner state None.
Definition receive_route (state : WebhookState) (route : string) := receive_inner state (Some route).

End webhook.

(** ** Queries by rowid

    Their parts and their text. *)

Inductive SqlCmp : Type := SqlLt | SqlLe | SqlEq | SqlGe | SqlGt.
Definition cmp_text (c : SqlCmp) : string :=
  match c with SqlLt => "<" | SqlLe => "<=" | SqlEq => "=" | SqlGe => ">=" | SqlGt => ">" end.
Definition cmp_holds (c : SqlCmp) (a b : Z) : bool :=
  match c with
  | SqlLt => (a <? b)%Z | SqlLe => (a <=? b)%Z | SqlEq => (a =? b)%Z
  | SqlGe => (b <=? a)%Z | SqlGt => (b <? a)%Z
  end.

Record RowidQuery : Type := {
  rq_alias : string;
  rq_table : string;
  rq_cmp : SqlCmp;
  rq_since : Z;
  rq_descending : bool;
  rq_limit : nat
}.

Definition query_text (q : RowidQuery) : string :=
  "SELECT rowid AS " +:+ rq_alias q +:+ ", * FROM " +:+ double_quote +:+ rq_table q +:+ double_quote +:+
  " WHERE rowid " +:+ cmp_text (rq_cmp q) +:+ " " +:+ pretty (rq_since q) +:+ " ORDER BY rowid " +:+
  (if rq_descending q then "DESC" else "ASC") +:+ " LIMIT " +:+ pretty (rq_limit q).

Definition in_i64 (z : Z) : Prop := (- 2 ^ 63 <= z < 2 ^ 63)%Z.

(** An underscore, then letters, digits and underscores: no keyword. *)
Definition alias_name (s : string) : bool :=
  match s with
  | String c s' => Ascii.eqb c "_" && all_chars (λ c, is_ascii_alphanumeric c || Ascii.eqb c "_") s'
  | EmptyString => false
  end.
Definition plain_query (q : RowidQuery) : Prop :=
  alias_name (rq_alias q) = true ∧ has_char (ascii_of_N 34) (rq_table q) = false ∧
  in_i64 (rq_since q) ∧ in_i64 (Z.of_nat (rq_limit q)).

(** ** Lemmas: the tap *)

Section tap_facts.
Context {J : SerdeJson} {JM : JsonMake} {T : Rfc3339} {SR : SqlxRow}.
Context (o : Oracle) (table subject : string).

(** A table in rowid order: what the expression [rowid] is in each row, and the row. *)
Notation Table := (list (Z * Row)).
Definition rowid_lt (a b : Z * Row) : Prop := (a.1 < b.1)%Z.

Definition pending (cursor : Z) (rows : Table) : Table :=
  List.filter (λ r, (cursor <? r.1)%Z) rows.

(** *** What SQLite answers

    The text and the meaning of the queries on one table that select all columns, and the
    rowid under a name, of the rows whose rowid compares with a number, in one of the two
    orders of the rowid, up to a number of rows. *)
Definition query_rows (q : RowidQuery) (rows : Table) : Table :=
  let found := List.filter (λ r, cmp_holds (rq_cmp q) r.1 (rq_since q)) rows in
  take (rq_limit q) (if rq_descending q then reverse found else found).

(** A row of the answer: the rowid under the alias, then the columns of the table. *)
Definition answers_row (alias : string) (r : Z * Row) (answer : Row) : Prop :=
  columns answer = alias :: columns r.2 ∧ try_get_i64 answer alias = Some r.1 ∧
  ∀ name, name ≠ alias →
    try_get_i64 answer name = try_get_i64 r.2 name ∧
    try_get_f64 answer name = try_get_f64 r.2 name ∧
    try_get_string answer name = try_get_string r.2 name ∧
    try_get_opt_string answer name = try_get_opt_string r.2 name.

(** A database whose table of that name has these rows, none with a column called like the
    alias of the query. *)
Definition sql_answers (table : string) (db : string → result (list Row) Fault) (rows : Table) : Prop :=
  ∀ q, plain_query q → rq_table q = table → Forall (λ r, rq_alias q ∉ columns r.2) rows →
  ∃ answer, db (query_text q) = Ok answer ∧
    Forall2 (answers_row (rq_alias q)) (query_rows q rows) answer.

(** What the tap asks. *)
Definition tap_query (cursor : Z) : RowidQuery :=
  {| rq_alias := rowid_column; rq_table := table; rq_cmp := SqlGt; rq_since := cursor;
     rq_descending := false; rq_limit := 1000 |}.

Lemma build_select_query cursor : build_select table cursor = query_text (tap_query cursor).
Proof. reflexivity. Qed.

(** A table the tap can read. *)
Definition readable_row (r : Z * Row) : Prop := in_i64 r.1 ∧ rowid_column ∉ columns r.2.

Lemma selected db rows cursor :
  has_char (ascii_of_N 34) table = false → in_i64 cursor → Forall readable_row rows →
  sql_answers table db rows →
  ∃ answer, db (build_select table cursor) = Ok answer ∧
    Forall2 (answers_row rowid_column) (take 1000 (pending cursor rows)) answer.
Proof.
  intros Ht Hc Hr Hdb. destruct (Hdb (tap_query cursor)) as (answer & Ha & Hall).
  - split_and!; done.
  - done.
  - eapply Forall_impl; [exact Hr|]. by intros r [_ H].
  - exists answer. by rewrite build_select_query.
Qed.

Lemma column_json_answer alias r answer name :
  answers_row alias r answer → name ≠ alias → column_to_json answer name = column_to_json r.2 name.
Proof.
  intros (_ & _ & H) Hn. unfold column_to_json. by destruct (H name Hn) as (-> & -> & -> & ->).
Qed.

Lemma row_json_answer r answer :
  answers_row rowid_column r answer → row_json answer = row_json r.2.
Proof.
  intros H. pose proof H as (Hc & _). unfold row_json. rewrite Hc. cbn [foldl].
  rewrite String.eqb_refl. f_equal. generalize (∅ : gmap string Value). clear Hc.
  induction (columns r.2) as [|name names IH]; intros obj; [done|]. cbn [foldl].
  destruct (String.eqb_spec name rowid_column) as [->|Hn]; [apply IH|].
  by rewrite (column_json_answer _ _ _ _ H Hn), IH.
Qed.

(** What was sent: rowids and contents. *)
Definition sent_rows (t : Tap) : list (Z * Value) :=
  (λ m, (ce_rowid m.2, ce_row m.2)) <$> tap_sent t.
Definition contents (rows : Table) : list (Z * Value) := (λ r, (r.1, row_json r.2)) <$> rows.

Lemma tap_row_run r answer s u :
  fault_free o → answers_row rowid_column r answer →
  let x := tap_row table subject answer o (s, u) in
  x.1 = Ok tt ∧ tap_cursor x.2.1 = r.1 ∧ sent_rows x.2.1 = sent_rows s ++ contents [r].
Proof.
  intros Hf Ha. pose proof (row_json_answer r answer Ha) as Hj. destruct Ha as (_ & Hr & _).
  unfold tap_row. rewrite Hr. unfold mbind, M_bind, now, zoom. cbn [fst snd].
  destruct (js_publish _ _ _ _) as [q [l u']] eqn:E.
  epose proof (js_publish_run _ _ _ _ _) as HP. erewrite E in HP. simpl in HP.
  rewrite Hf in HP. destruct HP as [-> ->]. unfold modify. simpl. split_and!; [done..|].
  unfold sent_rows. simpl. by rewrite fmap_app, Hj.
Qed.

Lemma tap_rows_run rows answer s u :
  fault_free o → Forall2 (answers_row rowid_column) rows answer →
  let x := try_each answer (tap_row table subject) o (s, u) in
  x.1 = Ok tt ∧ tap_cursor x.2.1 = default (tap_cursor s) (last rows.*1) ∧
  sent_rows x.2.1 = sent_rows s ++ contents rows.
Proof.
  intros Hf Ha. revert s u. induction Ha as [|r x rows answer Hr Ha IH]; intros s u.
  { simpl. by rewrite app_nil_r. }
  rewrite try_each_cons. pose proof (tap_row_run r x s u Hf Hr) as H.
  destruct (tap_row table subject x o (s, u)) as [q [s' u']]. simpl in H.
  destruct H as (-> & Hc & Hs). cbv zeta beta iota. destruct (IH s' u') as (-> & -> & ->).
  split_and!; [done| |].
  - rewrite Hc. rewrite fmap_cons, last_cons. by destruct (last rows.*1).
  - by rewrite Hs, <- app_assoc.
Qed.

(** *** The invariant: what was sent, and what is still pending, is what was pending. *)

Definition tapped (c0 : Z) (rows : Table) (s : Tap) : Prop :=
  sent_rows s ++ contents (pending (tap_cursor s) rows) = contents (pending c0 rows) ∧
  (c0 <= tap_cursor s)%Z ∧ (tap_cursor s = c0 ∨ tap_cursor s ∈ rows.*1).

Lemma pending_prefix l1 l2 c :
  StronglySorted rowid_lt (l1 ++ l2) → Forall (λ r, c < r.1)%Z (l1 ++ l2) →
  pending (default c (last l1.*1)) (l1 ++ l2) = l2.
Proof.
  intros Hs Hc. unfold pending. rewrite Forall_forall in Hc.
  destruct l1 as [|e l1 _] using rev_ind.
  { apply bfilter_true. intros x Hx. by apply Z.ltb_lt, Hc. }
  rewrite fmap_app. csimpl. rewrite last_snoc, List.filter_app. simpl.
  apply StronglySorted_app in Hs as (Hlt & H1 & _). apply StronglySorted_app in H1 as (Hlt1 & _ & _).
  rewrite bfilter_false, bfilter_true; [done|..].
  - intros x Hx. apply Z.ltb_lt, (Hlt e x); [|done]. apply elem_of_app. right. by left.
  - intros x Hx. apply Z.ltb_ge. apply elem_of_app in Hx as [Hx| ->%list_elem_of_singleton]; [|done].
    apply Z.lt_le_incl, (Hlt1 x e); [done|]. by left.
Qed.

Lemma pending_pending c c' rows : (c <= c')%Z → pending c' (pending c rows) = pending c' rows.
Proof.
  intros Hc. unfold pending. rewrite bfilter_comm. apply bfilter_true.
  intros r [_ Hr%Z.ltb_lt]%elem_of_bfilter. apply Z.ltb_lt. lia.
Qed.

Lemma last_fst_in (l : Table) z : last l.*1 = Some z → z ∈ l.*1.
Proof. apply last_Some_elem_of. Qed.

(** Moving the cursor to the end of a selection leaves the rest pending. *)
Lemma pending_after c rows n :
  StronglySorted rowid_lt rows →
  let c' := default c (last (take n (pending c rows)).*1) in
  (c <= c')%Z ∧ pending c' rows = drop n (pending c rows).
Proof.
  intros Hs c'. pose proof (bfilter_sorted rowid_lt (λ r, (c <? r.1)%Z) rows Hs) as Hp.
  change (List.filter _ rows) with (pending c rows) in Hp.
  assert (Forall (λ r, c < r.1)%Z (pending c rows)) as Hc.
  { apply Forall_forall. intros r [_ Hr]%elem_of_bfilter. by apply Z.ltb_lt. }
  assert (c <= c')%Z as Hle.
  { unfold c'. destruct (last _) as [z|] eqn:E; simpl; [|lia]. apply last_fst_in in E.
    apply list_elem_of_fmap in E as (r & -> & (i & Hr & _)%elem_of_take).
    apply list_elem_of_lookup_2 in Hr. rewrite Forall_forall in Hc. apply Hc in Hr. lia. }
  split; [done|]. rewrite <- (pending_pending c) by done. unfold c'. clear Hle c'.
  revert Hp Hc. rewrite <- (take_drop n (pending c rows)) at 1 2. intros Hp Hc.
  rewrite <- (take_drop n (pending c rows)) at 2. by apply pending_prefix.
Qed.

Lemma pending_app c l1 l2 : pending c (l1 ++ l2) = pending c l1 ++ pending c l2.
Proof. apply List.filter_app. Qed.

Lemma contents_app l1 l2 : contents (l1 ++ l2) = contents l1 ++ contents l2.
Proof. apply fmap_app. Qed.

(** Rows added after the others are new to the tap. *)
Lemma tapped_grow c0 rows new s :
  StronglySorted rowid_lt (rows ++ new) → tapped c0 rows s → tapped c0 (rows ++ new) s.
Proof.
  intros (Hlt & _ & _)%StronglySorted_app (Hs & Hc & Hin). split_and!; [|done|].
  - rewrite !pending_app, !contents_app, app_assoc, Hs. do 2 f_equal.
    destruct Hin as [->|(r & Hr & Hin)%list_elem_of_fmap]; [done|].
    apply bfilter_ext. intros x Hx. specialize (Hlt r x Hin Hx). unfold rowid_lt in Hlt.
    rewrite Hr in *. rewrite !(proj2 (Z.ltb_lt _ _)) by lia. done.
  - destruct Hin as [|Hin]; [by left|]. right. rewrite fmap_app. apply elem_of_app. by left.
Qed.

Context (Hf : fault_free o) (Hq : has_char (ascii_of_N 34) table = false).

Lemma tapped_tick db c0 rows s u :
  in_i64 c0 → Forall readable_row rows → sql_answers table db rows → StronglySorted rowid_lt rows → tapped c0 rows s →
  let x := tap_tick db table subject o (s, u) in
  x.1 = Ok tt ∧ tapped c0 rows x.2.1 ∧
  pending (tap_cursor x.2.1) rows = drop 1000 (pending (tap_cursor s) rows).
Proof.
  intros Hc0 Hrd Hdb Hs (Hsent & Hc & Hin). unfold tap_tick, mbind, M_bind, get.
  assert (in_i64 (tap_cursor s)) as Hcur.
  { destruct Hin as [->|(r & -> & Hr)%list_elem_of_fmap]; [done|]. rewrite Forall_forall in Hrd. by apply Hrd. }
  destruct (selected db rows (tap_cursor s) Hq Hcur Hrd Hdb) as (answer & -> & Ha).
  destruct (tap_rows_run _ answer s u Hf Ha) as (H1 & H2 & H3).
  destruct (pending_after (tap_cursor s) rows 1000 Hs) as [Hle Hp].
  rewrite H1, H2, Hp. split_and!; [done| |done]. split_and!; rewrite H2.
  - rewrite H3, Hp, <- app_assoc, <- contents_app, take_drop. done.
  - lia.
  - destruct (last _) as [z|] eqn:E; simpl; [|done]. right. apply last_fst_in in E.
    apply list_elem_of_fmap in E as (r & -> & (i & Hr & _)%elem_of_take).
    apply list_elem_of_lookup_2, elem_of_bfilter in Hr as [Hr _]. by apply list_elem_of_fmap_2.
Qed.

Lemma tapped_run dbs c0 rows chunks s u :
  in_i64 c0 → Forall readable_row (rows ++ concat chunks) →
  Forall2 (sql_answers table) dbs (growing rows chunks) →
  StronglySorted rowid_lt (rows ++ concat chunks) → tapped c0 rows s →
  let x := tap_run dbs table subject o (s, u) in
  x.1 = Ok tt ∧ tapped c0 (rows ++ concat chunks) x.2.1.
Proof.
  intros Hc0. revert dbs rows s u. induction chunks as [|c cs IH]; intros dbs rows s u Hrd Hd Hs Ht.
  { apply Forall2_nil_inv_r in Hd as ->. simpl. by rewrite app_nil_r. }
  cbn [growing concat] in *. rewrite app_assoc in *.
  apply Forall2_cons_inv_r in Hd as (db & dbs' & Hdb & Hd & ->).
  apply StronglySorted_app in Hs as Hs'. destruct Hs' as (_ & Hs' & _).
  pose proof Hrd as [Hrd' _]%Forall_app.
  unfold tap_run in *. rewrite try_each_cons.
  destruct (tapped_tick db c0 (rows ++ c) s u Hc0 Hrd' Hdb Hs' (tapped_grow _ _ _ _ Hs' Ht)) as (H1 & H2 & _).
  destruct (tap_tick db table subject o (s, u)) as [q [s' u']]. simpl in H1, H2. subst q.
  by apply IH.
Qed.

(** Ticks on a table at rest shorten what is pending by 1000 rows each. *)
Lemma tapped_drain db n c0 rows s u :
  in_i64 c0 → Forall readable_row rows → sql_answers table db rows →
  StronglySorted rowid_lt rows → tapped c0 rows s →
  let x := tap_run (replicate n db) table subject o (s, u) in
  x.1 = Ok tt ∧ tapped c0 rows x.2.1 ∧
  pending (tap_cursor x.2.1) rows = drop (1000 * n) (pending (tap_cursor s) rows).
Proof.
  intros Hc0 Hrd Hdb Hs. revert s u. induction n as [|n IH]; intros s u Ht.
  { split_and!; [done..|]. by rewrite Nat.mul_0_r. }
  cbn [replicate]. unfold tap_run in *. rewrite try_each_cons.
  destruct (tapped_tick db c0 rows s u Hc0 Hrd Hdb Hs Ht) as (H1 & H2 & H3).
  destruct (tap_tick db table subject o (s, u)) as [q [s' u']]. simpl in H1, H2, H3. subst q.
  destruct (IH s' u' H2) as (-> & H5 & H6). split_and!; [done..|].
  rewrite H6, H3, drop_drop. f_equal. lia.
Qed.

End tap_facts.

(** ** Claims *)

(** C27: the tap publishes every new row exactly once, in rowid order, and catches up.
    The table may grow between ticks by rows with greater rowids; its name has no double
    quote and none of its columns is called [_orion_rowid].  The database is known only to
    answer queries by their meaning, for every comparison, order and limit.  As long as no
    publication fails, what was published followed by what is still pending is what was
    pending at the start, and [n] ticks on a table at rest publish all of it when at most
    [1000 * n] rows were pending. *)
Theorem tap_exactly_once {J : SerdeJson} {JM : JsonMake} {T : Rfc3339} {SR : SqlxRow}
    (o : Oracle) (table subject : string) (c0 : Z) (dbs : list (string → result (list Row) Fault))
    (db : string → result (list Row) Fault) (n : nat) (chunks : list (list (Z * Row))) (u : Used)
    (Hf : fault_free o) (Hq : has_char (ascii_of_N 34) table = false) (Hc0 : in_i64 c0)
    (Hrd : Forall readable_row (concat chunks))
    (Hdbs : Forall2 (sql_answers table) dbs (growing [] chunks))
    (Hdb : sql_answers table db (concat chunks)) (Hs : StronglySorted rowid_lt (concat chunks)) :
  let rows := concat chunks in
  let r := tap_run (dbs ++ replicate n db) table subject o
    ({| tap_cursor := c0; tap_sent := [] |}, u) in
  r.1 = Ok tt ∧
  sent_rows r.2.1 ++ contents (pending (tap_cursor r.2.1) rows) = contents (pending c0 rows) ∧
  (length (pending c0 rows) ≤ 1000 * n → sent_rows r.2.1 = contents (pending c0 rows)).
Proof.
  assert (tapped c0 [] {| tap_cursor := c0; tap_sent := [] |}) as H0
    by (split_and!; [done|simpl; lia|by left]).
  destruct (tapped_run o table subject Hf Hq dbs c0 [] chunks _ u Hc0 Hrd Hdbs Hs H0) as [H1 H2].
  cbv zeta. unfold tap_run in *. rewrite try_each_app.
  destruct (try_each dbs _ o _) as [q [s1 u1]]. simpl in H1, H2. subst q. cbv beta iota.
  destruct (tapped_drain o table subject Hf Hq db n c0 (concat chunks) s1 u1 Hc0 Hrd Hdb Hs H2)
    as (H3 & (H4 & _) & H5). unfold tap_run in *. split_and!; [done..|]. intros Hlen.
  rewrite H5 in H4. rewrite drop_ge in H4; [by rewrite app_nil_r in H4|].
  destruct H2 as (H2 & _). apply (f_equal length) in H2. unfold contents in H2.
  rewrite length_app, !length_fmap in H2. lia.
Qed.

(** ** A table in memory

    Rows are numbers under column names; the database reads the text of a query back. *)
Definition demo_rows : SqlxRow :=
  let get (row : list (string * Z)) name := snd <$> List.find (λ kv, String.eqb kv.1 name) row in
  {| Row := list (string * Z); columns := λ row, row.*1;
     try_get_i64 := get; try_get_f64 := λ _ _, None;
     try_get_string := λ _ _, None; try_get_opt_string := λ _ _, None |}.

Definition read_cmp (s : string) : option SqlCmp :=
  List.find (λ c, String.eqb (cmp_text c) s) [SqlLt; SqlLe; SqlEq; SqlGe; SqlGt].
Definition read_int (s : string) : option Z :=
  match s with
  | String c s' => if Ascii.eqb c "-" then Z.opp <$> parse_unsigned (2 ^ 63) s'
                   else parse_unsigned (2 ^ 63) s
  | EmptyString => None
  end.

Definition read_query (table text : string) : option RowidQuery :=
  match split_on " " text with
  | [_; _; _; alias; _; _; _; _; _; cmp; since; _; _; _; order; _; limit] =>
      c ← read_cmp cmp; z ← read_int since; n ← parse_unsigned (2 ^ 63) limit;
      let q := {| rq_alias := default "" (head (split_on "," alias)); rq_table := table; rq_cmp := c;
                  rq_since := z; rq_descending := String.eqb order "DESC"; rq_limit := Z.to_nat n |} in
      if String.eqb (query_text q) text then Some q else None
  | _ => None
  end.

Definition demo_db (table : string) (rows : list (Z * Row (SqlxRow := demo_rows))) (text : string)
    : result (list (Row (SqlxRow := demo_rows))) Fault :=
  match read_query table text with
  | Some q => Ok ((λ r : Z * list (string * Z), (rq_alias q, r.1) :: r.2) <$> query_rows (SR := demo_rows) q rows)
  | None => Err "bad query"
  end.

Lemma read_int_pretty z : in_i64 z → read_int (pretty z) = Some z.
Proof.
  unfold in_i64. intros Hz. unfold read_int. destruct z as [|z|z]; [done| |].
  - pose proof (parse_unsigned_pretty (2 ^ 63) (Z.pos z) ltac:(lia)) as H.
    change (pretty (Z.pos z)) with (pretty (N.pos z)) in *.
    pose proof (parse_digits_pretty (N.pos z)) as Hp. destruct (pretty (N.pos z)) as [|c s]; [done|].
    destruct (Ascii.eqb_spec c "-") as [->|]; [discriminate Hp|exact H].
  - change (pretty (Z.neg z)) with (String "-" (pretty (Z.pos z))). cbn [Ascii.eqb Bool.eqb].
    by rewrite (parse_unsigned_pretty (2 ^ 63) (Z.pos z)) by lia.
Qed.

Lemma alias_plain a : alias_name a = true → has_char " " a = false ∧ has_char "," a = false.
Proof.
  assert (∀ c, Ascii.eqb c "_" || is_ascii_alphanumeric c = true →
    Ascii.eqb c " " = false ∧ Ascii.eqb c "," = false) as Hc
    by (intros [[] [] [] [] [] [] [] []]; vm_compute; done).
  destruct a as [|c a]; [done|]. cbn [alias_name]. intros [->%Ascii.eqb_eq H]%andb_true_iff.
  cbn [has_char Ascii.eqb Bool.eqb orb]. induction a as [|c a IH]; [done|]. cbn [all_chars has_char] in *.
  apply andb_true_iff in H as [H Ha]. rewrite orb_comm in H. destruct (Hc c H) as [-> ->]. by apply IH.
Qed.

Lemma read_query_text q :
  plain_query q → has_char " " (rq_table q) = false → read_query (rq_table q) (query_text q) = Some q.
Proof.
  intros ([Ha Ha']%alias_plain & _ & Hz & Hn) Ht. destruct q as [alias table cmp since desc limit]. cbn in *.
  assert (query_text {| rq_alias := alias; rq_table := table; rq_cmp := cmp; rq_since := since;
            rq_descending := desc; rq_limit := limit |} =
    "SELECT" +:+ String " " ("rowid" +:+ String " " ("AS" +:+ String " " ((alias +:+ ",") +:+ String " " (
    "*" +:+ String " " ("FROM" +:+ String " " ((double_quote +:+ table +:+ double_quote) +:+ String " " (
    "WHERE" +:+ String " " ("rowid" +:+ String " " (cmp_text cmp +:+ String " " (pretty since +:+ String " " (
    "ORDER" +:+ String " " ("BY" +:+ String " " ("rowid" +:+ String " " (
    (if desc then "DESC" else "ASC") +:+ String " " ("LIMIT" +:+ String " " (pretty limit))))))))))))))))) as E.
  { unfold query_text. cbn [rq_alias rq_table rq_cmp rq_since rq_descending rq_limit].
    by rewrite !string_app_assoc. }
  assert (pretty limit = pretty (Z.of_nat limit)) as El
    by (unfold pretty at 1, pretty_nat; rewrite <- nat_N_Z; by destruct (N.of_nat limit)).
  assert (∀ z : Z, has_char " " (pretty z) = false) as Hp by (intros z; by apply pretty_Z_chars).
  unfold read_query. rewrite E at 1. rewrite El, !split_on_app, split_on_single by
    (done || (by destruct cmp) || (by destruct desc) || by rewrite ?has_char_app, ?Ha, ?Ht).
  unfold read_cmp.
  assert (List.find (λ c, String.eqb (cmp_text c) (cmp_text cmp)) [SqlLt; SqlLe; SqlEq; SqlGe; SqlGt]
    = Some cmp) as -> by (by destruct cmp).
  cbn [mbind option_bind]. rewrite read_int_pretty by done. cbn [mbind option_bind].
  rewrite parse_unsigned_pretty by (unfold in_i64 in Hn; lia). cbn [mbind option_bind].
  cbn [head default from_option id].
  rewrite Nat2Z.id. assert (String.eqb (if desc then "DESC" else "ASC") "DESC" = desc) as ->
    by (by destruct desc). by rewrite String.eqb_refl.
Qed.

Lemma demo_db_answers table rows :
  has_char " " table = false → sql_answers (SR := demo_rows) table (demo_db table rows) rows.
Proof.
  intros Ht q Hq <- _. unfold demo_db. rewrite read_query_text by done. eexists. split; [reflexivity|].
  induction (query_rows (SR := demo_rows) q rows) as [|r l IH]; [constructor|]. constructor; [|exact IH].
  split_and!; cbn; [done|by rewrite String.eqb_refl|]. intros name Hn.
  by rewrite (proj2 (String.eqb_neq _ _) (not_eq_sym Hn)).
Qed.

(** Three rows are there at first, a fourth comes; the cursor starts after the first. *)
Definition demo_table : list (Z * list (string * Z)) :=
  [(1, [("v", 10)]); (2, [("v", 20)]); (5, [("v", 50)])]%Z.
Definition demo_added : list (Z * list (string * Z)) := [(6, [("v", 60)])]%Z.

Lemma tap_exactly_once_witness :
  fst <$> sent_rows (tap_run (JM := toy_make) (T := utc_clock) (SR := demo_rows)
    ([demo_db "t" demo_table; demo_db "t" (demo_table ++ demo_added)] ++
     replicate 1 (demo_db "t" (demo_table ++ demo_added))) "t" "q" quiet_oracle
    ({| tap_cursor := 1; tap_sent := [] |}, Used_init)).2.1 = [2; 5; 6]%Z.
Proof.
  destruct (tap_exactly_once (JM := toy_make) (T := utc_clock) (SR := demo_rows) quiet_oracle
    "t" "q" 1 [demo_db "t" demo_table; demo_db "t" (demo_table ++ demo_added)]
    (demo_db "t" (demo_table ++ demo_added)) 1 [demo_table; demo_added] Used_init) as (_ & _ & H).
  - apply quiet_fault_free.
  - reflexivity.
  - by split.
  - repeat constructor; try (by vm_compute); cbn; intros H%list_elem_of_singleton; discriminate H.
  - repeat constructor; by apply demo_db_answers.
  - by apply demo_db_answers.
  - repeat constructor.
  - rewrite H; [reflexivity|]. vm_compute. lia.
Defined.

Section bridge_facts.
Context {J : SerdeJson} {JM : JsonMake} {T : Rfc3339}.

(** The record a message was made of, without its time. *)
Definition inbound_key (ev : InboundEvent) : string * Z * Z * Value :=
  (ie_kafka_topic ev, ie_kafka_partition ev, ie_kafka_offset ev, ie_body ev).
Definition record_key (m : result KafkaRecord Fault) : list (string * Z * Z * Value) :=
  match m with
  | Ok m => [(kr_topic m, kr_partition m, kr_offset m,
              body_value (default EmptyString (kr_payload m)))]
  | Err _ => []
  end.
Definition bridged (sent : Outbox InboundEvent) : list (string * Z * Z * Value) :=
  (λ m, inbound_key m.2) <$> sent.

Lemma kafka_step_emits o subject : emits bridged record_key o (kafka_step subject).
Proof.
  intros [m|e] sent u; [|simpl; by rewrite app_nil_r].
  unfold kafka_step, mbind, M_bind, now. cbn [fst snd].
  destruct (js_publish _ _ _ _) as [r [l u']] eqn:E.
  epose proof (js_publish_run _ _ _ _ _) as HP. erewrite E in HP. simpl in HP.
  destruct (or_fault o (us_io u)); destruct HP as [-> ->]; simpl; [done|].
  unfold bridged. by rewrite fmap_app.
Qed.

End bridge_facts.

(** The bridge from Kafka keeps order and loses no record before it stops.  What it
    has published is a prefix of the records the consumer yielded, receive errors
    skipped, with the topic, partition and offset of each and its payload as JSON or,
    when it is not JSON, as text; all of them when the loop ends without an error. *)
Theorem kafka_bridge_in_order {J : SerdeJson} {JM : JsonMake} {T : Rfc3339} (o : Oracle)
    (subject : string) (msgs : list (result KafkaRecord Fault)) (sent : Outbox InboundEvent)
    (u : Used) :
  let r := run_kafka_to_orion subject msgs o (sent, u) in
  ∃ k, bridged r.2.1 = bridged sent ++ (take k msgs ≫= record_key) ∧
       (r.1 = Ok tt → k = length msgs).
Proof. apply try_each_prefix, kafka_step_emits. Qed.

(** C30: with a secret configured, only signed requests reach the queue.  A request is
    published and answered 200 exactly when its signature header, the first present of
    the three names, is the hexadecimal HMAC of the body under the secret, after an
    optional [sha256=]; otherwise the answer is 401 and nothing is published.  When the
    publication fails the answer is 500 and nothing is published. *)
Theorem webhook_only_signed {J : SerdeJson} {JM : JsonMake} {T : Rfc3339} {WL : WebhookLibs}
    (o : Oracle) (state : WebhookState) (secret : string) (key : MacKey) (route : option string)
    (headers : list (string * string)) (body : string) (sent : Outbox WebhookEvent) (u : Used)
    (Hs : ws_secret state = Some secret) (Hk : hmac_new secret = Some key) :
  let sig := signature_header headers in
  let hex := default sig (strip_prefix "sha256=" sig) in
  let r := receive_inner state route headers body o (sent, u) in
  match or_fault o (us_io u) with
  | None => hex_decode hex = Some (hmac_tag key body) →
      r.1 = 200%Z ∧ ∃ ev, r.2.1 = sent ++ [(we_subject ev, ev)] ∧
        we_raw_body ev = from_utf8_lossy body
  | Some _ => hex_decode hex = Some (hmac_tag key body) → r.1 = 500%Z ∧ r.2.1 = sent
  end ∧
  (hex_decode hex ≠ Some (hmac_tag key body) → r.1 = 401%Z ∧ r.2.1 = sent).
Proof.
  cbv zeta. unfold receive_inner. rewrite Hs. unfold verify_hmac_sha256. rewrite Hk.
  set (hex := default _ _). split.
  - destruct (or_fault o (us_io u)) as [f|] eqn:Ef; intros ->;
      rewrite bool_decide_eq_true_2 by done; simpl; unfold mbind, M_bind, now, io; simpl; rewrite Ef.
    + done.
    + split; [done|]. eexists {| we_subject := _ |}. split; [reflexivity|done].
  - intros Hne. destruct (hex_decode hex) as [b|]; [|done].
    by rewrite bool_decide_eq_false_2 by congruence.
Qed.

Definition demo_hooks : WebhookLibs :=
  {| hex_decode := λ s, Some s; MacKey := string; hmac_new := λ s, Some s;
     hmac_tag := λ k b, k +:+ b; header_to_str := λ v, Some v |}.

Lemma webhook_only_signed_witness :
  (receive_inner (JM := toy_make) (T := demo_clock) (WL := demo_hooks)
    {| ws_subject := "q"; ws_secret := Some "k" |} None [("x-signature-256", "sha256=other")] "b"
    quiet_oracle ([], Used_init)).1 = 401%Z.
Proof.
  apply (webhook_only_signed (JM := toy_make) (T := demo_clock) (WL := demo_hooks) quiet_oracle
    {| ws_subject := "q"; ws_secret := Some "k" |} "k" "k" None
    [("x-signature-256", "sha256=other")] "b" [] Used_init eq_refl eq_refl).
  vm_compute. discriminate.
Defined.
