(* ===== verification/Mcp.v ===== *)
(** * The controller's router and the MCP server

    The route table of the controller (crates/orion-controller/src/main.rs) and the
    MCP-over-stdio server (crates/orion-mcp), which turns tool calls into requests to
    those routes. *)

From Stdlib Require Import ZArith Lia Bool Ascii.
From stdpp Require Import base list gmap strings pretty.
From S2P Require Import Prelude Text Types Effect Parse.

(** ** Routes *)

Inductive Method : Type := GET | POST | DELETE.
#[export] Instance Method_eq_dec : EqDecision Method.
Proof. solve_decision. Defined.

(** The handlers, by the names of their functions. *)
Inductive Handler : Type :=
| H_list_nodes | H_list_kinds | H_list_resources | H_get_resource | H_delete_resource
| H_apply_resource | H_dispatch_resource | H_get_logs | H_search_logs | H_list_all_instances
| H_get_instances | H_stop_workload | H_restart_workload | H_diag_system | H_diag_jetstream
| H_list_schedule_observations | H_list_health | H_find_services | H_get_logs_archive
| H_prometheus_metrics | H_list_workflow_progress | H_health.
#[export] Instance Handler_eq_dec : EqDecision Handler.
Proof. solve_decision. Defined.

(** A pattern segment: literal text, or a [:param]. *)
Inductive Seg : Type := Lit (s : string) | Param (name : string).

Record Route : Type := {
  rt_pattern : list Seg;
  rt_methods : list (Method * Handler);
  (** Whether [require_bearer] is layered over it. *)
  rt_guarded : bool
}.

Definition parse_seg (s : string) : Seg :=
  match s with
  | String c s' => if Ascii.eqb c (ascii_of_N 58) then Param s' else Lit s
  | EmptyString => Lit s
  end.

Definition slash : ascii := ascii_of_N 47.

(** The segments after the leading slash. *)
Definition segments (path : string) : list string :=
  match split_on slash path with _ :: segs => segs | [] => [] end.

Definition route_of (path : string) (methods : list (Method * Handler)) (guarded : bool) : Route :=
  {| rt_pattern := parse_seg <$> segments path; rt_methods := methods; rt_guarded := guarded |}.

(** The router of [main]: every route added before the layer is guarded. *)
Definition router : list Route :=
  [ route_of "/v1/nodes" [(GET, H_list_nodes)] true;
    route_of "/v1/kinds" [(GET, H_list_kinds)] true;
    route_of "/v1/resources/:kind" [(GET, H_list_resources)] true;
    route_of "/v1/resources/:kind/:name" [(GET, H_get_resource); (DELETE, H_delete_resource)] true;
    route_of "/v1/resources/apply" [(POST, H_apply_resource)] true;
    route_of "/v1/dispatch/:kind/:name" [(POST, H_dispatch_resource)] true;
    route_of "/v1/logs/:kind/:name" [(GET, H_get_logs)] true;
    route_of "/v1/logs/search" [(GET, H_search_logs)] true;
    route_of "/v1/instances" [(GET, H_list_all_instances)] true;
    route_of "/v1/instances/:kind/:name" [(GET, H_get_instances)] true;
    route_of "/v1/control/:kind/:name/stop" [(POST, H_stop_workload)] true;
    route_of "/v1/control/:kind/:name/restart" [(POST, H_restart_workload)] true;
    route_of "/v1/diag/system" [(GET, H_diag_system)] true;
    route_of "/v1/diag/jetstream" [(GET, H_diag_jetstream)] true;
    route_of "/v1/schedules/observed" [(GET, H_list_schedule_observations)] true;
    route_of "/v1/health/instances" [(GET, H_list_health)] true;
    route_of "/v1/find" [(POST, H_find_services)] true;
    route_of "/v1/logs-archive/:kind/:name" [(GET, H_get_logs_archive)] true;
    route_of "/metrics" [(GET, H_prometheus_metrics)] true;
    route_of "/v1/workflows/observed" [(GET, H_list_workflow_progress)] true;
    route_of "/health" [(GET, H_health)] false ].

(** Matching a path: a parameter takes one non-empty segment. *)
Fixpoint match_pattern (pat : list Seg) (segs : list string) : option (list string) :=
  match pat, segs with
  | [], [] => Some []
  | Lit s :: pat', x :: segs' => if String.eqb s x then match_pattern pat' segs' else None
  | Param _ :: pat', x :: segs' =>
      if bool_decide (x = EmptyString) then None
      else match match_pattern pat' segs' with Some ps => Some (x :: ps) | None => None end
  | _, _ => None
  end.

(** axum prefers a literal segment to a parameter at the first place they differ. *)
Fixpoint more_specific (a b : list Seg) : bool :=
  match a, b with
  | Lit _ :: _, Param _ :: _ => true
  | Param _ :: _, Lit _ :: _ => false
  | _ :: a', _ :: b' => more_specific a' b'
  | _, _ => false
  end.

Definition best_match (segs : list string) : option (Route * list string) :=
  foldl (λ acc r,
    match match_pattern (rt_pattern r) segs with
    | None => acc
    | Some ps => match acc with
                 | Some (r', _) => if more_specific (rt_pattern r) (rt_pattern r')
                                   then Some (r, ps) else acc
                 | None => Some (r, ps)
                 end
    end) None router.

Inductive Routed : Type :=
| NotFound404
| MethodNotAllowed405
| Handled (h : Handler) (params : list string) (guarded : bool).

Definition dispatch_path (m : Method) (path : string) : Routed :=
  match best_match (segments path) with
  | None => NotFound404
  | Some (r, ps) =>
      match List.find (λ mh, bool_decide (mh.1 = m)) (rt_methods r) with
      | Some (_, h) => Handled h ps (rt_guarded r)
      | None => MethodNotAllowed405
      end
  end.

(** ** The MCP library (lib.rs) *)

Definition planned_tools : list (string * string) :=
  [ ("orion_list_nodes", "List nodes the controller knows about (live agents + their inventory)");
    ("orion_list_services", "List all Service resources");
    ("orion_list_tasks", "List all Task resources");
    ("orion_list_queues", "List all named Queues with their type + message backlog");
    ("orion_get_resource", "Get a single resource by kind + name (returns the full YAML/JSON body)");
    ("orion_apply_resource", "POST a YAML resource body to /v1/resources/apply");
    ("orion_delete_resource", "Delete a resource by kind + name");
    ("orion_dispatch", "Dispatch a Service or Task — controller picks a node and runs it");
    ("orion_logs", "Get the recent log buffer for a workload (kind + name)");
    ("orion_find_capability", "POST a capability selector to /v1/find; returns matching Services");
    ("orion_doctor", "Health check across broker, controller, agents, JetStream");
    ("orion_diag_system", "Diagnostic snapshot of the controller's process + agents + instances");
    ("orion_diag_jetstream", "JetStream stream + consumer summary") ].

Section mcp.
Context {J : SerdeJson} {JM : JsonMake}.

Record RpcRequest : Type := {
  rq_jsonrpc : string;
  rq_id : option Value;
  rq_method : string;
  rq_params : Value
}.

Record RpcError : Type := { re_code : Z; re_message : string }.

Record RpcResponse : Type := {
  rs_jsonrpc : string;
  rs_id : option Value;
  rs_result : option Value;
  rs_error : option RpcError
}.

Definition RpcResponse_ok (id : option Value) (res : Value) : RpcResponse :=
  {| rs_jsonrpc := "2.0"; rs_id := id; rs_result := Some res; rs_error := None |}.
Definition RpcResponse_err (id : option Value) (code : Z) (message : string) : RpcResponse :=
  {| rs_jsonrpc := "2.0"; rs_id := id; rs_result := None;
     rs_error := Some {| re_code := code; re_message := message |} |}.

(** [json!({ ... })] with distinct keys. *)
Definition obj (kvs : list (string * Value)) : Value := json_object (list_to_map kvs).

Definition type_schema (ty : string) : Value := obj [("type", json_string ty)].

Definition kind_name_schema : Value :=
  obj [("type", json_string "object");
       ("properties", obj [("kind", type_schema "string"); ("name", type_schema "string")]);
       ("required", json_array [json_string "kind"; json_string "name"])].

Definition selector_example : string :=
  "Capability selector, e.g. {" +:+ ascii_str 34 +:+ "llm" +:+ ascii_str 34 +:+ ": {" +:+
  ascii_str 34 +:+ "min_vram_gb" +:+ ascii_str 34 +:+ ": {" +:+ ascii_str 34 +:+ "gte" +:+
  ascii_str 34 +:+ ": 24}}}".

Definition tool_input_schema (name : string) : Value :=
  if bool_decide (name ∈ ["orion_list_nodes"; "orion_list_services"; "orion_list_tasks";
       "orion_list_queues"; "orion_doctor"; "orion_diag_system"; "orion_diag_jetstream"])
  then obj [("type", json_string "object"); ("properties", obj []);
            ("additionalProperties", json_bool false)]
  else if bool_decide (name ∈ ["orion_get_resource"; "orion_delete_resource"])
  then kind_name_schema
  else if String.eqb name "orion_apply_resource"
  then obj [("type", json_string "object");
            ("properties", obj [("yaml",
               obj [("type", json_string "string");
                    ("description", json_string "Full resource YAML body")])]);
            ("required", json_array [json_string "yaml"])]
  else if bool_decide (name ∈ ["orion_dispatch"; "orion_logs"]) then kind_name_schema
  else if String.eqb name "orion_find_capability"
  then obj [("type", json_string "object");
            ("properties", obj [("selector",
               obj [("type", json_string "object");
                    ("description", json_string selector_example)])]);
            ("required", json_array [json_string "selector"])]
  else type_schema "object".

Definition tools_list_response (id : option Value) : RpcResponse :=
  let tools := (λ '(name, desc),
    obj [("name", json_string name); ("description", json_string desc);
         ("inputSchema", tool_input_schema name)]) <$> planned_tools in
  RpcResponse_ok id (obj [("tools", json_array tools)]).

Definition arg_str (args : Value) (key : string) : result string string :=
  match value_get args key ≫= value_as_str with
  | Some s => Ok s
  | None => Err ("missing string arg '" +:+ key +:+ "'")
  end.

(** The request that is built, before the bearer token. *)
Inductive ReqBody : Type := NoBody | YamlBody (text : string) | JsonBody (v : Value).
Record ToolRequest : Type := { tr_method : Method; tr_url : string; tr_body : ReqBody }.

Definition plain_request (m : Method) (url : string) : ToolRequest :=
  {| tr_method := m; tr_url := url; tr_body := NoBody |}.

(** The four tools that address one resource. *)
Definition kind_name_request (m : Method) (prefix : string) (args : Value)
    : result ToolRequest string :=
  let? k := arg_str args "kind" in
  let? n := arg_str args "name" in
  Ok (plain_request m (prefix +:+ k +:+ "/" +:+ n)).

Definition tool_request (base tool : string) (args : Value) : result ToolRequest string :=
  if String.eqb tool "orion_list_nodes" then Ok (plain_request GET (base +:+ "/v1/nodes"))
  else if String.eqb tool "orion_list_services"
  then Ok (plain_request GET (base +:+ "/v1/resources/Service"))
  else if String.eqb tool "orion_list_tasks"
  then Ok (plain_request GET (base +:+ "/v1/resources/Task"))
  else if String.eqb tool "orion_list_queues"
  then Ok (plain_request GET (base +:+ "/v1/resources/Queue"))
  else if String.eqb tool "orion_doctor" then Ok (plain_request GET (base +:+ "/v1/diag/system"))
  else if String.eqb tool "orion_diag_system"
  then Ok (plain_request GET (base +:+ "/v1/diag/system"))
  else if String.eqb tool "orion_diag_jetstream"
  then Ok (plain_request GET (base +:+ "/v1/diag/jetstream"))
  else if String.eqb tool "orion_get_resource"
  then kind_name_request GET (base +:+ "/v1/resources/") args
  else if String.eqb tool "orion_delete_resource"
  then kind_name_request DELETE (base +:+ "/v1/resources/") args
  else if String.eqb tool "orion_dispatch"
  then kind_name_request POST (base +:+ "/v1/dispatch/") args
  else if String.eqb tool "orion_logs" then kind_name_request GET (base +:+ "/v1/logs/") args
  else if String.eqb tool "orion_apply_resource" then
    let? yaml := arg_str args "yaml" in
    Ok {| tr_method := POST; tr_url := base +:+ "/v1/resources/apply"; tr_body := YamlBody yaml |}
  else if String.eqb tool "orion_find_capability" then
    match value_get args "selector" with
    | Some selector =>
        Ok {| tr_method := POST; tr_url := base +:+ "/v1/find"; tr_body := JsonBody selector |}
    | None => Err "missing 'selector'"
    end
  else Err ("unknown tool '" +:+ tool +:+ "'").

(** What the HTTP client gives back: an error, or the status, with its text, and the
    body. *)
Definition Send : Type := ToolRequest → option string → result (bool * string * string) string.

Definition call_tool (send : Send) (controller : string) (token : option string)
    (tool : string) (args : Value) : result Value string :=
  let base := trim_end_matches (Ascii.eqb slash) controller in
  let? req := tool_request base tool args in
  match send req token with
  | Err e => Err e
  | Ok (success, status, text) =>
      if success then Ok (default (json_string text) (json_from_str text))
      else Err ("controller returned " +:+ status +:+ ": " +:+ text)
  end.

(** ** The server (bin/server.rs) *)

(** serde: reading a request from a line; [to_string_pretty]; the crate's version. *)
Record ServerLibs : Type := {
  parse_request : string → result RpcRequest string;
  to_string_pretty : Value → string;
  pkg_version : string
}.

Definition initialize_result (version : string) : Value :=
  obj [("protocolVersion", json_string "2024-11-05");
       ("capabilities", obj [("tools", obj [])]);
       ("serverInfo", obj [("name", json_string "orion-mcp"); ("version", json_string version)])].

Definition handle_request (L : ServerLibs) (send : Send) (controller : string)
    (token : option string) (req : RpcRequest) : RpcResponse :=
  let id := rq_id req in
  let m := rq_method req in
  if String.eqb m "initialize" then RpcResponse_ok id (initialize_result (pkg_version L))
  else if String.eqb m "tools/list" then tools_list_response id
  else if String.eqb m "tools/call" then
    let name := default EmptyString (value_get (rq_params req) "name" ≫= value_as_str) in
    let arguments := default (json_object ∅) (value_get (rq_params req) "arguments") in
    match call_tool send controller token name arguments with
    | Ok res => RpcResponse_ok id
        (obj [("content", json_array [obj [("type", json_string "text");
                                           ("text", json_string (to_string_pretty L res))]])])
    | Err e => RpcResponse_err id (-32000) ("tool error: " +:+ e)
    end
  else if String.eqb m "ping" then RpcResponse_ok id (obj [])
  else RpcResponse_err id (-32601) ("method not found: " +:+ m).

(** One line of input: nothing for a blank line, else one response. *)
Definition handle_line (L : ServerLibs) (send : Send) (controller : string)
    (token : option string) (line : string) : option RpcResponse :=
  let trimmed := trim line in
  if bool_decide (trimmed = EmptyString) then None
  else Some (match parse_request L trimmed with
             | Err e => RpcResponse_err None (-32700) ("parse error: " +:+ e)
             | Ok req => handle_request L send controller token req
             end).

(** The loop: a failed write ends the server. *)
Fixpoint serve (L : ServerLibs) (send : Send) (controller : string) (token : option string)
    (input : list string) : M (list RpcResponse) (result unit Fault) :=
  match input with
  | [] => mret (Ok tt)
  | line :: rest =>
      match handle_line L send controller token line with
      | None => serve L send controller token rest
      | Some resp =>
          r ← io;
          match r with
          | Some f => mret (Err f)
          | None => _ ← modify (λ out, out ++ [resp]); serve L send controller token rest
          end
      end
  end.

End mcp.

(** ** Specification: what a schema asks of the arguments *)

Section schema.
Context {J : SerdeJson} {JM : JsonMake}.

Definition required (schema : Value) : list string :=
  match value_get schema "required" ≫= value_as_array with
  | Some l => omap value_as_str l
  | None => []
  end.

Definition property_type (schema : Value) (k : string) : option string :=
  match value_get schema "properties" with
  | Some props => match value_get props k with
                  | Some p => value_get p "type" ≫= value_as_str
                  | None => None
                  end
  | None => None
  end.

(** The required arguments are there, and are strings where the schema says so. *)
Definition arg_ok (schema args : Value) (k : string) : bool :=
  if bool_decide (property_type schema k = Some "string")
  then bool_decide (is_Some (value_get args k ≫= value_as_str))
  else bool_decide (is_Some (value_get args k)).
Definition satisfies (schema args : Value) : bool :=
  forallb (arg_ok schema args) (required schema).

Context {JL : JsonLaws}.

Lemma obj_get kvs k :
  value_get (obj kvs) k = snd <$> List.find (λ kv, String.eqb k kv.1) kvs.
Proof.
  unfold obj. rewrite get_object. induction kvs as [|[k' v] kvs IH]; [done|]. cbn [list_to_map foldr].
  simpl. destruct (String.eqb_spec k k') as [->|Hne].
  - by rewrite lookup_insert_eq.
  - by rewrite lookup_insert_ne.
Qed.

Lemma required_of kvs l :
  List.find (λ kv, String.eqb "required" kv.1) kvs = Some ("required", json_array (json_string <$> l)) →
  required (obj kvs) = l.
Proof.
  intros H. unfold required. rewrite obj_get, H. simpl. rewrite as_array_array. clear H.
  induction l as [|x l IH]; [done|]. csimpl. rewrite as_str_string. by rewrite IH.
Qed.

Definition is_ok {A E} (r : result A E) : bool := match r with Ok _ => true | Err _ => false end.

Lemma arg_str_ok args k :
  is_ok (arg_str args k) = bool_decide (is_Some (value_get args k ≫= value_as_str)).
Proof.
  unfold arg_str. destruct (value_get args k ≫= value_as_str) as [s|].
  - by rewrite bool_decide_eq_true_2.
  - rewrite bool_decide_eq_false_2; [done|]. by intros [? ?].
Qed.

Lemma property_type_of kvs props k p ty :
  List.find (λ kv, String.eqb "properties" kv.1) kvs = Some ("properties", obj props) →
  List.find (λ kv, String.eqb k kv.1) props = Some (k, obj p) →
  List.find (λ kv, String.eqb "type" kv.1) p = Some ("type", json_string ty) →
  property_type (obj kvs) k = Some ty.
Proof.
  intros H1 H2 H3. unfold property_type. rewrite obj_get, H1. simpl. rewrite obj_get, H2. simpl.
  rewrite obj_get, H3. simpl. apply as_str_string.
Qed.

Lemma satisfies_none kvs args :
  List.find (λ kv, String.eqb "required" kv.1) kvs = None → satisfies (obj kvs) args = true.
Proof. intros H. unfold satisfies, required. by rewrite obj_get, H. Qed.

Lemma satisfies_kind_name args :
  satisfies kind_name_schema args =
  is_ok (arg_str args "kind") && is_ok (arg_str args "name").
Proof.
  unfold satisfies, kind_name_schema. erewrite (required_of _ ["kind"; "name"]) by reflexivity.
  cbn [forallb]. unfold arg_ok. rewrite !arg_str_ok, andb_true_r.
  assert (∀ k, k ∈ ["kind"; "name"] → property_type kind_name_schema k = Some "string") as H.
  { intros k Hk. rewrite !elem_of_cons, elem_of_nil in Hk.
    destruct Hk as [->|[->|[]]]; eapply property_type_of; reflexivity. }
  unfold kind_name_schema in H. rewrite !H by (set_unfold; auto).
  by rewrite bool_decide_eq_true_2.
Qed.

Lemma is_ok_kind_name m prefix args :
  is_ok (kind_name_request m prefix args) =
  is_ok (arg_str args "kind") && is_ok (arg_str args "name").
Proof.
  unfold kind_name_request. destruct (arg_str args "kind"); simpl; [|done].
  by destruct (arg_str args "name").
Qed.

End schema.

(** Evaluating the comparisons of a literal tool name. *)
Ltac pick_tool :=
  repeat match goal with
  | |- context [bool_decide (?x ∈ ?l)] =>
      let b := eval vm_compute in (bool_decide (x ∈ l)) in
      replace (bool_decide (x ∈ l)) with b by (vm_compute; reflexivity)
  | |- context [String.eqb ?x ?y] =>
      let b := eval vm_compute in (String.eqb x y) in
      replace (String.eqb x y) with b by reflexivity
  end; cbv iota.

(** Membership of a literal in a literal list. *)
Ltac member := refine (bool_decide_unpack _ _); vm_compute; exact I.

Section tool_facts.
Context {J : SerdeJson} {JM : JsonMake} {JL : JsonLaws} (base : string) (args : Value).

Lemma schema_no_args tool :
  tool ∈ ["orion_list_nodes"; "orion_list_services"; "orion_list_tasks"; "orion_list_queues";
          "orion_doctor"; "orion_diag_system"; "orion_diag_jetstream"] →
  satisfies (tool_input_schema tool) args = is_ok (tool_request base tool args).
Proof.
  rewrite !elem_of_cons, elem_of_nil. intros H. repeat destruct H as [->|H]; try done.
  all: unfold tool_input_schema, tool_request; pick_tool; by rewrite satisfies_none.
Qed.

Lemma schema_kind_name tool :
  tool ∈ ["orion_get_resource"; "orion_delete_resource"; "orion_dispatch"; "orion_logs"] →
  satisfies (tool_input_schema tool) args = is_ok (tool_request base tool args).
Proof.
  rewrite !elem_of_cons, elem_of_nil. intros H. repeat destruct H as [->|H]; try done.
  all: unfold tool_input_schema, tool_request; pick_tool;
    by rewrite satisfies_kind_name, is_ok_kind_name.
Qed.

Lemma schema_apply :
  satisfies (tool_input_schema "orion_apply_resource") args =
  is_ok (tool_request base "orion_apply_resource" args).
Proof.
  unfold tool_input_schema, tool_request. pick_tool. unfold satisfies.
  erewrite (required_of _ ["yaml"]) by reflexivity. cbn [forallb]. unfold arg_ok.
  erewrite property_type_of by reflexivity. rewrite bool_decide_eq_true_2 by done.
  rewrite andb_true_r, <- arg_str_ok. by destruct (arg_str args "yaml").
Qed.

Lemma schema_find :
  satisfies (tool_input_schema "orion_find_capability") args =
  is_ok (tool_request base "orion_find_capability" args).
Proof.
  unfold tool_input_schema, tool_request. pick_tool. unfold satisfies.
  erewrite (required_of _ ["selector"]) by reflexivity. cbn [forallb]. unfold arg_ok.
  erewrite property_type_of by reflexivity. rewrite bool_decide_eq_false_2 by done.
  rewrite andb_true_r. destruct (value_get args "selector").
  - by rewrite bool_decide_eq_true_2.
  - rewrite bool_decide_eq_false_2; [done|]. by intros [? ?].
Qed.

End tool_facts.

(** ** Claims *)

(** The advertised schemas say what the calls need.  For every tool in the list and
    any arguments, the request is built if and only if the arguments satisfy the
    tool's schema: every required property is present, and is a string where its type
    is string.  A tool that is not in the list is an error. *)
Theorem tool_schemas_match_calls {J : SerdeJson} {JM : JsonMake} {JL : JsonLaws}
    (base tool : string) (args : Value) :
  (tool ∈ planned_tools.*1 →
     satisfies (tool_input_schema tool) args = is_ok (tool_request base tool args)) ∧
  (tool ∉ planned_tools.*1 →
     tool_request base tool args = Err ("unknown tool '" +:+ tool +:+ "'")).
Proof.
  split.
  - unfold planned_tools. cbn [fmap list_fmap fst]. rewrite !elem_of_cons, elem_of_nil.
    intros H. repeat destruct H as [->|H]; try done.
    all: first [apply schema_no_args; by member|apply schema_kind_name; by member
               |exact (schema_apply base args)|exact (schema_find base args)].
  - intros H. unfold tool_request.
    repeat match goal with
    | |- context [String.eqb tool ?x] =>
        destruct (String.eqb_spec tool x) as [->|_]; [exfalso; apply H; by member|]
    end. done.
Qed.

Lemma tool_schemas_match_calls_witness :
  satisfies (J := toy_json) (tool_input_schema (JM := toy_make) "orion_logs")
    (TObj [("kind", TStr "Service")]) = false.
Proof.
  rewrite (proj1 (tool_schemas_match_calls (J := toy_json) (JM := toy_make) (JL := toy_laws)
    "http://c" "orion_logs" (TObj [("kind", TStr "Service")]))).
  - reflexivity.
  - by member.
Defined.

(** The handler each tool is meant for, and the parameters it should get. *)
Section targets.
Context {J : SerdeJson} {JM : JsonMake}.

Definition str_arg (args : Value) (key : string) : string :=
  match arg_str args key with Ok s => s | Err _ => EmptyString end.

Definition tool_target (tool : string) (args : Value) : option (Handler * list string) :=
  let kn := [str_arg args "kind"; str_arg args "name"] in
  snd <$> List.find (λ th, String.eqb th.1 tool)
    [ ("orion_list_nodes", (H_list_nodes, []));
      ("orion_list_services", (H_list_resources, ["Service"]));
      ("orion_list_tasks", (H_list_resources, ["Task"]));
      ("orion_list_queues", (H_list_resources, ["Queue"]));
      ("orion_get_resource", (H_get_resource, kn));
      ("orion_apply_resource", (H_apply_resource, []));
      ("orion_delete_resource", (H_delete_resource, kn));
      ("orion_dispatch", (H_dispatch_resource, kn));
      ("orion_logs", (H_get_logs, kn));
      ("orion_find_capability", (H_find_services, []));
      ("orion_doctor", (H_diag_system, []));
      ("orion_diag_system", (H_diag_system, []));
      ("orion_diag_jetstream", (H_diag_jetstream, [])) ].

End targets.

(** A path segment. *)
Definition plain_segment (s : string) : Prop := s ≠ EmptyString ∧ has_char slash s = false.

Lemma segments_kind_name prefix k n :
  has_char slash prefix = false → plain_segment k → plain_segment n →
  segments ("/v1/" +:+ prefix +:+ String slash (k +:+ String slash n)) = ["v1"; prefix; k; n].
Proof.
  intros Hp [_ Hk] [_ Hn]. unfold segments.
  change ("/v1/" +:+ ?x) with ("" +:+ String slash ("v1" +:+ String slash x)).
  rewrite !split_on_app by done. by rewrite split_on_single.
Qed.

Lemma match_pattern_length pat segs ps :
  match_pattern pat segs = Some ps → length pat = length segs.
Proof.
  revert segs ps. induction pat as [|[l|p] pat IH]; intros [|x segs] ps; simpl; try done.
  - destruct (String.eqb l x); [|done]. intros H. by f_equal; eapply IH.
  - case_bool_decide; [done|]. destruct (match_pattern pat segs) eqn:E; [|done].
    intros _. by f_equal; eapply IH.
Qed.

(** Only the routes with as many segments as the path matter. *)
Definition best_step (segs : list string) (acc : option (Route * list string)) (r : Route) :=
  match match_pattern (rt_pattern r) segs with
  | None => acc
  | Some ps => match acc with
               | Some (r', _) => if more_specific (rt_pattern r) (rt_pattern r')
                                 then Some (r, ps) else acc
               | None => Some (r, ps)
               end
  end.

Lemma best_match_same_length segs rs acc :
  foldl (best_step segs) acc rs =
  foldl (best_step segs) acc (List.filter (λ r, length (rt_pattern r) =? length segs) rs).
Proof.
  revert acc. induction rs as [|r rs IH]; intros acc; [done|]. cbn [foldl List.filter].
  destruct (Nat.eqb_spec (length (rt_pattern r)) (length segs)) as [_|Hne]; [apply IH|].
  rewrite <- IH. unfold best_step at 2.
  destruct (match_pattern (rt_pattern r) segs) eqn:E; [|done].
  by apply match_pattern_length in E.
Qed.

Definition kind_name_route (prefix : string) (methods : list (Method * Handler)) : Route :=
  {| rt_pattern := [Lit "v1"; Lit prefix; Param "kind"; Param "name"]; rt_methods := methods;
     rt_guarded := true |}.

Lemma four_segment_routes :
  List.filter (λ r, length (rt_pattern r) =? 4) router =
  [ kind_name_route "resources" [(GET, H_get_resource); (DELETE, H_delete_resource)];
    kind_name_route "dispatch" [(POST, H_dispatch_resource)];
    kind_name_route "logs" [(GET, H_get_logs)];
    kind_name_route "instances" [(GET, H_get_instances)];
    kind_name_route "logs-archive" [(GET, H_get_logs_archive)] ].
Proof. vm_compute. reflexivity. Qed.

Lemma match_kind_name prefix p k n :
  plain_segment k → plain_segment n →
  match_pattern [Lit "v1"; Lit prefix; Param "kind"; Param "name"] ["v1"; p; k; n] =
  if String.eqb prefix p then Some [k; n] else None.
Proof.
  intros [Hk _] [Hn _]. cbn [match_pattern]. rewrite String.eqb_refl.
  destruct (String.eqb prefix p); [|done].
  by rewrite !bool_decide_eq_false_2.
Qed.

Lemma best_kind_name p k n methods :
  has_char slash p = false → plain_segment k → plain_segment n →
  In (kind_name_route p methods) (List.filter (λ r, length (rt_pattern r) =? 4) router) →
  best_match ["v1"; p; k; n] = Some (kind_name_route p methods, [k; n]).
Proof.
  intros Hp Hk Hn Hin. unfold best_match. change (foldl _ None router) with
    (foldl (best_step ["v1"; p; k; n]) None router).
  rewrite best_match_same_length. change (length ["v1"; p; k; n]) with 4.
  rewrite four_segment_routes in *. simpl in Hin.
  repeat destruct Hin as [Hin|Hin]; try done; injection Hin as <- <-.
  all: cbn [foldl]; unfold best_step; cbn [rt_pattern kind_name_route];
    by rewrite !match_kind_name by done.
Qed.

Lemma route_kind_name prefix methods m h k n :
  has_char slash prefix = false → plain_segment k → plain_segment n →
  In (kind_name_route prefix methods) (List.filter (λ r, length (rt_pattern r) =? 4) router) →
  List.find (λ mh, bool_decide (mh.1 = m)) methods = Some (m, h) →
  dispatch_path m ("/v1/" +:+ prefix +:+ String slash (k +:+ String slash n)) =
  Handled h [k; n] true.
Proof.
  intros Hp Hk Hn Hin Hm. unfold dispatch_path. rewrite segments_kind_name by done.
  erewrite best_kind_name by done. cbn [rt_methods kind_name_route]. by rewrite Hm.
Qed.

Section routed.
Context {J : SerdeJson} {JM : JsonMake} (base : string) (args : Value).

(** A name that is one segment of a URL's path as it stands. *)
Definition bare_segment (s : string) : Prop :=
  plain_segment s ∧ has_char "?" s = false ∧ has_char "%" s = false.

(** The request goes to a path under [base], without a query, that the router sends to the
    target. *)
Definition reaches (tool : string) (req : ToolRequest) : Prop :=
  ∃ path h params, tr_url req = base +:+ path ∧ tool_target tool args = Some (h, params) ∧
    dispatch_path (tr_method req) path = Handled h params true ∧
    has_char "?" path = false ∧ Forall (λ p, has_char "%" p = false) params.

Lemma reaches_fixed tool m path body h params :
  tool_target tool args = Some (h, params) → dispatch_path m path = Handled h params true →
  has_char "?" path = false → forallb (λ p, negb (has_char "%" p)) params = true →
  reaches tool {| tr_method := m; tr_url := base +:+ path; tr_body := body |}.
Proof.
  intros Ht Hd Hq Hp. exists path, h, params. split_and!; try done. apply Forall_forall.
  intros x Hx%list_elem_of_In. rewrite forallb_forall in Hp. by apply negb_true_iff, Hp.
Qed.

Lemma reaches_kind_name tool m prefix methods h req :
  (∀ key s, key ∈ ["kind"; "name"] → arg_str args key = Ok s → bare_segment s) →
  kind_name_request m (base +:+ "/v1/" +:+ prefix +:+ "/") args = Ok req →
  tool_target tool args = Some (h, [str_arg args "kind"; str_arg args "name"]) →
  has_char slash prefix || has_char "?" prefix = false →
  In (kind_name_route prefix methods) (List.filter (λ r, length (rt_pattern r) =? 4) router) →
  List.find (λ mh, bool_decide (mh.1 = m)) methods = Some (m, h) →
  reaches tool req.
Proof.
  intros Hseg Hreq Ht [Hp Hpq]%orb_false_iff Hin Hm. unfold kind_name_request in Hreq. unfold str_arg in Ht.
  destruct (arg_str args "kind") as [k|] eqn:Ek; [|done].
  destruct (arg_str args "name") as [n|] eqn:En; [|done]. injection Hreq as <-.
  exists ("/v1/" +:+ prefix +:+ String slash (k +:+ String slash n)), h, [k; n].
  destruct (Hseg "kind" k) as (Hk & Hkq & Hkp); [by member|done|].
  destruct (Hseg "name" n) as (Hn & Hnq & Hnp); [by member|done|].
  split_and!; [|done| | |by repeat constructor].
  - unfold plain_request. cbn [tr_url]. by rewrite !string_app_assoc.
  - by eapply route_kind_name.
  - rewrite !has_char_app, Hpq. cbn [has_char]. rewrite has_char_app, Hkq. cbn [has_char]. by rewrite Hnq.
Qed.

End routed.

(** Whatever the arguments, when they name the kind and the resource with segments that a
    URL carries as they are, the request [call_tool] builds is one the controller's router
    sends to the tool's handler, with the kind and the name as parameters, behind the
    bearer check; in particular the literal [apply] route is not shadowed by the [:kind]
    one. *)
Lemma tool_request_routed {J : SerdeJson} {JM : JsonMake} (base tool : string)
    (args : Value) (req : ToolRequest)
    (Hreq : tool_request base tool args = Ok req)
    (Hseg : ∀ key s, key ∈ ["kind"; "name"] → arg_str args key = Ok s → bare_segment s) :
  reaches base args tool req.
Proof.
  unfold tool_request in Hreq.
  repeat match type of Hreq with
  | (if String.eqb tool ?x then _ else _) = _ =>
      destruct (String.eqb_spec tool x) as [->|_]
  end; try done.
  all: try (injection Hreq as <-; eapply reaches_fixed; [reflexivity|vm_compute; reflexivity..]).
  - eapply (reaches_kind_name base args _ _ "resources" _ _ req Hseg Hreq);
      [reflexivity|done|rewrite four_segment_routes; by left|reflexivity].
  - eapply (reaches_kind_name base args _ _ "resources" _ _ req Hseg Hreq);
      [reflexivity|done|rewrite four_segment_routes; by left|reflexivity].
  - eapply (reaches_kind_name base args _ _ "dispatch" _ _ req Hseg Hreq);
      [reflexivity|done|rewrite four_segment_routes; by right; left|reflexivity].
  - eapply (reaches_kind_name base args _ _ "logs" _ _ req Hseg Hreq);
      [reflexivity|done|rewrite four_segment_routes; by do 2 right; left|reflexivity].
  - destruct (arg_str args "yaml"); [|done]. injection Hreq as <-.
    eapply reaches_fixed; [reflexivity|vm_compute; reflexivity..].
  - destruct (value_get args "selector"); [|done]. injection Hreq as <-.
    eapply reaches_fixed; [reflexivity|vm_compute; reflexivity..].
Qed.

(** The tools of the list are offered under distinct names. *)
Lemma planned_tools_distinct : NoDup planned_tools.*1.
Proof. by member. Qed.

(** *** The loop *)

Section serving.
Context {J : SerdeJson} {JM : JsonMake} (L : ServerLibs) (send : Send) (controller : string)
  (token : option string).

Lemma serve_prefix o input out u :
  let r := serve L send controller token input o (out, u) in
  ∃ l, r.2.1 = out ++ l ∧ l `prefix_of` omap (handle_line L send controller token) input ∧
    (r.1 = Ok tt → l = omap (handle_line L send controller token) input).
Proof.
  revert out u. induction input as [|line input IH]; intros out u.
  { exists []. by rewrite app_nil_r. }
  cbn [serve omap list_omap]. destruct (handle_line L send controller token line) as [resp|] eqn:E.
  2: { destruct (IH out u) as (l & H1 & H2 & H3). by exists l. }
  unfold mbind, M_bind, io. cbn [fst snd].
  destruct (or_fault o (us_io u)) as [f|].
  { exists []. rewrite app_nil_r. split_and!; [done|apply prefix_nil|done]. }
  unfold modify. destruct (IH (out ++ [resp]) {| us_clock := us_clock u; us_uuid := us_uuid u;
    us_io := us_io u + 1 |}) as (l & H1 & H2 & H3).
  exists (resp :: l). cbv zeta. rewrite H1, <- app_assoc. split_and!; [done|by apply prefix_cons|].
  intros H. by rewrite H3.
Qed.

Lemma handle_request_id req : rs_id (handle_request L send controller token req) = rq_id req.
Proof. unfold handle_request. repeat case_match; done. Qed.

Lemma handle_request_result req :
  is_Some (rs_result (handle_request L send controller token req)) ↔
  rs_error (handle_request L send controller token req) = None.
Proof. unfold handle_request. repeat case_match; simpl; split; try done; by intros [? ?]. Qed.

End serving.

(** The server answers each line once and in order.  What it has written is a prefix
    of one response per non-blank line, all of them unless a write fails; a line that
    parses is answered under the identifier of its request, one that does not with the
    parse-error code and no identifier, and an answer has either a result or an
    error. *)
Theorem mcp_one_response_per_line {J : SerdeJson} {JM : JsonMake} (L : ServerLibs) (send : Send)
    (controller : string) (token : option string) (o : Oracle) (input : list string)
    (out : list RpcResponse) (u : Used) :
  let r := serve L send controller token input o (out, u) in
  (∃ l, r.2.1 = out ++ l ∧ l `prefix_of` omap (handle_line L send controller token) input ∧
     (r.1 = Ok tt → l = omap (handle_line L send controller token) input)) ∧
  ∀ line, trim line ≠ EmptyString →
    ∃ resp, handle_line L send controller token line = Some resp ∧
      (is_Some (rs_result resp) ↔ rs_error resp = None) ∧
      match parse_request L (trim line) with
      | Ok req => rs_id resp = rq_id req
      | Err _ => rs_id resp = None ∧ re_code <$> rs_error resp = Some (-32700)%Z
      end.
Proof.
  split; [apply serve_prefix|]. intros line Hl. unfold handle_line.
  rewrite bool_decide_eq_false_2 by done. eexists. split; [done|].
  destruct (parse_request L (trim line)) as [req|e].
  - split; [apply handle_request_result|apply handle_request_id].
  - split; [|done]. simpl. split; [by intros [? ?]|done].
Qed.
