(* ===== verification/Server.v ===== *)
(** * The controller as an HTTP server (crates/orion-controller/src/main.rs, orion-auth)

    One request, from the socket to the answer: the router, the bearer check layered
    over it, the extractors, the handler of Api.v, and the JSON that the derived
    [Serialize] instances write.  The library behind it (axum, serde_urlencoded,
    serde_json's printer) is the class [ServerLib]. *)

From Stdlib Require Import ZArith Lia Bool Ascii.
From stdpp Require Import base list gmap strings pretty.
From S2P Require Import Prelude Text Types Effect Parse Workflow Store Registry Controller Dispatch Loops Api System Auth Docker Mcp.

(** What the server uses of its libraries. *)
Class ServerLib {J : SerdeJson} : Type := {
  (** [serde_json::to_string], which is also [Display for Value]. *)
  json_to_string : Value → string;
  value_as_bool : Value → option bool;
  (** [Serialize] of chrono's [DateTime<Utc>] and of [Resource]. *)
  time_value : Instant → Value;
  resource_to_value : Resource → Value;
  (** The pairs of a query string, and the text of a query it refuses. *)
  query_pairs : string → list (string * string);
  query_rejection : string → string;
  (** The percent decoding of a path parameter; [None] is not UTF-8. *)
  path_decode : string → option string;
  path_rejection : list string → string
}.

(** The characters a URL carries as they are. *)
Definition url_char (c : ascii) : bool :=
  is_ascii_alphanumeric c || existsb (Ascii.eqb c) ["-"; "_"]%char.

(** What the client relies on. *)
Class ServerLaws {J : SerdeJson} {JM : JsonMake} {SL : ServerLib} : Prop := {
  parse_printed : ∀ v, json_from_str (json_to_string v) = Some v;
  printed_not_empty : ∀ v, json_to_string v ≠ "";
  null_not_str : value_as_str value_null = None;
  null_not_array : value_as_array value_null = None;
  as_bool_bool : ∀ b, value_as_bool (json_bool b) = Some b;
  as_u64_int : ∀ z, (0 <= z <= u64_max)%Z → value_as_u64 (json_int z) = Some z;
  path_decode_plain : ∀ s, has_char "%" s = false → path_decode s = Some s;
  query_pairs_none : query_pairs "" = [];
  query_pairs_one : ∀ k v, all_chars url_char k = true → all_chars url_char v = true →
    query_pairs (k +:+ "=" +:+ v) = [(k, v)]
}.

(** ** Requests and responses *)

Record HttpRequest : Type := {
  hr_method : Method;
  (** The path and, after a question mark, the query. *)
  hr_target : string;
  hr_authorization : option string;
  hr_body : string
}.

Record Response : Type := { rsp_status : Z; rsp_body : string }.

Definition status_code (c : StatusCode) : Z :=
  match c with BAD_REQUEST => 400 | NOT_FOUND => 404 | INTERNAL_SERVER_ERROR => 500 end.

(** [IntoResponse for ApiError]. *)
Definition error_response (e : ApiError) : Response :=
  {| rsp_status := status_code (ae_status e); rsp_body := ae_message e |}.

Definition request_path (target : string) : string :=
  match split_once "?" target with Some (p, _) => p | None => target end.
Definition request_query (target : string) : string :=
  match split_once "?" target with Some (_, q) => q | None => EmptyString end.

Section server.
Context {J : SerdeJson} {JM : JsonMake} {SL : ServerLib} {UT : UuidText}.

Definition json_response (v : Value) : Response :=
  {| rsp_status := 200; rsp_body := json_to_string v |}.

Definition respond {A} (enc : A → Value) (r : result A ApiError) : Response :=
  match r with Ok a => json_response (enc a) | Err e => error_response e end.

(** ** What the derived [Serialize] instances write *)

Definition enc_option {A} (enc : A → Value) (x : option A) : Value :=
  match x with Some a => enc a | None => value_null end.
Definition enc_uuid (id : Uuid) : Value := json_string (uuid_to_string id).
Definition enc_nat (n : nat) : Value := json_int (Z.of_nat n).
(** [#[serde(skip_serializing_if = Option::is_none)]]. *)
Definition skip_none {A} (k : string) (enc : A → Value) (x : option A) : list (string * Value) :=
  match x with Some a => [(k, enc a)] | None => [] end.

Definition enc_node_view (n : NodeView) : Value :=
  obj [("node_id", json_string (nv_node_id n)); ("agent_version", json_string (nv_agent_version n));
       ("last_seen_at", json_string (nv_last_seen_at n));
       ("inventory", enc_option id (nv_inventory n))].

Definition enc_kinds (kinds : list string) : Value :=
  obj [("kinds", json_array (json_string <$> kinds))].

Definition enc_delete (d : DeleteOutcome) : Value :=
  obj [("kind", json_string (do_kind d)); ("name", json_string (do_name d));
       ("deleted", json_bool (do_deleted d))].

Definition enc_apply (a : ApplyOutcome) : Value :=
  obj [("kind", json_string (ao_kind a)); ("name", json_string (ao_name a));
       ("generation", json_int (ao_generation a)); ("dry_run", json_bool (ao_dry_run a))].

Definition enc_dispatch (d : DispatchOutcome) : Value :=
  obj [("kind", json_string (dis_kind d)); ("name", json_string (dis_name d));
       ("node", json_string (dis_node d)); ("instance_id", enc_uuid (dis_instance_id d))].

Definition enc_stop (s : StopOutcome) : Value :=
  obj [("kind", json_string (so_kind s)); ("name", json_string (so_name s));
       ("stopped", json_int (so_stopped s)); ("nodes", json_array (json_string <$> so_nodes s))].

Definition enc_restart (r : RestartOutcome) : Value :=
  obj [("kind", json_string (ro_kind r)); ("name", json_string (ro_name r));
       ("stopped", json_int (ro_stopped r)); ("redispatched", json_bool (ro_redispatched r));
       ("node", enc_option json_string (ro_node r));
       ("instance_id", enc_option enc_uuid (ro_instance_id r))].

Definition enc_log_entry (e : LogEntry) : Value :=
  obj [("at", time_value (le_at e)); ("node_id", json_string (le_node_id e));
       ("stream", json_string (le_stream e)); ("line", json_string (le_line e))].

Definition enc_logs (v : LogsView) : Value :=
  obj [("kind", json_string (lv_kind v)); ("name", json_string (lv_name v));
       ("total", enc_nat (lv_total v)); ("entries", json_array (enc_log_entry <$> lv_entries v))].

Definition enc_search_hit (h : SearchHit) : Value :=
  obj [("kind", json_string (hit_kind h)); ("name", json_string (hit_name h));
       ("at", time_value (hit_at h)); ("node_id", json_string (hit_node_id h));
       ("stream", json_string (hit_stream h)); ("line", json_string (hit_line h))].

Definition enc_archived (e : LogArchiveEntry) : Value :=
  obj [("at", time_value (la_at e)); ("kind", json_string (la_kind e));
       ("name", json_string (la_name e)); ("node_id", json_string (la_node_id e));
       ("stream", json_string (la_stream e)); ("line", json_string (la_line e))].

Definition enc_instance (r : InstanceRecord) : Value :=
  obj ([("instance_id", enc_uuid (ir_instance_id r)); ("kind", json_string (ir_kind r));
        ("name", json_string (ir_name r)); ("node", enc_option json_string (ir_node r));
        ("replica_index", json_int (ir_replica_index r));
        ("dispatched_at", enc_option time_value (ir_dispatched_at r));
        ("first_seen_at", enc_option time_value (ir_first_seen_at r));
        ("last_seen_at", enc_option time_value (ir_last_seen_at r));
        ("line_count", json_int (ir_line_count r))]
       ++ skip_none "exited_at" time_value (ir_exited_at r)
       ++ skip_none "exit_code" json_int (ir_exit_code r)
       ++ skip_none "exit_kind" json_string (ir_exit_kind r)).

Definition enc_observation (x : ScheduleObservation) : Value :=
  obj [("armed_at", time_value (armed_at x));
       ("last_fired_at", enc_option time_value (last_fired_at x));
       ("last_instance_id", enc_option enc_uuid (last_instance_id x));
       ("next_fire_at", enc_option time_value (next_fire_at x));
       ("last_error", enc_option json_string (last_error x));
       ("fire_count", json_int (fire_count x))].

Definition enc_health (h : HealthSnapshot) : Value :=
  obj [("service", json_string (hs_service h)); ("status", json_string (hs_status h));
       ("consecutive_failures", json_int (hs_consecutive_failures h));
       ("last_at", time_value (hs_last_at h)); ("message", enc_option json_string (hs_message h))].

Definition step_status_name (s : StepStatus) : string :=
  match s with
  | Pending => "pending" | Running => "running" | Succeeded => "succeeded" | Failed => "failed"
  end.

Definition enc_progress (w : WorkflowProgress) : Value :=
  obj [("steps", json_object ((λ s, json_string (step_status_name s)) <$> wpr_steps w));
       ("started_at", time_value (wpr_started_at w));
       ("finished_at", enc_option time_value (wpr_finished_at w))].

Definition enc_diag_node (n : DiagNode) : Value :=
  obj [("node_id", json_string (dn_node_id n)); ("agent_version", json_string (dn_agent_version n));
       ("last_seen_at", json_string (dn_last_seen_at n));
       ("seconds_since_seen", json_int (dn_seconds_since_seen n))].

Definition enc_workload_count (c : WorkloadInstanceCount) : Value :=
  obj [("kind", json_string (wic_kind c)); ("name", json_string (wic_name c));
       ("instance_count", enc_nat (wic_instance_count c))].

Definition enc_diag_system (d : DiagSystem) : Value :=
  obj [("controller",
          obj [("started_at", time_value (ds_started_at d));
               ("uptime_seconds", json_int (ds_uptime_seconds d));
               ("nats_url", json_string (ds_nats_url d));
               ("auth_disabled", json_bool (ds_auth_disabled d));
               ("version", json_string (ds_version d))]);
       ("agents", json_int (ds_agents d));
       ("nodes", json_array (enc_diag_node <$> ds_nodes d));
       ("instances", obj [("total", enc_nat (ds_instances_total d));
                          ("by_workload", json_array (enc_workload_count <$> ds_by_workload d))]);
       ("schedules", obj [("armed", enc_nat (ds_schedules_armed d));
                          ("fired_total", json_int (ds_fired_total d))]);
       ("logs", obj [("buffered_lines", enc_nat (ds_buffered_lines d));
                     ("workloads_with_logs", enc_nat (ds_workloads_with_logs d))]);
       ("nats", obj [("connected", json_bool (ds_nats_connected d));
                     ("url", json_string (ds_nats_url d));
                     ("monitoring_url", enc_option json_string (ds_monitoring_url d));
                     ("server_info", enc_option id (ds_server_info d))])].

Definition enc_js_stream (s : JsStream) : Value :=
  obj [("name", json_string (js_name s)); ("subjects", json_array (json_string <$> js_subjects s));
       ("messages", json_int (js_messages s)); ("bytes", json_int (js_bytes s));
       ("first_seq", json_int (js_first_seq s)); ("last_seq", json_int (js_last_seq s));
       ("consumer_count", json_int (js_consumer_count s))].

Definition enc_js_consumer (c : JsConsumer) : Value :=
  obj [("stream", json_string (jc_stream c)); ("name", json_string (jc_name c));
       ("num_pending", json_int (jc_num_pending c));
       ("num_ack_pending", json_int (jc_num_ack_pending c));
       ("delivered", json_int (jc_delivered c)); ("last_ack_floor", json_int (jc_last_ack_floor c))].

Definition enc_diag_jetstream (d : DiagJetStream) : Value :=
  obj [("monitoring_url", enc_option json_string (dj_monitoring_url d));
       ("accounts", enc_option id (dj_accounts d));
       ("streams", json_array (enc_js_stream <$> dj_streams d));
       ("consumers", json_array (enc_js_consumer <$> dj_consumers d));
       ("raw_jsz", enc_option id (dj_raw_jsz d))].

(** ** The extractors *)

(** A field of a query: the derived [Deserialize] refuses one that is given twice. *)
Definition query_field (pairs : list (string * string)) (k : string)
    : result (option string) unit :=
  match snd <$> List.filter (λ kv, String.eqb kv.1 k) pairs with
  | [] => Ok None
  | [v] => Ok (Some v)
  | _ => Err tt
  end.

(** A field that is read as a number. *)
Definition query_number (parse : string → option Z) (pairs : list (string * string)) (k : string)
    : result (option Z) unit :=
  let? f := query_field pairs k in
  match f with
  | None => Ok None
  | Some v => match parse v with Some z => Ok (Some z) | None => Err tt end
  end.

Definition i64_max : Z := 9223372036854775807.
Definition parse_i64 : string → option Z := parse_signed (- i64_max - 1) i64_max.

Record LogSearchQuery : Type := {
  lsq_q : string;
  lsq_kind : option string;
  lsq_name : option string;
  lsq_limit : option nat
}.

(** [LogSearchQuery]: [q] must be there. *)
Definition search_query (pairs : list (string * string)) : result LogSearchQuery unit :=
  let? q := query_field pairs "q" in
  let? kind := query_field pairs "kind" in
  let? name := query_field pairs "name" in
  let? limit := query_number parse_u64 pairs "limit" in
  match q with
  | None => Err tt
  | Some q => Ok {| lsq_q := q; lsq_kind := kind; lsq_name := name; lsq_limit := Z.to_nat <$> limit |}
  end.

(** [ArchiveQuery]. *)
Definition archive_query (pairs : list (string * string)) : result (option string * option Z) unit :=
  let? since := query_field pairs "since" in
  let? limit := query_number parse_i64 pairs "limit" in
  Ok (since, limit).

(** [LogsQuery]. *)
Definition logs_query (pairs : list (string * string)) : result (option nat) unit :=
  let? since := query_number parse_u64 pairs "since" in Ok (Z.to_nat <$> since).

Definition rejected (query : string) : Response :=
  {| rsp_status := 400; rsp_body := query_rejection query |}.

(** Run a handler on the query an extractor read, or refuse the request. *)
Definition with_query {S A} (query : string) (read : list (string * string) → result A unit)
    (k : A → M S (option Response)) : M S (option Response) :=
  match read (query_pairs query) with
  | Ok a => k a
  | Err _ => mret (Some (rejected query))
  end.

(** ** The handlers *)

Context {RC : ResourceCodec} {TM : Rfc3339} {HO : HashOrder} {CL : ControllerLibs} {AL : ApiLibs}.

(** Answering with what a handler returns; [None] when it panics, and the connection
    is closed. *)
Definition answer {A} (enc : A → Value) (m : M AppState (result A ApiError))
    : M AppState (option Response) :=
  r ← m; mret (Some (respond enc r)).
Definition answer_opt {A} (enc : A → Value) (m : M AppState (option (result A ApiError)))
    : M AppState (option Response) :=
  r ← m; mret (respond enc <$> r).
(** A handler that reads the shared state and cannot fail. *)
Definition answer_view (view : AppState → Value) : M AppState (option Response) :=
  s ← get; mret (Some (json_response (view s))).

(** The path parameters of the routes with two and with one. *)
Definition kind_name (params : list string) : string * string :=
  (default EmptyString (params !! 0), default EmptyString (params !! 1)).

Definition run_handler (h : Handler) (params : list string) (query body : string)
    : M AppState (option Response) :=
  let '(kind, name) := kind_name params in
  match h with
  | H_health => mret (Some {| rsp_status := 200; rsp_body := "ok" |})
  | H_list_nodes => answer (λ l, json_array (enc_node_view <$> l)) list_nodes_handler
  | H_list_kinds => answer_view (λ _, enc_kinds list_kinds)
  | H_list_resources => answer (λ l, json_array (resource_to_value <$> l)) (list_resources kind)
  | H_get_resource => answer resource_to_value (get_resource_handler kind name)
  | H_delete_resource => answer enc_delete (delete_resource_handler kind name)
  | H_apply_resource =>
      with_query query (λ ps, query_field ps "dry_run") (λ dry_run,
        answer enc_apply (apply_resource dry_run body))
  | H_dispatch_resource => answer_opt enc_dispatch (dispatch_resource kind name)
  | H_get_logs =>
      with_query query logs_query (λ since,
        v ← get_logs kind name since; mret (Some (json_response (enc_logs v))))
  | H_search_logs =>
      with_query query search_query (λ q,
        l ← search_logs (lsq_q q) (lsq_kind q) (lsq_name q) (lsq_limit q);
        mret (Some (json_response (json_array (enc_search_hit <$> l)))))
  | H_list_all_instances =>
      answer_view (λ s, json_array (enc_instance <$> snapshot_all (app_instances s)))
  | H_get_instances =>
      answer_view (λ s, json_array (enc_instance <$> snapshot_for (app_instances s) kind name))
  | H_stop_workload => answer enc_stop (stop_workload kind name)
  | H_restart_workload => answer_opt enc_restart (restart_workload kind name)
  | H_diag_system => answer enc_diag_system diag_system
  | H_diag_jetstream => answer enc_diag_jetstream diag_jetstream
  | H_list_schedule_observations =>
      answer_view (λ s, json_object (enc_observation <$> app_schedules s))
  | H_list_health =>
      answer_view (λ s, json_object (list_to_map
        ((λ '(id, h), (uuid_to_string id, enc_health h)) <$> map_to_list (app_health s))))
  | H_find_services => answer (λ l, json_array (resource_to_value <$> l)) (find_services body)
  | H_get_logs_archive =>
      with_query query archive_query (λ '(since, limit),
        answer (λ l, json_array (enc_archived <$> l)) (get_logs_archive kind name since limit))
  | H_prometheus_metrics =>
      text ← prometheus_metrics; mret (Some {| rsp_status := 200; rsp_body := text |})
  | H_list_workflow_progress => answer_view (λ s, json_object (enc_progress <$> app_workflows s))
  end.

(** ** The server *)

Variable to_str : string → option string.

(** Whether the route was added before the bearer layer, which is also around the
    answer for unknown paths. *)
Definition path_guarded (path : string) : bool :=
  match best_match (segments path) with Some (r, _) => rt_guarded r | None => true end.

Fixpoint decode_params (ps : list string) : option (list string) :=
  match ps with
  | [] => Some []
  | p :: ps' => q ← path_decode p; qs ← decode_params ps'; Some (q :: qs)
  end.

Definition route_request (rq : HttpRequest) : M AppState (option Response) :=
  match dispatch_path (hr_method rq) (request_path (hr_target rq)) with
  | NotFound404 => mret (Some {| rsp_status := 404; rsp_body := EmptyString |})
  | MethodNotAllowed405 => mret (Some {| rsp_status := 405; rsp_body := EmptyString |})
  | Handled h params _ =>
      match decode_params params with
      | None => mret (Some {| rsp_status := 400; rsp_body := path_rejection params |})
      | Some params => run_handler h params (request_query (hr_target rq)) (hr_body rq)
      end
  end.

Definition serve_http (mode : AuthMode) (rq : HttpRequest) : M AppState (option Response) :=
  if path_guarded (request_path (hr_target rq)) then
    match require_bearer to_str mode (hr_authorization rq) with
    | Pass => route_request rq
    | Reject msg => mret (Some {| rsp_status := 401; rsp_body := msg |})
    end
  else route_request rq.

End server.

(** ** Lemmas: what a request can change *)

Section effects.
Context {J : SerdeJson} {JM : JsonMake} {SL : ServerLib} {UT : UuidText} {RC : ResourceCodec}
  {TM : Rfc3339} {HO : HashOrder} {CL : ControllerLibs} {AL : ApiLibs}.

(** The event of the transition system that a handler is, when it is one. *)
Definition handler_event (h : Handler) (params : list string) (query body : string)
    : option Event :=
  let '(kind, name) := kind_name params in
  match h with
  | H_apply_resource =>
      match query_field (query_pairs query) "dry_run" with
      | Ok dry_run => Some (EvApply dry_run body) | Err _ => None end
  | H_delete_resource => Some (EvDelete kind name)
  | H_dispatch_resource => Some (EvDispatch kind name)
  | H_stop_workload => Some (EvStop kind name)
  | H_restart_workload => Some (EvRestart kind name)
  | _ => None
  end.

Definition request_event (rq : HttpRequest) : option Event :=
  match dispatch_path (hr_method rq) (request_path (hr_target rq)) with
  | Handled h params _ =>
      ps ← decode_params params; handler_event h ps (request_query (hr_target rq)) (hr_body rq)
  | _ => None
  end.

Lemma answer_effect {A} (enc : A → Value) (m : M AppState (result A ApiError)) o su :
  (answer enc m o su).2 = (m o su).2.
Proof. unfold answer, mbind, M_bind. by destruct (m o su). Qed.
Lemma answer_opt_effect {A} (enc : A → Value) m o su :
  (answer_opt enc m o su).2 = (m o su).2.
Proof. unfold answer_opt, mbind, M_bind. by destruct (m o su). Qed.
Lemma ignore_effect {A} (m : M AppState A) o su : (ignore m o su).2 = (m o su).2.
Proof. unfold ignore, mbind, M_bind. by destruct (m o su). Qed.

Lemma readonly_answer {A} (enc : A → Value) m : readonly m → readonly (answer enc m).
Proof. intros Hm o s u. rewrite answer_effect. apply Hm. Qed.
Lemma readonly_answer_view view : readonly (answer_view view).
Proof. unfold answer_view. auto with orion. Qed.
Lemma readonly_with_query {A} query read (k : A → M AppState (option Response)) :
  (∀ a, readonly (k a)) → readonly (with_query query read k).
Proof. intros Hk. unfold with_query. destruct (read _); [apply Hk|apply readonly_ret]. Qed.

Lemma readonly_read_logs kind name since limit : readonly (read_logs kind name since limit).
Proof.
  unfold read_logs. apply readonly_bind; [by apply readonly_query|].
  intros [r|e]; [|apply readonly_ret]. apply readonly_bind; [|intros ?; apply readonly_ret].
  apply readonly_map_each. intros x. unfold entry_of_row.
  apply readonly_bind; [|intros ?; apply readonly_ret].
  destruct (parse_from_rfc3339 _); auto with orion.
Qed.

(** A store method that reads, and what its handler does with the answer. *)
Lemma readonly_store_view {A B} (m : M Db A) (f : A → B) :
  readonly m → readonly (r ← on_store m; mret (M := M AppState) (f r)).
Proof. intros Hm. apply readonly_bind; [by apply readonly_on_store|intros ?; apply readonly_ret]. Qed.

Lemma readonly_metrics : readonly prometheus_metrics.
Proof.
  unfold prometheus_metrics. apply readonly_bind; [apply readonly_on_store, readonly_list_nodes|].
  intros r. auto 8 with orion.
Qed.
Lemma readonly_diag_system : readonly diag_system.
Proof.
  unfold diag_system. apply readonly_bind; [apply readonly_now|intros t].
  apply readonly_bind; [apply readonly_on_store, readonly_list_nodes|intros r]. auto with orion.
Qed.
Lemma readonly_find body : readonly (find_services body).
Proof.
  unfold find_services. destruct (selector_from_json body); [|apply readonly_ret].
  apply readonly_store_view, readonly_list_by_kind.
Qed.

#[local] Hint Resolve readonly_answer readonly_answer_view readonly_with_query readonly_read_logs
  readonly_store_view readonly_metrics readonly_diag_system readonly_find readonly_list_nodes
  readonly_list_by_kind readonly_get_resource : orion.

Lemma run_handler_effect h params query body o s u :
  match handler_event h params query body with
  | Some ev => (run_handler h params query body o (s, u)).2 = (handle ev o (s, u)).2
  | None => (run_handler h params query body o (s, u)).2.1 = s
  end.
Proof.
  unfold run_handler, handler_event. destruct (kind_name params) as [kind name].
  assert (∀ m : M AppState (option Response), readonly m → (m o (s, u)).2.1 = s) as Hr by auto.
  destruct h; cbn [handle];
    try (rewrite ignore_effect; first [apply answer_effect|apply answer_opt_effect]).
  5: { unfold with_query. destruct (query_field _ _); [|done]. cbn [handle].
       by rewrite ignore_effect, answer_effect. }
  all: apply Hr; try (apply readonly_with_query; intros ?).
  all: unfold list_nodes_handler, list_resources, get_resource_handler, get_logs, search_logs,
         diag_jetstream; auto 6 with orion.
  - apply readonly_bind; [|auto with orion]. apply readonly_bind; [apply readonly_get|intros s'].
    destruct (snapshot _ _ _ _). auto with orion.
  - destruct a as [since limit]. apply readonly_answer. unfold get_logs_archive. auto with orion.
Qed.

(** ** Lemmas: the route table *)

Lemma best_match_fold segs rs acc r ps :
  foldl (best_step segs) acc rs = Some (r, ps) →
  acc = Some (r, ps) ∨ r ∈ rs ∧ match_pattern (rt_pattern r) segs = Some ps.
Proof.
  revert acc. induction rs as [|r0 rs IH]; intros acc H; [by left|].
  cbn [foldl] in H. apply IH in H as [H|[H1 H2]]; [|right; split; [by right|done]].
  unfold best_step in H.
  destruct (match_pattern (rt_pattern r0) segs) as [ps0|] eqn:E; [|by left].
  destruct acc as [[r' ps']|].
  - destruct (more_specific _ _); [|by left]. injection H as <- <-. right. split; [by left|done].
  - injection H as <- <-. right. split; [by left|done].
Qed.

Lemma best_match_in segs r ps :
  best_match segs = Some (r, ps) → r ∈ router ∧ match_pattern (rt_pattern r) segs = Some ps.
Proof.
  change (best_match segs) with (foldl (best_step segs) None router). intros H.
  destruct (best_match_fold _ _ _ _ _ H) as [E|E]; [discriminate E|exact E].
Qed.

(** The routes outside the bearer layer, and the handlers of GET requests. *)
Definition route_ok (r : Route) : bool :=
  (rt_guarded r || match rt_pattern r with [Lit s] => String.eqb s "health" | _ => false end)
  && forallb (λ mh, match mh with
       | (GET, (H_apply_resource | H_delete_resource | H_dispatch_resource | H_stop_workload
               | H_restart_workload)) => false
       | (POST, H_find_services) | (GET, _) => true
       | _ => rt_guarded r
       end) (rt_methods r).

Lemma router_ok r : r ∈ router → route_ok r = true.
Proof.
  intros H. assert (forallb route_ok router = true) as Hall by (vm_compute; reflexivity).
  rewrite forallb_forall in Hall. by apply Hall, list_elem_of_In.
Qed.

Lemma unguarded_path path : path_guarded path = false → segments path = ["health"].
Proof.
  unfold path_guarded. destruct (best_match _) as [[r ps]|] eqn:E; [|done]. intros Hg.
  apply best_match_in in E as [Hr%router_ok Hm]. unfold route_ok in Hr. rewrite Hg in Hr.
  apply andb_true_iff in Hr as [Hp _]. cbn [orb] in Hp.
  destruct (rt_pattern r) as [|[s|] [|]]; try done. apply String.eqb_eq in Hp as ->.
  destruct (segments path) as [|x [|y l]]; cbn [match_pattern] in Hm; try done.
  - destruct (String.eqb_spec "health" x); [by subst|done].
  - by destruct (String.eqb "health" x).
Qed.

(** A request that is an event is no GET, and its path is guarded. *)
Lemma event_guarded rq ev :
  request_event rq = Some ev →
  hr_method rq ≠ GET ∧ path_guarded (request_path (hr_target rq)) = true.
Proof.
  unfold request_event, dispatch_path, path_guarded.
  destruct (best_match _) as [[r ps]|] eqn:E; [|done].
  apply best_match_in in E as [Hr%router_ok _].
  destruct (List.find _ _) as [[m h]|] eqn:Ef; [|done].
  apply find_some in Ef as [Hin Hm%bool_decide_eq_true]. simpl in Hm. subst m.
  unfold route_ok in Hr. apply andb_true_iff in Hr as [_ Ha]. rewrite forallb_forall in Ha.
  specialize (Ha _ Hin). destruct (decode_params ps) as [qs|]; [|done]. cbn [mbind option_bind].
  unfold handler_event. destruct (kind_name qs).
  destruct (hr_method rq), h; intros He; try discriminate; split; done.
Qed.

Lemma route_request_effect rq o s u :
  match request_event rq with
  | Some ev => (route_request rq o (s, u)).2 = (handle ev o (s, u)).2
  | None => (route_request rq o (s, u)).2.1 = s
  end.
Proof.
  unfold route_request, request_event. destruct (dispatch_path _ _) as [| |h ps g]; [done..|].
  destruct (decode_params ps) as [qs|]; [|done]. cbn [mbind option_bind]. apply run_handler_effect.
Qed.

End effects.

(** ** A small server library

    Values are printed as the binary digits of their code. *)

Fixpoint toy_tree (v : toy_value) : gen_tree (Z + string) :=
  match v with
  | TNull => GenNode 0 []
  | TNum z => GenLeaf (inl z)
  | TStr s => GenLeaf (inr s)
  | TArr l => GenNode 1 (toy_tree <$> l)
  | TObj l => GenNode 2 ((λ kv, GenNode 0 [GenLeaf (inr kv.1); toy_tree kv.2]) <$> l)
  end.

Fixpoint toy_of_tree (t : gen_tree (Z + string)) : toy_value :=
  match t with
  | GenLeaf (inl z) => TNum z
  | GenLeaf (inr s) => TStr s
  | GenNode 0 _ => TNull
  | GenNode 1 l => TArr (toy_of_tree <$> l)
  | GenNode _ l =>
      TObj ((λ t, match t with
                  | GenNode _ [GenLeaf (inr k); v] => (k, toy_of_tree v)
                  | _ => ("", TNull)
                  end) <$> l)
  end.

Lemma toy_tree_inv : ∀ v, toy_of_tree (toy_tree v) = v.
Proof.
  fix IH 1. intros [| | |l|l]; simpl; try done.
  - f_equal. induction l as [|x l IHl]; [done|]. csimpl. by rewrite IH, IHl.
  - f_equal. induction l as [|[k x] l IHl]; [done|]. csimpl. by rewrite IH, IHl.
Qed.

Fixpoint pos_text (p : positive) : string :=
  match p with
  | xH => EmptyString | xO p => String "0" (pos_text p) | xI p => String "1" (pos_text p)
  end.
Fixpoint text_pos (s : string) : positive :=
  match s with
  | EmptyString => xH
  | String c s' => if Ascii.eqb c "0" then xO (text_pos s') else xI (text_pos s')
  end.
Lemma text_pos_inv p : text_pos (pos_text p) = p.
Proof. induction p as [p IH|p IH|]; simpl; by rewrite ?IH. Qed.

Definition toy_to_text (v : toy_value) : string := String "v" (pos_text (encode (toy_tree v))).
Definition toy_of_text (s : string) : option toy_value :=
  match s with
  | String _ s' => toy_of_tree <$> decode (text_pos s')
  | EmptyString => None
  end.

Definition text_make : JsonMake (J := toy_json) :=
  @Build_JsonMake toy_json (λ b, TNum (Z.b2z b)) TNum (λ _, TNull) TStr TArr
    (λ m, TObj (map_to_list m)) toy_of_text.

Lemma text_laws : @JsonLaws toy_json text_make.
Proof. split; [exact (@get_object _ _ toy_laws)|done..]. Qed.

Definition toy_server : ServerLib (J := toy_json) :=
  @Build_ServerLib toy_json toy_to_text
    (λ v, match v with TNum z => Some (negb (z =? 0)%Z) | _ => None end) TNum
    (λ r, TObj [("kind", TStr (kind_str r))])
    (λ q, omap (λ p, split_once "=" p) (split_on "&" q)) (λ q, "bad query " +:+ q) Some
    (λ _, "bad path").

Lemma url_chars_without x s : url_char x = false → all_chars url_char s = true → has_char x s = false.
Proof.
  intros Hx. induction s as [|c s IH]; [done|]. simpl. intros [Hc Hs]%andb_true_iff.
  apply orb_false_iff. split; [|by apply IH]. apply Ascii.eqb_neq. congruence.
Qed.

Lemma toy_server_laws : @ServerLaws toy_json text_make toy_server.
Proof.
  split.
  - intros v. change (toy_of_tree <$> decode (text_pos (pos_text (encode (toy_tree v)))) = Some v).
    rewrite text_pos_inv, decode_encode. simpl. by rewrite toy_tree_inv.
  - done.
  - done.
  - done.
  - by intros [].
  - intros z Hz. change ((if (0 <=? z)%Z then Some z else None) = Some z).
    by rewrite (proj2 (Z.leb_le 0 z)) by lia.
  - done.
  - done.
  - intros k v Hk Hv. change ("=" +:+ v) with (String "=" v).
    assert (has_char "&" (k +:+ String "=" v) = false) as Hn.
    { rewrite has_char_app, url_chars_without by done. simpl. by apply url_chars_without. }
    change (query_pairs ?q) with (omap (λ p, split_once "=" p) (split_on "&" q)).
    rewrite split_on_single by done. cbn [omap list_omap].
    rewrite split_once_char; [done|]. by apply url_chars_without.
Qed.

Section served.
Context {J : SerdeJson} {JM : JsonMake} {SL : ServerLib} {UT : UuidText} {RC : ResourceCodec}
  {TM : Rfc3339} {HO : HashOrder} {CL : ControllerLibs} {AL : ApiLibs}.
Context (to_str : string → option string) (mode : AuthMode) (rq : HttpRequest).

(** What an admitted request changes. *)
Lemma serve_effect o s u :
  let x := serve_http to_str mode rq o (s, u) in
  x.2.1 = s ∨ ∃ ev, request_event rq = Some ev ∧
    require_bearer to_str mode (hr_authorization rq) = Pass ∧ hr_method rq ≠ GET ∧
    x.2 = (handle ev o (s, u)).2.
Proof.
  cbv zeta. pose proof (route_request_effect rq o s u) as He.
  unfold serve_http. destruct (request_event rq) as [ev|] eqn:Ee.
  - destruct (event_guarded rq ev Ee) as [Hm ->].
    destruct (require_bearer _ _ _); [|left; reflexivity]. right. exists ev. split_and!; done.
  - left. destruct (path_guarded _); [|exact He].
    destruct (require_bearer _ _ _); [exact He|reflexivity].
Qed.

Lemma serve_refused o s u :
  require_bearer to_str mode (hr_authorization rq) ≠ Pass →
  segments (request_path (hr_target rq)) ≠ ["health"] →
  (rsp_status <$> (serve_http to_str mode rq o (s, u)).1) = Some 401%Z ∧
  (serve_http to_str mode rq o (s, u)).2 = (s, u).
Proof.
  intros Hn Hh. unfold serve_http. destruct (path_guarded _) eqn:Eg.
  - destruct (require_bearer _ _ _); [exfalso; by apply Hn|by split].
  - exfalso. exact (Hh (unguarded_path _ Eg)).
Qed.

(** Serving is a sequence of the controller's atomic changes. *)
Lemma serve_atoms o s u : rtc atom s (serve_http to_str mode rq o (s, u)).2.1.
Proof.
  destruct (serve_effect o s u) as [->|(ev & _ & _ & _ & ->)]; [done|apply handle_atoms].
Qed.
End served.

(** ** Claims *)

(** C18: the HTTP surface.  Whatever request arrives, under any clock and failures: it is
    answered 401 without a look at the state unless it carries the cluster token or asks
    for [/health]; and what an admitted request changes is what one event of the
    controller's transition system changes, or nothing, which is the case of every GET.
    So every state that sequences of requests reach satisfies the controller's
    invariant. *)
Theorem http_surface {J : SerdeJson} {JM : JsonMake} {SL : ServerLib} {UT : UuidText}
    {RC : ResourceCodec} {TM : Rfc3339} {HO : HashOrder} {CL : ControllerLibs} {AL : ApiLibs}
    (to_str : string → option string) (mode : AuthMode) (rq : HttpRequest) (o : Oracle)
    (s : AppState) (u : Used) :
  let x := serve_http to_str mode rq o (s, u) in
  let admitted := require_bearer to_str mode (hr_authorization rq) = Pass in
  (¬ admitted → segments (request_path (hr_target rq)) ≠ ["health"] →
   (rsp_status <$> x.1) = Some 401%Z ∧ x.2 = (s, u)) ∧
  (x.2.1 = s ∨ ∃ ev, request_event rq = Some ev ∧ admitted ∧ hr_method rq ≠ GET ∧
                     x.2 = (handle ev o (s, u)).2) ∧
  (app_inv s → app_inv x.2.1).
Proof.
  cbv zeta. split_and!; [apply serve_refused|apply serve_effect|].
  intros Hi. by eapply atoms_inv; [apply serve_atoms|].
Qed.
