(* ===== verification/Generate.v ===== *)
(** * Resource generators (crates/orion-cli/src/cmd/generate.rs)

    [orion gen] builds the YAML of a resource from command-line arguments.  A document
    is modelled as its tree; [decode_resource] reads such a tree the way serde reads
    the types of orion-types, on the fields the generators write. *)

From Stdlib Require Import ZArith Lia Bool Ascii.
From stdpp Require Import base list gmap strings pretty.
From S2P Require Import Prelude Text Types Parse Bus.

(** ** Trees *)

Inductive Y : Type :=
| YStr (s : string)
| YInt (z : Z)
| YSeq (l : list Y)
| YMap (l : list (string * Y)).

(** [serde_yml::Mapping]: insertion-ordered; inserting a key that is there replaces
    its value in place. *)
Notation Mapping := (list (string * Y)).

Fixpoint y_insert (k : string) (v : Y) (m : Mapping) : Mapping :=
  match m with
  | [] => [(k, v)]
  | (k', v') :: m' => if String.eqb k k' then (k, v) :: m' else (k', v') :: y_insert k v m'
  end.

Definition y_get (m : Mapping) (k : string) : option Y :=
  snd <$> List.find (λ kv, String.eqb k kv.1) m.

(** [if let Some(x) = o { m.insert(k, f(x)) }]. *)
Definition insert_opt {A} (k : string) (f : A → Y) (o : option A) (m : Mapping) : Mapping :=
  match o with Some x => y_insert k (f x) m | None => m end.

Inductive GenError : Type :=
| InvalidDuration (s : string)
| UnknownSuffix (unit s : string)
| ExecRequired
| ImageRequired
| UnsupportedRuntime (kind : string)
| BadPair (kv : string)
| BadPort (p : string)
| BadPortNumber (p : string)
| Unreachable.

(** ** Shared helpers *)

Definition u64_modulus : Z := 18446744073709551616.

Definition unit_seconds (unit : string) : option Z :=
  if bool_decide (unit ∈ [""; "s"; "S"]) then Some 1%Z
  else if bool_decide (unit ∈ ["m"; "M"]) then Some 60%Z
  else if bool_decide (unit ∈ ["h"; "H"]) then Some 3600%Z
  else if bool_decide (unit ∈ ["d"; "D"]) then Some 86400%Z
  else None.

(** The product wraps around in a release build. *)
Definition parse_duration_seconds (s : option string) : result (option Z) GenError :=
  match s with
  | None => Ok None
  | Some s =>
      let s := trim s in
      match parse_u64 s with
      | Some n => Ok (Some n)
      | None =>
          let '(num_part, unit) := take_digits s in
          match parse_u64 num_part with
          | None => Err (InvalidDuration s)
          | Some n =>
              match unit_seconds unit with
              | None => Err (UnknownSuffix unit s)
              | Some mult => Ok (Some ((n * mult) `mod` u64_modulus)%Z)
              end
          end
      end
  end.

Fixpoint parse_kv_into (m : Mapping) (kvs : list string) : result Mapping GenError :=
  match kvs with
  | [] => Ok m
  | kv :: rest =>
      match split_once "=" kv with
      | None => Err (BadPair kv)
      | Some (k, v) => parse_kv_into (y_insert k (YStr v) m) rest
      end
  end.
Definition parse_kv (kvs : list string) : result Mapping GenError := parse_kv_into [] kvs.

Definition build_runtime_block (runtime : string) (exec image : option string)
    (args env : list string) : result Y GenError :=
  let m := [("kind", YStr runtime)] in
  let? m :=
    if String.eqb runtime "native" then
      match exec with Some e => Ok (y_insert "exec" (YStr e) m) | None => Err ExecRequired end
    else if String.eqb runtime "docker" then
      match image with Some i => Ok (y_insert "image" (YStr i) m) | None => Err ImageRequired end
    else Err (UnsupportedRuntime runtime) in
  let m := match args with [] => m | _ => y_insert "args" (YSeq (YStr <$> args)) m end in
  match env with
  | [] => Ok (YMap m)
  | _ => let? em := parse_kv_into [] env in Ok (YMap (y_insert "env" (YMap em) m))
  end.

Definition parse_u16 : string → option Z := parse_unsigned 65535.

Definition port_entry (name : string) (port : Z) : Y :=
  YMap [("name", YStr name); ("port", YInt port); ("protocol", YStr "tcp")].

Fixpoint build_ports (ports : list string) : result (list Y) GenError :=
  match ports with
  | [] => Ok []
  | p :: rest =>
      match split_once ":" p with
      | None => Err (BadPort p)
      | Some (name, port) =>
          match parse_u16 port with
          | None => Err (BadPortNumber port)
          | Some n => let? out := build_ports rest in Ok (port_entry name n :: out)
          end
      end
  end.

Definition build_workload_spec (runtime : string) (exec image : option string)
    (args env ports : list string) (replicas : option Z) (restart : option string)
    : result Y GenError :=
  let? rt := build_runtime_block runtime exec image args env in
  let spec := insert_opt "replicas" YInt replicas [("runtime", rt)] in
  let? spec := match ports with
               | [] => Ok spec
               | _ => let? out := build_ports ports in Ok (y_insert "ports" (YSeq out) spec)
               end in
  Ok (YMap (y_insert "restart_policy" (YStr (default "always" restart)) spec)).

Definition emit (kind name : string) (labels : option Mapping) (spec : Y) : Y :=
  let metadata := match labels with
                  | Some ((_ :: _) as l) => [("name", YStr name); ("labels", YMap l)]
                  | _ => [("name", YStr name)]
                  end in
  YMap [("apiVersion", YStr "orionmesh.dev/v1"); ("kind", YStr kind);
        ("metadata", YMap metadata); ("spec", spec)].

(** ** Queue *)

Record QueueArgs : Type := {
  qa_name : string;
  qa_type : string;
  qa_max_age : option string;
  qa_max_msgs : option Z;
  qa_max_bytes : option Z;
  qa_subject : option string;
  qa_stream : option string;
  qa_replicas : Z;
  qa_description : option string
}.

Definition build_queue (a : QueueArgs) : result Y GenError :=
  let? age := parse_duration_seconds (qa_max_age a) in
  let spec := [("type", YStr (qa_type a))] in
  let spec := insert_opt "max_age_seconds" YInt age spec in
  let spec := insert_opt "max_msgs" YInt (qa_max_msgs a) spec in
  let spec := insert_opt "max_bytes" YInt (qa_max_bytes a) spec in
  let spec := insert_opt "subject" YStr (qa_subject a) spec in
  let spec := insert_opt "stream" YStr (qa_stream a) spec in
  let spec := if (qa_replicas a =? 1)%Z then spec
              else y_insert "replicas" (YInt (qa_replicas a)) spec in
  let spec := insert_opt "description" YStr (qa_description a) spec in
  Ok (emit "Queue" (qa_name a) None (YMap spec)).

(** ** Service, Task, Schedule *)

Record ServiceArgs : Type := {
  sa_name : string;
  sa_runtime : string;
  sa_exec : option string;
  sa_image : option string;
  sa_args : list string;
  sa_env : list string;
  sa_replicas : option Z;
  sa_restart : option string;
  sa_ports : list string;
  sa_labels : list string
}.

Definition build_service (a : ServiceArgs) : result Y GenError :=
  let? labels := parse_kv (sa_labels a) in
  let? spec := build_workload_spec (sa_runtime a) (sa_exec a) (sa_image a) (sa_args a) (sa_env a)
                 (sa_ports a) (sa_replicas a) (sa_restart a) in
  Ok (emit "Service" (sa_name a) (Some labels) spec).

Record TaskArgs : Type := {
  ta_name : string;
  ta_runtime : string;
  ta_exec : option string;
  ta_image : option string;
  ta_args : list string;
  ta_env : list string;
  ta_timeout_seconds : option Z;
  ta_labels : list string
}.

Definition build_task (a : TaskArgs) : result Y GenError :=
  let? labels := parse_kv (ta_labels a) in
  let? rt := build_runtime_block (ta_runtime a) (ta_exec a) (ta_image a) (ta_args a) (ta_env a) in
  let spec := insert_opt "timeout_seconds" YInt (ta_timeout_seconds a) [("runtime", rt)] in
  Ok (emit "Task" (ta_name a) (Some labels) (YMap spec)).

Record ScheduleArgs : Type := { sch_name : string; sch_cron : string; sch_task : string }.

Definition build_schedule (a : ScheduleArgs) : result Y GenError :=
  Ok (emit "Schedule" (sch_name a) None
        (YMap [("cron", YStr (sch_cron a)); ("task", YStr (sch_task a))])).

(** ** Processor and sidecar *)

Record ProcessorArgs : Type := {
  pa_name : string;
  pa_queue : string;
  pa_lang : string;
  pa_group : option string;
  pa_replicas : Z;
  pa_debug : bool;
  pa_debug_port : option Z;
  pa_debug_suspend : bool;
  pa_template : option string;
  pa_env : list string
}.

Definition QueueSpec_default : QueueSpec :=
  {| q_type := QWork; q_subject := None; q_stream := None; q_max_age_seconds := None;
     q_max_msgs := None; q_max_bytes := None; q_replicas := None; q_description := None |}.

Definition queue_type_str (t : QueueType) : string :=
  match t with QWork => "work" | QTopic => "topic" end.

Definition processor_group (a : ProcessorArgs) (qtype : QueueType) : string :=
  match pa_group a, qtype with
  | Some g, _ => g
  | None, QWork => pa_queue a +:+ "-workers"
  | None, QTopic => pa_queue a +:+ "-watchers"
  end.

Definition debug_port_of (a : ProcessorArgs) : Z :=
  default (if String.eqb (pa_lang a) "java" then 5005 else 5678)%Z (pa_debug_port a).

Definition jdwp_option (suspend : bool) (port : Z) : string :=
  "-agentlib:jdwp=transport=dt_socket,server=y,suspend=" +:+ (if suspend then "y" else "n")
  +:+ ",address=*:" +:+ pretty port.

Definition processor_command (a : ProcessorArgs) : result (string * list string) GenError :=
  let port := debug_port_of a in
  if String.eqb (pa_lang a) "python" then
    let template := default "examples/10-queues/python/processor.py" (pa_template a) in
    if pa_debug a then
      Ok ("python", ["-m"; "debugpy"; "--listen"; "0.0.0.0:" +:+ pretty port]
                    ++ (if pa_debug_suspend a then ["--wait-for-client"] else []) ++ [template])
    else Ok ("python", [template])
  else if String.eqb (pa_lang a) "java" then
    let jar := default "examples/10-queues/java/target/orion-queue-processor.jar" (pa_template a) in
    Ok ("java", (if pa_debug a then [jdwp_option (pa_debug_suspend a) port] else [])
                ++ ["-jar"; jar])
  else if String.eqb (pa_lang a) "rust" then
    Ok (default "target/release/orion-queue-processor" (pa_template a), [])
  else Err Unreachable.

(** A pair without [=] is dropped here, where the other generators refuse it. *)
Definition add_env (m : Mapping) (kv : string) : Mapping :=
  match split_once "=" kv with Some (k, v) => y_insert k (YStr v) m | None => m end.

Definition processor_env (a : ProcessorArgs) (nats_url : option string) (subject stream : string)
    (qtype : QueueType) : Mapping :=
  let env := [("NATS_URL", YStr (default "nats://127.0.0.1:4222" nats_url));
              ("ORION_QUEUE_NAME", YStr (pa_queue a)); ("ORION_QUEUE_SUBJECT", YStr subject);
              ("ORION_QUEUE_STREAM", YStr stream);
              ("ORION_QUEUE_TYPE", YStr (queue_type_str qtype));
              ("ORION_QUEUE_GROUP", YStr (processor_group a qtype))] in
  let env := if pa_debug a then y_insert "ORION_DEBUG_PORT" (YInt (debug_port_of a)) env else env in
  foldl add_env env (pa_env a).

Section processor.
Context {J : SerdeJson}.

(** [queue_resource] is what the controller answered, if it did. *)
Definition queue_spec_of (queue_resource : option Resource) : option QueueSpec :=
  match queue_resource with
  | Some r => match body r with BQueue spec _ => Some spec | _ => None end
  | None => None
  end.

Definition build_processor (queue_resource : option Resource) (nats_url : option string)
    (a : ProcessorArgs) : result Y GenError :=
  let qspec := queue_spec_of queue_resource in
  let qtype := match qspec with Some s => q_type s | None => QWork end in
  let '(subject, cfg) := queue_stream_config (pa_queue a) (default QueueSpec_default qspec) in
  let? cmd := processor_command a in
  let env := processor_env a nats_url subject (sc_name cfg) qtype in
  let runtime := YMap [("kind", YStr "native"); ("exec", YStr cmd.1);
                       ("args", YSeq (YStr <$> cmd.2)); ("env", YMap env)] in
  let spec := [("runtime", runtime)] in
  let spec := if (1 <? pa_replicas a)%Z then y_insert "replicas" (YInt (pa_replicas a)) spec
              else spec in
  let spec := y_insert "restart_policy" (YStr "on_failure") spec in
  let spec := if pa_debug a
              then y_insert "ports" (YSeq [port_entry
                     (if String.eqb (pa_lang a) "java" then "jdwp" else "debugpy")
                     (debug_port_of a)]) spec
              else spec in
  Ok (emit "Service" (pa_name a)
        (Some [("role", YStr "processor"); ("queue", YStr (pa_queue a));
               ("lang", YStr (pa_lang a))]) (YMap spec)).

End processor.

Record SidecarArgs : Type := {
  si_name : string;
  si_source : string;
  si_queue : string;
  si_filter : option string;
  si_interval_seconds : Z;
  si_controller_url : option string
}.

Definition build_sidecar (a : SidecarArgs) : result Y GenError :=
  let env := [("NATS_URL", YStr "nats://127.0.0.1:4222");
              ("ORION_CONTROLLER_URL", YStr (default "http://127.0.0.1:7878" (si_controller_url a)));
              ("SIDECAR_SOURCE_SERVICE", YStr (si_source a));
              ("ORION_QUEUE_NAME", YStr (si_queue a));
              ("ORION_QUEUE_SUBJECT", YStr (default_queue_subject (si_queue a)));
              ("ORION_QUEUE_STREAM", YStr (default_queue_stream (si_queue a)));
              ("SIDECAR_INTERVAL_SECONDS", YStr (pretty (si_interval_seconds a)))] in
  let env := insert_opt "SIDECAR_FILTER_REGEX" YStr (si_filter a) env in
  let runtime := YMap [("kind", YStr "native"); ("exec", YStr "target/debug/orion-sidecar");
                       ("args", YSeq []); ("env", YMap env)] in
  let spec := YMap [("runtime", runtime); ("restart_policy", YStr "on_failure")] in
  Ok (emit "Service" (si_name a)
        (Some [("role", YStr "sidecar"); ("source", YStr (si_source a));
               ("queue", YStr (si_queue a))]) spec).

(** ** Reading a document back

    What serde makes of a tree, for the fields the generators write: a number is not a
    string, a missing field takes its default, and a field the fragment does not know
    is not read. *)

Definition decode_str (y : Y) : option string := match y with YStr s => Some s | _ => None end.
Definition decode_uint (max : Z) (y : Y) : option Z :=
  match y with YInt z => in_range 0 max z | _ => None end.
Definition decode_map (y : Y) : option Mapping := match y with YMap m => Some m | _ => None end.
Definition decode_seq {A} (f : Y → option A) (y : Y) : option (list A) :=
  match y with YSeq l => mapM f l | _ => None end.

Fixpoint decode_str_map (m : Mapping) : option (gmap string string) :=
  match m with
  | [] => Some ∅
  | (k, v) :: m' => s ← decode_str v; r ← decode_str_map m'; Some (<[k := s]> r)
  end.

(** An [Option] field, and a field with [#[serde(default)]]. *)
Definition opt_field {A} (m : Mapping) (k : string) (f : Y → option A) : option (option A) :=
  match y_get m k with None => Some None | Some v => Some <$> f v end.
Definition default_field {A} (m : Mapping) (k : string) (f : Y → option A) (d : A) : option A :=
  match y_get m k with None => Some d | Some v => f v end.
Definition field {A} (m : Mapping) (k : string) (f : Y → option A) : option A :=
  y_get m k ≫= f.

Definition only_keys (m : Mapping) (keys : list string) : bool :=
  forallb (λ kv, bool_decide (kv.1 ∈ keys)) m.

Definition guard_opt (b : bool) : option unit := if b then Some tt else None.

Definition decode_env (y : Y) : option (gmap string string) := decode_map y ≫= decode_str_map.

Definition decode_runtime (y : Y) : option Runtime :=
  m ← decode_map y;
  kind ← field m "kind" decode_str;
  if String.eqb kind "native" then
    exec ← field m "exec" decode_str;
    args ← default_field m "args" (decode_seq decode_str) [];
    env ← default_field m "env" decode_env ∅;
    Some (RNative exec args env)
  else if String.eqb kind "docker" then
    image ← field m "image" decode_str;
    args ← default_field m "args" (decode_seq decode_str) [];
    env ← default_field m "env" decode_env ∅;
    ports ← default_field m "ports" (decode_seq (decode_uint 65535)) [];
    Some (RDocker image args env ports)
  else None.

Definition decode_queue_type (y : Y) : option QueueType :=
  match y with
  | YStr s => if String.eqb s "work" then Some QWork
              else if String.eqb s "topic" then Some QTopic else None
  | _ => None
  end.

Definition decode_queue (m : Mapping) : option QueueSpec :=
  ty ← default_field m "type" decode_queue_type QWork;
  subject ← opt_field m "subject" decode_str;
  stream ← opt_field m "stream" decode_str;
  age ← opt_field m "max_age_seconds" (decode_uint u64_max);
  msgs ← opt_field m "max_msgs" (decode_uint u64_max);
  bytes ← opt_field m "max_bytes" (decode_uint u64_max);
  replicas ← opt_field m "replicas" (decode_uint u32_max);
  desc ← opt_field m "description" decode_str;
  Some {| q_type := ty; q_subject := subject; q_stream := stream; q_max_age_seconds := age;
          q_max_msgs := msgs; q_max_bytes := bytes; q_replicas := replicas;
          q_description := desc |}.

Definition decode_protocol (y : Y) : option PortProtocol :=
  match y with
  | YStr s => if String.eqb s "tcp" then Some Tcp
              else if String.eqb s "udp" then Some Udp else None
  | _ => None
  end.

Definition decode_port (y : Y) : option PortSpec :=
  m ← decode_map y;
  name ← field m "name" decode_str;
  port ← field m "port" (decode_uint 65535);
  proto ← default_field m "protocol" decode_protocol Tcp;
  Some {| port_name := name; port_port := port; port_protocol := proto |}.

Definition decode_restart (y : Y) : option RestartPolicy :=
  match y with
  | YStr s => if String.eqb s "always" then Some Always
              else if String.eqb s "on_failure" then Some OnFailure
              else if String.eqb s "never" then Some Never else None
  | _ => None
  end.

Section decode.
Context {J : SerdeJson}.

Definition decode_service (m : Mapping) : option ServiceSpec :=
  _ ← guard_opt (only_keys m ["runtime"; "replicas"; "ports"; "restart_policy"]);
  rt ← opt_field m "runtime" decode_runtime;
  replicas ← opt_field m "replicas" (decode_uint u32_max);
  ports ← default_field m "ports" (decode_seq decode_port) [];
  restart ← default_field m "restart_policy" decode_restart Always;
  Some {| svc_runtime := rt; svc_replicas := replicas; svc_placement := Placement_default;
          svc_requires := CapabilitySelector_default; svc_capabilities := [];
          svc_ports := ports; svc_health := None; svc_restart_policy := restart |}.

Definition decode_task (m : Mapping) : option TaskSpec :=
  _ ← guard_opt (only_keys m ["runtime"; "timeout_seconds"]);
  rt ← opt_field m "runtime" decode_runtime;
  timeout ← opt_field m "timeout_seconds" (decode_uint u32_max);
  Some {| task_runtime := rt; task_placement := Placement_default;
          task_requires := CapabilitySelector_default; task_prefer_data_locality := false;
          task_timeout_seconds := timeout; task_retry := None |}.

Definition decode_schedule (m : Mapping) : option ScheduleSpec :=
  _ ← guard_opt (only_keys m ["cron"; "task"]);
  cron ← field m "cron" decode_str;
  task ← opt_field m "task" decode_str;
  Some {| sched_cron := cron; sched_task := task; sched_task_template := None |}.

Definition decode_body (kind : string) (spec : Mapping) : option ResourceBody :=
  if String.eqb kind "Queue" then s ← decode_queue spec; Some (BQueue s None)
  else if String.eqb kind "Service" then s ← decode_service spec; Some (BService s None)
  else if String.eqb kind "Task" then s ← decode_task spec; Some (BTask s None)
  else if String.eqb kind "Schedule" then s ← decode_schedule spec; Some (BSchedule s None)
  else None.

Definition decode_resource (y : Y) : option Resource :=
  m ← decode_map y;
  version ← field m "apiVersion" decode_str;
  kind ← field m "kind" decode_str;
  meta ← field m "metadata" decode_map;
  name ← field meta "name" decode_str;
  labels ← default_field meta "labels" decode_env ∅;
  spec ← field m "spec" decode_map;
  b ← decode_body kind spec;
  Some {| api_version := version;
          metadata := {| md_name := name; md_namespace := None; md_labels := labels;
                         md_annotations := ∅; md_generation := None |};
          body := b |}.

End decode.

(** ** Lemmas *)

Lemma y_get_insert_eq k v m : y_get (y_insert k v m) k = Some v.
Proof.
  unfold y_get. induction m as [|[k' v'] m IH]; simpl; [by rewrite String.eqb_refl|].
  destruct (String.eqb k k') eqn:E; simpl; [by rewrite String.eqb_refl|]. by rewrite E.
Qed.

Lemma y_get_insert_ne k k' v m : k' ≠ k → y_get (y_insert k v m) k' = y_get m k'.
Proof.
  intros Hne. unfold y_get. induction m as [|[k0 v0] m IH]; simpl.
  { destruct (String.eqb_spec k' k); [done|done]. }
  destruct (String.eqb_spec k k0) as [->|]; simpl.
  - destruct (String.eqb_spec k' k0); [done|done].
  - destruct (String.eqb k' k0); [done|]. apply IH.
Qed.

Lemma y_get_insert_opt_ne {A} k k' (f : A → Y) x m :
  k' ≠ k → y_get (insert_opt k f x m) k' = y_get m k'.
Proof. intros H. destruct x; simpl; [by apply y_get_insert_ne|done]. Qed.

Lemma y_get_insert_opt_eq {A} k (f : A → Y) x m :
  y_get m k = None → y_get (insert_opt k f x m) k = f <$> x.
Proof. intros H. destruct x; simpl; [apply y_get_insert_eq|done]. Qed.

Lemma opt_field_some {A B} m k (f : Y → option A) (g : B → Y) (x : option B) (h : B → A) :
  y_get m k = g <$> x → (∀ b, x = Some b → f (g b) = Some (h b)) →
  opt_field m k f = Some (h <$> x).
Proof.
  intros Hg Hf. unfold opt_field. rewrite Hg. destruct x as [b|]; [|done]. simpl.
  by rewrite Hf.
Qed.

(** Following a key through the insertions of a document. *)
Ltac yget :=
  repeat first
    [ rewrite y_get_insert_opt_eq
    | rewrite y_get_insert_eq
    | rewrite y_get_insert_opt_ne by discriminate
    | rewrite y_get_insert_ne by discriminate ].

Lemma in_range_ok lo hi z : (lo <= z <= hi)%Z → in_range lo hi z = Some z.
Proof. intros H. unfold in_range. by rewrite !(proj2 (Z.leb_le _ _)) by lia. Qed.

Lemma parse_unsigned_range max s z : parse_unsigned max s = Some z → (0 <= z <= max)%Z.
Proof.
  unfold parse_unsigned. destruct s as [|c s]; [done|]. intros H.
  apply bind_Some in H as (x & _ & H). unfold in_range in H.
  destruct ((0 <=? x)%Z && (x <=? max)%Z) eqn:E; [|done]. injection H as <-.
  apply andb_true_iff in E as [?%Z.leb_le ?%Z.leb_le]. done.
Qed.

Lemma parse_duration_range s n : parse_duration_seconds s = Ok (Some n) → is_u64 n.
Proof.
  unfold parse_duration_seconds, is_u64, u64_max. destruct s as [s|]; [|done].
  destruct (parse_u64 (trim s)) as [z|] eqn:Ez.
  { intros [= ->]. by apply parse_unsigned_range in Ez. }
  destruct (take_digits (trim s)) as [num unit]. destruct (parse_u64 num) as [z|]; [|done].
  destruct (unit_seconds unit) as [k|]; [|done]. intros [= <-].
  pose proof (Z.mod_pos_bound (z * k) u64_modulus). unfold u64_modulus in *. lia.
Qed.

Section roundtrips.
Context {J : SerdeJson}.

Lemma decode_emit kind name labels lm spec b :
  decode_env (YMap (default [] labels)) = Some lm → decode_body kind spec = Some b →
  decode_resource (emit kind name labels (YMap spec)) =
  Some {| api_version := API_VERSION;
          metadata := {| md_name := name; md_namespace := None; md_labels := lm;
                         md_annotations := ∅; md_generation := None |};
          body := b |}.
Proof.
  intros Hl Hb. unfold decode_resource, emit, field. simpl.
  destruct labels as [[|kv l]|]; unfold default_field; simpl in *; rewrite ?Hl, Hb; simpl;
    try done; by injection Hl as <-.
Qed.

Lemma opt_str m k x : y_get m k = YStr <$> x → opt_field m k decode_str = Some x.
Proof.
  intros H. rewrite (opt_field_some m k decode_str YStr x id H); [|done]. by rewrite option_fmap_id.
Qed.

Lemma opt_uint m k max x :
  y_get m k = YInt <$> x → (∀ z, x = Some z → 0 <= z <= max)%Z →
  opt_field m k (decode_uint max) = Some x.
Proof.
  intros H Hr. rewrite (opt_field_some m k (decode_uint max) YInt x id H).
  - by rewrite option_fmap_id.
  - intros z Hz. by apply in_range_ok, Hr.
Qed.

Lemma queue_decodes a y :
  build_queue a = Ok y → qa_type a ∈ ["work"; "topic"] →
  (∀ z, qa_max_msgs a = Some z → is_u64 z) → (∀ z, qa_max_bytes a = Some z → is_u64 z) →
  is_u32 (qa_replicas a) →
  ∃ age, parse_duration_seconds (qa_max_age a) = Ok age ∧
  decode_resource y = Some {| api_version := API_VERSION;
    metadata := {| md_name := qa_name a; md_namespace := None; md_labels := ∅;
                   md_annotations := ∅; md_generation := None |};
    body := BQueue {| q_type := if String.eqb (qa_type a) "work" then QWork else QTopic;
      q_subject := qa_subject a; q_stream := qa_stream a; q_max_age_seconds := age;
      q_max_msgs := qa_max_msgs a; q_max_bytes := qa_max_bytes a;
      q_replicas := if (qa_replicas a =? 1)%Z then None else Some (qa_replicas a);
      q_description := qa_description a |} None |}.
Proof.
  unfold build_queue. destruct (parse_duration_seconds (qa_max_age a)) as [age|e] eqn:Ea; [|done].
  intros [= <-] Hty Hm Hb Hr. exists age. split; [done|]. apply decode_emit; [done|].
  assert (∀ z, age = Some z → is_u64 z) as Hage.
  { intros z ->. by eapply parse_duration_range. }
  set (rep := if (qa_replicas a =? 1)%Z then None else Some (qa_replicas a)).
  assert (∀ z, rep = Some z → is_u32 z) as Hrep.
  { intros z. unfold rep. destruct (qa_replicas a =? 1)%Z; [done|]. by intros [= <-]. }
  assert (∀ m, (if (qa_replicas a =? 1)%Z then m else y_insert "replicas" (YInt (qa_replicas a)) m)
               = insert_opt "replicas" YInt rep m) as ->.
  { intros m. unfold rep. by destruct (qa_replicas a =? 1)%Z. }
  unfold decode_body. cbn [String.eqb Ascii.eqb Bool.eqb]. unfold decode_queue.
  set (m := insert_opt "description" YStr _ _).
  assert (default_field m "type" decode_queue_type QWork =
          Some (if String.eqb (qa_type a) "work" then QWork else QTopic)) as ->.
  { unfold default_field, m. yget. simpl. rewrite !elem_of_cons, elem_of_nil in Hty.
    by destruct Hty as [->|[->|[]]]. }
  rewrite (opt_str m "subject" (qa_subject a)) by (unfold m; yget; done).
  rewrite (opt_str m "stream" (qa_stream a)) by (unfold m; yget; done).
  rewrite (opt_uint m "max_age_seconds" u64_max age) by (try done; unfold m; yget; done).
  rewrite (opt_uint m "max_msgs" u64_max (qa_max_msgs a)) by (try done; unfold m; yget; done).
  rewrite (opt_uint m "max_bytes" u64_max (qa_max_bytes a)) by (try done; unfold m; yget; done).
  rewrite (opt_uint m "replicas" u32_max rep) by (try done; unfold m; yget; done).
  rewrite (opt_str m "description" (qa_description a)) by (unfold m; yget; done).
  done.
Qed.

(** What arguments mean: pairs, ports, runtimes. *)
Definition kv_add (g : gmap string string) (kv : string) : gmap string string :=
  match split_once "=" kv with Some (k, v) => <[k := v]> g | None => g end.
Definition kv_map (kvs : list string) : gmap string string := foldl kv_add ∅ kvs.

Definition port_of (p : string) : option PortSpec :=
  '(name, port) ← split_once ":" p;
  n ← parse_u16 port;
  Some {| port_name := name; port_port := n; port_protocol := Tcp |}.

Definition runtime_of (runtime : string) (exec image : option string) (args env : list string)
    : option Runtime :=
  if String.eqb runtime "native" then (λ e, RNative e args (kv_map env)) <$> exec
  else if String.eqb runtime "docker" then (λ i, RDocker i args (kv_map env) []) <$> image
  else None.

Definition restart_of (restart : option string) : RestartPolicy :=
  match restart with
  | Some s => if String.eqb s "on_failure" then OnFailure
              else if String.eqb s "never" then Never else Always
  | None => Always
  end.

Lemma decode_str_map_insert k v m g :
  decode_str_map m = Some g → decode_str_map (y_insert k (YStr v) m) = Some (<[k := v]> g).
Proof.
  revert g. induction m as [|[k' y] m IH]; intros g; simpl; [by intros [= <-]|].
  intros H. apply bind_Some in H as (s & Hs & H). apply bind_Some in H as (r & Hr & [= <-]).
  destruct (String.eqb_spec k k') as [->|Hne]; simpl; rewrite Hr || rewrite (IH r Hr), Hs; simpl.
  - by rewrite insert_insert_eq.
  - by rewrite insert_insert_ne.
Qed.

Lemma parse_kv_decodes m g kvs em :
  parse_kv_into m kvs = Ok em → decode_str_map m = Some g →
  decode_str_map em = Some (foldl kv_add g kvs).
Proof.
  revert m g. induction kvs as [|kv kvs IH]; intros m g; simpl; [by intros [= <-]|].
  unfold kv_add at 2. destruct (split_once "=" kv) as [[k v]|]; [|done].
  intros H Hg. eapply IH; [exact H|]. by apply decode_str_map_insert.
Qed.

Lemma decode_strs args : mapM decode_str (YStr <$> args) = Some args.
Proof. apply mapM_Some_2, Forall2_fmap_l, Forall_Forall2_diag, Forall_true. done. Qed.

(** The rest of a runtime block: [args] and [env] follow when they are not empty. *)
Definition block_tail (m : Mapping) (args env : list string) : result Y GenError :=
  let m := match args with [] => m | _ => y_insert "args" (YSeq (YStr <$> args)) m end in
  match env with
  | [] => Ok (YMap m)
  | _ => let? em := parse_kv_into [] env in Ok (YMap (y_insert "env" (YMap em) m))
  end.

Lemma block_tail_decodes m args env y :
  y_get m "args" = None → y_get m "env" = None → block_tail m args env = Ok y →
  ∃ m', y = YMap m' ∧ default_field m' "args" (decode_seq decode_str) [] = Some args ∧
    default_field m' "env" decode_env ∅ = Some (kv_map env) ∧
    (∀ k, k ≠ "args" → k ≠ "env" → y_get m' k = y_get m k).
Proof.
  intros Ha He. unfold block_tail.
  set (m1 := match args with [] => m | _ => y_insert "args" (YSeq (YStr <$> args)) m end).
  assert (default_field m1 "args" (decode_seq decode_str) [] = Some args) as H1.
  { unfold default_field, m1. destruct args; [by rewrite Ha|]. rewrite y_get_insert_eq.
    apply decode_strs. }
  assert (∀ k, k ≠ "args" → y_get m1 k = y_get m k) as H2.
  { intros k Hk. unfold m1. destruct args; [done|]. by apply y_get_insert_ne. }
  destruct env as [|kv env].
  - intros [= <-]. exists m1. unfold default_field at 2. rewrite H2 by done. rewrite He. eauto.
  - destruct (parse_kv_into [] (kv :: env)) as [em|e] eqn:E; [|done]. intros [= <-].
    eexists. split; [done|]. unfold default_field in *.
    rewrite y_get_insert_ne by done. split; [done|]. rewrite y_get_insert_eq. split.
    + by apply (parse_kv_decodes [] ∅).
    + intros k Hk1 Hk2. rewrite y_get_insert_ne by done. by apply H2.
Qed.

Lemma runtime_decodes runtime exec image args env y :
  build_runtime_block runtime exec image args env = Ok y →
  ∃ rt, runtime_of runtime exec image args env = Some rt ∧ decode_runtime y = Some rt.
Proof.
  intros H.
  assert (∃ m k x, block_tail (y_insert k (YStr x) [("kind", YStr runtime)]) args env = Ok y ∧
    m = y_insert k (YStr x) [("kind", YStr runtime)] ∧
    (runtime = "native" ∧ k = "exec" ∧ exec = Some x ∨
     runtime = "docker" ∧ k = "image" ∧ image = Some x)) as (m & k & x & Ht & Hm & Hc).
  { unfold build_runtime_block in H. destruct (String.eqb_spec runtime "native") as [->|].
    - destruct exec as [e|]; [|done]. eexists _, "exec", e. split; [exact H|eauto].
    - destruct (String.eqb_spec runtime "docker") as [->|]; [|done].
      destruct image as [i|]; [|done]. eexists _, "image", i. split; [exact H|].
      split; [done|]. by right. }
  rewrite <- Hm in Ht. unfold runtime_of.
  destruct Hc as [(-> & -> & ->)|(-> & -> & ->)]; subst m.
  all: apply block_tail_decodes in Ht as (m' & -> & Ha & He & Hk); [|done|done].
  all: eexists; split; [reflexivity|]; unfold decode_runtime, field; simpl.
  all: rewrite !Hk by done; simpl; rewrite Ha, He; simpl.
  - done.
  - unfold default_field. by rewrite Hk.
Qed.

Lemma ports_decode ports out :
  build_ports ports = Ok out →
  ∃ specs, mapM port_of ports = Some specs ∧ decode_seq decode_port (YSeq out) = Some specs.
Proof.
  unfold decode_seq. revert out. induction ports as [|p ports IH]; intros out H.
  { injection H as <-. by exists []. }
  cbn [build_ports] in H. destruct (split_once ":" p) as [[name port]|] eqn:E; [|done].
  destruct (parse_u16 port) as [n|] eqn:En; [|done].
  destruct (build_ports ports) as [out'|]; [|done]. injection H as <-.
  destruct (IH out' eq_refl) as (specs & H1 & H2).
  exists ({| port_name := name; port_port := n; port_protocol := Tcp |} :: specs).
  split; apply mapM_Some; apply mapM_Some in H1, H2; (constructor; [|done]).
  - unfold port_of. rewrite E. simpl. by rewrite En.
  - unfold port_entry, decode_port, field, default_field. simpl.
    by rewrite in_range_ok by (by eapply parse_unsigned_range).
Qed.

Lemma only_keys_insert k v m keys :
  k ∈ keys → only_keys m keys = true → only_keys (y_insert k v m) keys = true.
Proof.
  intros Hk. unfold only_keys. induction m as [|[k' v'] m IH]; simpl; intros H.
  { by rewrite bool_decide_eq_true_2. }
  apply andb_true_iff in H as [H1 H2]. destruct (String.eqb_spec k k') as [->|]; simpl.
  - by rewrite H1, H2.
  - by rewrite H1, IH.
Qed.

Lemma only_keys_insert_opt {A} k (f : A → Y) x m keys :
  k ∈ keys → only_keys m keys = true → only_keys (insert_opt k f x m) keys = true.
Proof. destruct x; [apply only_keys_insert|done]. Qed.

(** The optional ports of a Service. *)
Definition with_ports (ports : list string) (m : Mapping) : result Mapping GenError :=
  match ports with
  | [] => Ok m
  | _ => let? out := build_ports ports in Ok (y_insert "ports" (YSeq out) m)
  end.

Lemma with_ports_decodes ports m m' :
  y_get m "ports" = None → with_ports ports m = Ok m' →
  ∃ specs, mapM port_of ports = Some specs ∧
    default_field m' "ports" (decode_seq decode_port) [] = Some specs ∧
    (∀ k, k ≠ "ports" → y_get m' k = y_get m k) ∧
    (∀ keys, "ports" ∈ keys → only_keys m keys = true → only_keys m' keys = true).
Proof.
  intros Hm. unfold with_ports. destruct ports as [|p ports].
  - intros [= <-]. exists []. unfold default_field. by rewrite Hm.
  - destruct (build_ports (p :: ports)) as [out|] eqn:E; [|done]. intros [= <-].
    destruct (ports_decode _ _ E) as (specs & H1 & H2). exists specs. split; [done|].
    unfold default_field. rewrite y_get_insert_eq. split_and!; [done|..].
    + intros k Hk. by apply y_get_insert_ne.
    + intros keys Hk. by apply only_keys_insert.
Qed.

Lemma restart_decodes restart :
  (∀ s, restart = Some s → s ∈ ["always"; "on_failure"; "never"]) →
  decode_restart (YStr (default "always" restart)) = Some (restart_of restart).
Proof.
  intros H. destruct restart as [s|]; [|done]. specialize (H s eq_refl).
  rewrite !elem_of_cons, elem_of_nil in H. by destruct H as [->|[->|[->|[]]]].
Qed.

Definition service_of (rt : Runtime) (replicas : option Z) (ports : list PortSpec)
    (restart : RestartPolicy) : ServiceSpec :=
  {| svc_runtime := Some rt; svc_replicas := replicas; svc_placement := Placement_default;
     svc_requires := CapabilitySelector_default; svc_capabilities := []; svc_ports := ports;
     svc_health := None; svc_restart_policy := restart |}.

Lemma workload_spec_decodes runtime exec image args env ports replicas restart y :
  build_workload_spec runtime exec image args env ports replicas restart = Ok y →
  (∀ z, replicas = Some z → is_u32 z) →
  (∀ s, restart = Some s → s ∈ ["always"; "on_failure"; "never"]) →
  ∃ m rt specs, y = YMap m ∧ runtime_of runtime exec image args env = Some rt ∧
    mapM port_of ports = Some specs ∧
    decode_service m = Some (service_of rt replicas specs (restart_of restart)).
Proof.
  intros H Hrep Hres. unfold build_workload_spec in H.
  destruct (build_runtime_block runtime exec image args env) as [yr|] eqn:Er; [|done].
  destruct (runtime_decodes _ _ _ _ _ _ Er) as (rt & Hrt & Hd).
  change (match ports with [] => Ok ?m | _ => _ end) with (with_ports ports m) in H.
  destruct (with_ports ports _) as [m1|] eqn:Ep; [|done]. injection H as <-.
  apply with_ports_decodes in Ep as (specs & Hp & Hf & Hk & Ho); [|yget; done].
  eexists _, rt, specs. split_and!; [done..|]. unfold decode_service.
  rewrite only_keys_insert; [|set_unfold; auto 10|].
  2: { apply Ho; [set_unfold; auto 10|]. apply only_keys_insert_opt; [set_unfold; auto 10|done]. }
  set (m := y_insert "restart_policy" _ m1).
  assert (opt_field m "runtime" decode_runtime = Some (Some rt)) as ->.
  { unfold opt_field, m. rewrite y_get_insert_ne, Hk, y_get_insert_opt_ne by done.
    change (y_get [("runtime", yr)] "runtime") with (Some yr). cbv beta iota. by rewrite Hd. }
  rewrite (opt_uint m "replicas" u32_max replicas);
    [|unfold m; rewrite y_get_insert_ne, Hk by done; yget; done|done].
  assert (default_field m "ports" (decode_seq decode_port) [] = Some specs) as ->.
  { unfold m, default_field. by rewrite y_get_insert_ne. }
  assert (default_field m "restart_policy" decode_restart Always = Some (restart_of restart)) as ->.
  { unfold m, default_field. rewrite y_get_insert_eq. by apply restart_decodes. }
  done.
Qed.

(** A document of one of the simple generators, as a resource. *)
Definition resource_of (name : string) (labels : gmap string string) (b : ResourceBody) : Resource :=
  {| api_version := API_VERSION;
     metadata := {| md_name := name; md_namespace := None; md_labels := labels;
                    md_annotations := ∅; md_generation := None |};
     body := b |}.

Lemma parse_kv_labels labels m :
  parse_kv labels = Ok m → decode_env (YMap (default [] (Some m))) = Some (kv_map labels).
Proof. intros H. by apply (parse_kv_decodes [] ∅). Qed.

Lemma service_decodes a y :
  build_service a = Ok y → (∀ z, sa_replicas a = Some z → is_u32 z) →
  (∀ s, sa_restart a = Some s → s ∈ ["always"; "on_failure"; "never"]) →
  ∃ rt ports,
    runtime_of (sa_runtime a) (sa_exec a) (sa_image a) (sa_args a) (sa_env a) = Some rt ∧
    mapM port_of (sa_ports a) = Some ports ∧
    decode_resource y = Some (resource_of (sa_name a) (kv_map (sa_labels a))
      (BService (service_of rt (sa_replicas a) ports (restart_of (sa_restart a))) None)).
Proof.
  intros H Hr Hs. unfold build_service in H.
  destruct (parse_kv (sa_labels a)) as [l|] eqn:El; [|done].
  destruct (build_workload_spec _ _ _ _ _ _ _ _) as [spec|] eqn:E; [|done]. injection H as <-.
  apply workload_spec_decodes in E as (m & rt & ports & -> & Hrt & Hp & Hd); [|done|done].
  exists rt, ports. split_and!; [done..|]. apply decode_emit; [by apply parse_kv_labels|].
  unfold decode_body. simpl. by rewrite Hd.
Qed.

Lemma task_decodes a y :
  build_task a = Ok y → (∀ z, ta_timeout_seconds a = Some z → is_u32 z) →
  ∃ rt, runtime_of (ta_runtime a) (ta_exec a) (ta_image a) (ta_args a) (ta_env a) = Some rt ∧
    decode_resource y = Some (resource_of (ta_name a) (kv_map (ta_labels a))
      (BTask {| task_runtime := Some rt; task_placement := Placement_default;
                task_requires := CapabilitySelector_default; task_prefer_data_locality := false;
                task_timeout_seconds := ta_timeout_seconds a; task_retry := None |} None)).
Proof.
  intros H Ht. unfold build_task in H.
  destruct (parse_kv (ta_labels a)) as [l|] eqn:El; [|done].
  destruct (build_runtime_block _ _ _ _ _) as [yr|] eqn:E; [|done]. injection H as <-.
  apply runtime_decodes in E as (rt & Hrt & Hd). exists rt. split; [done|].
  apply decode_emit; [by apply parse_kv_labels|]. unfold decode_body. simpl. unfold decode_task.
  rewrite only_keys_insert_opt by (done || (set_unfold; auto 10)).
  rewrite (opt_uint _ "timeout_seconds" u32_max (ta_timeout_seconds a)) by (done || by yget).
  unfold opt_field. rewrite y_get_insert_opt_ne by done.
  change (y_get [("runtime", yr)] "runtime") with (Some yr). cbv beta iota. by rewrite Hd.
Qed.

Lemma schedule_decodes a :
  ∃ y, build_schedule a = Ok y ∧
  decode_resource y = Some (resource_of (sch_name a) ∅
    (BSchedule {| sched_cron := sch_cron a; sched_task := Some (sch_task a);
                  sched_task_template := None |} None)).
Proof. eexists. split; [done|]. by apply decode_emit. Qed.

End roundtrips.

(** ** Lemmas: processors *)

(** A value that is no string makes a string map undecodable. *)
Lemma decode_str_map_int m k z : y_get m k = Some (YInt z) → decode_str_map m = None.
Proof.
  unfold y_get. induction m as [|[k' v] m IH]; simpl; [done|].
  destruct (String.eqb k k'); simpl; [by intros [= ->]|].
  intros H. rewrite (IH H). by destruct (decode_str v).
Qed.

Lemma add_env_other env kvs k :
  Forall (λ kv, ∀ k' v, split_once "=" kv = Some (k', v) → k' ≠ k) kvs →
  y_get (foldl add_env env kvs) k = y_get env k.
Proof.
  intros H. revert env. induction H as [|kv kvs Hkv _ IH]; intros env; [done|]. simpl.
  rewrite IH. unfold add_env. destruct (split_once "=" kv) as [[k' v]|] eqn:E; [|done].
  apply y_get_insert_ne. intros ->. by apply (Hkv k' v).
Qed.

Lemma add_env_decodes env g kvs :
  decode_str_map env = Some g → decode_str_map (foldl add_env env kvs) = Some (foldl kv_add g kvs).
Proof.
  revert env g. induction kvs as [|kv kvs IH]; intros env g H; [done|]. simpl. apply IH.
  unfold add_env, kv_add. destruct (split_once "=" kv) as [[k v]|]; [|done].
  by apply decode_str_map_insert.
Qed.

(** The environment a processor is given before the user's own pairs. *)
Definition base_env (a : ProcessorArgs) (nats_url : option string) (subject stream : string)
    (qtype : QueueType) : gmap string string :=
  <["NATS_URL" := default "nats://127.0.0.1:4222" nats_url]>
  (<["ORION_QUEUE_NAME" := pa_queue a]> (<["ORION_QUEUE_SUBJECT" := subject]>
  (<["ORION_QUEUE_STREAM" := stream]> (<["ORION_QUEUE_TYPE" := queue_type_str qtype]>
  (<["ORION_QUEUE_GROUP" := processor_group a qtype]> ∅))))).

Section processors.
Context {J : SerdeJson}.

Definition processor_labels (a : ProcessorArgs) : gmap string string :=
  <["role" := "processor"]> (<["queue" := pa_queue a]> (<["lang" := pa_lang a]> ∅)).

Lemma decode_emit_bad kind name labels spec :
  decode_body kind spec = None → decode_resource (emit kind name labels (YMap spec)) = None.
Proof.
  intros Hb. unfold decode_resource, emit, field. cbn -[decode_env decode_body].
  destruct labels as [[|kv l]|]; unfold default_field; cbn -[decode_env decode_body].
  - by rewrite Hb.
  - destruct (decode_env _) as [lm|]; cbn -[decode_body]; [by rewrite Hb|done].
  - by rewrite Hb.
Qed.

Lemma decode_service_bad m y :
  y_get m "runtime" = Some y → decode_runtime y = None → decode_service m = None.
Proof.
  intros Hy Hd. unfold decode_service, opt_field. rewrite Hy. rewrite Hd.
  by destruct (guard_opt _).
Qed.

(** A native runtime block as [build_processor] writes it. *)
Definition native_block (exec : string) (args : list string) (env : Mapping) : Y :=
  YMap [("kind", YStr "native"); ("exec", YStr exec); ("args", YSeq (YStr <$> args));
        ("env", YMap env)].

Lemma native_block_decodes exec args env :
  decode_runtime (native_block exec args env) = RNative exec args <$> decode_str_map env.
Proof.
  unfold decode_runtime, native_block, field, default_field. simpl. rewrite decode_strs. simpl.
  unfold decode_env. simpl. by destruct (decode_str_map env).
Qed.

End processors.

Section processor_specs.
Context {J : SerdeJson}.

(** The spec mapping of a processor. *)
Definition processor_spec (a : ProcessorArgs) (rt : Y) : Mapping :=
  let spec := [("runtime", rt)] in
  let spec := if (1 <? pa_replicas a)%Z then y_insert "replicas" (YInt (pa_replicas a)) spec
              else spec in
  let spec := y_insert "restart_policy" (YStr "on_failure") spec in
  if pa_debug a
  then y_insert "ports" (YSeq [port_entry
         (if String.eqb (pa_lang a) "java" then "jdwp" else "debugpy") (debug_port_of a)]) spec
  else spec.

Lemma processor_spec_runtime a rt : y_get (processor_spec a rt) "runtime" = Some rt.
Proof. unfold processor_spec. by destruct (1 <? pa_replicas a)%Z, (pa_debug a). Qed.

Lemma processor_spec_decodes a y rt :
  pa_debug a = false → is_u32 (pa_replicas a) → decode_runtime y = Some rt →
  decode_service (processor_spec a y) =
  Some (service_of rt (if (1 <? pa_replicas a)%Z then Some (pa_replicas a) else None) [] OnFailure).
Proof.
  intros Hd Hr Hy. unfold decode_service.
  assert (opt_field (processor_spec a y) "runtime" decode_runtime = Some (Some rt)) as ->
    by (unfold opt_field; by rewrite processor_spec_runtime, Hy).
  unfold processor_spec. rewrite Hd. unfold opt_field, default_field.
  destruct (1 <? pa_replicas a)%Z; [|done].
  cbn -[decode_uint in_range]. unfold decode_uint. by rewrite in_range_ok.
Qed.

End processor_specs.

(** ** Claims *)

(** C32: what [orion gen] writes is what was asked for.  The document of each simple
    generator, read back as the controller reads it, is the resource the arguments
    describe: name, labels, the runtime with its arguments and environment, ports,
    replicas and restart policy for a Service; runtime and timeout for a Task; the
    limits and overrides for a Queue, its maximum age in seconds; cron and task for a
    Schedule, which passes validation. *)
Theorem gen_documents_decode {J : SerdeJson} (qa : QueueArgs) (sa : ServiceArgs) (ta : TaskArgs)
    (ca : ScheduleArgs) (yq ys yt : Y)
    (Hq : build_queue qa = Ok yq) (Hs : build_service sa = Ok ys) (Ht : build_task ta = Ok yt)
    (Hqt : qa_type qa ∈ ["work"; "topic"])
    (Hqm : ∀ z, qa_max_msgs qa = Some z → is_u64 z)
    (Hqb : ∀ z, qa_max_bytes qa = Some z → is_u64 z) (Hqr : is_u32 (qa_replicas qa))
    (Hsr : ∀ z, sa_replicas sa = Some z → is_u32 z)
    (Hss : ∀ s, sa_restart sa = Some s → s ∈ ["always"; "on_failure"; "never"])
    (Htt : ∀ z, ta_timeout_seconds ta = Some z → is_u32 z) :
  (∃ age, parse_duration_seconds (qa_max_age qa) = Ok age ∧
     decode_resource yq = Some (resource_of (qa_name qa) ∅
       (BQueue {| q_type := if String.eqb (qa_type qa) "work" then QWork else QTopic;
          q_subject := qa_subject qa; q_stream := qa_stream qa; q_max_age_seconds := age;
          q_max_msgs := qa_max_msgs qa; q_max_bytes := qa_max_bytes qa;
          q_replicas := if (qa_replicas qa =? 1)%Z then None else Some (qa_replicas qa);
          q_description := qa_description qa |} None))) ∧
  (∃ rt ports,
     runtime_of (sa_runtime sa) (sa_exec sa) (sa_image sa) (sa_args sa) (sa_env sa) = Some rt ∧
     mapM port_of (sa_ports sa) = Some ports ∧
     decode_resource ys = Some (resource_of (sa_name sa) (kv_map (sa_labels sa))
       (BService (service_of rt (sa_replicas sa) ports (restart_of (sa_restart sa))) None))) ∧
  (∃ rt,
     runtime_of (ta_runtime ta) (ta_exec ta) (ta_image ta) (ta_args ta) (ta_env ta) = Some rt ∧
     decode_resource yt = Some (resource_of (ta_name ta) (kv_map (ta_labels ta))
       (BTask {| task_runtime := Some rt; task_placement := Placement_default;
          task_requires := CapabilitySelector_default; task_prefer_data_locality := false;
          task_timeout_seconds := ta_timeout_seconds ta; task_retry := None |} None))) ∧
  (∃ yc r, build_schedule ca = Ok yc ∧ decode_resource yc = Some r ∧ validate r = Ok tt ∧
     body r = BSchedule {| sched_cron := sch_cron ca; sched_task := Some (sch_task ca);
                           sched_task_template := None |} None).
Proof.
  split_and!.
  - by apply queue_decodes.
  - by apply service_decodes.
  - by apply task_decodes.
  - destruct (schedule_decodes ca) as (y & H1 & H2). exists y. eexists. by split_and!.
Qed.

Definition demo_queue_args : QueueArgs :=
  {| qa_name := "rows"; qa_type := "topic"; qa_max_age := Some "24h"; qa_max_msgs := Some 10%Z;
     qa_max_bytes := None; qa_subject := None; qa_stream := None; qa_replicas := 3;
     qa_description := None |}.
Definition demo_service_args : ServiceArgs :=
  {| sa_name := "web"; sa_runtime := "docker"; sa_exec := None; sa_image := Some "nginx";
     sa_args := ["-v"]; sa_env := ["A=1"; "B=x=y"]; sa_replicas := Some 2%Z; sa_restart := None;
     sa_ports := ["http:80"]; sa_labels := ["tier=edge"] |}.
Definition demo_task_args : TaskArgs :=
  {| ta_name := "t"; ta_runtime := "native"; ta_exec := Some "/bin/true"; ta_image := None;
     ta_args := []; ta_env := []; ta_timeout_seconds := Some 5%Z; ta_labels := [] |}.
Definition demo_schedule_args : ScheduleArgs :=
  {| sch_name := "s"; sch_cron := "* * * * *"; sch_task := "t" |}.

Definition unwrap_y (r : result Y GenError) : Y :=
  match r with Ok y => y | Err _ => YSeq [] end.

Lemma gen_documents_decode_witness :
  ∃ age, parse_duration_seconds (Some "24h") = Ok age ∧ age = Some 86400%Z ∧
    body <$> decode_resource (J := toy_json) (unwrap_y (build_queue demo_queue_args)) =
    Some (BQueue (J := toy_json) {| q_type := QTopic; q_subject := None; q_stream := None;
      q_max_age_seconds := age; q_max_msgs := Some 10%Z; q_max_bytes := None;
      q_replicas := Some 3%Z; q_description := None |} None).
Proof.
  destruct (gen_documents_decode (J := toy_json) demo_queue_args demo_service_args demo_task_args
    demo_schedule_args (unwrap_y (build_queue demo_queue_args))
    (unwrap_y (build_service demo_service_args)) (unwrap_y (build_task demo_task_args)))
    as ((age & Ha & Hd) & _).
  - vm_compute. reflexivity.
  - vm_compute. reflexivity.
  - vm_compute. reflexivity.
  - right. left.
  - intros z [= <-]. unfold is_u64, u64_max. lia.
  - done.
  - unfold is_u32, u32_max. simpl. lia.
  - intros z [= <-]. unfold is_u32, u32_max. lia.
  - done.
  - intros z [= <-]. unfold is_u32, u32_max. lia.
  - exists age. split; [exact Ha|]. vm_compute in Ha. injection Ha as <-.
    split; [done|]. by rewrite Hd.
Defined.

(** A generated processor reads the queue the controller created, unless it is to be
    debugged.  Without [--debug] the document is a Service whose environment holds the
    subject and the stream of the queue's own stream configuration, under the user's
    pairs.  With [--debug] the port is written into the environment as a number, and the
    document is not a resource at all: it cannot be applied, unless the user's pairs
    replace that variable. *)
Theorem processor_documents {J : SerdeJson} (q : option Resource) (nats_url : option string)
    (a : ProcessorArgs) (y : Y) (Hy : build_processor q nats_url a = Ok y)
    (Hr : is_u32 (pa_replicas a)) :
  let qspec := default QueueSpec_default (queue_spec_of q) in
  let '(subject, cfg) := queue_stream_config (pa_queue a) qspec in
  (pa_debug a = false → ∃ exec args,
     processor_command a = Ok (exec, args) ∧
     decode_resource y = Some (resource_of (pa_name a) (processor_labels a)
       (BService (service_of
          (RNative exec args (foldl kv_add
             (base_env a nats_url subject (sc_name cfg) (q_type qspec)) (pa_env a)))
          (if (1 <? pa_replicas a)%Z then Some (pa_replicas a) else None) [] OnFailure) None))) ∧
  (pa_debug a = true →
   Forall (λ kv, ∀ k v, split_once "=" kv = Some (k, v) → k ≠ "ORION_DEBUG_PORT") (pa_env a) →
   decode_resource y = None).
Proof.
  unfold build_processor in Hy. cbv zeta.
  assert (match queue_spec_of q with Some s => q_type s | None => QWork end =
          q_type (default QueueSpec_default (queue_spec_of q))) as Hty
    by (by destruct (queue_spec_of q)). rewrite Hty in Hy. clear Hty.
  set (qspec := default QueueSpec_default (queue_spec_of q)) in *.
  destruct (queue_stream_config (pa_queue a) qspec) as [subject cfg].
  destruct (processor_command a) as [[exec args]|]; [|done]. injection Hy as <-.
  change (YMap (("kind", YStr "native") :: _)) with (native_block exec args
    (processor_env a nats_url subject (sc_name cfg) (q_type qspec))).
  set (env := processor_env _ _ _ _ _).
  change (if pa_debug a then _ else _) with (processor_spec a (native_block exec args env)).
  split.
  - intros Hd. exists exec, args. split; [done|]. apply decode_emit; [done|].
    unfold decode_body. simpl. erewrite processor_spec_decodes; [done|done|done|].
    rewrite native_block_decodes. unfold env, processor_env. rewrite Hd.
    by erewrite add_env_decodes by reflexivity.
  - intros Hd Hover. apply decode_emit_bad. unfold decode_body. simpl.
    erewrite decode_service_bad; [done|apply processor_spec_runtime|].
    rewrite native_block_decodes. unfold env, processor_env. rewrite Hd.
    erewrite decode_str_map_int; [done|]. rewrite add_env_other by done. apply y_get_insert_eq.
Qed.

Definition demo_debug_args : ProcessorArgs :=
  {| pa_name := "p"; pa_queue := "rows"; pa_lang := "python"; pa_group := None; pa_replicas := 1;
     pa_debug := true; pa_debug_port := None; pa_debug_suspend := false; pa_template := None;
     pa_env := ["A=1"] |}.

Lemma processor_documents_witness :
  decode_resource (J := toy_json)
    (unwrap_y (build_processor (J := toy_json) None None demo_debug_args)) = None.
Proof.
  apply (processor_documents (J := toy_json) None None demo_debug_args
    (unwrap_y (build_processor (J := toy_json) None None demo_debug_args))).
  - vm_compute. reflexivity.
  - unfold is_u32, u32_max. simpl. lia.
  - reflexivity.
  - repeat constructor. intros k v [= <- <-]. discriminate.
Defined.
