(* ===== verification/CliText.v ===== *)
(** * Text tools of the command line (crates/orion-cli)

    Shell quoting ([orion env]), the table printer, and [orion json], which turns text
    with columns into one JSON object per row: output.rs, cmd/shell.rs, cmd/json.rs and
    the kind names of cmd/mod.rs.  The theorems read the printed text back: with the
    rules of a shell, and with [orion json] itself. *)

From Stdlib Require Import ZArith Lia Bool Ascii Sorted.
From stdpp Require Import base list gmap strings pretty.
From S2P Require Import Prelude Text Types Parse.

(** ** Context (main.rs) *)

Inductive Format : Type := Table | JsonFormat | YamlFormat | Wide.

Record Ctx : Type := {
  ctx_controller : string;
  ctx_nats_url : string;
  ctx_token : option string;
  ctx_output : Format
}.

(** ** Shell quoting (cmd/shell.rs) *)

Definition shell_safe (c : ascii) : bool :=
  is_ascii_alphanumeric c || existsb (Ascii.eqb c) ["-"; "_"; "."; "/"; ":"; "@"]%char.

(** [s.replace('\'', r"'\''")]. *)
Fixpoint escape_quotes (s : string) : string :=
  match s with
  | EmptyString => EmptyString
  | String c s' => if Ascii.eqb c "'" then "'\''" +:+ escape_quotes s'
                   else String c (escape_quotes s')
  end.

Definition shell_quote (s : string) : string :=
  if negb (String.eqb s "") && string_all shell_safe s then s
  else "'" +:+ escape_quotes s +:+ "'".

Inductive EnvOutput : Type :=
| EnvLines (lines : list string)
| EnvObject (fields : list (string * string)).

Definition env_pairs (ctx : Ctx) : list (string * string) :=
  [("ORION_CONTROLLER_URL", ctx_controller ctx); ("NATS_URL", ctx_nats_url ctx)]
  ++ (let token := default "" (ctx_token ctx) in
      if String.eqb token "" then [] else [("ORION_CLUSTER_TOKEN", token)]).

(** [None]: an unknown format. *)
Definition run_env (ctx : Ctx) (format : string) : option EnvOutput :=
  if String.eqb format "sh" then
    Some (EnvLines ((λ kv, "export " +:+ kv.1 +:+ "=" +:+ shell_quote kv.2) <$> env_pairs ctx))
  else if String.eqb format "fish" then
    Some (EnvLines ((λ kv, "set -x " +:+ kv.1 +:+ " " +:+ shell_quote kv.2) <$> env_pairs ctx))
  else if String.eqb format "json" then Some (EnvObject (env_pairs ctx))
  else None.

(** ** Shells, as far as a single word goes

    How a POSIX shell reads one word: single quotes keep everything up to the next
    one, a backslash outside quotes keeps the next character, and a character with a
    meaning of its own outside quotes ends the plain reading. *)

Definition sh_special (c : ascii) : bool :=
  existsb (Ascii.eqb c) [" "; "009"; "010"; ";"; "&"; "|"; "<"; ">"; "("; ")"; "$"; "`"; "034";
    "*"; "?"; "["; "]"; "#"; "~"; "="; "%"; "!"; "{"; "}"; "^"]%char.

Fixpoint sh_word (quoted : bool) (s : string) : option string :=
  match s with
  | EmptyString => if quoted then None else Some EmptyString
  | String c s' =>
      if Ascii.eqb c "'" then sh_word (negb quoted) s'
      else if quoted then String c <$> sh_word true s'
      else if Ascii.eqb c "\" then
        match s' with
        | EmptyString => None
        | String d s'' => if Ascii.eqb d newline then sh_word false s''
                          else String d <$> sh_word false s''
        end
      else if sh_special c then None
      else String c <$> sh_word false s'
  end.

(** fish: inside single quotes a backslash before a quote or a backslash escapes it. *)
Fixpoint fish_word (quoted : bool) (s : string) : option string :=
  match s with
  | EmptyString => if quoted then None else Some EmptyString
  | String c s' =>
      if Ascii.eqb c "\" then
        match s' with
        | EmptyString => None
        | String d s'' =>
            if Ascii.eqb d "'" || Ascii.eqb d "\" then String d <$> fish_word quoted s''
            else if quoted then String c <$> (String d <$> fish_word true s'') else None
        end
      else if Ascii.eqb c "'" then fish_word (negb quoted) s'
      else if quoted then String c <$> fish_word true s'
      else if sh_special c then None
      else String c <$> fish_word false s'
  end.

(** [export NAME=word], [set -x NAME word]. *)
Definition sh_export (line : string) : option (string * string) :=
  rest ← strip_prefix "export " line; kv ← split_once "=" rest;
  v ← sh_word false kv.2; Some (kv.1, v).
Definition fish_set (line : string) : option (string * string) :=
  rest ← strip_prefix "set -x " line; kv ← split_once " " rest;
  v ← fish_word false kv.2; Some (kv.1, v).

(** ** Lemmas: quoting *)

Lemma sh_safe_plain c : shell_safe c = true →
  Ascii.eqb c "'" = false ∧ Ascii.eqb c "\" = false ∧ sh_special c = false.
Proof. destruct c as [[] [] [] [] [] [] [] []]; vm_compute; done. Qed.

Lemma sh_word_safe s : string_all shell_safe s = true → sh_word false s = Some s.
Proof.
  induction s as [|c s IH]; [done|]. cbn [string_all sh_word]. intros [Hc Hs]%andb_true_iff.
  apply sh_safe_plain in Hc as (-> & -> & ->). by rewrite IH.
Qed.

Lemma sh_word_escaped s : sh_word true (escape_quotes s +:+ "'") = Some s.
Proof.
  induction s as [|c s IH]; [done|]. cbn [escape_quotes].
  destruct (Ascii.eqb_spec c "'") as [->|Hc].
  - autorewrite with orion_str. cbn [sh_word Ascii.eqb Bool.eqb negb]. by rewrite IH.
  - autorewrite with orion_str. cbn [sh_word].
    rewrite (proj2 (Ascii.eqb_neq c "'")) by done. by rewrite IH.
Qed.

Lemma sh_word_quote s : sh_word false (shell_quote s) = Some s.
Proof.
  unfold shell_quote. destruct (negb _ && _) eqn:E.
  - apply andb_true_iff in E as [_ E]. by apply sh_word_safe.
  - autorewrite with orion_str. cbn [sh_word Ascii.eqb Bool.eqb negb]. apply sh_word_escaped.
Qed.

Lemma fish_word_safe s : string_all shell_safe s = true → fish_word false s = Some s.
Proof.
  induction s as [|c s IH]; [done|]. cbn [string_all fish_word]. intros [Hc Hs]%andb_true_iff.
  apply sh_safe_plain in Hc as (-> & -> & ->). by rewrite IH.
Qed.

Lemma fish_word_escaped s :
  has_char "\" s = false → fish_word true (escape_quotes s +:+ "'") = Some s.
Proof.
  induction s as [|c s IH]; [done|]. cbn [escape_quotes has_char].
  intros [Hb Hs]%orb_false_iff. destruct (Ascii.eqb_spec c "'") as [->|Hc];
    autorewrite with orion_str; cbn [fish_word Ascii.eqb Bool.eqb negb].
  - cbn. by rewrite IH.
  - rewrite Hb, (proj2 (Ascii.eqb_neq c "'")) by done. by rewrite IH.
Qed.

Lemma fish_word_quote s : has_char "\" s = false → fish_word false (shell_quote s) = Some s.
Proof.
  unfold shell_quote. intros Hb. destruct (negb _ && _) eqn:E.
  - apply andb_true_iff in E as [_ E]. by apply fish_word_safe.
  - autorewrite with orion_str. cbn. by apply fish_word_escaped.
Qed.

Lemma sh_export_line k v :
  has_char "=" k = false → sh_export ("export " +:+ k +:+ "=" +:+ shell_quote v) = Some (k, v).
Proof.
  intros Hk. unfold sh_export. rewrite (proj2 (strip_prefix_Some "export " _ _) eq_refl). cbn -[sh_word].
  change ("=" +:+ shell_quote v) with (String "=" (shell_quote v)).
  rewrite split_once_char by done. simpl. by rewrite sh_word_quote.
Qed.

Lemma fish_set_line k v :
  has_char " " k = false → has_char "\" v = false →
  fish_set ("set -x " +:+ k +:+ " " +:+ shell_quote v) = Some (k, v).
Proof.
  intros Hk Hv. unfold fish_set. rewrite (proj2 (strip_prefix_Some "set -x " _ _) eq_refl). cbn -[fish_word].
  change (" " +:+ shell_quote v) with (String " " (shell_quote v)).
  rewrite split_once_char by done. simpl. by rewrite fish_word_quote.
Qed.

(** ** Tables (output.rs) *)

(** [str::to_uppercase]: the Unicode tables, which agree with ASCII on ASCII text. *)
Definition ascii_upper (s : string) : string :=
  (fix go s := match s with
   | EmptyString => EmptyString
   | String c s' => String (to_ascii_uppercase c) (go s')
   end) s.

Class UpperCase : Type := {
  to_uppercase : string → string;
  to_uppercase_ascii : ∀ s, is_ascii_str s = true → to_uppercase s = ascii_upper s
}.
Definition ascii_upper_case : UpperCase :=
  {| to_uppercase := ascii_upper; to_uppercase_ascii := λ _ _, eq_refl |}.

Fixpoint spaces (n : nat) : string :=
  match n with O => EmptyString | S n' => String " " (spaces n') end.

(** [format!("{:<w$}  ", s)]: the padding counts characters. *)
Definition pad_cell (w : nat) (s : string) : string :=
  s +:+ spaces (w - chars_count s) +:+ "  ".

(** [widths[i] = widths[i].max(cell.len())] for the cells that have a column. *)
Fixpoint widen (widths : list nat) (row : list string) : list nat :=
  match widths, row with
  | w :: widths', cell :: row' => Nat.max w (String.length cell) :: widen widths' row'
  | _, _ => widths
  end.

Fixpoint table_line (widths : list nat) (row : list string) : string :=
  match widths, row with
  | w :: widths', cell :: row' => pad_cell w cell +:+ table_line widths' row'
  | _, _ => EmptyString
  end.

Definition table_widths (headers : list string) (rows : list (list string)) : list nat :=
  foldl widen (String.length <$> headers) rows.

(** The lines that are written. *)
Definition render_table {U : UpperCase} (headers : list string) (rows : list (list string))
    : list string :=
  let widths := table_widths headers rows in
  table_line widths (to_uppercase <$> headers) :: (table_line widths <$> rows).

(** ** Text to JSON (cmd/json.rs) *)

(** [str::is_char_boundary]: the byte at the index, if there is one, starts a character. *)
Fixpoint starts_char (i : nat) (s : string) : bool :=
  match i, s with
  | O, EmptyString => true
  | O, String c _ => negb (is_utf8_continuation c)
  | S i', String _ s' => starts_char i' s'
  | S _, EmptyString => false
  end.
Definition is_char_boundary (i : nat) (s : string) : bool := (i =? 0) || starts_char i s.

(** [&s[a..b]]; [None] is a panic. *)
Definition slice_str (a b : nat) (s : string) : option string :=
  if (a <=? b) && is_char_boundary a s && is_char_boundary b s
  then Some (take_str (b - a) (drop_str a s)) else None.

Definition normalize_char (c : ascii) : string :=
  if is_ascii_alphanumeric c || Ascii.eqb c "_" then String c EmptyString
  else if is_utf8_continuation c then EmptyString
  else "_".
Fixpoint normalize_chars (s : string) : string :=
  match s with
  | EmptyString => EmptyString
  | String c s' => normalize_char c +:+ normalize_chars s'
  end.

Definition normalize_header {U : UnicodeCase} (s : string) (no_trim : bool) : string :=
  let s := if no_trim then s else trim s in
  normalize_chars (to_lowercase s).

Definition is_blank (c : ascii) : bool := Ascii.eqb c " " || Ascii.eqb c "009".

(** The two inner loops: over blanks, and over the characters of a name. *)
Fixpoint skip_blanks (i : nat) (s : string) : nat * string :=
  match s with
  | String c s' => if is_blank c then skip_blanks (S i) s' else (i, s)
  | EmptyString => (i, s)
  end.
Fixpoint take_word (s : string) : string * string :=
  match s with
  | String c s' => if is_blank c then (EmptyString, s)
                   else let '(w, r) := take_word s' in (String c w, r)
  | EmptyString => (EmptyString, EmptyString)
  end.

(** Names with the offsets they start at; each round consumes a byte, so the length
    of the line is enough fuel. *)
Fixpoint header_scan (fuel i : nat) (s : string) : list (string * nat) :=
  match fuel with
  | O => []
  | S fuel' =>
      let '(start, s1) := skip_blanks i s in
      match s1 with
      | EmptyString => []
      | _ => let '(w, s2) := take_word s1 in
             (w, start) :: header_scan fuel' (start + String.length w) s2
      end
  end.
Definition parse_header_row (line : string) : list string * list nat :=
  let l := header_scan (String.length line) 0 line in (l.*1, l.*2).

(** The windows of two offsets, then the last column. *)
Fixpoint slice_at_columns (line : string) (starts : list nat) : option (list string) :=
  let len := String.length line in
  match starts with
  | [] => Some []
  | [last] =>
      if last <=? len then c ← slice_str last len line; Some [c] else Some [EmptyString]
  | s :: ((e :: _) as rest) =>
      c ← (if len <=? s then Some EmptyString else slice_str s (Nat.min e len) line);
      cells ← slice_at_columns line rest;
      Some (c :: cells)
  end.

Definition column_name (headers : list string) (i : nat) : string :=
  default ("col_" +:+ pretty i) (headers !! i).
Definition cell_value (cells : list string) (no_trim : bool) (i : nat) : string :=
  let v := default "" (cells !! i) in if no_trim then v else trim v.

(** The loop over [0..n], inserting into the object. *)
Fixpoint pack_from (headers cells : list string) (no_trim : bool) (i n : nat)
    (obj : gmap string string) : gmap string string :=
  match n with
  | O => obj
  | S n' => pack_from headers cells no_trim (S i) n'
              (<[column_name headers i := cell_value cells no_trim i]> obj)
  end.
Definition pack_row (headers cells : list string) (no_trim : bool) : gmap string string :=
  pack_from headers cells no_trim 0 (Nat.max (length headers) (length cells)) ∅.

(** [&s[..n]] panics inside a character. *)
Definition truncate (s : string) (n : nat) : option string :=
  if String.length s <=? n then Some s else p ← slice_str 0 n s; Some (p +:+ "...").

Inductive Delim : Type := Csv | Tsv | Pipe.

Record JsonArgs : Type := {
  ja_headers : list string;
  ja_no_header : bool;
  ja_delim : option Delim;
  ja_regex : option string;
  ja_passthrough : bool;
  ja_skip : nat;
  ja_no_trim : bool
}.

(** The regex crate: compiling, the names of the groups, and the groups of a match. *)
Class CaptureLib : Type := {
  Captures : Type;
  capture_new : string → result Captures string;
  capture_names : Captures → list (option string);
  captures : Captures → string → option (list (option string))
}.

Inductive JsonError : Type :=
| ReadingStdin (e : string)
| BadRegex (e : string)
| JsonPanic.

Section json.
Context {J : SerdeJson} {JM : JsonMake} {U : UnicodeCase} {CL : CaptureLib}.

Inductive JsonRow : Type :=
| RowObject (obj : gmap string string)
| RowValue (v : Value).

(** What a line makes the loop do. *)
Inductive LineResult : Type :=
| WriteRow (r : JsonRow)
| SkipLine
| CrashLine.

(** The rows written, the count of skipped lines, and how the command ended. *)
Record JsonRun : Type := {
  jr_rows : list JsonRow;
  jr_skipped : nat;
  jr_error : option JsonError
}.

Definition jr_done : JsonRun := {| jr_rows := []; jr_skipped := 0; jr_error := None |}.
Definition jr_fail (e : JsonError) : JsonRun :=
  {| jr_rows := []; jr_skipped := 0; jr_error := Some e |}.
Definition jr_row (r : JsonRow) (k : JsonRun) : JsonRun :=
  {| jr_rows := r :: jr_rows k; jr_skipped := jr_skipped k; jr_error := jr_error k |}.
Definition jr_skip (k : JsonRun) : JsonRun :=
  {| jr_rows := jr_rows k; jr_skipped := S (jr_skipped k); jr_error := jr_error k |}.

Fixpoint each_line (f : string → LineResult) (ls : list (result string string)) : JsonRun :=
  match ls with
  | [] => jr_done
  | Err e :: _ => jr_fail (ReadingStdin e)
  | Ok line :: ls' =>
      if String.eqb (trim line) "" then each_line f ls'
      else match f line with
           | WriteRow r => jr_row r (each_line f ls')
           | SkipLine => jr_skip (each_line f ls')
           | CrashLine => jr_fail JsonPanic
           end
  end.

Definition passthrough_line (line : string) : LineResult :=
  match json_from_str line with
  | Some v => WriteRow (RowValue v)
  | None => match truncate line 80 with Some _ => SkipLine | None => CrashLine end
  end.

(** The groups of a match, the unnamed whole match left out. *)
Fixpoint capture_object (i : nat) (names : list (option string)) (caps : list (option string))
    (obj : gmap string string) : gmap string string :=
  match names with
  | [] => obj
  | n :: names' =>
      let value := default "" (mjoin (caps !! i)) in
      let key := default ("col_" +:+ pretty i) n in
      let obj := if bool_decide (i = 0) && bool_decide (n = None) then obj
                 else <[key := value]> obj in
      capture_object (S i) names' caps obj
  end.
Definition regex_line (re : Captures) (line : string) : LineResult :=
  match captures re line with
  | Some caps => WriteRow (RowObject (capture_object 0 (capture_names re) caps ∅))
  | None => SkipLine
  end.

Definition delim_char (d : Delim) : ascii :=
  match d with Csv => "," | Tsv => "009" | Pipe => "|" end%char.

Definition delim_line (sep : ascii) (headers : list string) (no_trim : bool) (line : string)
    : LineResult :=
  WriteRow (RowObject (pack_row headers (split_on sep line) no_trim)).

Definition run_delim (args : JsonArgs) (d : Delim) (ls : list (result string string)) : JsonRun :=
  let sep := delim_char d in
  if bool_decide (ja_headers args = []) && negb (ja_no_header args) then
    match ls with
    | [] => jr_done
    | Err e :: _ => jr_fail (ReadingStdin e)
    | Ok first :: ls' =>
        let headers := (λ s, normalize_header s (ja_no_trim args)) <$> split_on sep first in
        each_line (delim_line sep headers (ja_no_trim args)) ls'
    end
  else each_line (delim_line sep (ja_headers args) (ja_no_trim args)) ls.

(** [iter.find(p)] on an iterator that is used afterwards. *)
Fixpoint find_rest {A} (p : A → bool) (l : list A) : option (A * list A) :=
  match l with
  | [] => None
  | x :: l' => if p x then Some (x, l') else find_rest p l'
  end.

Definition column_line (headers : list string) (starts : list nat) (no_trim : bool)
    (line : string) : LineResult :=
  match (match starts with
         | [] => Some (split_whitespace line)
         | _ => slice_at_columns line starts
         end) with
  | Some cells => WriteRow (RowObject (pack_row headers cells no_trim))
  | None => CrashLine
  end.

(** [collect::<Result<Vec<_>>>()]. *)
Fixpoint read_lines (ls : list (result string string)) : result (list string) string :=
  match ls with
  | [] => Ok []
  | Err e :: _ => Err e
  | Ok l :: ls' => let? rest := read_lines ls' in Ok (l :: rest)
  end.

Definition run_columns (args : JsonArgs) (ls : list (result string string)) : JsonRun :=
  match read_lines ls with
  | Err e => jr_fail (ReadingStdin e)
  | Ok lines =>
      if bool_decide (ja_headers args = []) && negb (ja_no_header args) then
        match find_rest (λ l, negb (String.eqb (trim l) "")) lines with
        | None => jr_done
        | Some (h, rest) =>
            let '(hs, starts) := parse_header_row h in
            let headers := (λ s, normalize_header s (ja_no_trim args)) <$> hs in
            each_line (column_line headers starts (ja_no_trim args)) (Ok <$> rest)
        end
      else each_line (column_line (ja_headers args) [] (ja_no_trim args)) (Ok <$> lines)
  end.

Definition json_run (args : JsonArgs) (input : list (result string string)) : JsonRun :=
  let ls := drop (ja_skip args) input in
  if ja_passthrough args then each_line passthrough_line ls
  else match ja_regex args with
       | Some pat =>
           match capture_new pat with
           | Err e => jr_fail (BadRegex e)
           | Ok re => each_line (regex_line re) ls
           end
       | None =>
           match ja_delim args with
           | Some d => run_delim args d ls
           | None => run_columns args ls
           end
       end.

End json.

(** ** Lemmas: strings of plain characters *)

Definition printable (c : ascii) : bool := let n := N_of_ascii c in (32 <=? n)%N && (n <=? 126)%N.
Definition graphic (c : ascii) : bool := let n := N_of_ascii c in (33 <=? n)%N && (n <=? 126)%N.
(** A lower-case letter, a digit or an underscore. *)
Definition name_char (c : ascii) : bool :=
  is_ascii_lower c || is_ascii_digit c || Ascii.eqb c "_".

Ltac each_char c := destruct c as [[] [] [] [] [] [] [] []]; vm_compute; done.

Lemma all_chars_impl (f g : ascii → bool) s :
  (∀ c, f c = true → g c = true) → all_chars f s = true → all_chars g s = true.
Proof.
  intros Hfg. induction s as [|c s IH]; [done|]. simpl. rewrite !andb_true_iff. naive_solver.
Qed.

Lemma graphic_solid c : graphic c = true → solid c = true.
Proof. each_char c. Qed.
Lemma printable_cont c : printable c = true → is_utf8_continuation c = false.
Proof. each_char c. Qed.
Lemma printable_graphic c : printable c = true → Ascii.eqb c " " = false → graphic c = true.
Proof. each_char c. Qed.
Lemma graphic_not_blank c : graphic c = true → is_blank c = false.
Proof. each_char c. Qed.
Lemma name_char_upper c : name_char c = true → graphic (to_ascii_uppercase c) = true.
Proof. each_char c. Qed.
Lemma name_char_graphic c : name_char c = true → graphic c = true.
Proof. each_char c. Qed.
Lemma graphic_printable c : graphic c = true → printable c = true.
Proof. each_char c. Qed.

Lemma chars_count_printable s : all_chars printable s = true → chars_count s = String.length s.
Proof.
  induction s as [|c s IH]; [done|]. cbn [all_chars chars_count String.length].
  intros [Hc Hs]%andb_true_iff. by rewrite (printable_cont c), IH.
Qed.

Lemma length_spaces n : String.length (spaces n) = n.
Proof. induction n as [|n IH]; [done|]. simpl. by rewrite IH. Qed.
Lemma all_chars_spaces f n : f " "%char = true → all_chars f (spaces n) = true.
Proof. intros Hf. induction n as [|n IH]; [done|]. simpl. by rewrite Hf, IH. Qed.
Lemma spaces_app n m : spaces n +:+ spaces m = spaces (n + m).
Proof. induction n as [|n IH]; autorewrite with orion_str; [done|]. simpl. by rewrite <- IH. Qed.
Lemma spaces_rev n : string_rev (spaces n) = spaces n.
Proof.
  induction n as [|n IH]; [done|]. cbn [spaces]. rewrite string_rev_cons, IH.
  change (String " " "") with (spaces 1). by rewrite spaces_app, Nat.add_comm.
Qed.

Lemma is_char_boundary_printable i s :
  all_chars printable s = true → i ≤ String.length s → is_char_boundary i s = true.
Proof.
  intros Hs Hi. unfold is_char_boundary. apply orb_true_iff. right. revert i Hi.
  induction s as [|c s IH]; intros i Hi; simpl in Hi; [by destruct i; [|lia]|].
  simpl in Hs. apply andb_true_iff in Hs as [Hc Hs].
  destruct i as [|i]; simpl; [by rewrite (printable_cont c)|]. apply IH; [done|lia].
Qed.

Lemma take_str_app a b : take_str (String.length a) (a +:+ b) = a.
Proof. induction a as [|c a IH]; autorewrite with orion_str; simpl; [by destruct b|by rewrite IH]. Qed.

Lemma slice_middle a b c :
  all_chars printable (a +:+ b +:+ c) = true →
  slice_str (String.length a) (String.length a + String.length b) (a +:+ b +:+ c) = Some b.
Proof.
  intros Hp. unfold slice_str. rewrite (proj2 (Nat.leb_le _ _)) by lia.
  rewrite !is_char_boundary_printable by (done || rewrite !string_length_app; lia). simpl.
  rewrite drop_str_app. replace (_ + _ - _) with (String.length b) by lia.
  by rewrite take_str_app.
Qed.

(** *** Trimming *)

Lemma strip_all_spaces m n ws s :
  (∀ r, strip_one ws (String " " r) = Some r) →
  strip_all (n + m) ws (spaces n +:+ s) = strip_all m ws s.
Proof.
  intros H. induction n as [|n IH]; [done|]. cbn [spaces].
  autorewrite with orion_str. cbn [Nat.add strip_all]. by rewrite H.
Qed.

Lemma trim_end_spaces s n : trim_end (s +:+ spaces n) = trim_end s.
Proof.
  unfold trim_end. rewrite string_rev_distr, spaces_rev, string_length_app, length_spaces.
  by rewrite Nat.add_comm, strip_all_spaces.
Qed.

(** The edges of a cell carry no blank. *)
Definition clean_cell (s : string) : bool :=
  all_chars printable s
  && match s with String c _ => negb (Ascii.eqb c " ") | EmptyString => true end
  && match string_rev s with String c _ => negb (Ascii.eqb c " ") | EmptyString => true end.

Lemma clean_cell_printable s : clean_cell s = true → all_chars printable s = true.
Proof. unfold clean_cell. by intros [[? _]%andb_true_iff _]%andb_true_iff. Qed.

Lemma trim_padded s n : clean_cell s = true → trim (s +:+ spaces n) = s.
Proof.
  unfold clean_cell. intros [[Hp Hf]%andb_true_iff Hl]%andb_true_iff. unfold trim.
  destruct s as [|c s].
  { rewrite string_app_empty. replace (trim_start (spaces n)) with ""; [done|].
    symmetry. unfold trim_start. rewrite length_spaces, <- (string_app_nil_r (spaces n)).
    rewrite <- (Nat.add_0_r n) at 1. by rewrite strip_all_spaces. }
  pose proof Hp as Hr. rewrite <- all_chars_rev in Hr. simpl in Hp.
  apply andb_true_iff in Hp as [Hc _]. apply negb_true_iff in Hf.
  rewrite string_app_cons, trim_start_solid by (by apply graphic_solid, printable_graphic).
  rewrite <- string_app_cons, trim_end_spaces.
  destruct (string_rev (String c s)) as [|d r] eqn:E.
  - apply (f_equal string_rev) in E. by rewrite string_rev_involutive in E.
  - simpl in Hr. apply andb_true_iff in Hr as [Hd _]. apply negb_true_iff in Hl.
    apply (trim_end_solid d _ r); [|done]. by apply graphic_solid, printable_graphic.
Qed.

(** Trimming keeps graphic characters. *)
Lemma strip_one_keeps c ws s r :
  forallb (λ w, negb (has_char c w)) ws = true → strip_one ws s = Some r →
  has_char c r = has_char c s.
Proof.
  induction ws as [|w ws IH]; [done|]. cbn [forallb strip_one].
  intros [Hw Hws]%andb_true_iff. destruct (strip_prefix w s) eqn:E; [|by apply IH].
  intros [= ->]. apply strip_prefix_Some in E as ->. rewrite has_char_app.
  apply negb_true_iff in Hw. by rewrite Hw.
Qed.

Lemma strip_all_keeps c n ws s :
  forallb (λ w, negb (has_char c w)) ws = true → has_char c (strip_all n ws s) = has_char c s.
Proof.
  intros Hws. revert s. induction n as [|n IH]; intros s; [done|]. cbn [strip_all].
  destruct (strip_one ws s) as [r|] eqn:E; [|done]. rewrite IH. by eapply strip_one_keeps.
Qed.

Lemma graphic_not_space c : graphic c = true →
  forallb (λ w, negb (has_char c w)) whitespace_chars = true ∧
  forallb (λ w, negb (has_char c w)) (string_rev <$> whitespace_chars) = true.
Proof. each_char c. Qed.

Lemma trim_keeps c s : graphic c = true → has_char c (trim s) = has_char c s.
Proof.
  intros [H1 H2]%graphic_not_space. unfold trim, trim_end, trim_start.
  rewrite has_char_rev, strip_all_keeps, has_char_rev by done. by rewrite strip_all_keeps.
Qed.

Lemma trim_not_blank c s : graphic c = true → has_char c s = true → String.eqb (trim s) "" = false.
Proof.
  intros Hg Hc. rewrite <- (trim_keeps c) in Hc by done. by destruct (trim s).
Qed.

(** *** Reading a header *)

Fixpoint offsets (i : nat) (ws : list nat) : list nat :=
  match ws with [] => [] | w :: ws' => i :: offsets (i + w + 2) ws' end.

Lemma skip_blanks_spaces i n s : skip_blanks i (spaces n +:+ s) = skip_blanks (i + n) s.
Proof.
  revert i. induction n as [|n IH]; intros i; autorewrite with orion_str; simpl;
    [by rewrite Nat.add_0_r|]. change (String.append (spaces n) s) with (spaces n +:+ s).
  rewrite IH. f_equal. lia.
Qed.

Lemma take_word_app h n s :
  all_chars graphic h = true → take_word (h +:+ spaces (S n) +:+ s) = (h, spaces (S n) +:+ s).
Proof.
  induction h as [|c h IH]; [done|]. cbn [all_chars]. intros [Hc Hh]%andb_true_iff.
  rewrite string_app_cons. cbn [take_word]. by rewrite graphic_not_blank, IH.
Qed.

(** A padded cell, as the cell and a run of at least two spaces. *)
Lemma pad_cell_spaces w s :
  all_chars printable s = true → pad_cell w s = s +:+ spaces (w - String.length s + 2).
Proof.
  intros Hs. unfold pad_cell. rewrite chars_count_printable by done.
  change "  " with (spaces 2). by rewrite spaces_app.
Qed.

Lemma length_pad_cell w s :
  all_chars printable s = true → String.length s ≤ w → String.length (pad_cell w s) = w + 2.
Proof. intros Hs Hw. rewrite pad_cell_spaces, string_length_app, length_spaces by done. lia. Qed.

Lemma header_scan_line fuel i n ws hs :
  Forall2 (λ w h, all_chars graphic h = true ∧ h ≠ "" ∧ String.length h ≤ w) ws hs →
  length hs ≤ fuel →
  header_scan fuel i (spaces n +:+ table_line ws hs) = zip hs (offsets (i + n) ws).
Proof.
  intros H. revert fuel i n. induction H as [|w h ws hs (Hg & Hne & Hw) H IH]; intros fuel i n Hf.
  { destruct fuel; [done|]. simpl. rewrite skip_blanks_spaces. done. }
  simpl in Hf. destruct fuel as [|fuel]; [lia|]. cbn [header_scan table_line].
  assert (all_chars printable h = true) as Hp by (eapply all_chars_impl, Hg; apply graphic_printable).
  rewrite skip_blanks_spaces, pad_cell_spaces by done. rewrite string_app_assoc.
  destruct h as [|c h]; [done|]. pose proof Hg as Hg'. simpl in Hg'.
  apply andb_true_iff in Hg' as [Hc _]. rewrite string_app_cons. cbn [skip_blanks].
  rewrite graphic_not_blank by done. rewrite <- string_app_cons.
  replace (w - String.length (String c h) + 2) with (S (w - String.length (String c h) + 1)) by lia.
  rewrite take_word_app by done. rewrite IH by lia.
  cbn [offsets zip_with]. do 3 f_equal. lia.
Qed.

(** *** Cutting a row *)

Lemma table_line_printable ws row :
  Forall (λ c, all_chars printable c = true) row → all_chars printable (table_line ws row) = true.
Proof.
  intros H. revert ws. induction H as [|c row Hc H IH]; intros [|w ws]; [done..|].
  cbn [table_line]. rewrite all_chars_app, IH, pad_cell_spaces, all_chars_app, Hc by done.
  by rewrite all_chars_spaces.
Qed.

Lemma slice_at_columns_cons line s e rest :
  slice_at_columns line (s :: e :: rest) =
  (c ← (if String.length line <=? s then Some EmptyString
        else slice_str s (Nat.min e (String.length line)) line);
   cells ← slice_at_columns line (e :: rest); Some (c :: cells)).
Proof. done. Qed.

Lemma slice_row pre ws row :
  ws ≠ [] → all_chars printable pre = true →
  Forall2 (λ w c, all_chars printable c = true ∧ String.length c ≤ w) ws row →
  slice_at_columns (pre +:+ table_line ws row) (offsets (String.length pre) ws) =
  Some (zip_with pad_cell ws row).
Proof.
  intros Hne Hpre H. revert pre Hne Hpre.
  induction H as [|w c ws row [Hc Hw] H IH]; intros pre Hne Hpre; [done|].
  assert (Forall (λ c, all_chars printable c = true) row) as Hrow
    by (eapply Forall2_Forall_r; [exact H|]; apply Forall_true; naive_solver).
  assert (all_chars printable (pad_cell w c) = true) as Hpad
    by (rewrite pad_cell_spaces, all_chars_app, Hc by done; by rewrite all_chars_spaces).
  pose proof (length_pad_cell w c Hc Hw) as Hlen. cbn [table_line offsets].
  assert (all_chars printable (pre +:+ pad_cell w c +:+ table_line ws row) = true) as Hall
    by (by rewrite !all_chars_app, Hpre, Hpad, table_line_printable).
  destruct H as [|w' c' ws row Hc' H].
  - cbn [table_line slice_at_columns]. pose proof (slice_middle pre (pad_cell w c) "" Hall) as Hs.
    rewrite !string_app_nil_r, Hlen in *. rewrite string_length_app, Hlen.
    rewrite (proj2 (Nat.leb_le _ _)) by lia. by rewrite Hs.
  - set (rest := table_line (w' :: ws) (c' :: row)) in *.
    assert (String.length pre + w + 2 = String.length (pre +:+ pad_cell w c)) as He
      by (rewrite string_length_app; lia).
    cbn [offsets]. rewrite slice_at_columns_cons, He.
    rewrite (proj2 (Nat.leb_gt _ _)), Nat.min_l by (rewrite !string_length_app; lia).
    pose proof (slice_middle pre (pad_cell w c) rest Hall) as Hs.
    rewrite <- string_length_app in Hs. rewrite Hs. clear Hs. specialize (IH (pre +:+ pad_cell w c)). cbn [offsets] in IH.
    rewrite <- string_app_assoc. rewrite IH; [done..|].
    by rewrite all_chars_app, Hpre.
Qed.

(** *** Names and objects *)

Lemma ascii_lower_upper s : all_chars name_char s = true → ascii_lower (ascii_upper s) = s.
Proof.
  assert (∀ c, name_char c = true →
    (if is_ascii_upper (to_ascii_uppercase c)
     then ascii_of_N (N_of_ascii (to_ascii_uppercase c) + 32) else to_ascii_uppercase c) = c) as Hc
    by (intros c; each_char c).
  induction s as [|c s IH]; [done|]. cbn [all_chars ascii_upper ascii_lower].
  intros [H Hs]%andb_true_iff. rewrite Hc by done. f_equal. by apply IH.
Qed.

Lemma normalize_chars_name s : all_chars name_char s = true → normalize_chars s = s.
Proof.
  assert (∀ c, name_char c = true → normalize_char c = String c "") as Hc
    by (intros c; each_char c).
  induction s as [|c s IH]; [done|]. cbn [all_chars normalize_chars].
  intros [H Hs]%andb_true_iff. by rewrite Hc, IH.
Qed.

Lemma all_chars_upper s : all_chars name_char s = true → all_chars graphic (ascii_upper s) = true.
Proof.
  induction s as [|c s IH]; [done|]. cbn [all_chars ascii_upper].
  intros [H Hs]%andb_true_iff. rewrite name_char_upper by done. by apply IH.
Qed.

Lemma length_upper s : String.length (ascii_upper s) = String.length s.
Proof. induction s as [|c s IH]; [done|]. simpl. f_equal. exact IH. Qed.

Lemma printable_ascii s : all_chars printable s = true → is_ascii_str s = true.
Proof.
  assert (∀ c, printable c = true → (N_of_ascii c <? 128)%N = true) as Hc by (intros c; each_char c).
  induction s as [|c s IH]; [done|]. cbn [all_chars is_ascii_str].
  intros [H Hs]%andb_true_iff. rewrite Hc by done. by apply IH.
Qed.

Lemma graphic_all_printable s : all_chars graphic s = true → all_chars printable s = true.
Proof. apply all_chars_impl, graphic_printable. Qed.
Lemma name_all_printable s : all_chars name_char s = true → all_chars printable s = true.
Proof. apply all_chars_impl. intros c Hc. by apply graphic_printable, name_char_graphic. Qed.

Lemma normalize_upper {U : UnicodeCase} {V : UpperCase} h :
  all_chars name_char h = true → normalize_header (to_uppercase h) false = h.
Proof.
  intros Hh. pose proof (all_chars_upper h Hh) as Hg. unfold normalize_header.
  rewrite to_uppercase_ascii by (by apply printable_ascii, name_all_printable).
  rewrite trim_solid by (eapply all_chars_impl, Hg; apply graphic_solid).
  rewrite to_lowercase_ascii by (by apply printable_ascii, graphic_all_printable).
  rewrite ascii_lower_upper by done. by apply normalize_chars_name.
Qed.

(** The object of a row with as many cells as there are names. *)
Lemma pack_from_zip pre hs prec cs no_trim obj :
  length prec = length pre → length cs = length hs →
  pack_from (pre ++ hs) (prec ++ cs) no_trim (length pre) (length hs) obj =
  foldl (λ m kv, <[kv.1 := kv.2]> m) obj (zip hs ((λ v, if no_trim then v else trim v) <$> cs)).
Proof.
  revert pre prec cs obj. induction hs as [|h hs IH]; intros pre prec [|c cs] obj Hp Hl;
    simplify_eq/=; [done|].
  unfold column_name, cell_value. rewrite list_lookup_middle by done.
  rewrite list_lookup_middle by done. simpl.
  replace (S (length pre)) with (length (pre ++ [h])) by (rewrite length_app; simpl; lia).
  replace (pre ++ h :: hs) with ((pre ++ [h]) ++ hs) by (by rewrite <- app_assoc).
  replace (prec ++ c :: cs) with ((prec ++ [c]) ++ cs) by (by rewrite <- app_assoc).
  apply IH; [|done]. rewrite !length_app. simpl. lia.
Qed.

Lemma foldl_insert_union (l : list (string * string)) (obj : gmap string string) :
  NoDup l.*1 → foldl (λ m kv, <[kv.1 := kv.2]> m) obj l = list_to_map l ∪ obj.
Proof.
  revert obj. induction l as [|[k v] l IH]; intros obj H; csimpl; [by rewrite map_empty_union|].
  apply NoDup_cons in H as [Hk Hl]. rewrite IH by done. simpl.
  rewrite <- insert_union_l. symmetry. apply insert_union_r. by apply not_elem_of_list_to_map_1.
Qed.

Lemma pack_row_zip hs cs :
  NoDup hs → length cs = length hs →
  pack_row hs cs false = list_to_map (zip hs (trim <$> cs)).
Proof.
  intros Hd Hl. unfold pack_row. rewrite Hl, Nat.max_id.
  rewrite (pack_from_zip [] hs [] cs) by done.
  rewrite foldl_insert_union by (rewrite fst_zip; [done|by rewrite length_fmap, Hl]).
  by rewrite map_union_empty.
Qed.

(** *** Column widths *)

Lemma widen_grows ws row : Forall2 le ws (widen ws row).
Proof.
  revert row. induction ws as [|w ws IH]; intros [|c row]; constructor; try lia; [|apply IH].
  clear. induction ws; by constructor.
Qed.

Lemma widen_fits ws row :
  length row = length ws → Forall2 (λ w c, String.length c ≤ w) (widen ws row) row.
Proof.
  revert row. induction ws as [|w ws IH]; intros [|c row] Hl; simplify_eq/=; constructor; [lia|].
  by apply IH.
Qed.

Lemma widths_grow ws rows : Forall2 le ws (foldl widen ws rows).
Proof.
  revert ws. induction rows as [|r rows IH]; intros ws; simpl.
  { induction ws; by constructor. }
  eapply (transitivity (R := Forall2 le)); [apply widen_grows|apply IH].
Qed.

Lemma fits_wider (l : list string) ws ws' :
  Forall2 (λ w c, String.length c ≤ w) ws l → Forall2 le ws ws' →
  Forall2 (λ w c, String.length c ≤ w) ws' l.
Proof.
  intros H. revert ws'. induction H as [|w c ws l Hw H IH]; intros ws' Hle;
    apply Forall2_cons_inv_l in Hle as (w' & ws'' & ? & ? & ->) || apply Forall2_nil_inv_l in Hle as ->;
    constructor; [lia|by apply IH].
Qed.

Lemma widths_fit ws rows row :
  row ∈ rows → Forall (λ r, length r = length ws) rows →
  Forall2 (λ w c, String.length c ≤ w) (foldl widen ws rows) row.
Proof.
  intros Hin H. revert ws H. induction rows as [|r rows IH]; intros ws Hl; [by apply elem_of_nil in Hin|].
  apply Forall_cons in Hl as [Hr Hl]. simpl. apply elem_of_cons in Hin as [->|Hin].
  - eapply fits_wider; [by apply widen_fits|apply widths_grow].
  - apply IH; [done|]. by rewrite <- (Forall2_length _ _ _ (widen_grows ws r)).
Qed.

Lemma widths_fit_headers hs rows :
  Forall2 (λ w h, String.length h ≤ w) (table_widths hs rows) hs.
Proof.
  eapply fits_wider; [|apply widths_grow].
  induction hs as [|h hs IH]; constructor; [done|apply IH].
Qed.

(** *** A printed table, read back *)

(** A row that fits the table and is not blank. *)
Definition table_row (hs row : list string) : bool :=
  bool_decide (length row = length hs) && forallb clean_cell row
  && existsb (λ c, negb (String.eqb c "")) row.

Definition json_defaults : JsonArgs :=
  {| ja_headers := []; ja_no_header := false; ja_delim := None; ja_regex := None;
     ja_passthrough := false; ja_skip := 0; ja_no_trim := false |}.

Lemma table_row_spec hs row :
  table_row hs row = true →
  length row = length hs ∧ Forall (λ c, clean_cell c = true) row ∧
  Forall (λ c, all_chars printable c = true) row ∧ ∃ c, c ∈ row ∧ c ≠ "".
Proof.
  unfold table_row. intros [[Hl%bool_decide_eq_true Hc]%andb_true_iff He]%andb_true_iff.
  assert (Forall (λ c, clean_cell c = true) row) as Hcl.
  { apply Forall_forall. intros c Hin. apply forallb_forall with (x := c) in Hc; [done|].
    by apply list_elem_of_In. }
  split_and!; [done|done| |].
  - eapply Forall_impl; [exact Hcl|]. apply clean_cell_printable.
  - apply existsb_exists in He as (c & Hin%list_elem_of_In & Hne). exists c. split; [done|].
    by intros ->.
Qed.

Lemma table_line_not_blank ws row c :
  c ∈ row → c ≠ "" → clean_cell c = true → length row = length ws →
  String.eqb (trim (table_line ws row)) "" = false.
Proof.
  intros Hin Hne Hc Hl. destruct c as [|a c]; [done|].
  assert (graphic a = true) as Ha.
  { unfold clean_cell in Hc. apply andb_true_iff in Hc as [[Hp Hf]%andb_true_iff _].
    simpl in Hp. apply andb_true_iff in Hp as [Hp _]. apply negb_true_iff in Hf.
    by apply printable_graphic. }
  apply (trim_not_blank a); [done|]. revert ws Hl.
  induction row as [|d row IH]; intros [|w ws] Hl; simplify_eq/=; [by apply elem_of_nil in Hin|].
  rewrite has_char_app. apply orb_true_iff. apply elem_of_cons in Hin as [<-|Hin].
  - left. unfold pad_cell. rewrite has_char_app. simpl. by rewrite Ascii.eqb_refl.
  - right. by apply IH.
Qed.

Section reading_back.
Context {J : SerdeJson} {JM : JsonMake} {U : UnicodeCase} {V : UpperCase} {CL : CaptureLib}.

Lemma trim_pad_cells ws row :
  Forall2 (λ w c, String.length c ≤ w) ws row → Forall (λ c, clean_cell c = true) row →
  trim <$> zip_with pad_cell ws row = row.
Proof.
  induction 1 as [|w c ws row Hw H IH]; intros Hc; [done|]. apply Forall_cons in Hc as [Hc Hcs].
  csimpl. rewrite IH by done. rewrite pad_cell_spaces by (by apply clean_cell_printable).
  by rewrite trim_padded.
Qed.

Lemma column_line_row hs ws row :
  hs ≠ [] → NoDup hs → table_row hs row = true →
  Forall2 (λ w c, String.length c ≤ w) ws row →
  column_line hs (offsets 0 ws) false (table_line ws row) =
  WriteRow (RowObject (list_to_map (zip hs row))).
Proof.
  intros Hne Hd (Hl & Hc & Hp & _)%table_row_spec Hw.
  assert (length ws = length row) as Hlw by apply (Forall2_length _ _ _ Hw).
  assert (slice_at_columns (table_line ws row) (offsets 0 ws) = Some (zip_with pad_cell ws row)) as Hs.
  { apply (slice_row ""); [|done|].
    - intros ->. by destruct row, hs.
    - clear -Hw Hp. induction Hw; constructor; apply Forall_cons in Hp as [? ?]; auto. }
  unfold column_line. destruct ws as [|w ws]; [by destruct row, hs|]. cbn [offsets] in *.
  rewrite Hs. do 2 f_equal. rewrite pack_row_zip; [|done|].
  - by rewrite trim_pad_cells.
  - rewrite length_zip_with. lia.
Qed.

Lemma each_line_rows (f : string → LineResult) (g : list string → JsonRow) ws rows :
  Forall (λ row, String.eqb (trim (table_line ws row)) "" = false ∧
                 f (table_line ws row) = WriteRow (g row)) rows →
  each_line f (Ok <$> (table_line ws <$> rows)) =
  {| jr_rows := g <$> rows; jr_skipped := 0; jr_error := None |}.
Proof.
  induction 1 as [|row rows [Hb Hf] H IH]; [done|]. csimpl. cbn [each_line].
  rewrite Hb, Hf, IH. done.
Qed.

Lemma read_lines_ok ls : read_lines (Ok <$> ls) = Ok ls.
Proof. induction ls as [|l ls IH]; [done|]. csimpl. by rewrite IH. Qed.

Lemma upper_header_ok ws hs :
  Forall (λ h, all_chars name_char h = true ∧ h ≠ "") hs →
  Forall2 (λ w h, String.length h ≤ w) ws hs →
  Forall2 (λ w h, all_chars graphic h = true ∧ h ≠ "" ∧ String.length h ≤ w) ws
    (to_uppercase <$> hs).
Proof.
  intros Hh Hw. induction Hw as [|w h ws hs Hw Hf IH]; [constructor|].
  apply Forall_cons in Hh as [[Hn He] Hh]. csimpl. constructor; [|by apply IH].
  rewrite to_uppercase_ascii by (by apply printable_ascii, name_all_printable).
  rewrite length_upper. split_and!; [by apply all_chars_upper|by destruct h|done].
Qed.

Lemma offsets_length i ws : length (offsets i ws) = length ws.
Proof. revert i. induction ws as [|w ws IH]; intros i; simpl; by rewrite ?IH. Qed.

(** The header line gives back the names and where the columns start. *)
Lemma parse_table_header ws hs :
  Forall (λ h, all_chars name_char h = true ∧ h ≠ "") hs →
  Forall2 (λ w h, String.length h ≤ w) ws hs →
  parse_header_row (table_line ws (to_uppercase <$> hs)) = (to_uppercase <$> hs, offsets 0 ws).
Proof.
  intros Hh Hw. pose proof (upper_header_ok ws hs Hh Hw) as Hu. unfold parse_header_row.
  change (table_line ws (to_uppercase <$> hs)) with (spaces 0 +:+ table_line ws (to_uppercase <$> hs)) at 2 4.
  assert (length ws = length (to_uppercase <$> hs)) as Hl by apply (Forall2_length _ _ _ Hu).
  rewrite header_scan_line; [|done|].
  - simpl. rewrite fst_zip, snd_zip by (rewrite offsets_length; lia). done.
  - clear Hl Hh Hw. induction Hu as [|w h ws hs' (Hg & Hne & Hw) Hu IH]; [done|].
    cbn [table_line]. rewrite string_length_app, length_pad_cell;
      [|by apply graphic_all_printable|done]. simpl. lia.
Qed.

End reading_back.

(** *** Rows as partitions *)

Definition concat_str (l : list string) : string := foldr String.append EmptyString l.

Lemma take_drop_split a b s : a ≤ b → take_str (b - a) (drop_str a s) +:+ drop_str b s = drop_str a s.
Proof.
  revert a b. induction s as [|c s IH]; intros a b Hab.
  { destruct a as [|a], b as [|b]; try lia; simpl; [done..|]. by destruct (b - a). }
  destruct a as [|a], b as [|b]; try lia; [done| |cbn [Nat.sub drop_str]; apply IH; lia].
  cbn [Nat.sub take_str drop_str]. rewrite string_app_cons. f_equal.
  specialize (IH 0 b ltac:(lia)). rewrite Nat.sub_0_r in IH. cbn [drop_str] in IH.
  by destruct s.
Qed.

Lemma drop_str_past n s : String.length s ≤ n → drop_str n s = "".
Proof.
  revert n. induction s as [|c s IH]; intros n Hn; [by destruct n|]. simpl in Hn.
  destruct n as [|n]; [lia|]. apply IH. lia.
Qed.
Lemma take_str_all n s : String.length s ≤ n → take_str n s = s.
Proof.
  revert n. induction s as [|c s IH]; intros n Hn; [by destruct n|]. simpl in Hn.
  destruct n as [|n]; [lia|]. cbn [take_str]. f_equal. apply IH. lia.
Qed.
Lemma length_drop_str n s : String.length (drop_str n s) = String.length s - n.
Proof.
  revert n. induction s as [|c s IH]; intros [|n]; try done. cbn [drop_str String.length].
  rewrite IH. lia.
Qed.

Lemma boundary_at_end s : is_char_boundary (String.length s) s = true.
Proof.
  unfold is_char_boundary. apply orb_true_iff. right.
  induction s as [|c s IH]; [done|exact IH].
Qed.

(** The text right of an offset, cut at the next one. *)
Lemma slice_str_cut a b s :
  a ≤ b → slice_str a b s =
  if is_char_boundary a s && is_char_boundary b s
  then Some (take_str (b - a) (drop_str a s)) else None.
Proof. intros Hab. unfold slice_str. by rewrite (proj2 (Nat.leb_le _ _)). Qed.

Lemma slice_partition line starts :
  starts ≠ [] → StronglySorted lt starts →
  Forall (λ i, i ≤ String.length line → is_char_boundary i line = true) starts →
  ∃ cells, slice_at_columns line starts = Some cells ∧ length cells = length starts ∧
    concat_str cells = drop_str (default 0 (head starts)) line.
Proof.
  intros Hne Hs Hb. induction starts as [|s starts IH]; [done|].
  apply StronglySorted_inv in Hs as [Hs Hlt]. apply Forall_cons in Hb as [Hb Hbs].
  destruct starts as [|e rest].
  { cbn [slice_at_columns head default]. destruct (Nat.leb_spec s (String.length line)).
    - rewrite slice_str_cut, Hb, boundary_at_end by done. eexists. split; [done|]. split; [done|].
      unfold concat_str. simpl. rewrite string_app_nil_r. apply take_str_all.
      rewrite length_drop_str. lia.
    - eexists. split; [done|]. split; [done|]. simpl. by rewrite drop_str_past by lia. }
  destruct IH as (cells & Hc & Hl & Hcat); [done|done|done|]. rewrite slice_at_columns_cons, Hc.
  apply Forall_cons in Hlt as [Hse _]. simpl in Hcat.
  destruct (Nat.leb_spec (String.length line) s).
  - eexists. split; [done|]. split; [simpl in *; lia|]. unfold concat_str in *. simpl.
    rewrite Hcat, string_app_empty. by rewrite !drop_str_past by lia.
  - apply Forall_cons in Hbs as [He _]. rewrite slice_str_cut, Hb by lia.
    replace (is_char_boundary (e `min` _) line) with true
      by (destruct (Nat.min_spec e (String.length line)) as [[? ->]|[? ->]];
          [by rewrite He by lia|by rewrite boundary_at_end]).
    eexists. split; [done|]. split; [simpl in *; lia|]. unfold concat_str in *. simpl.
    rewrite Hcat. destruct (Nat.min_spec e (String.length line)) as [[? ->]|[? ->]].
    + apply take_drop_split. lia.
    + rewrite (drop_str_past e) by lia. rewrite string_app_nil_r.
      apply take_str_all. rewrite length_drop_str. lia.
Qed.

Lemma slice_panics line starts i :
  StronglySorted lt starts → i ∈ starts → i < String.length line →
  is_char_boundary i line = false → slice_at_columns line starts = None.
Proof.
  intros Hs Hi Hlen Hb. induction starts as [|s starts IH]; [by apply elem_of_nil in Hi|].
  apply StronglySorted_inv in Hs as [Hs Hlt]. apply elem_of_cons in Hi as [<-|Hi].
  - destruct starts as [|e rest].
    + cbn [slice_at_columns]. rewrite (proj2 (Nat.leb_le _ _)) by lia.
      unfold slice_str. by rewrite Hb, andb_false_r.
    + rewrite slice_at_columns_cons. rewrite (proj2 (Nat.leb_gt _ _)) by lia.
      unfold slice_str. by rewrite Hb, andb_false_r.
  - destruct starts as [|e rest]; [by apply elem_of_nil in Hi|].
    rewrite slice_at_columns_cons, IH by done. destruct (String.length line <=? s); [done|].
    by destruct (slice_str _ _ _).
Qed.

Lemma skip_blanks_ge i s : i ≤ (skip_blanks i s).1 ∧
  match (skip_blanks i s).2 with String c _ => is_blank c = false | EmptyString => True end.
Proof.
  revert i. induction s as [|c s IH]; intros i; simpl; [done|].
  destruct (is_blank c) eqn:E; [|done]. destruct (IH (S i)). split; [lia|done].
Qed.

(** The columns of a header start further and further right. *)
Lemma header_scan_sorted fuel i s :
  StronglySorted lt (header_scan fuel i s).*2 ∧ Forall (λ j, i ≤ j) (header_scan fuel i s).*2.
Proof.
  revert i s. induction fuel as [|fuel IH]; intros i s; [by repeat constructor|].
  cbn [header_scan]. pose proof (skip_blanks_ge i s) as [Hi Hb].
  destruct (skip_blanks i s) as [start s1]. simpl in Hi, Hb.
  destruct s1 as [|c s1]; [by repeat constructor|]. cbn [take_word]. rewrite Hb.
  destruct (take_word s1) as [w r]. csimpl. destruct (IH (start + S (String.length w)) r) as [Hs Hf].
  split; constructor; try done; eapply Forall_impl; try exact Hf; simpl; lia.
Qed.

(** ** Kind names (cmd/mod.rs) *)

(** [s.trim_end_matches('s')], then the first character in upper case. *)
Definition canonical_kind (s : string) : string :=
  match trim_end_matches (λ c, Ascii.eqb c "s") s with
  | EmptyString => EmptyString
  | String first rest => String (to_ascii_uppercase first) rest
  end.

(** The kinds a user can name. *)
Definition user_kinds : list string :=
  ["Node"; "Service"; "Task"; "Job"; "Schedule"; "Dataset"; "Model"; "Project"; "Secret"; "Volume";
   "Network"; "Queue"; "Workflow"; "Runtime"; "Capability"; "Policy"; "Integration"].

Definition lower_first (s : string) : string :=
  match s with EmptyString => EmptyString | String c s' => ascii_lower (String c "") +:+ s' end.

(** ** Claims *)

(** [orion env] can be evaluated by a shell.  Every line of the [sh] format, read by
    the word rules of a POSIX shell, sets the variable it names to the value of the
    context, whatever characters the value holds; an empty token sets nothing.  The
    [fish] format does so for values without a backslash, and only for those: inside
    single quotes fish takes a backslash as an escape, which the quoting does not
    know. *)
Theorem env_roundtrip (ctx : Ctx) :
  (∃ ls, run_env ctx "sh" = Some (EnvLines ls) ∧ sh_export <$> ls = Some <$> env_pairs ctx) ∧
  (Forall (λ kv, has_char "\" kv.2 = false) (env_pairs ctx) →
   ∃ ls, run_env ctx "fish" = Some (EnvLines ls) ∧ fish_set <$> ls = Some <$> env_pairs ctx) ∧
  fish_word false (shell_quote "a\") = None.
Proof.
  split_and!; [| |done].
  - eexists. split; [reflexivity|]. unfold env_pairs.
    destruct (String.eqb _ ""); cbn -[sh_export]; by rewrite !sh_export_line by done.
  - intros H. eexists. split; [reflexivity|]. unfold env_pairs in *.
    destruct (String.eqb _ ""); cbn -[fish_set] in *; decompose_Forall;
      by rewrite !fish_set_line by done.
Qed.

Definition demo_ctx : Ctx :=
  {| ctx_controller := "http://127.0.0.1:7878"; ctx_nats_url := "nats://h:4222"; ctx_token := Some "it's $ecret";
     ctx_output := Table |}.

Lemma env_roundtrip_witness :
  ∃ ls, run_env demo_ctx "fish" = Some (EnvLines ls) ∧ fish_set <$> ls = Some <$> env_pairs demo_ctx.
Proof. apply (env_roundtrip demo_ctx). by repeat constructor. Defined.

Lemma printable_is_line s : all_chars printable s = true → is_line s.
Proof.
  intros H. assert (∀ a, printable a = false → has_char a s = false) as Hn; [|by split; apply Hn].
  intros a Ha. induction s as [|c s IH]; [done|]. simpl in *.
  apply andb_true_iff in H as [Hc Hs]. rewrite IH by done.
  destruct (Ascii.eqb_spec c a) as [->|]; [congruence|done].
Qed.

Lemma render_is_lines {V : UpperCase} hs rows :
  Forall (λ h, all_chars name_char h = true ∧ h ≠ "") hs →
  Forall (λ row, table_row hs row = true) rows → Forall is_line (render_table hs rows).
Proof.
  intros Hh Hr. unfold render_table. constructor.
  - apply printable_is_line, table_line_printable, Forall_fmap. eapply Forall_impl; [exact Hh|].
    intros h [Hn _]. simpl. rewrite to_uppercase_ascii by (by apply printable_ascii, name_all_printable).
    by apply graphic_all_printable, all_chars_upper.
  - apply Forall_fmap. eapply Forall_impl; [exact Hr|]. intros row (_ & _ & Hp & _)%table_row_spec.
    by apply printable_is_line, table_line_printable.
Qed.

(** C39: [orion json] reads the tables the other commands print whose column names are
    single words: distinct, of lower-case letters, digits and underscores.  (All tables of
    the command are of this kind but the one of [orion get nodes], whose last column is
    called "last seen"; see [nodes_table_columns] below.)  Such a table, with printable
    cells that have no blanks around them, printed by [render_table] and piped into
    [orion json] without options, comes out as one object per row that maps each name to
    its cell; nothing is skipped and the command succeeds. *)
Theorem table_json_roundtrip {J : SerdeJson} {JM : JsonMake} {U : UnicodeCase} {V : UpperCase}
    {CL : CaptureLib} (hs : list string) (rows : list (list string))
    (Hne : hs ≠ []) (Hd : NoDup hs)
    (Hh : Forall (λ h, all_chars name_char h = true ∧ h ≠ "") hs)
    (Hr : Forall (λ row, table_row hs row = true) rows) :
  json_run json_defaults (Ok <$> lines (unlines (render_table hs rows))) =
  {| jr_rows := (λ row, RowObject (list_to_map (zip hs row))) <$> rows;
     jr_skipped := 0; jr_error := None |}.
Proof.
  rewrite lines_unlines by by apply render_is_lines.
  change (json_run json_defaults ?l) with (run_columns json_defaults l).
  unfold run_columns. rewrite read_lines_ok. cbn -[render_table find_rest parse_header_row].
  unfold render_table. set (ws := table_widths hs rows).
  pose proof (widths_fit_headers hs rows) as Hw. fold ws in Hw.
  assert (length ws = length hs) as Hl by apply (Forall2_length _ _ _ Hw).
  cbn [find_rest]. assert (String.eqb (trim (table_line ws (to_uppercase <$> hs))) "" = false) as ->.
  { pose proof (upper_header_ok ws hs Hh Hw) as Hu. destruct hs as [|h hs]; [done|].
    destruct ws as [|w ws]; [done|]. csimpl in Hu. apply Forall2_cons in Hu as [(Hg & Hn & _) _].
    destruct (to_uppercase h) as [|a u] eqn:E; [done|]. simpl in Hg. apply andb_true_iff in Hg as [Hg _].
    apply (trim_not_blank a); [done|]. csimpl. rewrite E. simpl. by rewrite Ascii.eqb_refl. }
  cbn [negb]. rewrite parse_table_header by done. rewrite <- list_fmap_compose.
  replace (_ ∘ to_uppercase <$> hs) with hs.
  2: { symmetry. transitivity (id <$> hs); [|apply list_fmap_id]. apply Forall_fmap_ext.
       eapply Forall_impl; [exact Hh|]. intros h [Hn _]. by apply normalize_upper. }
  apply each_line_rows. rewrite Forall_forall in Hr |- *. intros row Hin. pose proof (Hr row Hin) as Hrow.
  pose proof (table_row_spec hs row Hrow) as (Hlr & Hc & _ & c & Hcin & Hcne). split.
  - apply (table_line_not_blank _ _ c); [done|done| |congruence].
    rewrite Forall_forall in Hc. by apply Hc.
  - apply column_line_row; [done..|]. unfold ws, table_widths. apply widths_fit; [done|].
    apply Forall_forall. intros r Hrin. rewrite length_fmap. by apply table_row_spec, Hr.
Qed.

Definition demo_captures : CaptureLib :=
  {| Captures := unit; capture_new := λ _, Err "no regex"; capture_names := λ _, [];
     captures := λ _ _, None |}.

Lemma table_json_roundtrip_witness :
  json_run (JM := toy_make) (U := ascii_case) (CL := demo_captures) json_defaults
    (Ok <$> lines (unlines (render_table (U := ascii_upper_case) ["name"; "phase"]
       [["web"; "up since 9"]; ["db"; ""]]))) =
  {| jr_rows := [RowObject {["name" := "web"; "phase" := "up since 9"]};
                 RowObject {["name" := "db"; "phase" := ""]}];
     jr_skipped := 0; jr_error := None |}.
Proof.
  rewrite (table_json_roundtrip (JM := toy_make) (U := ascii_case) (V := ascii_upper_case)
    (CL := demo_captures) ["name"; "phase"] [["web"; "up since 9"]; ["db"; ""]]).
  - vm_compute. reflexivity.
  - discriminate.
  - apply NoDup_cons. split; [|by apply NoDup_singleton]. intros H%list_elem_of_singleton. discriminate.
  - by repeat constructor.
  - repeat constructor.
Defined.

(** The table of [orion get nodes] (get.rs): its column "last seen" is read as two columns,
    and the time is cut where the second word begins. *)
Theorem nodes_table_columns :
  json_run (JM := toy_make) (U := ascii_case) (CL := demo_captures) json_defaults
    (Ok <$> lines (unlines (render_table (U := ascii_upper_case) ["node"; "arch"; "os"; "last seen"]
       [["pi-1"; "aarch64"; "linux"; "2026-01-02T03:04:05"]]))) =
  {| jr_rows := [RowObject {["node" := "pi-1"; "arch" := "aarch64"; "os" := "linux";
                             "last" := "2026-"; "seen" := "01-02T03:04:05"]}];
     jr_skipped := 0; jr_error := None |}.
Proof. vm_compute. reflexivity. Qed.

(** Cutting a row at the columns of a header line neither loses nor repeats text right of
    the first column, however long the row is; the command panics exactly when a column
    starts inside a multi-byte character of the row. *)
Theorem columns_partition (header line : string) :
  let starts := (parse_header_row header).2 in
  (starts ≠ [] →
   Forall (λ i, i ≤ String.length line → is_char_boundary i line = true) starts →
   ∃ cells, slice_at_columns line starts = Some cells ∧ length cells = length starts ∧
     concat_str cells = drop_str (default 0 (head starts)) line) ∧
  (∀ i, i ∈ starts → i < String.length line → is_char_boundary i line = false →
   slice_at_columns line starts = None).
Proof.
  assert (StronglySorted lt (parse_header_row header).2) as Hs by apply header_scan_sorted.
  split; [intros Hne; by apply slice_partition|]. intros i Hi Hl Hb. by eapply slice_panics.
Qed.

(** A column whose values are right-aligned, as the numbers of [ps -ef] are, is cut in
    the wrong place: the first digits of a long process id end up with the user. *)
Lemma right_aligned_column_torn :
  json_run (JM := toy_make) (U := ascii_case) (CL := demo_captures) json_defaults
    (Ok <$> ["UID          PID CMD"; "root      123456 sleep 9"]) =
  {| jr_rows := [RowObject {["uid" := "root      123"; "pid" := "456"; "cmd" := "sleep 9"]}];
     jr_skipped := 0; jr_error := None |}.
Proof. vm_compute. reflexivity. Qed.

(** Invalid JSON on a line whose eightieth byte is inside a character ends
    [--passthrough] with a panic. *)
Lemma passthrough_panics {J : SerdeJson} {JM : JsonMake} line :
  json_from_str line = None → 80 < String.length line → is_char_boundary 80 line = false →
  passthrough_line line = CrashLine.
Proof.
  intros Hj Hl Hb. unfold passthrough_line. rewrite Hj. unfold truncate.
  rewrite (proj2 (Nat.leb_gt _ _)) by done. unfold slice_str. by rewrite Hb, andb_false_r.
Qed.

(** Every kind is reached by its name, with a lower-case initial, and with a plural
    [s]; written in capitals it is not, nor is the plural of a name in [y]. *)
Theorem canonical_kind_names {J : SerdeJson} (b : ResourceBody) :
  let k := ResourceBody_kind_str b in
  k ∈ user_kinds ∧ canonical_kind k = k ∧ canonical_kind (lower_first k) = k ∧
  canonical_kind (lower_first k +:+ "s") = k ∧
  canonical_kind "SERVICE" ∉ user_kinds ∧ canonical_kind "policies" ∉ user_kinds.
Proof.
  cbv zeta. split_and!; try (destruct b; vm_compute; reflexivity).
  - destruct b; apply (bool_decide_eq_true _); vm_compute; reflexivity.
  - apply (bool_decide_eq_false _). vm_compute. reflexivity.
  - apply (bool_decide_eq_false _). vm_compute. reflexivity.
Qed.
