(* ===== verification/Snapshot.v ===== *)
(** * Cluster snapshots (crates/orion-cli/src/cmd/snapshot.rs)

    [orion snapshot create] writes every resource of the named kinds as one YAML
    stream; [orion snapshot restore] splits such a stream and applies its documents.
    Both are run here against the controller's own handlers. *)

From Stdlib Require Import ZArith Lia Bool Ascii Sorted.
From stdpp Require Import base list gmap strings.
From S2P Require Import Prelude Text Types Effect Parse Store Registry Controller Api Server CliText.

(** ** The stream *)

Definition doc_separator : string :=
  String newline ("---" +:+ String newline EmptyString).
Definition doc_marker : string := "---" +:+ String newline EmptyString.

(** [s.split(sep)] for a separator of several characters: every round consumes it, so
    the length of the text is enough fuel. *)
Fixpoint split_str (fuel : nat) (sep s : string) : list string :=
  match fuel with
  | O => [s]
  | S fuel' =>
      match split_once sep s with
      | Some (a, b) => a :: split_str fuel' sep b
      | None => [s]
      end
  end.

Definition split_multi_doc (body : string) : list string :=
  List.filter (λ s, negb (String.eqb s ""))
    (trim <$> split_str (String.length body) doc_separator body).

(** What the command and the controller use of serde_json and serde_yml here: removing
    a key of an object, printing a value as YAML, and what serde makes of a value where a
    [Resource] is wanted. *)
Class YamlText {J : SerdeJson} : Type := {
  value_remove : string → Value → Value;
  yaml_to_string : Value → result string string;
  resource_of_value : Value → result Resource string
}.

Section snapshot.
Context {J : SerdeJson} {YT : YamlText}.

Definition without_status (v : Value) : Value :=
  match value_as_object v with Some _ => value_remove "status" v | None => v end.

(** The loop of [emit_multi_doc], with the text so far. *)
Fixpoint emit_docs (out : string) (values : list Value) : result string string :=
  match values with
  | [] => Ok out
  | r :: rest =>
      let? yaml := yaml_to_string (without_status r) in
      emit_docs (out +:+ doc_marker +:+ yaml) rest
  end.
Definition emit_multi_doc (values : list Value) : result string string := emit_docs "" values.

Definition default_kinds : string :=
  "Service,Task,Schedule,Dataset,Model,Project,Volume,Network,Queue,Runtime,Capability,Policy,Integration,Secret".

Definition kinds_of (s : string) : list string := trim <$> split_on "," s.

(** [fetch kind] is [GET /v1/resources/{kind}]; a kind that fails is skipped, and so is
    an answer that is no array. *)
Fixpoint fetch_kinds {S E} (fetch : string → M S (result Value E)) (kinds : list string)
    (all : list Value) : M S (list Value) :=
  match kinds with
  | [] => mret all
  | kind :: rest =>
      v ← fetch kind;
      fetch_kinds fetch rest
        (match v with
         | Ok v => match value_as_array v with Some arr => all ++ arr | None => all end
         | Err _ => all
         end)
  end.

Definition snapshot_create {S E} (fetch : string → M S (result Value E)) (kinds : string)
    : M S (result string string) :=
  all ← fetch_kinds fetch (kinds_of kinds) [];
  mret (emit_multi_doc all).

(** How many documents were applied, and how many failed. *)
Fixpoint restore_docs {S A E} (post : string → M S (result A E)) (docs : list string)
    (applied failed : Z) : M S (Z * Z) :=
  match docs with
  | [] => mret (applied, failed)
  | doc :: rest =>
      r ← post doc;
      match r with
      | Ok _ => restore_docs post rest (wrap_u32 (applied + 1)) failed
      | Err _ => restore_docs post rest applied (wrap_u32 (failed + 1))
      end
  end.
Definition snapshot_restore {S A E} (post : string → M S (result A E)) (body : string)
    : M S (Z * Z) :=
  restore_docs post (split_multi_doc body) 0 0.

End snapshot.

(** ** Lemmas: splitting what was emitted *)

(** The text of a document: it starts with a visible character, ends with a newline
    and has no line that is the separator. *)
Definition yaml_doc (y : string) : Prop :=
  ∃ c t, y = String c t +:+ String newline EmptyString ∧ graphic c = true ∧
    contains doc_separator (String newline y) = false.

Lemma contains_cons needle a s :
  contains needle (String a s) = starts_with needle (String a s) || contains needle s.
Proof. done. Qed.

Lemma split_once_none sep s : contains sep s = false → split_once sep s = None.
Proof.
  induction s as [|a s IH]; intros H.
  - simpl in *. unfold starts_with in H. by destruct (strip_prefix sep "").
  - rewrite contains_cons in H. apply orb_false_iff in H as [H1 H2]. cbn [split_once].
    unfold starts_with in H1. destruct (strip_prefix sep (String a s)); [done|]. by rewrite IH.
Qed.

(** The separator overlaps itself in its newline only. *)
Lemma separator_not_earlier c a b :
  contains doc_separator (String c a +:+ String newline EmptyString) = false →
  strip_prefix doc_separator (String c a +:+ doc_separator +:+ b) = None.
Proof.
  intros H. destruct (strip_prefix _ _) as [r|] eqn:E; [|done]. exfalso.
  apply strip_prefix_Some in E. unfold doc_separator in *.
  destruct a as [|a1 [|a2 [|a3 [|a4 a]]]]; simplify_eq/=.
Qed.

Lemma split_once_first a b :
  contains doc_separator (a +:+ String newline EmptyString) = false →
  split_once doc_separator (a +:+ doc_separator +:+ b) = Some (a, b).
Proof.
  induction a as [|c a IH]; intros H; [done|]. pose proof (separator_not_earlier c a b H) as Hn.
  rewrite string_app_cons in *. rewrite contains_cons in H. apply orb_false_iff in H as [_ H].
  cbn [split_once]. by rewrite Hn, IH.
Qed.

Lemma trim_newline c t :
  graphic c = true → trim (String c t +:+ String newline EmptyString) = trim (String c t).
Proof.
  intros Hc. unfold trim. rewrite string_app_cons.
  rewrite !trim_start_solid by by apply graphic_solid. rewrite <- string_app_cons.
  unfold trim_end. rewrite string_rev_distr, string_length_app, Nat.add_comm. done.
Qed.

Definition stream_of (ys : list string) : string := concat_str ((λ y, doc_marker +:+ y) <$> ys).

Lemma emit_docs_stream {J : SerdeJson} {YT : YamlText} out vs ys :
  Forall2 (λ v y, yaml_to_string (without_status v) = Ok y) vs ys →
  emit_docs out vs = Ok (out +:+ stream_of ys).
Proof.
  intros H. revert out. induction H as [|v y vs ys Hv H IH]; intros out.
  { unfold stream_of. simpl. by rewrite string_app_nil_r. }
  cbn [emit_docs]. rewrite Hv, IH. unfold stream_of, concat_str. csimpl.
  by rewrite !string_app_assoc.
Qed.

Lemma marker_no_separator y :
  contains doc_separator (String newline y) = false → contains doc_separator (doc_marker +:+ y) = false.
Proof. intros H. unfold doc_marker. by rewrite string_app_assoc, !string_app_cons, !contains_cons. Qed.

Lemma marked_no_separator p y :
  p = "" ∨ p = doc_marker → contains doc_separator (String newline y) = false →
  contains doc_separator (p +:+ y) = false.
Proof.
  intros [->| ->] H; [|by apply marker_no_separator]. rewrite contains_cons in H.
  by apply orb_false_iff in H as [_ H].
Qed.

(** A document, marked or not, starts with a visible character. *)
Lemma marked_doc p y :
  p = "" ∨ p = doc_marker → yaml_doc y →
  ∃ c t, p +:+ y = String c t +:+ String newline EmptyString ∧ graphic c = true ∧
    contains doc_separator (String c t +:+ String newline EmptyString) = false.
Proof.
  intros Hp (c & t & -> & Hc & Hs). pose proof (marked_no_separator p _ Hp Hs) as H.
  destruct Hp as [->| ->].
  - by exists c, t.
  - exists "-"%char, ("--" +:+ String newline (String c t)). by split_and!.
Qed.

(** A text whose end [trim] keeps, behind the marker. *)
Lemma strip_prefix_stops c w a b :
  has_char c w = false → is_Some (strip_prefix w (a +:+ String c b)) →
  is_Some (strip_prefix w (a +:+ String c EmptyString)).
Proof.
  revert a. induction w as [|x w IH]; intros a Hw; [by eexists|].
  cbn [has_char] in Hw. apply orb_false_iff in Hw as [Hx Hw].
  destruct a as [|y a]; rewrite ?string_app_empty, ?string_app_cons; cbn [strip_prefix].
  - rewrite Hx. by intros [? [=]].
  - destruct (Ascii.eqb x y); [by apply IH|by intros [? [=]]].
Qed.

Lemma strip_one_stops c ws a b :
  forallb (λ w, negb (has_char c w)) ws = true →
  strip_one ws (a +:+ String c EmptyString) = None → strip_one ws (a +:+ String c b) = None.
Proof.
  induction ws as [|w ws IH]; [done|]. cbn [forallb strip_one]. intros [Hw Hws]%andb_true_iff.
  apply negb_true_iff in Hw.
  destruct (strip_prefix w (a +:+ String c EmptyString)) eqn:E1; [done|]. intros Hn.
  destruct (strip_prefix w (a +:+ String c b)) eqn:E2; [|by apply IH].
  destruct (strip_prefix_stops c w a b Hw) as [? ?]; [by eexists|congruence].
Qed.

Lemma strip_one_shorter ws s r :
  forallb (λ w, negb (String.eqb w "")) ws = true → strip_one ws s = Some r →
  String.length r < String.length s.
Proof.
  induction ws as [|w ws IH]; [done|]. cbn [forallb strip_one]. intros [Hw Hws]%andb_true_iff.
  destruct (strip_prefix w s) eqn:E; [|by apply IH]. intros [= ->].
  apply strip_prefix_Some in E as ->. rewrite string_length_app. destruct w; [done|]. simpl. lia.
Qed.

Lemma strip_all_length n ws s :
  forallb (λ w, negb (String.eqb w "")) ws = true → String.length (strip_all n ws s) ≤ String.length s.
Proof.
  intros Hw. revert s. induction n as [|n IH]; intros s; [done|]. cbn [strip_all].
  destruct (strip_one ws s) as [r|] eqn:E; [|done].
  apply strip_one_shorter in E; [|done]. specialize (IH r). lia.
Qed.

Lemma trim_end_marked c t m :
  graphic c = true → trim_end (String c t) = String c t →
  trim_end (m +:+ String c t) = m +:+ String c t.
Proof.
  intros Hc H. assert (string_rev (m +:+ String c t) = string_rev t +:+ String c (string_rev m)) as E.
  { by rewrite string_rev_distr, string_rev_cons, string_app_assoc. }
  assert (strip_one (string_rev <$> whitespace_chars) (string_rev t +:+ String c EmptyString) = None) as Hn.
  { unfold trim_end in H. rewrite string_rev_cons in H. cbn [String.length strip_all] in H.
    destruct (strip_one _ _) as [r|] eqn:Er; [|done]. exfalso.
    apply (f_equal (String.length ∘ string_rev)) in H. cbn [compose] in H.
    rewrite string_rev_involutive, string_rev_cons in H.
    pose proof (strip_all_length (String.length t) (string_rev <$> whitespace_chars) r eq_refl) as Hl.
    apply strip_one_shorter in Er; [|reflexivity]. lia. }
  unfold trim_end. rewrite E. destruct (String.length (m +:+ String c t)) as [|n];
    cbn [strip_all]; [by rewrite <- E, string_rev_involutive|].
  rewrite strip_one_stops by (done || by apply graphic_not_space).
  by rewrite <- E, string_rev_involutive.
Qed.

(** Splitting the stream gives the documents back, trimmed; the first keeps its
    marker. *)
Lemma split_stream fuel p y ys :
  p = "" ∨ p = doc_marker → yaml_doc y → Forall yaml_doc ys → length ys ≤ fuel →
  trim <$> split_str fuel doc_separator (p +:+ y +:+ stream_of ys) =
  trim (p +:+ y) :: (trim <$> ys).
Proof.
  intros Hp Hy Hys. revert fuel p y Hp Hy.
  induction Hys as [|y' ys Hy' Hys IH]; intros fuel p y Hp Hy Hf.
  - unfold stream_of. simpl. rewrite string_app_nil_r.
    destruct (marked_doc p y Hp Hy) as (c & t & E & _ & Hn). rewrite <- E in Hn.
    destruct fuel; [done|]. cbn [split_str]. by rewrite split_once_none.
  - simpl in Hf. destruct fuel as [|fuel]; [lia|].
    destruct (marked_doc p y Hp Hy) as (c & t & E & Hc & Hn).
    assert (p +:+ y +:+ stream_of (y' :: ys) =
            String c t +:+ doc_separator +:+ (y' +:+ stream_of ys)) as ->.
    { rewrite <- string_app_assoc, E. unfold stream_of, concat_str, doc_separator, doc_marker.
      csimpl. by rewrite !string_app_assoc. }
    cbn [split_str]. rewrite split_once_first by done. csimpl.
    rewrite <- (string_app_empty (y' +:+ _)). rewrite (IH fuel "" y') by (auto || lia).
    rewrite string_app_empty, E. by rewrite trim_newline.
Qed.

Lemma trim_doc_not_empty y : yaml_doc y → String.eqb (trim y) "" = false.
Proof.
  intros (c & t & -> & Hc & _). apply (trim_not_blank c); [done|]. simpl.
  by rewrite Ascii.eqb_refl.
Qed.

Lemma length_stream ys : length ys ≤ String.length (stream_of ys).
Proof.
  unfold stream_of, concat_str. induction ys as [|y ys IH]; [done|]. csimpl.
  rewrite !string_length_app. change (String.length doc_marker) with 4. lia.
Qed.

Lemma split_multi_doc_stream y ys :
  yaml_doc y → Forall yaml_doc ys →
  split_multi_doc (stream_of (y :: ys)) = trim (doc_marker +:+ y) :: (trim <$> ys).
Proof.
  intros Hy Hys. unfold split_multi_doc.
  assert (stream_of (y :: ys) = doc_marker +:+ y +:+ stream_of ys) as ->
    by (unfold stream_of, concat_str; csimpl; by rewrite string_app_assoc).
  rewrite split_stream; [|by right|done..|].
  - cbn [List.filter]. destruct (marked_doc doc_marker y) as (c & t & E & Hc & _); [by right|done|].
    rewrite E, (trim_not_blank c) by (done || simpl; by rewrite Ascii.eqb_refl). cbn [negb]. f_equal.
    clear -Hys. induction Hys as [|z ys Hz Hys IH]; [done|]. csimpl. cbn [List.filter].
    rewrite trim_doc_not_empty by done. cbn [negb]. by rewrite IH.
  - rewrite !string_length_app. pose proof (length_stream ys). lia.
Qed.

(** ** Against the controller *)

Section cluster.
Context {J : SerdeJson} {JM : JsonMake} {YT : YamlText} {SL : ServerLib} {RC : ResourceCodec} {TM : Rfc3339}
  {HO : HashOrder} {CL : ControllerLibs} {AL : ApiLibs}.

(** [GET /v1/resources/{kind}] as the client sees it. *)
Definition get_kind (kind : string) : M AppState (result Value ApiError) :=
  r ← list_resources kind;
  mret (match r with Ok l => Ok (json_array (resource_to_value <$> l)) | Err e => Err e end).

(** [POST /v1/resources/apply]. *)
Definition post_document (doc : string) : M AppState (result ApplyOutcome ApiError) :=
  apply_resource None doc.

Definition clear_status_body (b : ResourceBody) : ResourceBody :=
  match b with
  | BNode s _ => BNode s None | BService s _ => BService s None | BTask s _ => BTask s None
  | BJob s _ => BJob s None | BSchedule s _ => BSchedule s None | BDataset s _ => BDataset s None
  | BModel s _ => BModel s None | BProject s _ => BProject s None | BSecret s _ => BSecret s None
  | BVolume s _ => BVolume s None | BNetwork s _ => BNetwork s None | BQueue s _ => BQueue s None
  | BWorkflow s _ => BWorkflow s None | BRuntime s _ => BRuntime s None
  | BCapability s _ => BCapability s None | BPolicy s _ => BPolicy s None
  | BIntegration s _ => BIntegration s None
  end.
Definition clear_status (r : Resource) : Resource :=
  {| api_version := api_version r; metadata := metadata r; body := clear_status_body (body r) |}.

Lemma key_of_clear_status r : key_of (clear_status r) = key_of r.
Proof. unfold key_of, kind_str. simpl. by destruct (body r). Qed.

(** Every row holds a valid resource under its key. *)
Definition sound_rows (d : Db) : Prop :=
  ∀ k row, db_resource d !! k = Some row →
    ∃ r, decode_body (row_body row) = Ok r ∧ key_of r = k ∧ validate r = Ok tt.

Definition in_store (d : Db) (r : Resource) : Prop :=
  ∃ row, db_resource d !! key_of r = Some row ∧ decode_body (row_body row) = Ok r.

(** *** Documents that survive [str::trim]

    [split_multi_doc] trims every document.  That drops the final line break, which is part
    of the content where the document ends in a block scalar, and any blanks before it,
    also the ones of Unicode.  These are the documents with neither. *)
Definition block_header (line : string) : bool :=
  match last (split_on " " line) with
  | Some w => starts_with "|" w || starts_with ">" w
  | None => false
  end.
Definition plain_document (y : string) : bool :=
  String.eqb (trim y +:+ String newline EmptyString) y
  && forallb (λ line, negb (block_header line)) (split_on newline y).

(** What is relied on of serde, serde_json and serde_yml, for the resources that can be read
    from a stored text: [printed r y] says that [y] is the YAML text of [r] without its
    status. *)
Definition printed (r : Resource) (y : string) : Prop :=
  (∃ t, resource_from_json t = Ok r) ∧
  yaml_to_string (value_remove "status" (resource_to_value r)) = Ok y.

Class YamlLaws : Prop := {
  (** A resource is serialized as an object, and its status is an optional field. *)
  yaml_object r : is_Some (value_as_object (resource_to_value r));
  yaml_status t r : resource_from_json t = Ok r →
    resource_of_value (value_remove "status" (resource_to_value r)) = Ok (clear_status r);
  (** JSON: a resource that was read can be written and read again. *)
  yaml_stored t r : resource_from_json t = Ok r → storable (clear_status r);
  (** An object prints as lines of which none is [---]: nested text is indented. *)
  yaml_prints t r : resource_from_json t = Ok r → ∃ y, printed r y ∧ yaml_doc y;
  (** serde_yml reads what it printed as the value that was printed. *)
  yaml_reads r y : printed r y →
    yaml_from_str y = resource_of_value (value_remove "status" (resource_to_value r));
  (** YAML: the line break at the end matters to block scalars only; a document may
      start with a marker line. *)
  yaml_break r y t : printed r y → y = t +:+ String newline EmptyString →
    forallb (λ line, negb (block_header line)) (split_on newline y) = true →
    yaml_from_str t = yaml_from_str y;
  yaml_marker r y t : printed r y → y = t +:+ String newline EmptyString →
    yaml_from_str (doc_marker +:+ t) = yaml_from_str t
}.

Lemma validate_clear_status r : validate (clear_status r) = validate r.
Proof. unfold validate. simpl. by destruct (body r). Qed.

(** What applying a document needs to put a resource without its status in the store. *)
Definition posts_as (doc : string) (r : Resource) : Prop :=
  from_yaml doc = Ok (clear_status r) ∧ validate (clear_status r) = Ok tt ∧
  storable (clear_status r).

(** A document with a plain end is read back as its resource, marked or not. *)
Lemma document_posts {YL : YamlLaws} t r y :
  resource_from_json t = Ok r → validate r = Ok tt → printed r y → yaml_doc y →
  plain_document y = true → posts_as (trim y) r ∧ posts_as (trim (doc_marker +:+ y)) r.
Proof.
  intros Ht Hv Hy (c & t' & E & Hc & _) [Hn%String.eqb_eq Hb]%andb_true_iff.
  pose proof Hn as Hn'. rewrite E in Hn'. apply string_app_inj_r in Hn'.
  assert (from_yaml (trim y) = Ok (clear_status r)) as Hread.
  { unfold from_yaml. rewrite (yaml_break r y (trim y) Hy (eq_sym Hn) Hb), (yaml_reads r y Hy).
    by rewrite (yaml_status t r Ht). }
  assert (trim (doc_marker +:+ y) = doc_marker +:+ trim y) as Em.
  { rewrite E in *. rewrite trim_newline in Hn' by done.
    unfold doc_marker at 1. rewrite <- string_app_assoc.
    change (("---" +:+ String newline "") +:+ String c t') with
      (String "-" ("--" +:+ String newline (String c t'))).
    rewrite trim_newline, trim_newline, Hn' by done. unfold trim.
    rewrite trim_start_solid by done.
    apply (trim_end_marked c t' doc_marker Hc). unfold trim in Hn'.
    by rewrite trim_start_solid in Hn' by (by apply graphic_solid). }
  rewrite Em. assert (from_yaml (doc_marker +:+ trim y) = Ok (clear_status r)) as Hread'.
  { rewrite <- Hread. unfold from_yaml. by rewrite (yaml_marker r y (trim y) Hy (eq_sym Hn)). }
  split; (split; [done|]); rewrite validate_clear_status; (split; [done|by eapply yaml_stored]).
Qed.

Lemma collect_all {A B E} (f : A → result B E) (P : A → B → Prop) l :
  (∀ x, x ∈ l → ∃ y, f x = Ok y ∧ P x y) →
  ∃ ys, result_collect f l = Ok ys ∧ Forall2 (λ x y, f x = Ok y ∧ P x y) l ys.
Proof.
  induction l as [|x l IH]; intros H; [by exists []|].
  destruct (H x) as (y & Hy & Hp); [by left|]. destruct IH as (ys & Hys & Hf).
  { intros z Hz. apply H. by right. }
  exists (y :: ys). simpl. rewrite Hy, Hys. split; [done|]. by constructor.
Qed.

Lemma Forall2_in_l {A B} (P : A → B → Prop) l k x :
  Forall2 P l k → x ∈ l → ∃ y, y ∈ k ∧ P x y.
Proof.
  intros H [i Hi]%list_elem_of_lookup. destruct (Forall2_lookup_l _ _ _ _ _ H Hi) as (y & Hy & Hp).
  exists y. split; [|done]. by eapply list_elem_of_lookup_2.
Qed.
Lemma Forall2_in_r {A B} (P : A → B → Prop) l k y :
  Forall2 P l k → y ∈ k → ∃ x, x ∈ l ∧ P x y.
Proof. intros H Hy. by apply (Forall2_in_l (flip P) k l y); [apply Forall2_flip|]. Qed.

Lemma in_store_same_key d r1 r2 :
  in_store d r1 → in_store d r2 → key_of r1 = key_of r2 → r1 = r2.
Proof. intros (row1 & H1 & D1) (row2 & H2 & D2) Hk. rewrite Hk in H1. congruence. Qed.

Lemma list_resources_run kind o s u :
  fault_free o → sound_rows (app_store s) →
  ∃ l u', list_resources kind o (s, u) = (Ok l, (s, u')) ∧
    ∀ r, r ∈ l ↔ kind_str r = kind ∧ in_store (app_store s) r.
Proof.
  intros Hf Hs. destruct (collect_all (λ e : resource_key * ResourceRow, decode_body (row_body e.2))
    (λ e r, key_of r = e.1) (rows_of_kind kind (app_store s))) as (l & Hl & Hall).
  { intros [k row] Hin. unfold rows_of_kind in Hin. rewrite elem_of_sort_by in Hin.
    apply list_elem_of_In, filter_In in Hin as [Hin%list_elem_of_In _].
    apply elem_of_hash_iter in Hin. destruct (Hs _ _ Hin) as (r & Hd & Hk & _). by exists r. }
  exists l. eexists. split.
  - unfold list_resources, mbind, M_bind, mret, M_ret. rewrite on_store_run. unfold list_by_kind.
    unfold mbind, M_bind, mret, M_ret. rewrite query_run, Hf. cbn -[result_collect rows_of_kind].
    rewrite Hl. by destruct s.
  - intros r. split.
    + intros Hin. apply (Forall2_in_r _ _ _ _ Hall) in Hin as ([k row] & Hin & Hd & Hk).
      simpl in *. unfold rows_of_kind in Hin. rewrite elem_of_sort_by in Hin.
      apply list_elem_of_In, filter_In in Hin as [Hin%list_elem_of_In Hkd%String.eqb_eq].
      apply elem_of_hash_iter in Hin. simpl in Hkd. rewrite <- Hk in *. split; [done|]. by exists row.
    + intros [Hkd (row & Hrow & Hd)].
      assert ((key_of r, row) ∈ rows_of_kind kind (app_store s)) as Hin.
      { unfold rows_of_kind. rewrite elem_of_sort_by. apply list_elem_of_In, filter_In.
        split; [by apply list_elem_of_In, elem_of_hash_iter|]. simpl. by apply String.eqb_eq. }
      apply (Forall2_in_l _ _ _ _ Hall) in Hin as (r' & Hin & Hd' & _). simpl in Hd'. congruence.
Qed.

Lemma get_kind_run kind o s u :
  fault_free o → sound_rows (app_store s) →
  ∃ l u', get_kind kind o (s, u) = (Ok (json_array (resource_to_value <$> l)), (s, u')) ∧
    ∀ r, r ∈ l ↔ kind_str r = kind ∧ in_store (app_store s) r.
Proof.
  intros Hf Hs. destruct (list_resources_run kind o s u Hf Hs) as (l & u1 & Hl & Hin).
  exists l, u1. split; [|done]. unfold get_kind, mbind, M_bind. by rewrite Hl.
Qed.

Lemma fetch_kinds_run `{!JsonLaws} kinds acc o s u :
  fault_free o → sound_rows (app_store s) →
  ∃ rs u', fetch_kinds get_kind kinds (resource_to_value <$> acc) o (s, u) =
           (resource_to_value <$> acc ++ rs, (s, u')) ∧
    ∀ r, r ∈ rs ↔ kind_str r ∈ kinds ∧ in_store (app_store s) r.
Proof.
  intros Hf Hs. revert acc u. induction kinds as [|kind kinds IH]; intros acc u.
  { exists [], u. rewrite app_nil_r. split; [done|]. intros r. split; [set_solver|].
    intros [Hn _]. by apply elem_of_nil in Hn. }
  destruct (get_kind_run kind o s u Hf Hs) as (l & u1 & Hl & Hin).
  destruct (IH (acc ++ l) u1) as (rs & u2 & Hrs & Hin2).
  exists (l ++ rs), u2. cbn [fetch_kinds]. unfold mbind, M_bind.
  rewrite Hl, as_array_array, <- fmap_app, Hrs, app_assoc. split; [done|].
  intros r. rewrite elem_of_app, Hin, Hin2, elem_of_cons. naive_solver.
Qed.

(** The rows that applying a list of resources leaves. *)
Definition restored (t t' : gmap resource_key ResourceRow) (rs : list Resource) : Prop :=
  (∀ r, r ∈ rs → ∃ row, t' !! key_of r = Some row ∧
     decode_body (row_body row) = Ok (clear_status r)) ∧
  (∀ k, (∀ r, r ∈ rs → key_of r ≠ k) → t' !! k = t !! k).

Lemma restored_cons t t' r rs row :
  (∀ r', r' ∈ rs → key_of r' = key_of r → r' = r) →
  decode_body (row_body row) = Ok (clear_status r) →
  restored (<[key_of r := row]> t) t' rs → restored t t' (r :: rs).
Proof.
  intros Hinj Hd [H1 H2]. split.
  - intros x [->|Hx]%elem_of_cons; [|by apply H1].
    destruct (decide (key_of r ∈ key_of <$> rs)) as [(r' & Hk & Hr')%list_elem_of_fmap|Hn].
    + rewrite <- (Hinj r' Hr') by done. by apply H1.
    + exists row. split; [|done]. rewrite H2, lookup_insert_eq; [done|].
      intros r' Hr' Hk. apply Hn, list_elem_of_fmap. by exists r'.
  - intros k Hk. rewrite H2 by (intros r' Hr'; apply Hk; by right).
    apply lookup_insert_ne. apply Hk. by left.
Qed.

Lemma restore_docs_run docs rs a o s u :
  fault_free o → Forall2 posts_as docs rs →
  (∀ r1 r2, r1 ∈ rs → r2 ∈ rs → key_of r1 = key_of r2 → r1 = r2) →
  let x := restore_docs post_document docs (wrap_u32 a) 0 o (s, u) in
  x.1 = (wrap_u32 (a + Z.of_nat (length docs)), 0)%Z ∧
  restored (db_resource (app_store s)) (db_resource (app_store x.2.1)) rs.
Proof.
  intros Hf H. revert a s u. induction H as [|doc r docs rs (Hy & Hv & b & Hb & Hd) H IH];
    intros a s u Hinj.
  { simpl. rewrite Z.add_0_r. split; [done|]. split; [|done]. intros r Hr. by apply elem_of_nil in Hr. }
  destruct (apply_store None doc (clear_status r) b o s u Hf Hy Hv eq_refl Hb) as (g & row & u1 & E & Hrow).
  change (apply_resource None doc) with (post_document doc) in E.
  cbn [restore_docs]. unfold mbind, M_bind. rewrite E.
  cbv beta iota zeta. rewrite key_of_clear_status.
  replace (wrap_u32 (wrap_u32 a + 1)) with (wrap_u32 (a + 1))
    by (unfold wrap_u32; by rewrite Zplus_mod_idemp_l).
  set (s1 := set_store _ s). destruct (IH (a + 1)%Z s1 u1) as [Hc Hr].
  { intros r1 r2 H1 H2. by apply Hinj; right. }
  split; [rewrite Hc; do 2 f_equal; simpl length; lia|].
  apply (restored_cons _ _ _ _ row); [| |exact Hr].
  - intros r' Hr' Hk. by apply Hinj; [right|left|].
  - unfold decode_body. by rewrite Hrow, Hd.
Qed.

(** The documents of a snapshot, and what each of them applies. *)
Definition plainly_printed (r : Resource) : Prop :=
  ∀ y, yaml_to_string (without_status (resource_to_value r)) = Ok y → plain_document y = true.

Lemma in_store_sound d r :
  sound_rows d → in_store d r → (∃ t, resource_from_json t = Ok r) ∧ validate r = Ok tt.
Proof.
  intros Hs (row & Hrow & Hd). destruct (Hs _ _ Hrow) as (r' & Hd' & _ & Hv).
  assert (r' = r) as -> by congruence. split; [|done]. exists (row_body row). unfold decode_body in Hd.
  by destruct (resource_from_json (row_body row)); simplify_eq.
Qed.

Lemma snapshot_docs {YL : YamlLaws} rs :
  (∀ r, r ∈ rs → (∃ t, resource_from_json t = Ok r) ∧ validate r = Ok tt ∧ plainly_printed r) →
  ∃ text, emit_multi_doc (resource_to_value <$> rs) = Ok text ∧
    Forall2 posts_as (split_multi_doc text) rs.
Proof.
  intros H. assert (∃ ys, Forall2 (λ r y, yaml_to_string (without_status (resource_to_value r)) = Ok y ∧
    yaml_doc y ∧ posts_as (trim y) r ∧ posts_as (trim (doc_marker +:+ y)) r) rs ys) as [ys Hys].
  { induction rs as [|r rs IH]; [by exists []|]. destruct IH as [ys Hys].
    { intros x Hx. apply H. by right. }
    destruct (H r) as ([t Ht] & Hv & Hp); [by left|]. destruct (yaml_prints t r Ht) as (y & Hy & Hd).
    assert (yaml_to_string (without_status (resource_to_value r)) = Ok y) as Hw.
    { unfold without_status. destruct (yaml_object r) as [? ->]. apply Hy. }
    exists (y :: ys). constructor; [|done]. split; [done|]. split; [done|].
    eapply document_posts; eauto. }
  exists (stream_of ys). split.
  - unfold emit_multi_doc. rewrite (emit_docs_stream _ _ ys); [by rewrite string_app_empty|].
    apply Forall2_fmap_l. eapply Forall2_impl; [exact Hys|]. by intros ? ? [? _].
  - destruct Hys as [|r y rs ys (_ & Hd & _ & H1) Hys]; [constructor|].
    assert (Forall yaml_doc ys) as Hds.
    { apply Forall_forall. intros z Hz. by destruct (Forall2_in_r _ _ _ _ Hys Hz) as (? & _ & _ & ? & _). }
    rewrite split_multi_doc_stream by done. constructor; [done|].
    apply Forall2_fmap_l, Forall2_flip. eapply Forall2_impl; [exact Hys|]. by intros ? ? (_ & _ & ? & _).
Qed.

(** Applying a document keeps the rows sound. *)
Lemma apply_keeps_sound q text r o s u :
  fault_free o → from_yaml text = Ok r → validate r = Ok tt → is_dry_run q = false → storable r →
  sound_rows (app_store s) → sound_rows (app_store (apply_resource q text o (s, u)).2.1).
Proof.
  intros Hf Hy Hv Hq (b & Hb & Hd) Hs.
  destruct (apply_store q text r b o s u Hf Hy Hv Hq Hb) as (g & row & u' & -> & Hrow).
  intros k row' Hk. cbn in Hk. apply lookup_insert_Some in Hk as [[<- <-]|[_ Hk]]; [|by apply Hs].
  exists r. split_and!; [|done|done]. unfold decode_body. by rewrite Hrow, Hd.
Qed.

End cluster.

(** ** Claims *)


(** Why documents with block scalars are left out: the line break that ends the last
    document is content of a block scalar, and the restored text lacks it. *)
Theorem block_scalar_loses_break :
  let y := unlines ["kind: Task"; "spec:"; "  script: |"; "    echo done"] in
  plain_document y = false ∧
  split_multi_doc (doc_marker +:+ y) =
    [concat_str ((λ l, l +:+ String newline "") <$> ["---"; "kind: Task"; "spec:"; "  script: |"])
     +:+ "    echo done"].
Proof. by vm_compute. Qed.

(** ** Two services

    One has a status.  Their stored texts, their values and their documents. *)
Definition demo_status : Status :=
  {| st_phase := PhaseRunning; st_observed_generation := None; st_conditions := []; st_node := None;
     st_message := None |}.
Definition demo_busy : Resource (J := toy_json) :=
  demo_resource (J := toy_json) "api" (BService ServiceSpec_default (Some demo_status)).

Definition demo_key (n : string) : resource_key := ("Service", "_", n).
Definition demo_codec_status : ResourceCodec (J := toy_json) :=
  {| resource_to_json := λ r, Ok (md_name (metadata r) +:+
       match body r with BService _ (Some _) => " running" | _ => "" end);
     resource_from_json := λ t, if String.eqb t "api running" then Ok demo_busy
                                else if String.eqb t "api" then Ok (demo_svc "api")
                                else if String.eqb t "web" then Ok (demo_svc "web") else Err "bad" |}.

Definition demo_value_lib : ServerLib (J := toy_json) :=
  {| json_to_string := json_to_string (ServerLib := toy_server);
     value_as_bool := value_as_bool (ServerLib := toy_server);
     time_value := time_value (ServerLib := toy_server);
     resource_to_value := λ r, TObj (("name", TStr (md_name (metadata r))) ::
       match body r with BService _ (Some _) => [("status", TStr "Running")] | _ => [] end);
     query_pairs := query_pairs (ServerLib := toy_server);
     query_rejection := query_rejection (ServerLib := toy_server);
     path_decode := path_decode (ServerLib := toy_server);
     path_rejection := path_rejection (ServerLib := toy_server) |}.

(** Objects of texts, one line for each key. *)
Definition demo_yaml : YamlText (J := toy_json) :=
  @Build_YamlText toy_json
    (λ k v, match v with
            | TObj l => TObj (List.filter (λ kv, negb (String.eqb kv.1 k)) l)
            | _ => v end)
    (λ v, match v with
          | TObj l => Ok (unlines ((λ kv, kv.1 +:+ ": " +:+ match kv.2 with TStr t => t | _ => "" end) <$> l))
          | _ => Err "no object" end)
    (λ v, match v with
          | TObj [(k, TStr n)] => if String.eqb k "name" then Ok (demo_svc n) else Err "no resource"
          | _ => Err "no resource" end).

(** A document of one line, with or without a marker. *)
Definition demo_yaml_reader (t : string) : result (Resource (J := toy_json)) string :=
  match List.filter (λ l, negb (String.eqb l "---")) (lines t) with
  | [l] => match split_once ": " l with
           | Some (_, n) => Ok (demo_svc n)
           | None => Err "no key"
           end
  | _ => Err "no document"
  end.
Definition demo_snapshot_libs : ApiLibs (J := toy_json) :=
  {| yaml_from_str := demo_yaml_reader;
     selector_from_json := λ _, Ok CapabilitySelector_default; value_from_json := λ _, None;
     debug_str := λ s, s; http_get := λ _, Err "refused"; cargo_pkg_version := "0.1.0" |}.

Lemma demo_decoded t r :
  resource_from_json (ResourceCodec := demo_codec_status) t = Ok r →
  r = demo_busy ∨ r = demo_svc "api" ∨ r = demo_svc "web".
Proof.
  cbn. destruct (String.eqb t "api running"); [intros [= <-]; auto|].
  destruct (String.eqb t "api"); [intros [= <-]; auto|].
  destruct (String.eqb t "web"); [intros [= <-]; auto|done].
Qed.

Lemma demo_printed r y :
  printed (YT := demo_yaml) (SL := demo_value_lib) (RC := demo_codec_status) r y →
  r = demo_busy ∧ y = unlines ["name: api"] ∨ r = demo_svc "api" ∧ y = unlines ["name: api"] ∨
  r = demo_svc "web" ∧ y = unlines ["name: web"].
Proof.
  intros [[t Ht] Hy]. apply demo_decoded in Ht as [->|[->| ->]]; injection Hy as <-; auto.
Qed.

Lemma demo_yaml_laws :
  YamlLaws (YT := demo_yaml) (SL := demo_value_lib) (RC := demo_codec_status) (AL := demo_snapshot_libs).
Proof.
  split.
  - intros r. by eexists.
  - intros t r H. by apply demo_decoded in H as [->|[->| ->]].
  - intros t r H. apply demo_decoded in H as [->|[->| ->]].
    + by exists "api".
    + by exists "api".
    + by exists "web".
  - intros t r H. pose proof H as H'. apply demo_decoded in H as [->|[->| ->]];
      (eexists; split; [split; [by exists t|reflexivity]|]).
    + by exists "n"%char, "ame: api".
    + by exists "n"%char, "ame: api".
    + by exists "n"%char, "ame: web".
  - intros r y H. by apply demo_printed in H as [[-> ->]|[[-> ->]|[-> ->]]].
  - intros r y t H -> _. apply demo_printed in H.
    assert (t = "name: api" ∨ t = "name: web") as [->| ->]; [|done..].
    destruct H as [[_ H]|[[_ H]|[_ H]]]; [left|left|right];
      apply (string_app_inj_r _ _ (String newline "")); exact H.
  - intros r y t H ->. apply demo_printed in H.
    assert (t = "name: api" ∨ t = "name: web") as [->| ->]; [|done..].
    destruct H as [[_ H]|[[_ H]|[_ H]]]; [left|left|right];
      apply (string_app_inj_r _ _ (String newline "")); exact H.
Qed.

Definition demo_row (t : string) : ResourceRow :=
  {| row_generation := 1; row_body := t; row_updated_at := "" |}.
Definition demo_store_state : AppState :=
  set_store (set_resource {[demo_key "api" := demo_row "api running"; demo_key "web" := demo_row "web"]}
    Db_empty) demo_fresh.

Lemma demo_stored k row :
  db_resource (app_store demo_store_state) !! k = Some row →
  k = demo_key "api" ∧ row = demo_row "api running" ∨ k = demo_key "web" ∧ row = demo_row "web".
Proof.
  intros Hk. cbn in Hk. apply lookup_insert_Some in Hk as [[<- <-]|[_ Hk]]; [by left|].
  apply lookup_singleton_Some in Hk as [<- <-]. by right.
Qed.

