(* ===== verification/Cli.v ===== *)
(** * Commands of the command line that talk to the controller (crates/orion-cli)

    main.rs, http.rs and the commands that are one request: which request each of them
    makes, how the answer is read, which token goes with it, and the polling loop of
    [orion logs --follow].  They are run against the controller's route table (Mcp.v),
    its bearer check (Auth.v) and its log rings (Registry.v). *)

From Stdlib Require Import ZArith Lia Bool Ascii.
From stdpp Require Import base list gmap strings pretty.
From S2P Require Import Prelude Text Types Effect Parse Registry Auth Mcp Server CliText.

(** ** The context (main.rs) *)

(** [dirs_token_path]. *)
Definition dirs_token_path (e : Env) : string :=
  match env_var e !! "HOME" with
  | Some home => path_push home ".config/orion/cluster.token"
  | None => ".orion-cluster-token"
  end.

(** [cli.token.clone().or_else(...)]: the flag, the variable (clap's [env]), the file. *)
Definition cli_token (flag : option string) (e : Env) : option string :=
  match flag with
  | Some t => Some t
  | None =>
      match env_var e !! ENV_TOKEN with
      | Some t => Some t
      | None => match env_read e (dirs_token_path e) with Ok s => Some (trim s) | Err _ => None end
      end
  end.

Definition main_ctx (controller nats_url : string) (flag : option string) (e : Env)
    (output : Format) : Ctx :=
  {| ctx_controller := trim_end_matches (λ c, Ascii.eqb c "/") controller;
     ctx_nats_url := nats_url; ctx_token := cli_token flag e; ctx_output := output |}.

(** ** Requests (http.rs) *)

Definition url (ctx : Ctx) (path : string) : string := ctx_controller ctx +:+ path.

(** What came back: no answer, or a status and a text. *)
Inductive Reply : Type :=
| Unreachable (e : string)
| Answer (status : Z) (text : string).

Inductive ClientError : Type :=
| SendFailed (e : string)
| BadStatus (status : Z) (text : string)
| BadBody (text : string)
| BadToken.

(** The default header of [build]; [HeaderValue::from_str] takes visible ASCII. *)
Definition auth_header (ctx : Ctx) : result (option string) ClientError :=
  match ctx_token ctx with
  | Some (String _ _ as t) =>
      if all_chars printable t then Ok (Some ("Bearer " +:+ t)) else Err BadToken
  | _ => Ok None
  end.

Definition is_success (status : Z) : bool := (200 <=? status)%Z && (status <=? 299)%Z.

Section replies.
Context {J : SerdeJson} {JM : JsonMake}.

(** The tail of [post_yaml], [post_empty] and [delete_path]. *)
Definition read_reply (r : Reply) : result Value ClientError :=
  match r with
  | Unreachable e => Err (SendFailed e)
  | Answer status text =>
      if negb (is_success status) then Err (BadStatus status text)
      else if String.eqb text "" then Ok value_null
      else match json_from_str text with Some v => Ok v | None => Err (BadBody text) end
  end.

(** [get_json]: [error_for_status] refuses 4xx and 5xx only. *)
Definition get_json (r : Reply) : result Value ClientError :=
  match r with
  | Unreachable e => Err (SendFailed e)
  | Answer status text =>
      if (400 <=? status)%Z && (status <=? 599)%Z then Err (BadStatus status text)
      else match json_from_str text with Some v => Ok v | None => Err (BadBody text) end
  end.

End replies.

(** ** One-request commands *)

Inductive Command : Type :=
| GetNodes
| GetKinds
| GetKind (kind : string) (name : option string)
| Describe (kind name : string)
| Delete (kind name : string)
| DispatchCmd (kind name : string)
| Stop (kind name : string)
| RestartCmd (kind name : string)
| Logs (kind name : string)
| Instances (kind name : option string)
| DiagSystem
| DiagJetstream
| ScheduleList
| ScheduleObserved
| ScheduleCreate
| Apply (dry_run : bool)
| Find.

Definition resource_path (kind name : string) : string :=
  "/v1/resources/" +:+ canonical_kind kind +:+ "/" +:+ name.

Definition instances_path (kind name : option string) : string :=
  match kind, name with
  | Some k, Some n => "/v1/instances/" +:+ canonical_kind k +:+ "/" +:+ n
  | _, _ => "/v1/instances"
  end.

(** The path each command asks for, and the method. *)
Definition command_request (c : Command) : Method * string :=
  match c with
  | GetNodes => (GET, "/v1/nodes")
  | GetKinds => (GET, "/v1/kinds")
  | GetKind kind (Some name) => (GET, resource_path kind name)
  | GetKind kind None => (GET, "/v1/resources/" +:+ canonical_kind kind)
  | Describe kind name => (GET, resource_path kind name)
  | Delete kind name => (DELETE, resource_path kind name)
  | DispatchCmd kind name => (POST, "/v1/dispatch/" +:+ canonical_kind kind +:+ "/" +:+ name)
  | Stop kind name => (POST, "/v1/control/" +:+ canonical_kind kind +:+ "/" +:+ name +:+ "/stop")
  | RestartCmd kind name =>
      (POST, "/v1/control/" +:+ canonical_kind kind +:+ "/" +:+ name +:+ "/restart")
  | Logs kind name => (GET, "/v1/logs/" +:+ canonical_kind kind +:+ "/" +:+ name)
  | Instances kind name => (GET, instances_path kind name)
  | DiagSystem => (GET, "/v1/diag/system")
  | DiagJetstream => (GET, "/v1/diag/jetstream")
  | ScheduleList => (GET, "/v1/resources/Schedule")
  | ScheduleObserved => (GET, "/v1/schedules/observed")
  | ScheduleCreate => (POST, "/v1/resources/apply")
  | Apply true => (POST, "/v1/resources/apply?dry_run=1")
  | Apply false => (POST, "/v1/resources/apply")
  | Find => (POST, "/v1/find")
  end.

(** ** Following a log (cmd/logs.rs) *)

Record LogsReply : Type := { lg_total : nat; lg_entries : list LogEntry }.

(** The last [n] entries of the first read, when there are more. *)
Definition tail_entries (tail : option nat) (entries : list LogEntry) : list LogEntry :=
  match tail with
  | Some n => if n <? length entries then drop (length entries - n) entries else entries
  | None => entries
  end.

(** A poll that fails is tried again later with the same [since]. *)
Fixpoint follow (since : nat) (polls : list (nat → option LogsReply)) : list LogEntry * nat :=
  match polls with
  | [] => ([], since)
  | poll :: rest =>
      match poll since with
      | None => follow since rest
      | Some r => let '(out, since') := follow (lg_total r) rest in (lg_entries r ++ out, since')
      end
  end.

(** The first read asks without [since], which the handler takes as 0. *)
Definition logs_run (tail : option nat) (following : bool)
    (polls : list (nat → option LogsReply)) : option (list LogEntry) :=
  match polls with
  | [] => None
  | first :: rest =>
      match first 0 with
      | None => None
      | Some initial =>
          let shown := tail_entries tail (lg_entries initial) in
          if following then Some (shown ++ (follow (lg_total initial) rest).1) else Some shown
      end
  end.

(** ** Lemmas: routing *)

Lemma path_of_plain s : has_char "?" s = false → request_path s = s.
Proof.
  intros H. unfold request_path. assert (split_once "?" s = None) as ->; [|done].
  induction s as [|c s IH]; [done|]. simpl in H. apply orb_false_iff in H as [Hc Hs].
  cbn [split_once strip_prefix]. rewrite Ascii.eqb_sym, Hc. by rewrite IH.
Qed.

Definition plain (s : string) : Prop := plain_segment s ∧ has_char "?" s = false.

(** What a command is meant for: the handler and its parameters. *)
Definition command_target (c : Command) : Handler * list string :=
  match c with
  | GetNodes => (H_list_nodes, [])
  | GetKinds => (H_list_kinds, [])
  | GetKind kind (Some name) | Describe kind name => (H_get_resource, [canonical_kind kind; name])
  | GetKind kind None => (H_list_resources, [canonical_kind kind])
  | Delete kind name => (H_delete_resource, [canonical_kind kind; name])
  | DispatchCmd kind name => (H_dispatch_resource, [canonical_kind kind; name])
  | Stop kind name => (H_stop_workload, [canonical_kind kind; name])
  | RestartCmd kind name => (H_restart_workload, [canonical_kind kind; name])
  | Logs kind name => (H_get_logs, [canonical_kind kind; name])
  | Instances (Some kind) (Some name) => (H_get_instances, [canonical_kind kind; name])
  | Instances _ _ => (H_list_all_instances, [])
  | DiagSystem => (H_diag_system, [])
  | DiagJetstream => (H_diag_jetstream, [])
  | ScheduleList => (H_list_resources, ["Schedule"])
  | ScheduleObserved => (H_list_schedule_observations, [])
  | ScheduleCreate | Apply _ => (H_apply_resource, [])
  | Find => (H_find_services, [])
  end.

(** The kind and the name the user wrote are single path segments. *)
Definition command_plain (c : Command) : Prop :=
  match c with
  | GetKind kind (Some name) | Describe kind name | Delete kind name | DispatchCmd kind name
  | Stop kind name | RestartCmd kind name | Logs kind name | Instances (Some kind) (Some name) =>
      plain (canonical_kind kind) ∧ plain name
  | GetKind kind None => plain (canonical_kind kind)
  | _ => True
  end.

Lemma has_char_path c a b : has_char c a = false → has_char c b = false → has_char c (a +:+ b) = false.
Proof. intros Ha Hb. by rewrite has_char_app, Ha, Hb. Qed.

(** A four-segment command. *)
Lemma route_command prefix methods m h k n :
  has_char slash prefix = false → has_char "?" prefix = false → plain k → plain n →
  In (kind_name_route prefix methods) (List.filter (λ r, length (rt_pattern r) =? 4) router) →
  List.find (λ mh, bool_decide (mh.1 = m)) methods = Some (m, h) →
  dispatch_path m (request_path ("/v1/" +:+ prefix +:+ "/" +:+ k +:+ "/" +:+ n)) = Handled h [k; n] true.
Proof.
  intros Hs Hq [Hk Hkq] [Hn Hnq] Hin Hf. rewrite path_of_plain by (repeat apply has_char_path; done).
  change ("/" +:+ k +:+ "/" +:+ n) with (String slash (k +:+ String slash n)).
  by eapply route_kind_name.
Qed.

Lemma canonical_kind_not_apply s : canonical_kind s ≠ "apply".
Proof.
  unfold canonical_kind. destruct (trim_end_matches _ s) as [|c r]; [done|]. intros [= H _].
  destruct c as [[] [] [] [] [] [] [] []]; vm_compute in H; done.
Qed.

Definition resources_route : Route :=
  {| rt_pattern := [Lit "v1"; Lit "resources"; Param "kind"]; rt_methods := [(GET, H_list_resources)];
     rt_guarded := true |}.

Lemma best_resources k :
  plain_segment k → k ≠ "apply" → best_match ["v1"; "resources"; k] = Some (resources_route, [k]).
Proof.
  intros [Hk _] Ha. unfold best_match. change (foldl _ None router) with
    (foldl (best_step ["v1"; "resources"; k]) None router).
  rewrite best_match_same_length. change (length ["v1"; "resources"; k]) with 3.
  let l := eval vm_compute in (List.filter (λ r, length (rt_pattern r) =? 3) router) in
  change (List.filter (λ r, length (rt_pattern r) =? 3) router) with l.
  assert (String.eqb "apply" k = false) as He by (by apply String.eqb_neq).
  cbn [foldl]. unfold best_step. cbn [rt_pattern match_pattern].
  rewrite He, (bool_decide_eq_false_2 (k = EmptyString)) by done. reflexivity.
Qed.

Lemma route_resources k :
  plain k → k ≠ "apply" →
  dispatch_path GET (request_path ("/v1/resources/" +:+ k)) = Handled H_list_resources [k] true.
Proof.
  intros [Hk Hq] Ha. rewrite path_of_plain by (by apply has_char_path).
  assert (segments ("/v1/resources/" +:+ k) = ["v1"; "resources"; k]) as Hseg.
  { unfold segments. change ("/v1/resources/" +:+ k) with ("" +:+ String slash ("v1" +:+ String slash
      ("resources" +:+ String slash k))). rewrite !split_on_app by done.
    destruct Hk as [_ Hk]. by rewrite split_on_single. }
  unfold dispatch_path. rewrite Hseg, best_resources by done. done.
Qed.

Definition control_route (action : string) (h : Handler) : Route :=
  {| rt_pattern := [Lit "v1"; Lit "control"; Param "kind"; Param "name"; Lit action];
     rt_methods := [(POST, h)]; rt_guarded := true |}.

Lemma best_control k n action h :
  plain_segment k → plain_segment n →
  In (action, h) [("stop", H_stop_workload); ("restart", H_restart_workload)] →
  best_match ["v1"; "control"; k; n; action] = Some (control_route action h, [k; n]).
Proof.
  intros [Hk _] [Hn _] Hin. unfold best_match. change (foldl _ None router) with
    (foldl (best_step ["v1"; "control"; k; n; action]) None router).
  rewrite best_match_same_length. change (length ["v1"; "control"; k; n; action]) with 5.
  let l := eval vm_compute in (List.filter (λ r, length (rt_pattern r) =? 5) router) in
  change (List.filter (λ r, length (rt_pattern r) =? 5) router) with l.
  cbn [foldl]. unfold best_step. cbn [rt_pattern match_pattern].
  rewrite !(bool_decide_eq_false_2 (_ = EmptyString)) by done.
  by destruct Hin as [[= <- <-]|[[= <- <-]|[]]].
Qed.

Lemma route_control k n action h :
  plain k → plain n → In (action, h) [("stop", H_stop_workload); ("restart", H_restart_workload)] →
  dispatch_path POST (request_path ("/v1/control/" +:+ k +:+ "/" +:+ n +:+ "/" +:+ action)) =
  Handled h [k; n] true.
Proof.
  intros [Hk Hkq] [Hn Hnq] Hin.
  assert (has_char "?" action = false ∧ has_char slash action = false) as [Haq Ha]
    by (by destruct Hin as [[= <- <-]|[[= <- <-]|[]]]).
  rewrite path_of_plain by (repeat apply has_char_path; done).
  assert (segments ("/v1/control/" +:+ k +:+ "/" +:+ n +:+ "/" +:+ action) =
          ["v1"; "control"; k; n; action]) as Hseg.
  { unfold segments. change ("/v1/control/" +:+ k +:+ "/" +:+ n +:+ "/" +:+ action) with
      ("" +:+ String slash ("v1" +:+ String slash ("control" +:+ String slash
        (k +:+ String slash (n +:+ String slash action))))).
    destruct Hk as [_ Hk], Hn as [_ Hn]. rewrite !split_on_app by done. by rewrite split_on_single. }
  unfold dispatch_path. rewrite Hseg, (best_control k n action h) by done. done.
Qed.

Ltac kind_name prefix Hk Hn :=
  eapply (route_command prefix _ _ _ _ _ eq_refl eq_refl Hk Hn);
  [rewrite four_segment_routes; cbn [In]; auto 10|reflexivity].

(** Every command reaches the handler it is named after.  Whatever kind and name the
    user writes, as long as they are single path segments, the request of the command is
    one that the controller's router sends to the intended handler, with the canonical
    kind and the name as parameters, behind the bearer check; [orion instances] with a
    kind alone asks for every instance. *)
Theorem commands_reach_handlers (c : Command) (Hc : command_plain c) :
  let '(m, path) := command_request c in
  dispatch_path m (request_path path) = Handled (command_target c).1 (command_target c).2 true.
Proof.
  destruct c as [| |kind [name|]|kind name|kind name|kind name|kind name|kind name|kind name
    |[kind|] [name|]| | | | | |[]|]; cbn [command_request command_target fst snd instances_path];
    cbn [command_plain] in Hc; try destruct Hc as [Hk Hn]; unfold resource_path.
  1,2,12-22: vm_compute; reflexivity.
  - kind_name "resources" Hk Hn.
  - apply route_resources; [done|apply canonical_kind_not_apply].
  - kind_name "resources" Hk Hn.
  - kind_name "resources" Hk Hn.
  - kind_name "dispatch" Hk Hn.
  - apply (route_control _ _ "stop"); [done..|by left].
  - apply (route_control _ _ "restart"); [done..|by right; left].
  - kind_name "logs" Hk Hn.
  - kind_name "instances" Hk Hn.
Qed.

Lemma commands_reach_handlers_witness :
  dispatch_path POST (request_path "/v1/control/Service/api/stop") =
  Handled H_stop_workload ["Service"; "api"] true.
Proof. apply (commands_reach_handlers (Stop "services" "api")). repeat split; done. Defined.

(** ** The token *)

(** The command line is let in.  With the environment the controller was started in,
    a request of the command line passes the controller's bearer check: the token comes
    from the same variable, or from the same file.  It needs [HOME], no
    [ORION_TOKEN_FILE], and a variable that, when set, is neither empty nor padded with
    blanks; the token must be visible ASCII, or the client refuses to send it. *)
Theorem cli_token_accepted (to_str : string → option string) (e : Env) (mode : AuthMode)
    (controller nats : string) (output : Format)
    (Hstr : ∀ s, all_chars printable s = true → to_str s = Some s)
    (Hm : from_env e = Ok mode) (Hhome : is_Some (env_var e !! "HOME"))
    (Hfile : env_var e !! "ORION_TOKEN_FILE" = None)
    (Hvar : ∀ t, env_var e !! ENV_TOKEN = Some t → trim t = t ∧ t ≠ "") :
  match auth_header (main_ctx controller nats None e output) with
  | Ok h => require_bearer to_str mode h = Pass
  | Err err => err = BadToken ∧ ∃ t, cli_token None e = Some t ∧ all_chars printable t = false
  end.
Proof.
  destruct Hhome as [home Hhome].
  assert (∀ t, mode = Enforce t → cli_token None e = Some t) as Ht.
  { intros t ->. unfold cli_token. unfold from_env in Hm. destruct (is_disabled e); [done|].
    unfold token_from_file, token_path in Hm. unfold dirs_token_path. rewrite Hfile, Hhome in Hm.
    rewrite Hhome. destruct (env_var e !! ENV_TOKEN) as [v|].
    - destruct (Hvar v eq_refl) as [Hv Hne]. cbv zeta in Hm. rewrite Hv in Hm.
      rewrite bool_decide_eq_false_2 in Hm by done. by injection Hm as <-.
    - destruct (env_read e _) as [s|[]]; [|done|done]. cbv zeta in Hm.
      case_bool_decide; [done|]. by injection Hm as <-. }
  unfold auth_header. cbn [main_ctx ctx_token]. destruct mode as [t|].
  - destruct (from_env_token e t Hm) as [Hne _]. rewrite (Ht t eq_refl).
    destruct t as [|c t]; [done|]. destruct (all_chars printable (String c t)) eqn:Hp.
    + apply require_bearer_pass. right. exists (String c t). split; [done|].
      change (to_str ("Bearer " +:+ String c t) = Some ("Bearer " +:+ String c t)).
      apply Hstr. by rewrite all_chars_app, Hp.
    + split; [done|]. by exists (String c t).
  - destruct (cli_token None e) as [[|c t]|]; [by apply require_bearer_pass; left| |by apply require_bearer_pass; left].
    destruct (all_chars printable (String c t)) eqn:Hp; [by apply require_bearer_pass; left|].
    split; [done|]. by exists (String c t).
Qed.

Definition demo_token_env : Env :=
  {| env_var := {["HOME" := "/home/me"]};
     env_read := λ p, if String.eqb p "/home/me/.config/orion/cluster.token"
                      then Ok ("s3cret" +:+ String newline "") else Err IoNotFound |}.

Lemma cli_token_accepted_witness :
  match auth_header (main_ctx "http://c/" "nats://h" None demo_token_env Table) with
  | Ok h => require_bearer Some (Enforce "s3cret") h = Pass
  | Err err => err = BadToken ∧ ∃ t, cli_token None demo_token_env = Some t ∧ all_chars printable t = false
  end.
Proof.
  apply (cli_token_accepted Some demo_token_env (Enforce "s3cret")).
  - done.
  - vm_compute. reflexivity.
  - vm_compute. by eexists.
  - vm_compute. reflexivity.
  - intros t H. vm_compute in H. discriminate.
Defined.

(** The token file the controller was pointed to is not read by the command line. *)
Lemma token_file_ignored :
  let e := {| env_var := {["ORION_TOKEN_FILE" := "/run/tok"; "HOME" := "/home/me"]};
              env_read := λ p, if String.eqb p "/run/tok" then Ok "s3cret" else Err IoNotFound |} in
  from_env e = Ok (Enforce "s3cret") ∧
  auth_header (main_ctx "http://c" "nats://h" None e Table) = Ok None ∧
  require_bearer Some (Enforce "s3cret") None = Reject "invalid bearer token".
Proof. by vm_compute. Qed.

(** ** Following a log *)

Section following.
Variables kind name : string.

Definition view (h : history) (since : nat) : LogsReply :=
  let '(entries, total) := snapshot (pushes h) kind name since in
  {| lg_total := total; lg_entries := entries |}.

(** Lines arrive, then the client polls; a poll may fail. *)
Fixpoint follow_polls (h : history) (evs : list (history * bool)) : list (nat → option LogsReply) :=
  match evs with
  | [] => []
  | (lines, ok) :: rest =>
      (λ since, if ok then Some (view (h ++ lines) since) else None)
      :: follow_polls (h ++ lines) rest
  end.

(** The history at the last poll that succeeded. *)
Fixpoint last_seen (h seen : history) (evs : list (history * bool)) : history :=
  match evs with
  | [] => seen
  | (lines, ok) :: rest => last_seen (h ++ lines) (if ok then h ++ lines else seen) rest
  end.

Definition total_of (h : history) : nat := (snapshot (pushes h) kind name 0).2.

Lemma view_total h since : lg_total (view h since) = total_of h.
Proof.
  unfold view, total_of. rewrite !snapshot_default. done.
Qed.

Lemma view_entries h c since :
  since = total_of h →
  (length (lines_of (kind, name) (h ++ c)) ≤ LOG_RING_CAPACITY →
     lg_entries (view (h ++ c) since) = lines_of (kind, name) c) ∧
  (LOG_RING_CAPACITY ≤ length (lines_of (kind, name) h) → lg_entries (view (h ++ c) since) = []).
Proof.
  intros ->. pose proof (log_follower h c kind name) as [H1 H2]. unfold view, total_of.
  destruct (snapshot (pushes (h ++ c)) kind name _) as [es t]. simpl in *. split; [done|].
  intros H. by apply H2.
Qed.

Lemma follow_small seen mid evs since :
  since = total_of seen →
  length (lines_of (kind, name) (seen ++ mid ++ concat evs.*1)) ≤ LOG_RING_CAPACITY →
  lines_of (kind, name) seen ++ (follow since (follow_polls (seen ++ mid) evs)).1 =
  lines_of (kind, name) (last_seen (seen ++ mid) seen evs).
Proof.
  revert seen mid since. induction evs as [|[c ok] evs IH]; intros seen mid since Hs Hl.
  { simpl. by rewrite app_nil_r. }
  csimpl in Hl. cbn [follow_polls follow last_seen]. destruct ok.
  - destruct (follow (lg_total (view ((seen ++ mid) ++ c) since)) (follow_polls ((seen ++ mid) ++ c) evs))
      as [out since'] eqn:E. cbn [fst].
    rewrite <- (app_assoc seen mid c). rewrite <- (app_assoc seen mid c) in E.
    destruct (view_entries seen (mid ++ c) since Hs) as [He _].
    rewrite He, app_assoc, <- lines_of_app.
    2: { etrans; [|exact Hl]. rewrite !lines_of_app, !length_app. lia. }
    specialize (IH (seen ++ mid ++ c) [] _ (view_total (seen ++ mid ++ c) since)).
    rewrite app_nil_r in IH. rewrite E in IH. cbn [fst] in IH. rewrite <- IH; [done|].
    by rewrite app_nil_l, <- !app_assoc.
  - rewrite <- app_assoc. apply IH; [done|]. by rewrite <- app_assoc.
Qed.

Lemma follow_full seen mid evs since :
  since = total_of seen → LOG_RING_CAPACITY ≤ length (lines_of (kind, name) seen) →
  (follow since (follow_polls (seen ++ mid) evs)).1 = [].
Proof.
  revert seen mid since. induction evs as [|[c ok] evs IH]; intros seen mid since Hs Hl; [done|].
  cbn [follow_polls follow]. destruct ok.
  - destruct (follow _ _) as [out since'] eqn:E. cbn [fst].
    rewrite <- (app_assoc seen mid c). rewrite <- (app_assoc seen mid c) in E.
    destruct (view_entries seen (mid ++ c) since Hs) as [_ He]. rewrite He by done.
    specialize (IH (seen ++ mid ++ c) [] _ (view_total (seen ++ mid ++ c) since)).
    rewrite app_nil_r in IH. rewrite E in IH. apply IH.
    rewrite lines_of_app, length_app. lia.
  - rewrite <- app_assoc. by apply IH.
Qed.

(** C24: [orion logs --follow] prints every line once, up to a limit.  Lines arrive at the
    controller while the client polls, and polls may fail: as long as the workload has
    written at most 500 lines, what the client has printed is exactly the lines the
    controller had at the last poll that succeeded, in order.  Once 500 lines were there
    at the first read, the client prints those and never another one. *)
Theorem follow_prints_log (h : history) (evs : list (history * bool)) :
  let printed := logs_run None true ((λ since, Some (view h since)) :: follow_polls h evs) in
  (length (lines_of (kind, name) (h ++ concat evs.*1)) ≤ LOG_RING_CAPACITY →
   printed = Some (lines_of (kind, name) (last_seen h h evs))) ∧
  (LOG_RING_CAPACITY ≤ length (lines_of (kind, name) h) →
   printed = Some (last_n LOG_RING_CAPACITY (lines_of (kind, name) h))).
Proof.
  assert (lg_entries (view h 0) = last_n LOG_RING_CAPACITY (lines_of (kind, name) h)) as He.
  { unfold view. rewrite snapshot_default. simpl. by rewrite pushes_ring_default. }
  cbv zeta. unfold logs_run. cbn [tail_entries]. rewrite He, view_total. split; intros Hl.
  - rewrite last_n_all by (etrans; [|exact Hl]; rewrite lines_of_app, length_app; lia).
    pose proof (follow_small h [] evs _ eq_refl Hl) as H. rewrite app_nil_r in H. by rewrite H.
  - pose proof (follow_full h [] evs _ eq_refl Hl) as H. rewrite app_nil_r in H.
    by rewrite H, app_nil_r.
Qed.

End following.
