(* ===== verification/CliRun.v ===== *)
(** * Running the commands of the command line (crates/orion-cli/src/cmd)

    The bodies of the commands that Cli.v maps to requests: what they check before they
    send, what they send, and what they print of the answer.  A transport carries a
    request; [controller_at] is the one whose other end is the server of Server.v, so
    that a command can be run against the controller. *)

From Stdlib Require Import ZArith Lia Bool Ascii.
From stdpp Require Import base list gmap strings pretty.
From S2P Require Import Prelude Text Types Effect Parse Bus Store Registry Controller Dispatch Api System Auth Docker Mcp Server CliText Cli.

(** ** What a command prints *)

Inductive Shown : Type :=
| OutLine (s : string)
| ErrLine (s : string).

(** serde's printers for [--output], which end in a line break of [println!]. *)
Class Printers {J : SerdeJson} : Type := {
  json_pretty : Value → string;
  yaml_pretty : Value → string
}.

Inductive CliError : Type :=
| InputError (e : string)
| ParseFailed (e : ResourceError)
| ValidateFailed (e : ResourceError)
| NotRunnable (kind : string)
| Http (e : ClientError)
| LogsBody.

(** A request as the HTTP client sends it: method, URL, authorization, body. *)
Definition Transport (S : Type) : Type := Method → string → option string → string → M S Reply.

(** The world of a command: what the transport talks to, and the terminal. *)
Notation World S := (S * list Shown)%type.

Section commands.
Context {J : SerdeJson} {JM : JsonMake} {SL : ServerLib} {PR : Printers} {AL : ApiLibs}
  {UC : UpperCase}.
Context {S : Type} (send : Transport S) (ctx : Ctx).

Definition show (l : list Shown) : M (World S) unit := modify (λ w, (w.1, w.2 ++ l)).
Definition println (s : string) : M (World S) unit := show [OutLine s].

(** ** Requests (http.rs) *)

Definition request (m : Method) (path body : string) : M (World S) (result Reply CliError) :=
  match auth_header ctx with
  | Err e => mret (Err (Http e))
  | Ok auth =>
      r ← zoom fst (λ s w, (s, w.2)) (send m (url ctx path) auth body);
      mret (Ok r)
  end.

Definition as_cli {A} (r : result A ClientError) : result A CliError :=
  match r with Ok a => Ok a | Err e => Err (Http e) end.

Definition fetch_json (path : string) : M (World S) (result Value CliError) :=
  let! r := request GET path "" in mret (as_cli (get_json r)).
Definition post_yaml (path body : string) : M (World S) (result Value CliError) :=
  let! r := request POST path body in mret (as_cli (read_reply r)).
Definition post_empty (path : string) : M (World S) (result Value CliError) :=
  let! r := request POST path "" in mret (as_cli (read_reply r)).
Definition delete_path (path : string) : M (World S) (result Value CliError) :=
  let! r := request DELETE path "" in mret (as_cli (read_reply r)).

(** ** Printing (output.rs) *)

Definition print_json (v : Value) : M (World S) unit := println (json_pretty v).
Definition print_yaml (v : Value) : M (World S) unit := println (yaml_pretty v).

Definition render (fmt : Format) (v : Value) : M (World S) unit :=
  match fmt with JsonFormat => print_json v | YamlFormat | Table | Wide => print_yaml v end.

(** The commands that print a document whatever the format. *)
Definition print_document (v : Value) : M (World S) unit :=
  match ctx_output ctx with JsonFormat => print_json v | _ => print_yaml v end.

(** The commands that print a table unless a document was asked for. *)
Definition print_listing (table : Value → M (World S) unit) (v : Value) : M (World S) unit :=
  match ctx_output ctx with
  | JsonFormat => print_json v
  | YamlFormat => print_yaml v
  | Table | Wide => table v
  end.

(** The commands that print a line, and the answer when a document was asked for. *)
Definition print_also (v : Value) : M (World S) unit :=
  match ctx_output ctx with JsonFormat | YamlFormat => render (ctx_output ctx) v | _ => mret tt end.

Definition print_table (headers : list string) (rows : list (list string)) : M (World S) unit :=
  show (OutLine <$> render_table headers rows).

(** ** Fields of an answer *)

Definition str_at (v : Value) (k : string) : option string := value_get v k ≫= value_as_str.
(** [v.pointer("/a/b")]. *)
Definition pointer2 (v : Value) (a b : string) : option Value :=
  w ← value_get v a; value_get w b.

(** ** Local checks (validate.rs, and the head of apply.rs and run.rs) *)

Definition check_local (input : result string string) : result (string * Resource) CliError :=
  match input with
  | Err e => Err (InputError e)
  | Ok text =>
      match from_yaml text with
      | Err e => Err (ParseFailed e)
      | Ok r => match validate r with Err e => Err (ValidateFailed e) | Ok _ => Ok (text, r) end
      end
  end.

Definition resource_name (r : Resource) : string := md_name (metadata r).

Definition validate_cmd (input : result string string) : M (World S) (result unit CliError) :=
  match check_local input with
  | Err e => mret (Err e)
  | Ok (_, r) =>
      _ ← println ("ok: kind=" +:+ kind_str r +:+ " name=" +:+ resource_name r); mret (Ok tt)
  end.

(** ** apply.rs, run.rs *)

Definition apply_path (dry_run : bool) : string :=
  if dry_run then "/v1/resources/apply?dry_run=1" else "/v1/resources/apply".

Definition apply_cmd (dry_run : bool) (input : result string string)
    : M (World S) (result unit CliError) :=
  match check_local input with
  | Err e => mret (Err e)
  | Ok (text, r) =>
      let! resp := post_yaml (apply_path dry_run) text in
      let kind := default (kind_str r) (str_at resp "kind") in
      let name := default (resource_name r) (str_at resp "name") in
      let generation := default "?" (json_to_string <$> value_get resp "generation") in
      let dry := default false (value_get resp "dry_run" ≫= value_as_bool) in
      _ ← println (if dry then "[dry-run] would apply " +:+ kind +:+ "/" +:+ name
                   else "applied " +:+ kind +:+ "/" +:+ name +:+
                        " (generation " +:+ generation +:+ ")");
      _ ← print_also resp;
      mret (Ok tt)
  end.

Definition runnable (kind : string) : bool := String.eqb kind "Service" || String.eqb kind "Task".

(** [logs] is [logs::run] with [--follow], when [--watch] is given. *)
Definition run_cmd (logs : option (string → string → M (World S) (result unit CliError)))
    (input : result string string) : M (World S) (result unit CliError) :=
  match check_local input with
  | Err e => mret (Err e)
  | Ok (text, r) =>
      let kind := kind_str r in
      let name := resource_name r in
      if negb (runnable kind) then mret (Err (NotRunnable kind))
      else
        let! _ := post_yaml "/v1/resources/apply" text in
        _ ← println ("applied " +:+ kind +:+ "/" +:+ name);
        let! resp := post_empty ("/v1/dispatch/" +:+ kind +:+ "/" +:+ name) in
        _ ← println ("dispatched " +:+ kind +:+ "/" +:+ name +:+ " to " +:+
                     default "?" (str_at resp "node"));
        match logs with Some logs => logs kind name | None => mret (Ok tt) end
  end.

(** ** delete.rs, dispatch.rs, stop_restart.rs *)

Definition delete_cmd (kind name : string) : M (World S) (result unit CliError) :=
  let kind := canonical_kind kind in
  let! resp := delete_path ("/v1/resources/" +:+ kind +:+ "/" +:+ name) in
  let deleted := default false (value_get resp "deleted" ≫= value_as_bool) in
  _ ← println (if deleted then "deleted " +:+ kind +:+ "/" +:+ name
               else "no-op (not present) " +:+ kind +:+ "/" +:+ name);
  mret (Ok tt).

Definition dispatch_cmd (kind name : string) : M (World S) (result unit CliError) :=
  let kind := canonical_kind kind in
  let! resp := post_empty ("/v1/dispatch/" +:+ kind +:+ "/" +:+ name) in
  _ ← println ("dispatched " +:+ kind +:+ "/" +:+ name +:+ " to " +:+
               default "?" (str_at resp "node") +:+ " (instance " +:+
               default "?" (str_at resp "instance_id") +:+ ")");
  _ ← print_also resp;
  mret (Ok tt).

Definition stop_cmd (kind name : string) : M (World S) (result unit CliError) :=
  let kind := canonical_kind kind in
  let! resp := post_empty ("/v1/control/" +:+ kind +:+ "/" +:+ name +:+ "/stop") in
  let n := default 0%Z (value_get resp "stopped" ≫= value_as_u64) in
  _ ← println ("stopped " +:+ kind +:+ "/" +:+ name +:+ " (" +:+ pretty n +:+ " instance(s))");
  _ ← print_also resp;
  mret (Ok tt).

Definition restart_cmd (kind name : string) : M (World S) (result unit CliError) :=
  let kind := canonical_kind kind in
  let! resp := post_empty ("/v1/control/" +:+ kind +:+ "/" +:+ name +:+ "/restart") in
  _ ← println ("restart requested for " +:+ kind +:+ "/" +:+ name);
  _ ← print_also resp;
  mret (Ok tt).

(** ** get.rs, instances.rs, describe.rs, diag.rs *)

(** A table over an array; anything else is printed as it is. *)
Definition table_of (headers : list string) (row : Value → list string) (v : Value)
    : M (World S) unit :=
  match value_as_array v with
  | None => print_yaml v
  | Some arr => print_table headers (row <$> arr)
  end.

(** [s.split(c).next().unwrap_or(s)]. *)
Definition before (c : ascii) (s : string) : string := default s (head (split_on c s)).

Definition node_row (n : Value) : list string :=
  let inv := value_get n "inventory" in
  [ default "?" (str_at n "node_id");
    default "-" (inv ≫= λ i, str_at i "arch");
    default "-" (inv ≫= λ i, str_at i "os");
    default "-" (before "+" <$> str_at n "last_seen_at") ].

Definition resource_row (r : Value) : list string :=
  [ default "?" (str_at r "kind");
    default "?" (pointer2 r "metadata" "name" ≫= value_as_str);
    default "-" ((λ g, default (json_to_string g) (pretty <$> value_as_u64 g))
                   <$> pointer2 r "metadata" "generation");
    default "-" (pointer2 r "status" "phase" ≫= value_as_str) ].

Definition instance_row (r : Value) : list string :=
  [ default "?" (str_at r "kind");
    default "?" (str_at r "name");
    default "-" (json_to_string <$> value_get r "replica_index");
    default "?" (str_at r "node");
    default "?" (before "." <$>
      (match value_get r "started_at" with Some v => Some v | None => value_get r "startedAt" end
         ≫= value_as_str));
    default "?" (take_chars 8 <$> str_at r "instance_id") ].

Definition kind_lines (v : Value) : list string :=
  match value_get v "kinds" ≫= value_as_array with
  | Some arr => omap value_as_str arr
  | None => []
  end.

Definition print_kinds (v : Value) : M (World S) unit := show (OutLine <$> kind_lines v).

Definition get_nodes_cmd : M (World S) (result unit CliError) :=
  let! v := fetch_json "/v1/nodes" in
  _ ← print_listing (table_of ["node"; "arch"; "os"; "last seen"] node_row) v; mret (Ok tt).

Definition get_kinds_cmd : M (World S) (result unit CliError) :=
  let! v := fetch_json "/v1/kinds" in
  _ ← print_listing print_kinds v; mret (Ok tt).

(** [orion get <kind> [name]]. *)
Definition get_kind_cmd (kind : string) (name : option string)
    : M (World S) (result unit CliError) :=
  let kind := canonical_kind kind in
  match name with
  | Some name =>
      let! v := fetch_json ("/v1/resources/" +:+ kind +:+ "/" +:+ name) in
      _ ← print_document v; mret (Ok tt)
  | None =>
      let! v := fetch_json ("/v1/resources/" +:+ kind) in
      _ ← print_listing (table_of ["kind"; "name"; "gen"; "phase"] resource_row) v; mret (Ok tt)
  end.

Definition instances_cmd (kind name : option string) : M (World S) (result unit CliError) :=
  let! v := fetch_json (instances_path kind name) in
  _ ← print_listing (table_of ["kind"; "name"; "replica"; "node"; "started"; "id"] instance_row) v;
  mret (Ok tt).

Definition describe_cmd (kind name : string) : M (World S) (result unit CliError) :=
  let! v := fetch_json ("/v1/resources/" +:+ canonical_kind kind +:+ "/" +:+ name) in
  _ ← print_document v; mret (Ok tt).

Inductive DiagSub : Type := DiagSubSystem | DiagSubJetstream.
Definition diag_cmd (sub : DiagSub) : M (World S) (result unit CliError) :=
  let! v := fetch_json (match sub with DiagSubSystem => "/v1/diag/system"
                                     | DiagSubJetstream => "/v1/diag/jetstream" end) in
  _ ← print_document v; mret (Ok tt).

(** ** schedules.rs *)

Definition nl : string := String newline EmptyString.

(** The document of [orion schedule create]: the cron expression is printed with
    [{:?}], the other two as they are. *)
Definition schedule_yaml (name cron task : string) : string :=
  "apiVersion: orionmesh.dev/v1" +:+ nl +:+ "kind: Schedule" +:+ nl +:+ "metadata:" +:+ nl +:+
  "  name: " +:+ name +:+ nl +:+ "spec:" +:+ nl +:+ "  cron: " +:+ debug_str cron +:+ nl +:+
  "  task: " +:+ task +:+ nl.

Inductive ScheduleSub : Type :=
| SchedList
| SchedObserved
| SchedCreate (name cron task : string).

Definition schedule_cmd (sub : ScheduleSub) : M (World S) (result unit CliError) :=
  match sub with
  | SchedList =>
      let! v := fetch_json "/v1/resources/Schedule" in _ ← print_document v; mret (Ok tt)
  | SchedObserved =>
      let! v := fetch_json "/v1/schedules/observed" in _ ← print_document v; mret (Ok tt)
  | SchedCreate name cron task =>
      let! _ := post_yaml "/v1/resources/apply" (schedule_yaml name cron task) in
      _ ← println ("applied Schedule/" +:+ name); mret (Ok tt)
  end.

(** ** find.rs *)

Definition find_row (r : Value) : list string :=
  [ default "?" (pointer2 r "metadata" "name" ≫= value_as_str);
    default "" (json_to_string <$> pointer2 r "metadata" "labels") ].

(** [body] is what was read, or composed from [--require]. *)
Definition find_cmd (body : result string CliError) : M (World S) (result unit CliError) :=
  match body with
  | Err e => mret (Err e)
  | Ok body =>
      let! resp := post_yaml "/v1/find" body in
      match default [] (value_as_array resp) with
      | [] => _ ← show [ErrLine "(no matching services)"]; mret (Ok tt)
      | matches =>
          _ ← print_listing (λ _, print_table ["name"; "labels"] (find_row <$> matches))
                (json_array matches);
          mret (Ok tt)
      end
  end.

(** ** logs.rs *)

Record LogRow : Type := { lr_at : string; lr_node_id : string; lr_stream : string; lr_line : string }.
Record CliLogsView : Type := { clv_total : Z; clv_entries : list LogRow }.

(** The derived [Deserialize] of the two records: absent fields of the view default. *)
Definition decode_log_row (v : Value) : option LogRow :=
  at_ ← str_at v "at"; node ← str_at v "node_id"; stream ← str_at v "stream"; line ← str_at v "line";
  Some {| lr_at := at_; lr_node_id := node; lr_stream := stream; lr_line := line |}.

Definition decode_logs_view (v : Value) : option CliLogsView :=
  total ← match value_get v "total" with None => Some 0%Z | Some t => value_as_u64 t end;
  entries ← match value_get v "entries" with
            | None => Some []
            | Some l => arr ← value_as_array l; mapM decode_log_row arr
            end;
  Some {| clv_total := total; clv_entries := entries |}.

Definition fetch_logs (path : string) : M (World S) (result CliLogsView CliError) :=
  let! v := fetch_json path in
  mret (match decode_logs_view v with Some l => Ok l | None => Err LogsBody end).

(** [emit]. *)
Definition log_row_line (e : LogRow) : string :=
  lr_at e +:+ " [" +:+ lr_node_id e +:+ "/" +:+ lr_stream e +:+ "] " +:+ lr_line e.
Definition emit_rows (l : list LogRow) : M (World S) unit := show (OutLine ∘ log_row_line <$> l).

(** The loop of [--follow], for as many polls as happen before it is interrupted. *)
Fixpoint follow_logs (polls : nat) (base : string) (since : Z) (poll_error : CliError → string)
    : M (World S) (result unit CliError) :=
  match polls with
  | O => mret (Ok tt)
  | Datatypes.S polls' =>
      r ← fetch_logs (base +:+ "?since=" +:+ pretty since);
      match r with
      | Err e => _ ← show [ErrLine (poll_error e)]; follow_logs polls' base since poll_error
      | Ok resp =>
          _ ← emit_rows (clv_entries resp);
          follow_logs polls' base (clv_total resp) poll_error
      end
  end.

Definition logs_cmd (poll_error : CliError → string) (tail : option nat) (follow : option nat)
    (kind name : string) : M (World S) (result unit CliError) :=
  let base := "/v1/logs/" +:+ canonical_kind kind +:+ "/" +:+ name in
  let! initial := fetch_logs base in
  let entries := match tail with
    | Some n => if n <? length (clv_entries initial)
                then drop (length (clv_entries initial) - n) (clv_entries initial)
                else clv_entries initial
    | None => clv_entries initial
    end in
  _ ← emit_rows entries;
  match follow with
  | None => mret (Ok tt)
  | Some polls => follow_logs polls base (clv_total initial) poll_error
  end.

End commands.

(** ** The controller at the other end *)

Section controller_end.
Context {J : SerdeJson} {JM : JsonMake} {SL : ServerLib} {UT : UuidText}
  {RC : ResourceCodec} {TM : Rfc3339} {HO : HashOrder} {CL : ControllerLibs} {AL : ApiLibs}.

(** A closed connection is an error for the client. *)
Definition reply_of (r : option Response) : Reply :=
  match r with
  | Some rsp => Answer (rsp_status rsp) (rsp_body rsp)
  | None => Unreachable "connection closed"
  end.

(** Requests below the URL [base] reach the server. *)
Definition controller_at (base : string) (to_str : string → option string) (mode : AuthMode)
    : Transport AppState := λ m u auth body,
  match strip_prefix base u with
  | None => mret (Unreachable "no such host")
  | Some target =>
      r ← serve_http to_str mode
            {| hr_method := m; hr_target := target; hr_authorization := auth; hr_body := body |};
      mret (reply_of r)
  end.

End controller_end.

(** ** Lemmas: a command against the controller *)

(** A name that a URL carries as it is. *)
Definition url_segment (s : string) : Prop := s ≠ "" ∧ all_chars url_char s = true.

Lemma url_segment_plain s : url_segment s → plain s ∧ has_char "%" s = false.
Proof.
  intros [Hne Hs]. split_and!; [by split; [split; [done|by apply url_chars_without]|apply url_chars_without]|].
  by apply url_chars_without.
Qed.

Section against_controller.
Context {J : SerdeJson} {JM : JsonMake} {SL : ServerLib} {SW : ServerLaws} {JL : JsonLaws}
  {PR : Printers} {UT : UuidText} {RC : ResourceCodec} {TM : Rfc3339} {HO : HashOrder}
  {CL : ControllerLibs} {AL : ApiLibs}.
Context (ctx : Ctx) (to_str : string → option string) (mode : AuthMode) (auth : option string).
Context (Hauth : auth_header ctx = Ok auth) (Hpass : require_bearer to_str mode auth = Pass).

Let send : Transport AppState := controller_at (ctx_controller ctx) to_str mode.

Lemma decode_plain_params ps :
  Forall (λ p, has_char "%" p = false) ps → decode_params ps = Some ps.
Proof.
  induction 1 as [|p ps Hp _ IH]; [done|]. cbn [decode_params].
  by rewrite path_decode_plain, IH.
Qed.

Lemma serve_admitted rq o su :
  require_bearer to_str mode (hr_authorization rq) = Pass →
  serve_http to_str mode rq o su = route_request rq o su.
Proof. intros H. unfold serve_http. rewrite H. by destruct (path_guarded _). Qed.

Lemma request_run m path body h params g o s out u :
  dispatch_path m (request_path path) = Handled h params g →
  Forall (λ p, has_char "%" p = false) params →
  request send ctx m path body o ((s, out), u) =
  let '(r, (s', u')) := run_handler h params (request_query path) body o (s, u) in
  (Ok (reply_of r), ((s', out), u')).
Proof.
  intros Hd Hp. unfold request. rewrite Hauth. unfold mbind at 1, M_bind at 1, zoom, send, controller_at.
  cbn [fst snd]. unfold url. rewrite (proj2 (strip_prefix_Some _ _ path)) by done.
  unfold mbind, M_bind. rewrite serve_admitted by done. unfold route_request. cbn [hr_method hr_target hr_body].
  rewrite Hd, decode_plain_params by done. by destruct (run_handler _ _ _ _ _ _) as [r [s' u']].
Qed.

(** What the client makes of the answer of a handler. *)
Definition client_result {A} (enc : A → Value) (r : option (result A ApiError))
    : result Value CliError :=
  match r with
  | None => Err (Http (SendFailed "connection closed"))
  | Some (Ok a) => Ok (enc a)
  | Some (Err e) => Err (Http (BadStatus (status_code (ae_status e)) (ae_message e)))
  end.

Lemma status_not_success c : is_success (status_code c) = false.
Proof. by destruct c. Qed.

Lemma read_reply_respond {A} (enc : A → Value) (r : option (result A ApiError)) :
  as_cli (read_reply (reply_of (respond enc <$> r))) = client_result enc r.
Proof.
  destruct r as [[a|e]|]; simpl; [| |done].
  - pose proof (printed_not_empty (enc a)) as Hn. apply String.eqb_neq in Hn.
    by rewrite Hn, parse_printed.
  - by rewrite status_not_success.
Qed.

(** A command that reads the answer of one request, and prints lines when it is good. *)
Definition reports {A} (cmd : M (World AppState) (result unit CliError))
    (handler : M AppState (option (result A ApiError))) (lines : A → list Shown) : Prop :=
  ∀ o s out u, cmd o ((s, out), u) =
    let '(r, (s', u')) := handler o (s, u) in
    match r with
    | Some (Ok a) => (Ok tt, ((s', out ++ lines a), u'))
    | Some (Err e) =>
        (Err (Http (BadStatus (status_code (ae_status e)) (ae_message e))), ((s', out), u'))
    | None => (Err (Http (SendFailed "connection closed")), ((s', out), u'))
    end.

(** The document that follows the line when one was asked for. *)
Definition also (v : Value) : list Shown :=
  match ctx_output ctx with
  | JsonFormat => [OutLine (json_pretty v)]
  | YamlFormat => [OutLine (yaml_pretty v)]
  | Table | Wide => []
  end.

Lemma print_also_run v o (s : AppState) out u :
  print_also ctx v o ((s, out), u) = (tt, ((s, out ++ also v), u)).
Proof.
  unfold print_also, also, render, print_json, print_yaml, println, show, modify.
  destruct (ctx_output ctx); simpl; by rewrite ?app_nil_r.
Qed.

(** Sending a request and reading the answer, on a route whose handler answers with [m]. *)
Lemma read_request_run {A} (enc : A → Value) (m : M AppState (option (result A ApiError)))
    meth path body h params g o s out u :
  dispatch_path meth (request_path path) = Handled h params g →
  Forall (λ p, has_char "%" p = false) params →
  (∀ o su, run_handler h params (request_query path) body o su = answer_opt enc m o su) →
  (let! r := request send ctx meth path body in mret (as_cli (read_reply r))) o ((s, out), u) =
  let '(r, (s', u')) := m o (s, u) in (client_result enc r, ((s', out), u')).
Proof.
  intros Hd Hp Hh. unfold mbind, M_bind, mret, M_ret.
  rewrite (request_run _ _ _ _ _ _ _ _ _ _ Hd Hp), Hh. unfold answer_opt, mbind, M_bind, mret, M_ret.
  destruct (m o (s, u)) as [r [s' u']]. cbn beta iota zeta. by rewrite read_reply_respond.
Qed.

Lemma read_run {A} (enc : A → Value) (m : M AppState (option (result A ApiError)))
    meth path body h params g (k : Value → M (World AppState) (result unit CliError)) lines :
  dispatch_path meth (request_path path) = Handled h params g →
  Forall (λ p, has_char "%" p = false) params →
  (∀ o su, run_handler h params (request_query path) body o su = answer_opt enc m o su) →
  (∀ a o s out u s0 u0, (m o (s0, u0)).1 = Some (Ok a) →
     k (enc a) o ((s, out), u) = (Ok tt, ((s, out ++ lines a), u))) →
  reports (let! v := (let! r := request send ctx meth path body in mret (as_cli (read_reply r))) in k v)
    m lines.
Proof.
  intros Hd Hp Hh Hk o s out u. unfold mbind at 1, M_bind at 1, mret, M_ret.
  rewrite (read_request_run _ _ _ _ _ _ _ _ _ _ _ _ Hd Hp Hh).
  destruct (m o (s, u)) as [r [s' u']] eqn:Em. cbn beta iota zeta.
  destruct r as [[a|e]|]; simpl; [|done|done]. apply (Hk a o s' out u' s u). by rewrite Em.
Qed.

(** A handler that cannot panic. *)
Definition never_panics {A} (m : M AppState (result A ApiError))
    : M AppState (option (result A ApiError)) := r ← m; mret (Some r).

Lemma never_panics_run {A} (m : M AppState (result A ApiError)) o su :
  (never_panics m o su).1 = Some (m o su).1.
Proof. unfold never_panics, mbind, M_bind, mret, M_ret. by destruct (m o su). Qed.

Lemma run_answer {A} (enc : A → Value) (m : M AppState (result A ApiError)) o su :
  answer enc m o su = answer_opt enc (never_panics m) o su.
Proof. unfold never_panics, answer, answer_opt, mbind, M_bind, mret, M_ret. by destruct (m o su). Qed.

(** Reading a field of an encoded answer. *)
Tactic Notation "read_field" reference(enc) := unfold str_at, enc; rewrite obj_get; cbn;
  rewrite ?as_bool_bool, ?as_str_string; try reflexivity.

Lemma delete_field d : value_get (enc_delete d) "deleted" ≫= value_as_bool = Some (do_deleted d).
Proof. read_field enc_delete. Qed.
Lemma dispatch_node d : str_at (enc_dispatch d) "node" = Some (dis_node d).
Proof. read_field enc_dispatch. Qed.
Lemma dispatch_id d : str_at (enc_dispatch d) "instance_id" = Some (uuid_to_string (dis_instance_id d)).
Proof. read_field enc_dispatch. apply as_str_string. Qed.
Lemma stop_field d : is_u32 (so_stopped d) →
  value_get (enc_stop d) "stopped" ≫= value_as_u64 = Some (so_stopped d).
Proof. intros [H0 H1]. read_field enc_stop. apply as_u64_int. unfold u32_max, u64_max in *. lia. Qed.
Lemma apply_kind a : str_at (enc_apply a) "kind" = Some (ao_kind a).
Proof. read_field enc_apply. Qed.
Lemma apply_name a : str_at (enc_apply a) "name" = Some (ao_name a).
Proof. read_field enc_apply. Qed.
Lemma apply_generation a : value_get (enc_apply a) "generation" = Some (json_int (ao_generation a)).
Proof. read_field enc_apply. Qed.
Lemma apply_dry a : value_get (enc_apply a) "dry_run" ≫= value_as_bool = Some (ao_dry_run a).
Proof. read_field enc_apply. Qed.

Lemma delete_outcome kind name o su d :
  (delete_resource_handler kind name o su).1 = Ok d → do_deleted d = true.
Proof.
  unfold delete_resource_handler, mbind, M_bind, mret, M_ret.
  destruct (on_store _ o su) as [[[]|e] su']; simpl; try done. by intros [= <-].
Qed.

Lemma stopped_u32 kind name recs acc o su :
  is_u32 acc.1 → is_u32 (fold_each (stop_one kind name) acc recs o su).1.1.
Proof.
  revert acc su. induction recs as [|rec recs IH]; intros acc [s u] H; [done|].
  cbn [fold_each]. unfold mbind, M_bind. pose proof (stop_one_run kind name acc rec o s u) as Hs.
  destruct (stop_one kind name acc rec o (s, u)) as [acc' su']. cbn [fst] in Hs.
  apply IH. destruct Hs as [_ [[-> _]|[-> _]]]; [done|apply wrap_u32_range].
Qed.

Lemma stop_outcome_u32 kind name o su d :
  (stop_workload kind name o su).1 = Ok d → is_u32 (so_stopped d).
Proof.
  unfold stop_workload, mbind, M_bind, mret, M_ret, get, modify. destruct su as [s u].
  cbn beta iota zeta. destruct (drain_for _ _ _) as [[|rec recs] g]; [done|].
  pose proof (stopped_u32 kind name (rec :: recs) (0%Z, []) o (set_instances g s, u)) as H.
  destruct (fold_each _ _ _ _ _) as [acc su']. simpl in *. intros [= <-]. simpl. apply H.
  by unfold is_u32, u32_max.
Qed.

Lemma reports_delete kind name :
  url_segment (canonical_kind kind) → url_segment name →
  reports (delete_cmd send ctx kind name) (never_panics (delete_resource_handler (canonical_kind kind) name))
    (λ _, [OutLine ("deleted " +:+ canonical_kind kind +:+ "/" +:+ name)]).
Proof.
  intros [Hk Hk']%url_segment_plain [Hn Hn']%url_segment_plain.
  pose proof (commands_reach_handlers (Delete kind name) (conj Hk Hn)) as Hd.
  apply (read_run enc_delete _ _ _ _ _ _ _ _ _ Hd); [by repeat constructor|..].
  - intros o su. apply run_answer.
  - intros d o s out u s0 u0 Ho. rewrite never_panics_run in Ho. injection Ho as Ho%delete_outcome.
    by rewrite delete_field, Ho.
Qed.

Lemma reports_dispatch kind name :
  url_segment (canonical_kind kind) → url_segment name →
  reports (dispatch_cmd send ctx kind name) (dispatch_resource (canonical_kind kind) name)
    (λ d, OutLine ("dispatched " +:+ canonical_kind kind +:+ "/" +:+ name +:+ " to " +:+ dis_node d
                   +:+ " (instance " +:+ uuid_to_string (dis_instance_id d) +:+ ")")
          :: also (enc_dispatch d)).
Proof.
  intros [Hk Hk']%url_segment_plain [Hn Hn']%url_segment_plain.
  pose proof (commands_reach_handlers (DispatchCmd kind name) (conj Hk Hn)) as Hd.
  apply (read_run enc_dispatch _ _ _ _ _ _ _ _ _ Hd); [by repeat constructor|done|].
  intros d o s out u s0 u0 _. rewrite dispatch_node, dispatch_id.
  unfold mbind, M_bind, println, show, modify. cbn [fst snd]. by rewrite print_also_run, <- app_assoc.
Qed.

Lemma reports_stop kind name :
  url_segment (canonical_kind kind) → url_segment name →
  reports (stop_cmd send ctx kind name) (never_panics (stop_workload (canonical_kind kind) name))
    (λ d, OutLine ("stopped " +:+ canonical_kind kind +:+ "/" +:+ name +:+ " (" +:+
                   pretty (so_stopped d) +:+ " instance(s))") :: also (enc_stop d)).
Proof.
  intros [Hk Hk']%url_segment_plain [Hn Hn']%url_segment_plain.
  pose proof (commands_reach_handlers (Stop kind name) (conj Hk Hn)) as Hd.
  apply (read_run enc_stop _ _ _ _ _ _ _ _ _ Hd); [by repeat constructor| |].
  - intros o su. apply run_answer.
  - intros d o s out u s0 u0 Ho. rewrite never_panics_run in Ho. injection Ho as Ho%stop_outcome_u32.
    rewrite stop_field by done.
    unfold mbind, M_bind, println, show, modify. cbn [fst snd]. by rewrite print_also_run, <- app_assoc.
Qed.

Lemma reports_restart kind name :
  url_segment (canonical_kind kind) → url_segment name →
  reports (restart_cmd send ctx kind name) (restart_workload (canonical_kind kind) name)
    (λ d, OutLine ("restart requested for " +:+ canonical_kind kind +:+ "/" +:+ name)
          :: also (enc_restart d)).
Proof.
  intros [Hk Hk']%url_segment_plain [Hn Hn']%url_segment_plain.
  pose proof (commands_reach_handlers (RestartCmd kind name) (conj Hk Hn)) as Hd.
  apply (read_run enc_restart _ _ _ _ _ _ _ _ _ Hd); [by repeat constructor|done|].
  intros d o s out u s0 u0 _.
  unfold mbind, M_bind, println, show, modify. cbn [fst snd]. by rewrite print_also_run, <- app_assoc.
Qed.

(** The query of the dry run. *)
Lemma dry_run_query dry :
  query_field (query_pairs (request_query (apply_path dry))) "dry_run" =
  Ok (if dry then Some "1" else None).
Proof.
  destruct dry; cbn [apply_path].
  - change (request_query _) with ("dry_run" +:+ "=" +:+ "1"). by rewrite query_pairs_one.
  - change (request_query _) with "". by rewrite query_pairs_none.
Qed.

Lemma reports_apply dry text r :
  from_yaml text = Ok r → validate r = Ok tt →
  reports (apply_cmd send ctx dry (Ok text))
    (never_panics (apply_resource (if dry then Some "1" else None) text))
    (λ a, OutLine (if ao_dry_run a then "[dry-run] would apply " +:+ ao_kind a +:+ "/" +:+ ao_name a
                   else "applied " +:+ ao_kind a +:+ "/" +:+ ao_name a +:+ " (generation " +:+
                        json_to_string (json_int (ao_generation a)) +:+ ")")
          :: also (enc_apply a)).
Proof.
  intros Hy Hv. unfold apply_cmd, check_local. rewrite Hy, Hv.
  pose proof (commands_reach_handlers (Apply dry) I) as Hd.
  assert ((command_request (Apply dry)) = (POST, apply_path dry)) as Hr by by destruct dry.
  rewrite Hr in Hd.
  apply (read_run enc_apply _ _ _ _ _ _ _ _ _ Hd); [by constructor| |].
  - intros o su. transitivity (answer enc_apply (apply_resource (if dry then Some "1" else None) text) o su);
      [|apply run_answer]. unfold run_handler, with_query. cbn [command_target fst snd].
    by rewrite dry_run_query.
  - intros a o s out u s0 u0 _. rewrite apply_kind, apply_name, apply_generation, apply_dry.
    unfold mbind, M_bind, println, show, modify. cbn [fst snd].
    by rewrite print_also_run, <- app_assoc.
Qed.

End against_controller.

(** ** Lemmas: what [orion run] leaves behind *)

Section effects_of_run.
Context {J : SerdeJson} {RC : ResourceCodec} {TM : Rfc3339} {HO : HashOrder}
  {CL : ControllerLibs} {AL : ApiLibs}.

(** The row of a resource holds its text. *)
Definition stored_as (d : Db) (r : Resource) : Prop :=
  ∃ row, db_resource d !! key_of r = Some row ∧ resource_to_json r = Ok (row_body row).

Lemma upsert_stored r o d u :
  let x := upsert_resource r o (d, u) in
  match x.1 with Ok _ => stored_as x.2.1 r | Err _ => x.2.1 = d end.
Proof.
  cbv zeta. unfold upsert_resource. destruct (resource_to_json r) as [b|e] eqn:Hb; [|done].
  unfold select_existing, insert_resource, mbind, M_bind, mret, M_ret, now.
  rewrite query_run. destruct (or_fault o _); [done|]. cbn [fst snd].
  rewrite query_run. destruct (or_fault o _); [done|]. cbn -[set_resource key_of].
  eexists. simpl. rewrite lookup_insert_eq. done.
Qed.

Lemma apply_effect q text r o s u :
  from_yaml text = Ok r → validate r = Ok tt → is_dry_run q = false →
  let x := apply_resource q text o (s, u) in
  app_published x.2.1 = app_published s ∧
  match x.1 with Ok _ => stored_as (app_store x.2.1) r | Err _ => x.2.1 = s end.
Proof.
  intros Hy Hv Hq. cbv zeta. unfold apply_resource. rewrite Hy, Hv, Hq.
  unfold mbind, M_bind, mret, M_ret. rewrite on_store_run.
  pose proof (upsert_stored r o (app_store s) u) as Hu.
  destruct (upsert_resource r o (app_store s, u)) as [[g|e] [d u']]; cbn in *; split; try done.
  subst d. by destruct s.
Qed.

(** A dispatch through the API: nothing happens, or one run of the stored workload. *)
Lemma dispatch_resource_effect kind name o s u :
  let x := dispatch_resource kind name o (s, u) in
  app_store x.2.1 = app_store s ∧
  match x.1 with
  | Some (Ok d) => ∃ res rt reps env,
      stored (app_store s) kind name = Ok (Some res) ∧ dispatch_target res = Some (Ok (rt, reps)) ∧
      app_published x.2.1 = app_published s ++ [(for_node TControlRun (dis_node d), MRun env)] ∧
      run_instance_id (env_payload env) = dis_instance_id d ∧
      run_name (env_payload env) = md_name (metadata res) ∧
      run_runtime (env_payload env) = rt ∧ run_replicas (env_payload env) = reps ∧
      is_Some (by_id (app_instances x.2.1) !! dis_instance_id d)
  | _ => x.2.1 = s
  end.
Proof.
  cbv zeta. unfold dispatch_resource. destruct (_ && _); [done|].
  rewrite (run_readonly _ _ _ _ _ (readonly_on_store _ (readonly_get_resource _ _ _))).
  rewrite on_store_val. set (u1 := (on_store _ o (s, u)).2.2).
  destruct (get_resource kind "_" name o (app_store s, u)).1 as [[res|]|e] eqn:Eg; try done.
  destruct (dispatch_target res) as [[[rt reps]|e]|] eqn:Et; try done.
  set (wk := if String.eqb kind "Service" then WService else WTask).
  set (gen := default 1%Z _).
  pose proof (dispatch_run wk (md_name (metadata res)) rt gen reps o s u1) as Hd.
  unfold mbind, M_bind.
  destruct (dispatch_workload _ _ _ _ _ o (s, u1)) as [r [s' u']]. cbn [fst snd] in Hd.
  destruct Hd as [e|node id i hc env _ _ Henv]; [done|].
  unfold note_dispatch, now, modify, mbind, M_bind, mret, M_ret. cbn [fst snd].
  split; [done|]. exists res, rt, reps, env. cbn [dis_node dis_instance_id]. rewrite Henv.
  split_and!; try done.
  - unfold get_resource, mbind, M_bind, mret, M_ret in Eg. rewrite query_run in Eg.
    destruct (or_fault o (us_io u)); [done|]. unfold stored.
    by destruct (db_resource (app_store s) !! (kind, "_", name)).
  - cbn. unfold record_dispatch. cbn. rewrite lookup_insert_eq. by eexists.
Qed.

Lemma stored_lookup d kind name row :
  db_resource d !! (kind, "_", name) = Some row →
  stored d kind name = (let? r := decode_body (row_body row) in Ok (Some r)).
Proof. unfold stored. by intros ->. Qed.

Lemma stored_as_found d r :
  stored_as d r → storable r → namespace_of r = "_" →
  stored d (kind_str r) (md_name (metadata r)) = Ok (Some r).
Proof.
  intros (row & Hrow & Hb) (b & Hb' & Hd) Hns. unfold key_of in Hrow. rewrite Hns in Hrow.
  rewrite (stored_lookup _ _ _ _ Hrow). unfold decode_body.
  assert (row_body row = b) as -> by congruence. by rewrite Hd.
Qed.

End effects_of_run.

(** The requests of [orion run], as computations of the controller. *)
Section run_requests.
Context {J : SerdeJson} {JM : JsonMake} {SL : ServerLib} {SW : ServerLaws} {JL : JsonLaws}
  {UT : UuidText} {RC : ResourceCodec} {TM : Rfc3339} {HO : HashOrder}
  {CL : ControllerLibs} {AL : ApiLibs}.
Context (ctx : Ctx) (to_str : string → option string) (mode : AuthMode) (auth : option string).
Context (Hauth : auth_header ctx = Ok auth) (Hpass : require_bearer to_str mode auth = Pass).

#[local] Notation send := (controller_at (ctx_controller ctx) to_str mode).

Lemma run_apply_request text o s out u :
  post_yaml send ctx "/v1/resources/apply" text o ((s, out), u) =
  let '(r, (s', u')) := apply_resource None text o (s, u) in
  (client_result enc_apply (Some r), ((s', out), u')).
Proof.
  pose proof (commands_reach_handlers (Apply false) I) as Hd.
  unfold post_yaml. rewrite (read_request_run ctx to_str mode auth Hauth Hpass enc_apply
    (never_panics (apply_resource None text)) _ _ _ _ _ _ _ _ _ _ Hd); [|by constructor|].
  - unfold never_panics, mbind, M_bind, mret, M_ret. by destruct (apply_resource None text o (s, u)) as [r [s' u']].
  - intros o' su. transitivity (answer enc_apply (apply_resource None text) o' su); [|apply run_answer].
    unfold run_handler, with_query. cbn [command_target fst snd].
    by rewrite (dry_run_query false).
Qed.

Lemma run_dispatch_request kind name o s out u :
  url_segment kind → url_segment name → canonical_kind kind = kind →
  post_empty send ctx ("/v1/dispatch/" +:+ kind +:+ "/" +:+ name) o ((s, out), u) =
  let '(r, (s', u')) := dispatch_resource kind name o (s, u) in
  (client_result enc_dispatch r, ((s', out), u')).
Proof.
  intros [Hk Hk']%url_segment_plain [Hn Hn']%url_segment_plain Hc.
  pose proof (commands_reach_handlers (DispatchCmd kind name)) as Hd.
  cbn [command_plain command_request command_target fst snd] in Hd. rewrite Hc in Hd.
  unfold post_empty. eapply (read_request_run ctx to_str mode auth Hauth Hpass enc_dispatch);
    [by apply Hd|by repeat constructor|done].
Qed.

Lemma runnable_kind kind : runnable kind = true → url_segment kind ∧ canonical_kind kind = kind.
Proof. unfold runnable. intros [->%String.eqb_eq| ->%String.eqb_eq]%orb_true_iff; repeat split; done. Qed.

Lemma println_run (l : string) o (s : AppState) out u :
  println l o ((s, out), u) = (tt, ((s, out ++ [OutLine l]), u)).
Proof. done. Qed.

(** The whole of [orion run], once the document is accepted. *)
Lemma run_cmd_run text r o s out u :
  check_local (Ok text) = Ok (text, r) → runnable (kind_str r) = true →
  url_segment (resource_name r) →
  run_cmd send ctx None (Ok text) o ((s, out), u) =
  let what := kind_str r +:+ "/" +:+ resource_name r in
  let '(a, (s1, u1)) := apply_resource None text o (s, u) in
  match client_result enc_apply (Some a) with
  | Err e => (Err e, ((s1, out), u1))
  | Ok _ =>
      let '(d, (s2, u2)) := dispatch_resource (kind_str r) (resource_name r) o (s1, u1) in
      match d with
      | Some (Ok d) =>
          (Ok tt, ((s2, (out ++ [OutLine ("applied " +:+ what)]) ++
                        [OutLine ("dispatched " +:+ kind_str r +:+ "/" +:+ resource_name r +:+ " to " +:+ dis_node d)]), u2))
      | Some (Err e) => (Err (Http (BadStatus (status_code (ae_status e)) (ae_message e))),
                         ((s2, out ++ [OutLine ("applied " +:+ what)]), u2))
      | None => (Err (Http (SendFailed "connection closed")),
                 ((s2, out ++ [OutLine ("applied " +:+ what)]), u2))
      end
  end.
Proof.
  intros Hc Hrun Hn. destruct (runnable_kind _ Hrun) as [Hk Hck]. unfold run_cmd.
  rewrite Hc, Hrun. cbn [negb]. cbv zeta. unfold mbind at 1, M_bind at 1. rewrite run_apply_request.
  destruct (apply_resource None text o (s, u)) as [a [s1 u1]].
  destruct (client_result enc_apply (Some a)) as [v|e]; [|done].
  unfold mbind at 1, M_bind at 1. rewrite println_run.
  unfold mbind at 1, M_bind at 1. rewrite run_dispatch_request by done.
  destruct (dispatch_resource _ _ o (s1, u1)) as [[[d|e]|] [s2 u2]]; cbn [client_result]; [|done..].
  rewrite dispatch_node. unfold mbind, M_bind. by rewrite println_run.
Qed.

End run_requests.

(** ** Concrete libraries *)

Definition demo_ctx : Ctx :=
  {| ctx_controller := "http://c:7878"; ctx_nats_url := "nats://c:4222"; ctx_token := None;
     ctx_output := Table |}.
Definition demo_printers : Printers (J := toy_json) :=
  @Build_Printers toy_json toy_to_text toy_to_text.
Definition demo_uuid_text : UuidText := {| uuid_to_string := λ id, pretty id |}.
Definition demo_run_libs : ApiLibs (J := toy_json) :=
  {| yaml_from_str := λ t, if String.eqb t "api" then Ok demo_api else Err "bad";
     selector_from_json := λ _, Ok CapabilitySelector_default; value_from_json := λ _, None;
     debug_str := λ s, s; http_get := λ _, Err "refused"; cargo_pkg_version := "0.1.0" |}.

(** ** Claims *)

(** C34: what the command line prints is what the controller did.  For every kind and name
    that a URL carries as they are, the commands delete, dispatch, stop and restart, and
    apply with a document that passes the local checks, run through the client, the
    bearer check, the router, the handler and the JSON in between, leave the controller
    as the handler alone does, and print the line that states the handler's outcome, or
    nothing and its error.  [delete] never prints that the resource was not there: the
    handler answers 404 then, and the command fails. *)
Theorem commands_report_handlers {J : SerdeJson} {JM : JsonMake} {SL : ServerLib}
    {SW : ServerLaws} {JL : JsonLaws} {PR : Printers} {UT : UuidText} {RC : ResourceCodec}
    {TM : Rfc3339} {HO : HashOrder} {CL : ControllerLibs} {AL : ApiLibs}
    (ctx : Ctx) (to_str : string → option string) (mode : AuthMode) (auth : option string)
    (Hauth : auth_header ctx = Ok auth) (Hpass : require_bearer to_str mode auth = Pass)
    (kind name text : string) (dry : bool) (r : Resource)
    (Hk : url_segment (canonical_kind kind)) (Hn : url_segment name)
    (Hr : check_local (Ok text) = Ok (text, r)) :
  let send := controller_at (ctx_controller ctx) to_str mode in
  let k := canonical_kind kind in
  reports (delete_cmd send ctx kind name) (never_panics (delete_resource_handler k name))
    (λ _, [OutLine ("deleted " +:+ k +:+ "/" +:+ name)]) ∧
  reports (dispatch_cmd send ctx kind name) (dispatch_resource k name)
    (λ d, OutLine ("dispatched " +:+ k +:+ "/" +:+ name +:+ " to " +:+ dis_node d +:+ " (instance " +:+
                   uuid_to_string (dis_instance_id d) +:+ ")") :: also ctx (enc_dispatch d)) ∧
  reports (stop_cmd send ctx kind name) (never_panics (stop_workload k name))
    (λ d, OutLine ("stopped " +:+ k +:+ "/" +:+ name +:+ " (" +:+ pretty (so_stopped d) +:+ " instance(s))")
          :: also ctx (enc_stop d)) ∧
  reports (restart_cmd send ctx kind name) (restart_workload k name)
    (λ d, OutLine ("restart requested for " +:+ k +:+ "/" +:+ name) :: also ctx (enc_restart d)) ∧
  reports (apply_cmd send ctx dry (Ok text))
    (never_panics (apply_resource (if dry then Some "1" else None) text))
    (λ a, OutLine (if ao_dry_run a then "[dry-run] would apply " +:+ ao_kind a +:+ "/" +:+ ao_name a
                   else "applied " +:+ ao_kind a +:+ "/" +:+ ao_name a +:+ " (generation " +:+
                        json_to_string (json_int (ao_generation a)) +:+ ")")
          :: also ctx (enc_apply a)).
Proof.
  cbv zeta. split_and!.
  - by eapply reports_delete.
  - by eapply reports_dispatch.
  - by eapply reports_stop.
  - by eapply reports_restart.
  - unfold check_local in Hr. destruct (from_yaml text) as [r'|] eqn:Hy; [|done].
    destruct (validate r') as [[]|] eqn:Hv; [|done]. by eapply reports_apply.
Qed.

(** A client for the examples: the controller of [demo_run_libs], without a token. *)
Definition demo_send : Transport AppState :=
  controller_at (JM := text_make) (SL := toy_server) (UT := demo_uuid_text)
    (RC := demo_api_codec) (TM := demo_clock) (HO := canonical_order) (CL := demo_libs) (AL := demo_run_libs)
    "http://c:7878" Some Disabled.

Lemma commands_report_handlers_witness :
  (delete_cmd (JM := text_make) (SL := toy_server) demo_send demo_ctx "services" "api" demo_oracle
     ((demo_state, []), Used_init)).1 =
  Err (Http (BadStatus 404 "Service/api not found")).
Proof.
  rewrite (proj1 (commands_report_handlers (JM := text_make) (SL := toy_server)
    (SW := toy_server_laws) (JL := text_laws) (PR := demo_printers) (UT := demo_uuid_text)
    (RC := demo_api_codec) (TM := demo_clock) (HO := canonical_order) (CL := demo_libs) (AL := demo_run_libs)
    demo_ctx Some Disabled None eq_refl eq_refl "services" "api" "api" false demo_api
    ltac:(by split) ltac:(by split) eq_refl)).
  vm_compute. reflexivity.
Defined.



Lemma find_app {A} (f : A → bool) l k :
  List.find f (l ++ k) = match List.find f l with Some x => Some x | None => List.find f k end.
Proof. induction l as [|x l IH]; [done|]. simpl. by destruct (f x). Qed.

(** The table of [orion instances] never says when an instance started: it looks for a
    field [started_at], which the controller's record does not have, so that column is a
    question mark in every row.  The other columns are the record's. *)
Theorem instances_started_unknown {J : SerdeJson} {JM : JsonMake} {SL : ServerLib}
    {SW : ServerLaws} {JL : JsonLaws} {UT : UuidText} (r : InstanceRecord) :
  instance_row (enc_instance r) =
  [ir_kind r; ir_name r; json_to_string (json_int (ir_replica_index r)); default "?" (ir_node r);
   "?"; take_chars 8 (uuid_to_string (ir_instance_id r))].
Proof.
  unfold instance_row, str_at, enc_instance. rewrite !obj_get. set (rest := skip_none "exited_at" _ _ ++ _).
  assert (∀ k, k = "started_at" ∨ k = "startedAt" →
    List.find (λ kv, String.eqb k kv.1) rest = None) as Hn.
  { intros k [-> | ->]; unfold rest;
      destruct (ir_exited_at r), (ir_exit_code r), (ir_exit_kind r); done. }
  clearbody rest. rewrite !find_app, (Hn "started_at"), (Hn "startedAt") by auto. cbn.
  unfold enc_uuid. rewrite !as_str_string. destruct (ir_node r); cbn.
  - by rewrite as_str_string.
  - by rewrite null_not_str.
Qed.
