(* ===== verification/McpRun.v ===== *)
(** * MCP tool calls against the controller

    [call_tool] of Mcp.v (crates/orion-mcp/src/lib.rs) with the server of Server.v at the
    other end: what a tool call returns, and what it does to the controller, are what the
    handler the tool is meant for returns and does. *)

From Stdlib Require Import ZArith Lia Bool Ascii.
From stdpp Require Import base list gmap strings pretty.
From S2P Require Import Prelude Text Types Effect Parse Store Registry Controller Dispatch Api System Auth Docker Mcp Server CliText Cli CliRun.

(** [req.bearer_auth(t)]: the bytes a header value may have; other tokens are an error of
    [send]. *)
Definition header_char (c : ascii) : bool :=
  let n := N_of_ascii c in ((32 <=? n)%N && negb (n =? 127)%N) || (n =? 9)%N.
Definition bearer_header (token : option string) : result (option string) string :=
  match token with
  | None => Ok None
  | Some t => if all_chars header_char t then Ok (Some ("Bearer " +:+ t)) else Err "builder error"
  end.

Section calls.
Context {J : SerdeJson} {JM : JsonMake} {SL : ServerLib} {SW : ServerLaws} {UT : UuidText}
  {RC : ResourceCodec} {TM : Rfc3339} {HO : HashOrder} {CL : ControllerLibs} {AL : ApiLibs}.
(** The server, and [Display for StatusCode]. *)
Context (to_str : string → option string) (mode : AuthMode) (status_text : Z → string).

Definition body_text (b : ReqBody) : string :=
  match b with NoBody => "" | YamlBody text => text | JsonBody v => json_to_string v end.

(** The request of a tool, sent to the server at [base], and what the client gives back. *)
Definition tool_send (base : string) (req : ToolRequest) (token : option string)
    : M AppState (result (bool * string * string) string) :=
  match bearer_header token with
  | Err e => mret (Err e)
  | Ok auth =>
      r ← controller_at base to_str mode (tr_method req) (tr_url req) auth (body_text (tr_body req));
      mret (match r with
            | Unreachable e => Err e
            | Answer status text => Ok (is_success status, status_text status, text)
            end)
  end.

(** [call_tool] with that client: its result, and the state after the request it sent. *)
Definition call_tool_at (controller : string) (token : option string) (tool : string) (args : Value)
    : M AppState (result Value string) := λ o su,
  let base := trim_end_matches (Ascii.eqb slash) controller in
  (call_tool (λ req t, (tool_send base req t o su).1) controller token tool args,
   match tool_request base tool args with
   | Ok req => (tool_send base req token o su).2
   | Err _ => su
   end).

(** The body the tool's handler should get. *)
Definition tool_payload (tool : string) (args : Value) : string :=
  if String.eqb tool "orion_apply_resource" then str_arg args "yaml"
  else if String.eqb tool "orion_find_capability"
  then from_option json_to_string "" (value_get args "selector")
  else "".

(** What the caller should see of a response; [None] is a connection that was closed. *)
Definition tool_result (r : option Response) : result Value string :=
  match r with
  | None => Err "connection closed"
  | Some rsp =>
      if is_success (rsp_status rsp)
      then Ok (default (json_string (rsp_body rsp)) (json_from_str (rsp_body rsp)))
      else Err ("controller returned " +:+ status_text (rsp_status rsp) +:+ ": " +:+ rsp_body rsp)
  end.

Lemma request_payload base tool args req :
  tool_request base tool args = Ok req → body_text (tr_body req) = tool_payload tool args.
Proof.
  unfold tool_request, tool_payload, kind_name_request, str_arg. intros H.
  repeat match type of H with
  | (if String.eqb tool ?x then _ else _) = _ =>
      destruct (String.eqb_spec tool x) as [->|_]
  end; try done; try (by injection H as <-); cbn [String.eqb Ascii.eqb Bool.eqb].
  1-4: destruct (arg_str args "kind"), (arg_str args "name"); try done; by injection H as <-.
  - destruct (arg_str args "yaml"); [|done]. by injection H as <-.
  - destruct (value_get args "selector"); [|done]. by injection H as <-.
Qed.

Lemma unknown_tool base tool args :
  tool_target tool args = None → tool_request base tool args = Err ("unknown tool '" +:+ tool +:+ "'").
Proof.
  unfold tool_target, tool_request. cbn [List.find fst].
  repeat match goal with
  | |- context [String.eqb ?x tool] => destruct (String.eqb_spec x tool) as [<-|?]; [done|]
  end.
  intros _. repeat match goal with
  | Hn : ?x ≠ tool |- context [String.eqb tool ?x] =>
      rewrite (proj2 (String.eqb_neq tool x) (not_eq_sym Hn)); clear Hn
  end. done.
Qed.

Lemma url_segment_bare s : url_segment s → bare_segment s.
Proof. intros [[Hs Hq] Hp]%url_segment_plain. by split_and!. Qed.

Lemma path_guarded_handled m path h params g :
  dispatch_path m path = Handled h params g → path_guarded path = g.
Proof.
  unfold dispatch_path, path_guarded. destruct (best_match (segments path)) as [[r ps]|]; [|done].
  by destruct (List.find _ _) as [[? ?]|]; [intros [= _ _ <-]|].
Qed.

(** A request to a guarded route. *)
Lemma tool_send_run base m path query h params body token auth o s u :
  bearer_header token = Ok auth →
  dispatch_path m path = Handled h params true → has_char "?" path = false →
  Forall (λ p, has_char "%" p = false) params →
  tool_send base {| tr_method := m; tr_url := base +:+ path +:+ query; tr_body := body |} token o (s, u) =
  (λ y : option Response * (AppState * Used),
     (match y.1 with
      | Some rsp => Ok (is_success (rsp_status rsp), status_text (rsp_status rsp), rsp_body rsp)
      | None => Err "connection closed"
      end, y.2))
  (if String.eqb query "" || starts_with "?" query then
     match require_bearer to_str mode auth with
     | Pass => run_handler h params (match query with String _ q => q | "" => "" end) (body_text body) o (s, u)
     | Reject msg => (Some {| rsp_status := 401; rsp_body := msg |}, (s, u))
     end
   else
     serve_http to_str mode {| hr_method := m; hr_target := path +:+ query;
       hr_authorization := auth; hr_body := body_text body |} o (s, u)).
Proof.
  intros Ha Hd Hq Hp. unfold tool_send. rewrite Ha. unfold controller_at. cbn [tr_method tr_url tr_body].
  rewrite (proj2 (strip_prefix_Some _ _ (path +:+ query))) by done.
  unfold mbind, M_bind, mret, M_ret.
  set (y := serve_http _ _ _ o (s, u)).
  assert (∀ z : option Response * (AppState * Used), y = z →
    (let '(a, su1) := let '(a0, su1) := y in (reply_of a0, su1) in
     (match a with Unreachable e => Err e
      | Answer status text => Ok (is_success status, status_text status, text) end, su1)) =
    (match z.1 with
     | Some rsp => Ok (is_success (rsp_status rsp), status_text (rsp_status rsp), rsp_body rsp)
     | None => Err "connection closed" end, z.2)) as Hz.
  { intros z ->. by destruct z as [[rsp|] su]. }
  apply Hz. unfold y. destruct (String.eqb query "" || starts_with "?" query) eqn:Eq; [|done].
  assert (request_path (path +:+ query) = path ∧
          request_query (path +:+ query) = match query with String _ q => q | "" => "" end) as [Hrp Hrq].
  { unfold request_path, request_query. destruct query as [|c q].
    - rewrite string_app_nil_r. assert (split_once "?" path = None) as ->; [|done].
      clear -Hq. induction path as [|c s IH]; [done|]. simpl in Hq. apply orb_false_iff in Hq as [Hc Hs].
      cbn [split_once strip_prefix]. by rewrite Ascii.eqb_sym, Hc, IH.
    - cbn [String.eqb orb] in Eq. unfold starts_with in Eq. cbn [strip_prefix] in Eq.
      destruct (Ascii.eqb_spec "?" c) as [<-|]; [|done].
      by rewrite (split_once_char "?" path q) by done. }
  unfold serve_http. cbn [hr_target hr_authorization]. rewrite Hrp, (path_guarded_handled _ _ _ _ _ Hd).
  destruct (require_bearer to_str mode auth); [|done].
  unfold route_request. cbn [hr_method hr_target hr_body]. rewrite Hrp, Hrq, Hd.
  by rewrite decode_plain_params.
Qed.

End calls.

(** ** Claims *)

(** C31: every tool call is carried out by the handler it is meant for.  A tool that is not
    known or lacks an argument is an error, and nothing is sent.  Otherwise, when the kind
    and the name are made of characters that a URL carries as they are, and the controller
    accepts the token: the state is what the tool's handler makes of it, given that kind,
    that name and the payload of the tool, and the caller gets what the handler answered,
    its JSON when it succeeds and an error with status and text when it does not.  With a
    token that is not accepted the controller is left as it was and the caller gets the
    refusal.  (Names with other characters go into the URL unescaped; see
    [unescaped_name_deletes_other].) *)
Theorem tool_calls_reach_handlers {J : SerdeJson} {JM : JsonMake} {SL : ServerLib} {SW : ServerLaws}
    {UT : UuidText} {RC : ResourceCodec} {TM : Rfc3339} {HO : HashOrder} {CL : ControllerLibs}
    {AL : ApiLibs} (to_str : string → option string) (mode : AuthMode) (status_text : Z → string)
    (controller : string) (token auth : option string) (tool : string) (args : Value)
    (o : Oracle) (s : AppState) (u : Used)
    (Htok : bearer_header token = Ok auth)
    (Hseg : ∀ key x, key ∈ ["kind"; "name"] → arg_str args key = Ok x → url_segment x) :
  let x := call_tool_at to_str mode status_text controller token tool args o (s, u) in
  (tool_target tool args = None → x = (Err ("unknown tool '" +:+ tool +:+ "'"), (s, u))) ∧
  match tool_request (trim_end_matches (Ascii.eqb slash) controller) tool args with
  | Err e => x = (Err e, (s, u))
  | Ok _ =>
      match require_bearer to_str mode auth with
      | Reject msg => x = (Err ("controller returned " +:+ status_text 401%Z +:+ ": " +:+ msg), (s, u))
      | Pass => ∃ h params, tool_target tool args = Some (h, params) ∧
          let y := run_handler h params "" (tool_payload tool args) o (s, u) in
          x = (tool_result status_text y.1, y.2)
      end
  end.
Proof.
  cbv zeta. unfold call_tool_at, call_tool. set (base := trim_end_matches _ controller). split.
  { intros Hn. by rewrite (unknown_tool base tool args Hn). }
  destruct (tool_request base tool args) as [req|e] eqn:E; [|done].
  destruct (tool_request_routed base tool args req E) as (path & h & params & Hurl & Ht & Hd & Hq & Hp).
  { intros key x Hk Hx. by apply url_segment_bare, (Hseg key). }
  pose proof (request_payload base tool args req E) as Hb.
  destruct req as [m url body]. cbn [tr_url tr_method tr_body] in *. subst url.
  pose proof (tool_send_run to_str mode status_text base m path "" h params body token auth o s u
    Htok Hd Hq Hp) as Hs.
  rewrite string_app_nil_r in Hs. cbn [String.eqb orb] in Hs. rewrite Hs, Hb. cbn [fst snd].
  destruct (require_bearer to_str mode auth) as [|msg]; [|done].
  exists h, params. split; [done|]. unfold tool_result.
  destruct (run_handler h params "" (tool_payload tool args) o (s, u)) as [[rsp|] su]; cbn [fst snd];
    [|done]. by destruct (is_success (rsp_status rsp)).
Qed.

Definition demo_call : Value (SerdeJson := toy_json) :=
  TObj [("kind", TStr "Service"); ("name", TStr "api")].

(** Deleting "Service/api" with a token: the controller answers that it deleted it. *)
Lemma tool_calls_reach_handlers_witness :
  let y := answer (SL := toy_server) (enc_delete (JM := text_make))
             (delete_resource_handler "Service" "api") demo_oracle (demo_state, Used_init) in
  call_tool_at (JM := text_make) (SL := toy_server) (UT := demo_uuid_text) (RC := demo_api_codec)
    (TM := demo_clock) (HO := canonical_order) (CL := demo_libs) (AL := demo_run_libs) Some
    (Enforce "t") pretty "http://c/" (Some "t") "orion_delete_resource" demo_call demo_oracle
    (demo_state, Used_init) =
  (tool_result (JM := text_make) pretty y.1, y.2).
Proof.
  cbv zeta.
  destruct (tool_calls_reach_handlers (JM := text_make) (SL := toy_server) (SW := toy_server_laws)
    (UT := demo_uuid_text) (RC := demo_api_codec) (TM := demo_clock) (HO := canonical_order)
    (CL := demo_libs) (AL := demo_run_libs) Some (Enforce "t") pretty "http://c/" (Some "t")
    (Some "Bearer t") "orion_delete_resource" demo_call demo_oracle demo_state Used_init) as [_ H].
  - reflexivity.
  - intros key x Hk Hx. rewrite !elem_of_cons, elem_of_nil in Hk.
    destruct Hk as [->|[->|[]]]; injection Hx as <-; by split.
  - assert (require_bearer Some (Enforce "t") (Some "Bearer t") = Pass) as E by (vm_compute; reflexivity).
    rewrite E in H. destruct H as (h & params & Ht & H). injection Ht as <- <-. exact H.
Defined.

(** The kind and the name are put into the URL as they are.  A name with a question mark is
    cut there: the tool that should delete [n?q] deletes [n]. *)
Theorem unescaped_name_deletes_other {J : SerdeJson} {JM : JsonMake} {SL : ServerLib} {SW : ServerLaws}
    {UT : UuidText} {RC : ResourceCodec} {TM : Rfc3339} {HO : HashOrder} {CL : ControllerLibs}
    {AL : ApiLibs} (to_str : string → option string) (mode : AuthMode) (status_text : Z → string)
    (controller : string) (token auth : option string) (args : Value) (k n q : string)
    (o : Oracle) (s : AppState) (u : Used)
    (Htok : bearer_header token = Ok auth) (Hpass : require_bearer to_str mode auth = Pass)
    (Hkind : arg_str args "kind" = Ok k) (Hname : arg_str args "name" = Ok (n +:+ String "?" q))
    (Hk : url_segment k) (Hn : url_segment n) :
  let y := answer enc_delete (delete_resource_handler k n) o (s, u) in
  call_tool_at to_str mode status_text controller token "orion_delete_resource" args o (s, u) =
  (tool_result status_text y.1, y.2).
Proof.
  cbv zeta. unfold call_tool_at, call_tool. set (base := trim_end_matches _ controller).
  assert (tool_request base "orion_delete_resource" args =
    Ok {| tr_method := DELETE; tr_url := base +:+ ("/v1/resources/" +:+ k +:+ "/" +:+ n) +:+ String "?" q;
          tr_body := NoBody |}) as ->.
  { change (tool_request base "orion_delete_resource" args) with
      (kind_name_request DELETE (base +:+ "/v1/resources/") args).
    unfold kind_name_request. rewrite Hkind, Hname. unfold plain_request. by rewrite !string_app_assoc. }
  apply url_segment_bare in Hk as (Hk & Hkq & Hkp). apply url_segment_bare in Hn as (Hn & Hnq & Hnp).
  rewrite (tool_send_run to_str mode status_text base DELETE _ (String "?" q) H_delete_resource [k; n]
    NoBody token auth o s u Htok).
  - cbn [String.eqb orb]. assert (starts_with "?" (String "?" q) = true) as -> by done. rewrite Hpass.
    cbn [body_text]. change (run_handler H_delete_resource [k; n] q "") with
      (answer enc_delete (delete_resource_handler k n)).
    unfold tool_result. destruct (answer _ _ o (s, u)) as [[rsp|] su]; cbn [fst snd]; [|done].
    by destruct (is_success (rsp_status rsp)).
  - change ("/v1/resources/" +:+ k +:+ "/" +:+ n) with
      ("/v1/" +:+ "resources" +:+ String slash (k +:+ String slash n)).
    eapply route_kind_name; try done; [rewrite four_segment_routes; by left|reflexivity].
  - rewrite !has_char_app, Hkq, Hnq. reflexivity.
  - by repeat constructor.
Qed.
