(* ===== verification/CliTools.v ===== *)
(** * Tools of the command line (crates/orion-cli/src/cmd)

    The commands that do more than one request: inline selectors ([find]), one-shot tasks
    ([exec]), the health report ([doctor]), and the paths of a scaffolded processor
    ([init]). *)

From Stdlib Require Import ZArith Lia Bool Ascii.
From stdpp Require Import base list gmap strings pretty.
From S2P Require Import Prelude Text Types Parse Effect Docker Bus Outbox Generate CliText.

(** ** Inline selectors (cmd/find.rs) *)

Section find.
Context {J : SerdeJson} {JM : JsonMake}.

Inductive FindError : Type := NoEquals (r : string) | NoDot (lhs : string).

Fixpoint build_inline_into (out : gmap string (gmap string Value)) (reqs : list string)
    : result (gmap string (gmap string Value)) FindError :=
  match reqs with
  | [] => Ok out
  | r :: rest =>
      match split_once "=" r with
      | None => Err (NoEquals r)
      | Some (lhs, raw) =>
          match split_once "." lhs with
          | None => Err (NoDot lhs)
          | Some (cap, attr) =>
              let val := default (json_string raw) (json_from_str raw) in
              let entry := default ∅ (out !! cap) in
              build_inline_into (<[cap := <[attr := val]> entry]> out) rest
          end
      end
  end.

(** The value whose text is posted. *)
Definition build_inline (reqs : list string) : result Value FindError :=
  let? out := build_inline_into ∅ reqs in Ok (json_object (json_object <$> out)).

End find.

(** ** One-shot tasks (cmd/shell.rs) *)

Record ExecArgs : Type := {
  ex_name : option string;
  ex_runtime : string;
  ex_image : option string;
  ex_env : list string;
  ex_keep : bool;
  ex_argv : list string
}.

Inductive ExecError : Type := NothingToExec | ExecImageRequired | ExecUnreachable.

(** [short_id]. *)
Definition exec_short_id {U : UuidText} (id : Uuid) : string := take_chars 8 (uuid_to_string id).
Definition exec_name {U : UuidText} (id : Uuid) (a : ExecArgs) : string :=
  default ("oexec-" +:+ exec_short_id id) (ex_name a).

Definition exec_runtime (a : ExecArgs) : result Mapping ExecError :=
  let m := [("kind", YStr (ex_runtime a))] in
  match ex_argv a with
  | [] => Err NothingToExec
  | exec :: rest =>
      if String.eqb (ex_runtime a) "native" then
        Ok (y_insert "args" (YSeq (YStr <$> rest)) (y_insert "exec" (YStr exec) m))
      else if String.eqb (ex_runtime a) "docker" then
        match ex_image a with
        | None => Err ExecImageRequired
        | Some image =>
            Ok (y_insert "args" (YSeq (YStr <$> ex_argv a)) (y_insert "image" (YStr image) m))
        end
      else Err ExecUnreachable
  end.

(** The document of the task; pairs without [=] are dropped. *)
Definition exec_document {U : UuidText} (id : Uuid) (a : ExecArgs) : result Y ExecError :=
  let env := foldl add_env [] (ex_env a) in
  let? runtime := exec_runtime a in
  let runtime := match env with [] => runtime | _ => y_insert "env" (YMap env) runtime end in
  Ok (YMap [("apiVersion", YStr "orionmesh.dev/v1"); ("kind", YStr "Task");
            ("metadata", YMap [("name", YStr (exec_name id a))]);
            ("spec", YMap [("runtime", YMap runtime)])]).

Inductive ExecStep : Type := ExApply | ExDispatch | ExLogs | ExDelete.

(** The requests [orion exec] makes, given which of them succeed; the first failure
    but the deletion's ends it. *)
Definition exec_steps (ok : ExecStep → bool) (watch keep : bool) : list ExecStep :=
  ExApply :: if negb (ok ExApply) then [] else
  ExDispatch :: if negb (ok ExDispatch) then [] else
  (if watch then [ExLogs] else []) ++
  (if watch && negb (ok ExLogs) then [] else if keep then [] else [ExDelete]).

(** ** The health report (cmd/doctor.rs) *)

Inductive Level : Type := LvlOk | LvlWarn | LvlFail | LvlNote.

(** A line of the report: its level and its area; the message and the detail are text. *)
Definition ReportLine : Type := Level * string.

(** What the probes found; [None] is a probe that timed out, or the diagnostics the
    controller did not give. *)
Record Probes : Type := {
  pr_health : option (result unit string);
  pr_nodes : result nat string;
  pr_broker : result unit string;
  pr_streams : option nat;
  pr_auth_disabled : option bool
}.

Definition controller_line (p : Probes) : ReportLine :=
  match pr_health p with
  | Some (Ok _) => (LvlOk, "controller")
  | Some (Err _) | None => (LvlFail, "controller")
  end.

Definition agents_line (p : Probes) : ReportLine :=
  match pr_nodes p with
  | Ok n => if n =? 0 then (LvlWarn, "agents") else (LvlOk, "agents")
  | Err _ => (LvlFail, "agents")
  end.

Definition broker_lines (p : Probes) : list ReportLine :=
  match pr_broker p with
  | Ok _ => [(LvlOk, "broker");
             match pr_streams p with Some _ => (LvlOk, "jetstream") | None => (LvlWarn, "jetstream") end]
  | Err _ => [(LvlFail, "broker")]
  end.

Definition auth_lines (p : Probes) : list ReportLine :=
  match pr_auth_disabled p with
  | Some disabled => [(if disabled then LvlWarn else LvlOk, "auth"); (LvlNote, "")]
  | None => []
  end.

Definition doctor_report (no_nats : bool) (p : Probes) : list ReportLine :=
  controller_line p :: agents_line p :: (if no_nats then [] else broker_lines p) ++ auth_lines p.

Definition is_fail (l : ReportLine) : bool := match l.1 with LvlFail => true | _ => false end.
Definition n_fail (report : list ReportLine) : nat := length (List.filter is_fail report).

Definition doctor_exit (no_nats no_fail : bool) (p : Probes) : Z :=
  if (0 <? n_fail (doctor_report no_nats p)) && negb no_fail then 1%Z else 0%Z.

(** ** Scaffolding (cmd/init.rs)

    A canonical path is its components below the root. *)

Notation CanonicalPath := (list string) (only parsing).

Definition parent (p : CanonicalPath) : option CanonicalPath :=
  match p with [] => None | _ => Some (removelast p) end.

Definition java_package : CanonicalPath :=
  ["src"; "main"; "java"; "io"; "orionmesh"; "processor"].

(** The file each scaffold returns as the template. *)
Definition template_of (dir : CanonicalPath) (lang : string) : option CanonicalPath :=
  if String.eqb lang "python" then Some (dir ++ ["processor.py"])
  else if String.eqb lang "java" then Some (dir ++ java_package ++ ["Processor.java"])
  else if String.eqb lang "rust" then Some (dir ++ ["src"; "main.rs"])
  else None.

(** The command of [build_service_yaml]: the program, and the path among its arguments. *)
Definition service_command (name lang : string) (template_abs : CanonicalPath)
    : option (string * CanonicalPath) :=
  if String.eqb lang "python" then Some ("python", template_abs)
  else if String.eqb lang "java" then
    Some ("java", match parent template_abs ≫= parent with
                  | Some p => p ++ ["target"; name +:+ ".jar"]
                  | None => [name +:+ ".jar"]
                  end)
  else if String.eqb lang "rust" then
    p ← parent template_abs; p ← parent p; Some ("cargo", p ++ ["Cargo.toml"])
  else None.

(** What the scaffold's own build leaves for the command to run: the source, the jar of
    [mvn package] in the project directory, the manifest. *)
Definition built_artifact (dir : CanonicalPath) (name lang : string) : option CanonicalPath :=
  if String.eqb lang "python" then Some (dir ++ ["processor.py"])
  else if String.eqb lang "java" then Some (dir ++ ["target"; name +:+ ".jar"])
  else if String.eqb lang "rust" then Some (dir ++ ["Cargo.toml"])
  else None.

(** [write_file]: an existing file is kept unless forced. *)
Definition write_file (fs : gmap string string) (path contents : string) (force : bool)
    : gmap string string :=
  if bool_decide (is_Some (fs !! path)) && negb force then fs else <[path := contents]> fs.

(** ** Lemmas: selectors *)

Section selectors.
Context {J : SerdeJson} {JM : JsonMake}.

(** The capability, attribute and value of one requirement. *)
Definition requirement_of (r : string) : option (string * string * Value) :=
  lr ← split_once "=" r; ca ← split_once "." lr.1;
  Some (ca.1, ca.2, default (json_string lr.2) (json_from_str lr.2)).

(** The value the last requirement on a capability's attribute gives. *)
Definition required (reqs : list (string * string * Value)) (cap attr : string) : option Value :=
  snd <$> last (filter (λ r, r.1 = (cap, attr)) reqs).

Definition selected (out : gmap string (gmap string Value)) (cap attr : string) : option Value :=
  m ← out !! cap; m !! attr.

Lemma selected_insert out cap attr v cap' attr' :
  selected (<[cap := <[attr := v]> (default ∅ (out !! cap))]> out) cap' attr' =
  if decide ((cap, attr) = (cap', attr')) then Some v else selected out cap' attr'.
Proof.
  unfold selected. destruct (decide (cap = cap')) as [<-|Hc].
  - rewrite lookup_insert_eq. simpl. destruct (decide (attr = attr')) as [<-|Ha].
    + rewrite lookup_insert_eq. by rewrite decide_True.
    + rewrite lookup_insert_ne by done. rewrite decide_False by congruence.
      by destruct (out !! cap).
  - rewrite lookup_insert_ne by done. by rewrite decide_False by congruence.
Qed.

Lemma build_inline_into_spec out reqs :
  match mapM requirement_of reqs with
  | Some rs => ∃ out', build_inline_into out reqs = Ok out' ∧
      ∀ cap attr, selected out' cap attr =
        match required rs cap attr with Some v => Some v | None => selected out cap attr end
  | None => ∃ e, build_inline_into out reqs = Err e
  end.
Proof.
  revert out. induction reqs as [|r reqs IH]; intros out; [by exists out|].
  cbn [mapM build_inline_into]. unfold requirement_of at 2.
  destruct (split_once "=" r) as [[lhs raw]|]; cbn [mbind option_bind fst snd]. 2: { by eexists. }
  destruct (split_once "." lhs) as [[cap attr]|]; cbn [mbind option_bind fst snd]; [|by eexists].
  set (v := default _ _). set (out1 := <[cap := _]> out). specialize (IH out1).
  destruct (mapM requirement_of reqs) as [rs|]; [|done]. destruct IH as (out' & Ho & Hs).
  exists out'. split; [done|]. intros cap' attr'. rewrite Hs. unfold out1. rewrite selected_insert.
  unfold required. rewrite filter_cons. cbn [fst].
  destruct (decide ((cap, attr) = (cap', attr'))) as [E|E].
  - rewrite last_cons. destruct (last (filter _ rs)); [done|]. simpl. done.
  - done.
Qed.

End selectors.

(** ** Lemmas: one-shot tasks *)

Lemma decode_str_map_nonempty env g : decode_str_map env = Some g → decode_env (YMap env) = Some g.
Proof. done. Qed.

(** The runtime block of [orion exec] with its environment. *)
Lemma exec_env_field m env g :
  y_get m "env" = None → decode_str_map env = Some g →
  default_field (match env with [] => m | _ => y_insert "env" (YMap env) m end) "env" decode_env ∅
  = Some g.
Proof.
  intros Hm Hg. destruct env as [|kv env].
  - unfold default_field. rewrite Hm. exact Hg.
  - unfold default_field. by rewrite y_get_insert_eq.
Qed.

Lemma exec_other_field k m (env : Mapping) :
  k ≠ "env" → y_get (match env with [] => m | _ => y_insert "env" (YMap env) m end) k = y_get m k.
Proof. intros Hk. destruct env; [done|]. by apply y_get_insert_ne. Qed.

Lemma exec_other_default {A} k m (env : Mapping) (f : Y → option A) d :
  k ≠ "env" →
  default_field (match env with [] => m | _ => y_insert "env" (YMap env) m end) k f d =
  default_field m k f d.
Proof. intros Hk. unfold default_field. by rewrite exec_other_field. Qed.

(** The runtime the arguments ask for. *)
Definition exec_runtime_of (a : ExecArgs) : option Runtime :=
  let env := foldl kv_add ∅ (ex_env a) in
  match ex_argv a with
  | [] => None
  | exec :: rest =>
      if String.eqb (ex_runtime a) "native" then Some (RNative exec rest env)
      else if String.eqb (ex_runtime a) "docker" then
        (λ image, RDocker image (ex_argv a) env []) <$> ex_image a
      else None
  end.

Lemma exec_runtime_decodes a m :
  exec_runtime a = Ok m →
  let env := foldl add_env [] (ex_env a) in
  ∃ rt, exec_runtime_of a = Some rt ∧
    decode_runtime (YMap (match env with [] => m | _ => y_insert "env" (YMap env) m end)) = Some rt.
Proof.
  intros H. cbv zeta. set (env := foldl add_env [] (ex_env a)).
  assert (decode_str_map env = Some (foldl kv_add ∅ (ex_env a))) as Hg by (by apply add_env_decodes).
  unfold exec_runtime in H. unfold exec_runtime_of.
  destruct (ex_argv a) as [|exec rest]; [done|].
  unfold decode_runtime, field. cbn [decode_map mbind option_bind].
  rewrite (exec_other_field "kind"), (exec_other_field "exec"), (exec_other_field "image"),
    (exec_other_default "args"), (exec_other_default "ports") by done.
  destruct (String.eqb_spec (ex_runtime a) "native") as [E|E].
  - injection H as <-. erewrite exec_env_field by (reflexivity || exact Hg). rewrite E.
    eexists. split; [done|]. simpl. unfold default_field. simpl. by rewrite decode_strs.
  - destruct (String.eqb_spec (ex_runtime a) "docker") as [E2|]; [|done].
    destruct (ex_image a) as [image|]; [|done]. injection H as <-.
    erewrite exec_env_field by (reflexivity || exact Hg). rewrite E2.
    eexists. split; [done|]. simpl. unfold default_field. simpl. by rewrite decode_strs.
Qed.

(** ** Claims *)

(** The selector of [orion find -r] asks for what was written.  When every
    requirement has the form CAP.ATTR=VALUE the posted object holds, under each
    capability and attribute, the value of the last requirement on it, read as JSON when
    it is JSON and as a string otherwise, and nothing else; any other requirement is
    refused before a request is made. *)
Theorem find_inline_selector {J : SerdeJson} {JM : JsonMake} {JL : JsonLaws} (reqs : list string) :
  match mapM requirement_of reqs with
  | Some rs => ∃ sel, build_inline reqs = Ok sel ∧
      ∀ cap attr, (m ← value_get sel cap; value_get m attr) = required rs cap attr
  | None => ∃ e, build_inline reqs = Err e
  end.
Proof.
  pose proof (build_inline_into_spec ∅ reqs) as H. unfold build_inline.
  destruct (mapM requirement_of reqs) as [rs|].
  - destruct H as (out & -> & Hs). eexists. split; [done|]. intros cap attr.
    rewrite get_object, lookup_fmap. specialize (Hs cap attr). unfold selected in Hs.
    rewrite lookup_empty in Hs. simpl in Hs. destruct (out !! cap) as [m|]; simpl in *.
    + rewrite get_object, Hs. by destruct (required rs cap attr).
    + by destruct (required rs cap attr).
  - destruct H as [e ->]. by exists e.
Qed.

(** [orion exec] runs what was typed.  The document of the task, read back as the
    controller reads it, is a Task of the chosen name whose runtime runs the typed
    command with its arguments and the pairs of [--env] that have an equals sign; an
    empty command and a docker task without an image are refused.  The task is deleted
    again only when it was applied and dispatched (and its logs could be read, when they
    are watched): a dispatch that fails leaves it behind. *)
Theorem exec_runs_what_was_typed {J : SerdeJson} {U : UuidText} (id : Uuid) (a : ExecArgs) :
  (match exec_document id a with
   | Ok y => ∃ rt, exec_runtime_of a = Some rt ∧
       decode_resource y = Some (resource_of (exec_name id a) ∅
         (BTask {| task_runtime := Some rt; task_placement := Placement_default;
            task_requires := CapabilitySelector_default; task_prefer_data_locality := false;
            task_timeout_seconds := None; task_retry := None |} None))
   | Err _ => exec_runtime_of a = None
   end) ∧
  (∀ ok watch keep, ExDelete ∈ exec_steps ok watch keep ↔
     ok ExApply = true ∧ ok ExDispatch = true ∧ (watch = true → ok ExLogs = true) ∧ keep = false).
Proof.
  split.
  - unfold exec_document. destruct (exec_runtime a) as [m|e] eqn:E.
    + destruct (exec_runtime_decodes a m E) as (rt & Hrt & Hd). exists rt. split; [done|].
      unfold decode_resource, field. simpl. unfold decode_body. simpl. unfold decode_task. simpl.
      unfold opt_field. simpl. cbv zeta in Hd. by rewrite Hd.
    + unfold exec_runtime in E. unfold exec_runtime_of. destruct (ex_argv a); [done|].
      destruct (String.eqb _ "native"); [done|]. destruct (String.eqb _ "docker"); [|done].
      by destruct (ex_image a).
  - intros ok watch keep. unfold exec_steps.
    destruct (ok ExApply), (ok ExDispatch), watch, (ok ExLogs), keep; simpl; set_solver.
Qed.

(** The exit code of [orion doctor] is 1 exactly when failures count and the controller
    did not answer in time or well, the node list could not be read, or the broker was
    probed and refused the connection. *)
Theorem doctor_exit_code (no_nats no_fail : bool) (p : Probes) :
  doctor_exit no_nats no_fail p = 1%Z ↔
  no_fail = false ∧
  (pr_health p ≠ Some (Ok tt) ∨ (∃ e, pr_nodes p = Err e) ∨
   (no_nats = false ∧ ∃ e, pr_broker p = Err e)).
Proof.
  unfold doctor_exit, n_fail, doctor_report, controller_line, agents_line, broker_lines, auth_lines.
  destruct p as [[[[]|e1]|] [n|e2] [[]|e3] [k|] [[]|]], no_nats, no_fail; simpl;
    try (destruct (n =? 0)); simpl; split; try done; naive_solver.
Qed.

(** A scaffolded service runs what its project builds, but for Java.  For Python and
    Rust the path in the generated Service is the source, or the manifest, of the
    project; for Java it is a jar two directories above the class file, inside the source
    tree, and never the one Maven leaves in the project's target directory.  Files that
    are there are kept unless forced. *)
Theorem scaffold_paths (dir : list string) (name lang : string) (fs : gmap string string)
    (path contents : string) :
  (lang ∈ ["python"; "rust"] →
   snd <$> (template_of dir lang ≫= service_command name lang) = built_artifact dir name lang) ∧
  (∃ p, template_of dir "java" ≫= service_command name "java" = Some ("java", p) ∧
        p = dir ++ ["src"; "main"; "java"; "io"; "orionmesh"; "target"; name +:+ ".jar"] ∧
        built_artifact dir name "java" ≠ Some p) ∧
  (∀ old, fs !! path = Some old → write_file fs path contents false = fs) ∧
  write_file fs path contents true !! path = Some contents ∧
  write_file (write_file fs path contents false) path contents false = write_file fs path contents false.
Proof.
  assert (∀ l : list string, l ≠ [] → parent l = Some (removelast l)) as Hpar by (by intros [|x l]).
  assert (∀ (l l' : list string), l' ≠ [] → parent (l ++ l') = Some (l ++ removelast l')) as Hp.
  { intros l l' Hl. rewrite Hpar by (by destruct l). by rewrite removelast_app. }
  split_and!.
  - rewrite !elem_of_cons, elem_of_nil. intros [->|[->|[]]]; [done|].
    unfold template_of, service_command. cbn [String.eqb Ascii.eqb Bool.eqb mbind option_bind].
    rewrite Hp by done. cbn [mbind option_bind]. rewrite Hp by done. simpl. by rewrite app_nil_r.
  - unfold template_of, service_command. cbn [String.eqb Ascii.eqb Bool.eqb mbind option_bind].
    rewrite Hp by done. cbn [mbind option_bind]. rewrite Hp by done. eexists. split; [done|]. split.
    + by rewrite <- app_assoc.
    + intros [= H]. unfold java_package in H. simpl in H. rewrite <- app_assoc in H.
      apply app_inv_head in H. done.
  - intros old H. unfold write_file. by rewrite H.
  - unfold write_file. rewrite andb_false_r. apply lookup_insert_eq.
  - unfold write_file. destruct (bool_decide (is_Some (fs !! path)) && negb false) eqn:E; [by rewrite E|].
    rewrite lookup_insert_eq. by rewrite bool_decide_eq_true_2.
Qed.
