(* ===== verification/Scaffold.v ===== *)
(** * Scaffolding a processor project (crates/orion-cli/src/cmd/init.rs)

    [orion init processor]: the files it writes, in order, on a disk whose every
    operation may fail; and the Service document it leaves next to them. *)

From Stdlib Require Import ZArith Lia Bool Ascii.
From stdpp Require Import base list gmap sets strings pretty.
From S2P Require Import Prelude Text Types Effect Auth CliTools.

(** ** The texts

    A tilde stands for the double quote: none of the texts has a tilde. *)

Definition double_quote : ascii := ascii_of_nat 34.
Fixpoint quoted (s : string) : string :=
  match s with
  | EmptyString => EmptyString
  | String c s' => String (if Ascii.eqb c "~" then double_quote else c) (quoted s')
  end.

(** [include_str!] of examples/10-queues/python/processor.py. *)
Definition PYTHON_TEMPLATE : string := quoted
"#!/usr/bin/env python3
~~~OrionMesh queue processor — Python reference.

Reads its configuration from environment variables injected by the Service
spec that `orion gen processor` produces:

    ORION_QUEUE_NAME    queue name (display only)
    ORION_QUEUE_SUBJECT subject to filter on
    ORION_QUEUE_STREAM  JetStream stream name (must already exist; the agent
                        ensures it via `orion queue pub` or `orion apply`)
    ORION_QUEUE_TYPE    ~work~ or ~topic~
    ORION_QUEUE_GROUP   durable consumer name (shared for work, unique for topic)
    ORION_REPLICA_INDEX agent-injected replica id (0..replicas-1)
    NATS_URL            broker URL (default nats://127.0.0.1:4222)

Replace `handle(row)` with your own logic. Each row is a Python dict — the
parsed ndjson message.

Debug attach (when started via `orion gen processor --debug ...`):
    1. `orion logs Service <name>` — wait for ~debugpy listening on 0.0.0.0:5678~
    2. In VS Code: Run > Add Configuration > Python: Remote Attach
                   host: localhost, port: 5678
    3. Set a breakpoint in handle() — message arrival hits it.
~~~
from __future__ import annotations

import asyncio
import json
import os
import sys

try:
    import nats
    from nats.js.api import ConsumerConfig, AckPolicy, StreamConfig
    from nats.js.errors import NotFoundError
except ImportError:
    sys.stderr.write(~nats-py not installed. Run: pip install -r requirements.txt\n~)
    sys.exit(1)


def handle(row: dict) -> None:
    ~~~User-editable per-row handler. Replace with your own logic.

    Set a breakpoint here when attaching with a debugger.
    ~~~
    print(
        f~[{LABEL}] processed {row.get('_subject', '?')}: ~
        f~{json.dumps(row, sort_keys=True)[:200]}~,
        flush=True,
    )


NATS_URL = os.environ.get(~NATS_URL~, ~nats://127.0.0.1:4222~)
QUEUE_NAME = os.environ.get(~ORION_QUEUE_NAME~, ~unnamed~)
SUBJECT = os.environ.get(~ORION_QUEUE_SUBJECT~, f~orion.queue.{QUEUE_NAME}~)
STREAM = os.environ.get(~ORION_QUEUE_STREAM~, f~ORION_QUEUE_{QUEUE_NAME.upper().replace('-', '_')}~)
QTYPE = os.environ.get(~ORION_QUEUE_TYPE~, ~work~)
BASE_GROUP = os.environ.get(~ORION_QUEUE_GROUP~, f~{QUEUE_NAME}-workers~)
REPLICA = os.environ.get(~ORION_REPLICA_INDEX~, ~0~)
# For topic queues every replica needs its own durable so JetStream tracks an
# independent cursor — that's what makes broadcast work. For work queues every
# replica shares the same durable so JetStream load-balances messages.
GROUP = BASE_GROUP if QTYPE == ~work~ else f~{BASE_GROUP}-r{REPLICA}~
LABEL = f~{QUEUE_NAME}#r{REPLICA}~


async def main() -> None:
    print(
        f~[{LABEL}] starting — type={QTYPE} subject={SUBJECT} stream={STREAM} group={GROUP}~,
        flush=True,
    )
    nc = await nats.connect(NATS_URL)
    js = nc.jetstream()

    # Ensure the stream exists — `orion queue pub` does the same. Idempotent.
    try:
        await js.stream_info(STREAM)
    except NotFoundError:
        await js.add_stream(StreamConfig(name=STREAM, subjects=[SUBJECT]))
        print(f~[{LABEL}] created stream {STREAM}~, flush=True)

    consumer = await js.pull_subscribe(
        subject=SUBJECT,
        durable=GROUP,
        stream=STREAM,
        config=ConsumerConfig(ack_policy=AckPolicy.EXPLICIT),
    )
    print(f~[{LABEL}] bound to durable={GROUP}~, flush=True)

    while True:
        try:
            msgs = await consumer.fetch(batch=1, timeout=10)
        except asyncio.TimeoutError:
            continue
        for m in msgs:
            try:
                payload = m.data.decode(~utf-8~, errors=~replace~)
                try:
                    row = json.loads(payload)
                except json.JSONDecodeError:
                    row = {~_raw~: payload}
                row.setdefault(~_subject~, m.subject)
                handle(row)
                await m.ack()
            except Exception as e:  # noqa: BLE001
                # nak and let JetStream redeliver; another worker can try.
                print(f~[{LABEL}] handler error: {e!r} — naking~, file=sys.stderr, flush=True)
                try:
                    await m.nak()
                except Exception:  # noqa: BLE001
                    pass


if __name__ == ~__main__~:
    asyncio.run(main())
".

Definition JAVA_TEMPLATE : string := quoted
"package io.orionmesh.processor;

import io.nats.client.*;
import io.nats.client.api.*;
import java.time.Duration;
import java.util.List;

public class Processor {
    static final String NATS_URL    = env(~NATS_URL~, ~nats://127.0.0.1:4222~);
    static final String QUEUE_NAME  = env(~ORION_QUEUE_NAME~, ~unnamed~);
    static final String SUBJECT     = env(~ORION_QUEUE_SUBJECT~, ~orion.queue.~ + QUEUE_NAME);
    static final String STREAM      = env(~ORION_QUEUE_STREAM~,
        ~ORION_QUEUE_~ + QUEUE_NAME.toUpperCase().replace('-', '_'));
    static final String QTYPE       = env(~ORION_QUEUE_TYPE~, ~work~);
    static final String BASE_GROUP  = env(~ORION_QUEUE_GROUP~, QUEUE_NAME + ~-workers~);
    static final String REPLICA     = env(~ORION_REPLICA_INDEX~, ~0~);
    static final String GROUP       = ~work~.equals(QTYPE) ? BASE_GROUP : BASE_GROUP + ~-r~ + REPLICA;
    static final String LABEL       = QUEUE_NAME + ~#r~ + REPLICA;

    /** Replace with your logic. */
    static void handle(String subject, String payload) {
        System.out.printf(~[%s] processed %s: %s%n~, LABEL, subject,
                payload.length() > 200 ? payload.substring(0, 200) + ~...~ : payload);
    }

    public static void main(String[] args) throws Exception {
        Options opts = new Options.Builder().server(NATS_URL).build();
        try (Connection nc = Nats.connect(opts)) {
            JetStream js = nc.jetStream();
            ConsumerConfiguration cc = ConsumerConfiguration.builder()
                    .durable(GROUP).filterSubject(SUBJECT).ackPolicy(AckPolicy.Explicit).build();
            nc.jetStreamManagement().addOrUpdateConsumer(STREAM, cc);
            JetStreamSubscription sub = js.subscribe(SUBJECT,
                    PullSubscribeOptions.builder().durable(GROUP).stream(STREAM).build());
            while (true) {
                for (Message m : sub.fetch(1, Duration.ofSeconds(10))) {
                    try { handle(m.getSubject(), new String(m.getData())); m.ack(); }
                    catch (RuntimeException e) { System.err.println(~err: ~ + e.getMessage()); m.nak(); }
                }
            }
        }
    }
    private static String env(String k, String d) {
        String v = System.getenv(k);
        return v == null || v.isEmpty() ? d : v;
    }
}
".

Definition RUST_TEMPLATE : string := quoted
"//! OrionMesh queue processor — Rust template. Edit `handle(row)`.

use anyhow::Result;
use async_nats::jetstream::{self, consumer};
use futures::StreamExt;
use serde_json::Value;

fn handle(subject: &str, row: &Value) {
    let s = row.to_string();
    let trimmed = if s.len() > 200 { &s[..200] } else { &s };
    println!(~[{}] processed {}: {}~, label(), subject, trimmed);
}

fn label() -> String {
    let q = env_or(~ORION_QUEUE_NAME~, ~unnamed~);
    let r = env_or(~ORION_REPLICA_INDEX~, ~0~);
    format!(~{}#r{}~, q, r)
}
fn env_or(k: &str, d: &str) -> String {
    std::env::var(k).unwrap_or_else(|_| d.to_owned())
}

#[tokio::main]
async fn main() -> Result<()> {
    let nats_url = env_or(~NATS_URL~, ~nats://127.0.0.1:4222~);
    let queue = env_or(~ORION_QUEUE_NAME~, ~unnamed~);
    let subject = env_or(~ORION_QUEUE_SUBJECT~, &format!(~orion.queue.{queue}~));
    let stream = env_or(~ORION_QUEUE_STREAM~, &format!(~ORION_QUEUE_{}~, queue.to_uppercase().replace('-', ~_~)));
    let qtype = env_or(~ORION_QUEUE_TYPE~, ~work~);
    let base_group = env_or(~ORION_QUEUE_GROUP~, &format!(~{queue}-workers~));
    let replica = env_or(~ORION_REPLICA_INDEX~, ~0~);
    let group = if qtype == ~work~ { base_group } else { format!(~{base_group}-r{replica}~) };

    let nc = async_nats::connect(nats_url).await?;
    let js = jetstream::new(nc);
    let stream = js.get_stream(&stream).await?;
    let cons = stream
        .get_or_create_consumer(&group, consumer::pull::Config {
            durable_name: Some(group.clone()),
            filter_subject: subject.clone(),
            ack_policy: consumer::AckPolicy::Explicit,
            ..Default::default()
        }).await?;
    let mut msgs = cons.messages().await?;
    while let Some(m) = msgs.next().await {
        let m = m?;
        let v: Value = serde_json::from_slice(&m.payload).unwrap_or(Value::Null);
        handle(&m.subject, &v);
        m.ack().await.ok();
    }
    Ok(())
}
".

Definition java_pom (name : string) : string :=
  quoted "<?xml version=~1.0~ encoding=~UTF-8~?>
<project xmlns=~http://maven.apache.org/POM/4.0.0~>
  <modelVersion>4.0.0</modelVersion>
  <groupId>io.orionmesh.processor</groupId>
  <artifactId>" +:+ name +:+ quoted "</artifactId>
  <version>0.1.0</version>
  <packaging>jar</packaging>
  <properties>
    <maven.compiler.source>17</maven.compiler.source>
    <maven.compiler.target>17</maven.compiler.target>
  </properties>
  <dependencies>
    <dependency>
      <groupId>io.nats</groupId>
      <artifactId>jnats</artifactId>
      <version>2.20.4</version>
    </dependency>
  </dependencies>
  <build>
    <finalName>" +:+ name +:+ quoted "</finalName>
    <plugins>
      <plugin>
        <groupId>org.apache.maven.plugins</groupId>
        <artifactId>maven-shade-plugin</artifactId>
        <version>3.5.0</version>
        <executions><execution><phase>package</phase><goals><goal>shade</goal></goals>
          <configuration><transformers>
            <transformer implementation=~org.apache.maven.plugins.shade.resource.ManifestResourceTransformer~>
              <mainClass>io.orionmesh.processor.Processor</mainClass>
            </transformer>
          </transformers></configuration>
        </execution></executions>
      </plugin>
    </plugins>
  </build>
</project>
".

Definition python_setup (name : string) : string :=
  quoted "#!/usr/bin/env bash
set -euo pipefail
cd ~$(dirname ~$0~)~
if [[ ! -d .venv ]]; then python3 -m venv .venv; fi
. .venv/bin/activate
pip install --quiet --upgrade pip
pip install --quiet -r requirements.txt
echo ~ok: " +:+ name +:+ quoted " ready — apply " +:+ name +:+ quoted ".yaml + dispatch~
".

Definition java_setup (name : string) : string :=
  quoted "#!/usr/bin/env bash
set -euo pipefail
cd ~$(dirname ~$0~)~
mvn -q package
echo ~ok: target/" +:+ name +:+ quoted ".jar ready~
".

Definition rust_manifest (name : string) : string :=
  quoted "[package]
name = ~" +:+ name +:+ quoted "~
version = ~0.1.0~
edition = ~2021~

[dependencies]
tokio = { version = ~1~, features = [~macros~, ~rt-multi-thread~, ~time~, ~signal~] }
async-nats = ~0.38~
futures = ~0.3~
serde = { version = ~1~, features = [~derive~] }
serde_json = ~1~
anyhow = ~1~
".

Definition python_requirements : string := "nats-py>=2.7,<3
debugpy>=1.8
".

(** ** The disk *)

Record Disk : Type := {
  dk_files : gmap string string;
  dk_dirs : gset string;
  (** Files that were made executable. *)
  dk_exec : gset string;
  dk_out : list string
}.

Definition add_file (path body : string) (d : Disk) : Disk :=
  {| dk_files := <[path := body]> (dk_files d); dk_dirs := dk_dirs d; dk_exec := dk_exec d;
     dk_out := dk_out d |}.
Definition add_dir (path : string) (d : Disk) : Disk :=
  {| dk_files := dk_files d; dk_dirs := {[path]} ∪ dk_dirs d; dk_exec := dk_exec d;
     dk_out := dk_out d |}.
Definition add_exec (path : string) (d : Disk) : Disk :=
  {| dk_files := dk_files d; dk_dirs := dk_dirs d; dk_exec := {[path]} ∪ dk_exec d;
     dk_out := dk_out d |}.
Definition say (line : string) : M Disk unit :=
  modify (λ d, {| dk_files := dk_files d; dk_dirs := dk_dirs d; dk_exec := dk_exec d;
                  dk_out := dk_out d ++ [line] |}).

Inductive InitError : Type :=
| CreatingDir (path : string) (e : Fault)
| WritingFile (path : string) (e : Fault)
| SettingMode (path : string) (e : Fault)
| Canonicalizing (path : string) (e : Fault)
| UnknownLang.

(** [Path::join]: an absolute path replaces. *)
Definition path_join (dir rel : string) : string :=
  if starts_with "/" rel then rel else path_push dir rel.

Definition create_dir_all (path : string) : M Disk (result unit InitError) :=
  flt ← io;
  match flt with
  | Some e => mret (Err (CreatingDir path e))
  | None => _ ← modify (add_dir path); mret (Ok tt)
  end.

Definition write_text (path body : string) (force : bool) : M Disk (result unit InitError) :=
  d ← get;
  if bool_decide (is_Some (dk_files d !! path)) && negb force then
    _ ← say ("  - " +:+ path +:+ " (exists, skipped — use --force to overwrite)"); mret (Ok tt)
  else
    flt ← io;
    match flt with
    | Some e => mret (Err (WritingFile path e))
    | None => _ ← modify (add_file path body); _ ← say ("  + " +:+ path); mret (Ok tt)
    end.

Definition set_exec (path : string) : M Disk (result unit InitError) :=
  flt ← io;
  match flt with
  | Some e => mret (Err (SettingMode path e))
  | None => _ ← modify (add_exec path); mret (Ok tt)
  end.

(** ** The scaffolds *)

Record ProcessorArgs : Type := {
  ia_name : string;
  ia_dir : option string;
  ia_queue : string;
  ia_lang : string;
  ia_group : option string;
  ia_replicas : Z;
  ia_force : bool
}.

Definition scaffold_python (dir : string) (a : ProcessorArgs) : M Disk (result string InitError) :=
  let force := ia_force a in
  let! _ := write_text (path_join dir "requirements.txt") python_requirements force in
  let! _ := write_text (path_join dir "setup.sh") (python_setup (ia_name a)) force in
  let! _ := set_exec (path_join dir "setup.sh") in
  let! _ := write_text (path_join dir "processor.py") PYTHON_TEMPLATE force in
  mret (Ok (path_join dir "processor.py")).

Definition scaffold_java (dir : string) (a : ProcessorArgs) : M Disk (result string InitError) :=
  let force := ia_force a in
  let pkg_dir := path_join dir "src/main/java/io/orionmesh/processor" in
  let! _ := create_dir_all pkg_dir in
  let! _ := write_text (path_join dir "pom.xml") (java_pom (ia_name a)) force in
  let! _ := write_text (path_join dir "setup.sh") (java_setup (ia_name a)) force in
  let! _ := set_exec (path_join dir "setup.sh") in
  let! _ := write_text (path_join pkg_dir "Processor.java") JAVA_TEMPLATE force in
  mret (Ok (path_join pkg_dir "Processor.java")).

Definition scaffold_rust (dir : string) (a : ProcessorArgs) : M Disk (result string InitError) :=
  let force := ia_force a in
  let! _ := create_dir_all (path_join dir "src") in
  let! _ := write_text (path_join dir "Cargo.toml") (rust_manifest (ia_name a)) force in
  let! _ := write_text (path_join dir "src/main.rs") RUST_TEMPLATE force in
  mret (Ok (path_join dir "src/main.rs")).

(** ** The Service document *)

Definition display (p : list string) : string := foldr (λ x acc, "/" +:+ x +:+ acc) "" p.

(** One quoted element of the argument list. *)
Definition arg_item (x : string) : string := quoted "    - ~" +:+ x +:+ quoted "~
".

Definition build_service_yaml (a : ProcessorArgs) (group : string) (template_abs : list string)
    : option string :=
  '(exec, path) ← service_command (ia_name a) (ia_lang a) template_abs;
  let args_block :=
    if String.eqb (ia_lang a) "python" then arg_item (display path)
    else if String.eqb (ia_lang a) "java" then arg_item "-jar" +:+ arg_item (display path)
    else arg_item "run" +:+ arg_item "--release" +:+ arg_item "--manifest-path" +:+
         arg_item (display path) in
  let replicas := if (1 <? ia_replicas a)%Z then "  replicas: " +:+ pretty (ia_replicas a) +:+ "
" else "" in
  Some ("apiVersion: orionmesh.dev/v1
kind: Service
metadata:
  name: " +:+ ia_name a +:+ "
  labels:
    role: processor
    queue: " +:+ ia_queue a +:+ "
    lang: " +:+ ia_lang a +:+ "
spec:
  runtime:
    kind: native
    exec: " +:+ exec +:+ "
    args:
" +:+ args_block +:+ quoted "    env:
      NATS_URL: ~nats://127.0.0.1:4222~
      ORION_QUEUE_NAME: ~" +:+ ia_queue a +:+ quoted "~
      ORION_QUEUE_SUBJECT: ~" +:+ default_queue_subject (ia_queue a) +:+ quoted "~
      ORION_QUEUE_STREAM: ~" +:+ default_queue_stream (ia_queue a) +:+ quoted "~
      ORION_QUEUE_TYPE: ~work~
      ORION_QUEUE_GROUP: ~" +:+ group +:+ quoted "~
" +:+ replicas +:+ "  restart_policy: on_failure
").

(** ** The command *)

(** Where a path is: the working directory and the links on the way. *)
Definition canonicalize (locate : string → list string) (path : string)
    : M Disk (result (list string) InitError) :=
  flt ← io;
  match flt with
  | Some e => mret (Err (Canonicalizing path e))
  | None => mret (Ok (locate path))
  end.

Definition group_of (a : ProcessorArgs) : string :=
  default (ia_queue a +:+ "-workers") (ia_group a).
Definition dir_of (a : ProcessorArgs) : string := default (ia_name a) (ia_dir a).

Definition scaffold (dir : string) (a : ProcessorArgs) : M Disk (result string InitError) :=
  if String.eqb (ia_lang a) "python" then scaffold_python dir a
  else if String.eqb (ia_lang a) "java" then scaffold_java dir a
  else if String.eqb (ia_lang a) "rust" then scaffold_rust dir a
  else mret (Err UnknownLang).

Definition setup_hint (dir : string) (a : ProcessorArgs) : string :=
  if String.eqb (ia_lang a) "rust" then "cd " +:+ dir +:+ " && cargo build --release"
  else "bash " +:+ dir +:+ "/setup.sh".

Definition init_processor (locate : string → list string) (a : ProcessorArgs)
    : M Disk (result unit InitError) :=
  let dir := dir_of a in
  let! _ := create_dir_all dir in
  _ ← say ("→ " +:+ dir);
  let! template_path := scaffold dir a in
  let! template_abs := canonicalize locate template_path in
  match build_service_yaml a (group_of a) template_abs with
  | None => mret (Err UnknownLang)
  | Some yaml =>
      let yaml_path := path_join dir (ia_name a +:+ ".yaml") in
      let! _ := write_text yaml_path yaml (ia_force a) in
      _ ← for_each [ ""; "next steps:"; "  1. " +:+ setup_hint dir a;
                     "  2. orion gen queue " +:+ ia_queue a +:+
                       " --type work | orion apply -f -    # if it doesn't exist";
                     "  3. orion apply -f " +:+ yaml_path;
                     "  4. orion dispatch Service " +:+ ia_name a;
                     "  5. orion logs Service " +:+ ia_name a +:+ " --follow" ] say;
      mret (Ok tt)
  end.

(** ** Lemmas: the files that are written *)

(** The files of a scaffold, in order, without the Service document. *)
Definition project_files (dir : string) (a : ProcessorArgs) : list (string * string) :=
  if String.eqb (ia_lang a) "python" then
    [(path_join dir "requirements.txt", python_requirements);
     (path_join dir "setup.sh", python_setup (ia_name a));
     (path_join dir "processor.py", PYTHON_TEMPLATE)]
  else if String.eqb (ia_lang a) "java" then
    [(path_join dir "pom.xml", java_pom (ia_name a));
     (path_join dir "setup.sh", java_setup (ia_name a));
     (path_join (path_join dir "src/main/java/io/orionmesh/processor") "Processor.java", JAVA_TEMPLATE)]
  else if String.eqb (ia_lang a) "rust" then
    [(path_join dir "Cargo.toml", rust_manifest (ia_name a));
     (path_join dir "src/main.rs", RUST_TEMPLATE)]
  else [].

(** The source the workload runs. *)
Definition template_file (dir : string) (a : ProcessorArgs) : string :=
  if String.eqb (ia_lang a) "python" then path_join dir "processor.py"
  else if String.eqb (ia_lang a) "java" then
    path_join (path_join dir "src/main/java/io/orionmesh/processor") "Processor.java"
  else path_join dir "src/main.rs".

Definition service_file (locate : string → list string) (dir : string) (a : ProcessorArgs)
    : list (string * string) :=
  match build_service_yaml a (group_of a) (locate (template_file dir a)) with
  | Some yaml => [(path_join dir (ia_name a +:+ ".yaml"), yaml)]
  | None => []
  end.

Definition all_files (locate : string → list string) (a : ProcessorArgs) : list (string * string) :=
  project_files (dir_of a) a ++ service_file locate (dir_of a) a.

(** Writing files in order, each as [write_file] does. *)
Definition writes (force : bool) (l : list (string * string)) (fs : gmap string string)
    : gmap string string :=
  foldl (λ fs e, write_file fs e.1 e.2 force) fs l.

(** A computation that writes a prefix of [l], and the whole of it when it succeeds, with
    a result [Q] holds of. *)
Definition wrote (force : bool) (l : list (string * string)) {A} (Q : A → Prop)
    (m : M Disk (result A InitError)) : Prop :=
  ∀ o d u, ∃ k, dk_files (m o (d, u)).2.1 = writes force (take k l) (dk_files d) ∧
    ∀ a, (m o (d, u)).1 = Ok a → length l ≤ k ∧ Q a.

Section wrote.
Context (force : bool).

Lemma wrote_ret {A} (Q : A → Prop) a : Q a → wrote force [] Q (mret (Ok a)).
Proof. intros H o d u. exists 0. split; [done|]. by intros ? [= <-]. Qed.

Lemma wrote_bind {A B} l1 l2 (P : A → Prop) (Q : B → Prop) (m : M Disk (result A InitError))
    (k : A → M Disk (result B InitError)) :
  wrote force l1 P m → (∀ a, P a → wrote force l2 Q (k a)) →
  wrote force (l1 ++ l2) Q (let! a := m in k a).
Proof.
  intros Hm Hk o d u. unfold mbind, M_bind. destruct (Hm o d u) as (i & Hi & Hok).
  destruct (m o (d, u)) as [[a|e] [d1 u1]]; cbn [fst snd] in *.
  - destruct (Hok a eq_refl) as [Hl Hp]. destruct (Hk a Hp o d1 u1) as (j & Hj & Hok').
    exists (length l1 + j). split; [|intros b Hb; destruct (Hok' b Hb); rewrite length_app; split; [lia|done]].
    rewrite Hj, Hi, take_app, (take_ge l1) by lia.
    replace (length l1 + j - length l1) with j by lia. rewrite (take_ge l1) by lia.
    unfold writes. by rewrite foldl_app.
  - exists (Nat.min i (length l1)). split; [|done]. cbn. rewrite Hi, take_app.
    replace (Nat.min i (length l1) - length l1) with 0 by lia. rewrite take_0, app_nil_r.
    destruct (Nat.le_ge_cases i (length l1)).
    + by rewrite Nat.min_l by done.
    + by rewrite Nat.min_r, !take_ge by lia.
Qed.

(** Steps that write no file. *)
Lemma wrote_silent {A} (Q : A → Prop) (m : M Disk (result A InitError)) :
  (∀ o d u, dk_files (m o (d, u)).2.1 = dk_files d) →
  (∀ o d u a, (m o (d, u)).1 = Ok a → Q a) → wrote force [] Q m.
Proof. intros Hf Hq o d u. exists 0. split; [apply Hf|]. intros a Ha. split; [done|by eapply Hq]. Qed.

Lemma wrote_dir path : wrote force [] (λ _, True) (create_dir_all path).
Proof.
  apply wrote_silent; [|done]. intros o d u. unfold create_dir_all, io, mbind, M_bind.
  by destruct (or_fault o (us_io u)).
Qed.
Lemma wrote_exec path : wrote force [] (λ _, True) (set_exec path).
Proof.
  apply wrote_silent; [|done]. intros o d u. unfold set_exec, io, mbind, M_bind.
  by destruct (or_fault o (us_io u)).
Qed.
Lemma wrote_canonical locate path : wrote force [] (λ p, p = locate path) (canonicalize locate path).
Proof.
  apply wrote_silent; intros o d u; unfold canonicalize, io, mbind, M_bind;
    destruct (or_fault o (us_io u)); try done. by intros a [= <-].
Qed.

Lemma wrote_text path body : wrote force [(path, body)] (λ _, True) (write_text path body force).
Proof.
  intros o d u. unfold write_text, get, mbind, M_bind.
  destruct (bool_decide (is_Some (dk_files d !! path)) && negb force) eqn:E.
  - exists 1. split; [|done]. cbn. unfold write_file. cbn. by rewrite E.
  - unfold io. destruct (or_fault o (us_io u)) as [e|]; [by exists 0|].
    exists 1. split; [|done]. cbn. unfold write_file. cbn. by rewrite E.
Qed.

(** Printing in between. *)
Lemma wrote_after {A} l (Q : A → Prop) (p : M Disk unit) (m : M Disk (result A InitError)) :
  (∀ o d u, dk_files (p o (d, u)).2.1 = dk_files d) → wrote force l Q m → wrote force l Q (_ ← p; m).
Proof.
  intros Hp Hm o d u. unfold mbind, M_bind. specialize (Hp o d u).
  destruct (p o (d, u)) as [[] [d1 u1]]. cbn [fst snd] in Hp. rewrite <- Hp. apply Hm.
Qed.
Lemma say_all_files lines o d u : dk_files (for_each lines say o (d, u)).2.1 = dk_files d.
Proof.
  revert d u. induction lines as [|line lines IH]; intros d u; [done|]. cbn [for_each].
  unfold mbind, M_bind. exact (IH _ u).
Qed.
End wrote.

#[local] Hint Resolve wrote_text wrote_dir wrote_exec : core.
#[local] Ltac write_step l := eapply (wrote_bind _ l); [done|intros ? _].

Lemma scaffold_writes dir a :
  wrote (ia_force a) (project_files dir a) (λ p, p = template_file dir a) (scaffold dir a).
Proof.
  unfold scaffold, project_files, template_file.
  destruct (String.eqb (ia_lang a) "python"); [|destruct (String.eqb (ia_lang a) "java");
    [|destruct (String.eqb (ia_lang a) "rust"); [|by intros o d u; exists 0]]].
  - write_step [(path_join dir "requirements.txt", python_requirements)].
    write_step [(path_join dir "setup.sh", python_setup (ia_name a))].
    write_step (@nil (string * string)).
    write_step [(path_join dir "processor.py", PYTHON_TEMPLATE)]. by apply wrote_ret.
  - write_step (@nil (string * string)).
    write_step [(path_join dir "pom.xml", java_pom (ia_name a))].
    write_step [(path_join dir "setup.sh", java_setup (ia_name a))].
    write_step (@nil (string * string)).
    write_step [(path_join (path_join dir "src/main/java/io/orionmesh/processor") "Processor.java", JAVA_TEMPLATE)].
    by apply wrote_ret.
  - write_step (@nil (string * string)).
    write_step [(path_join dir "Cargo.toml", rust_manifest (ia_name a))].
    write_step [(path_join dir "src/main.rs", RUST_TEMPLATE)]. by apply wrote_ret.
Qed.

Lemma init_writes locate a :
  wrote (ia_force a) (all_files locate a) (λ _, True) (init_processor locate a).
Proof.
  unfold init_processor, all_files. write_step (@nil (string * string)).
  apply wrote_after; [done|].
  eapply wrote_bind; [apply scaffold_writes|]. intros p ->.
  eapply (wrote_bind _ []); [apply wrote_canonical|]. intros abs ->. unfold service_file.
  destruct (build_service_yaml _ _ _) as [yaml|]; [|by intros o d u; exists 0].
  eapply (wrote_bind _ [_] []); [done|]. intros _ _.
  apply wrote_after; [intros; apply say_all_files|by apply wrote_ret].
Qed.

Section writes_facts.
Implicit Types (l : list (string * string)) (fs : gmap string string).

Lemma writes_other force l fs p : p ∉ l.*1 → writes force l fs !! p = fs !! p.
Proof.
  revert fs. induction l as [|[q b] l IH]; intros fs; [done|]. cbn. intros [Hq Hp]%not_elem_of_cons.
  unfold writes in *. cbn [foldl]. rewrite IH by done. unfold write_file. cbn.
  case_match; [done|]. by rewrite lookup_insert_ne.
Qed.

Lemma writes_kept l fs p c : fs !! p = Some c → writes false l fs !! p = Some c.
Proof.
  revert fs. induction l as [|[q b] l IH]; intros fs Hp; [done|]. unfold writes in *. cbn [foldl].
  apply IH. unfold write_file. cbn. case_match eqn:E; [done|].
  rewrite lookup_insert_ne; [done|]. intros ->. rewrite andb_true_r in E.
  apply bool_decide_eq_false in E. by apply E.
Qed.

Lemma writes_there force l fs p : p ∈ l.*1 ∨ is_Some (fs !! p) → is_Some (writes force l fs !! p).
Proof.
  revert fs. induction l as [|[q b] l IH]; intros fs Hp; [by destruct Hp as [?%elem_of_nil|]|].
  unfold writes in *. cbn [foldl]. apply IH.
  assert (is_Some (write_file fs q b force !! q)) as Hq.
  { unfold write_file. case_match eqn:E; [|by rewrite lookup_insert_eq].
    apply andb_true_iff in E as [E _]. by apply bool_decide_eq_true in E. }
  destruct (decide (p = q)) as [->|Hne]; [by right|].
  destruct Hp as [Hp|Hp]; [left; cbn in Hp; apply elem_of_cons in Hp as [|]; done|].
  right. unfold write_file. cbn. case_match; [done|]. by rewrite lookup_insert_ne.
Qed.

(** The files that are new. *)
Lemma writes_fresh force l fs p b :
  NoDup l.*1 → (p, b) ∈ l → force = true ∨ fs !! p = None → writes force l fs !! p = Some b.
Proof.
  revert fs. induction l as [|[q c] l IH]; intros fs Hnd Hin Hp; [by apply elem_of_nil in Hin|].
  cbn in Hnd. apply NoDup_cons in Hnd as [Hq Hnd]. change (writes force ((q, c) :: l) fs) with (writes force l (write_file fs q c force)).
  apply elem_of_cons in Hin as [[= -> ->]|Hin].
  - rewrite writes_other by done.
    unfold write_file. cbn. case_match eqn:E; [|by rewrite lookup_insert_eq].
    apply andb_true_iff in E as [E%bool_decide_eq_true Ef]. destruct Hp as [->|Hp]; [done|].
    rewrite Hp in E. by destruct E.
  - apply IH; [done|done|]. destruct Hp as [|Hp]; [by left|]. right.
    assert (p ≠ q) by (intros ->; apply Hq; apply list_elem_of_fmap; by exists (q, b)).
    unfold write_file. cbn. case_match; [done|]. by rewrite lookup_insert_ne.
Qed.

(** Nothing is written where everything is there. *)
Lemma writes_again l fs : (∀ p, p ∈ l.*1 → is_Some (fs !! p)) → writes false l fs = fs.
Proof.
  intros H. apply map_eq. intros p. destruct (decide (p ∈ l.*1)) as [Hin|Hn].
  - destruct (H p Hin) as [c Hc]. rewrite Hc. by apply writes_kept.
  - by apply writes_other.
Qed.
End writes_facts.

(** Distinct files: their names end differently. *)
Lemma path_join_end dir rel : ∃ pre, path_join dir rel = pre +:+ rel.
Proof.
  unfold path_join, path_push. case_match; [by exists ""|]. case_match; [by exists dir|].
  exists (dir +:+ "/"). by rewrite string_app_assoc.
Qed.

#[local] Ltac other_end H :=
  let E1 := fresh in let E2 := fresh in
  match type of H with path_join ?d1 ?x = path_join ?d2 ?y =>
    destruct (path_join_end d1 x) as [? E1], (path_join_end d2 y) as [? E2]; rewrite E1, E2 in H
  end; apply (f_equal string_rev) in H; rewrite !string_rev_distr in H; simpl in H; discriminate H.

Lemma all_files_distinct locate a : NoDup (all_files locate a).*1.
Proof.
  unfold all_files, service_file, project_files.
  destruct (build_service_yaml _ _ _) as [yaml|];
    destruct (String.eqb (ia_lang a) "python"); [| destruct (String.eqb (ia_lang a) "java");
    [| destruct (String.eqb (ia_lang a) "rust")]| |destruct (String.eqb (ia_lang a) "java");
    [| destruct (String.eqb (ia_lang a) "rust")]]; cbn [app fmap list_fmap fst];
    rewrite ?NoDup_cons, ?elem_of_cons, ?elem_of_nil; split_and?; try constructor;
    intros Hor; repeat (destruct Hor as [Hor|Hor]; [other_end Hor|]); by apply Hor.
Qed.

(** ** Without faults every step succeeds *)

Definition succeeds (o : Oracle) {A} (m : M Disk (result A InitError)) : Prop :=
  ∀ d u, ∃ a, (m o (d, u)).1 = Ok a.

Section succeeds.
Context (o : Oracle) (Hf : fault_free o).

Lemma succeeds_bind {A B} (m : M Disk (result A InitError)) (k : A → M Disk (result B InitError)) :
  succeeds o m → (∀ a, succeeds o (k a)) → succeeds o (let! a := m in k a).
Proof.
  intros Hm Hk d u. unfold mbind, M_bind. destruct (Hm d u) as [a Ha].
  destruct (m o (d, u)) as [r [d1 u1]]. cbn in Ha. subst r. apply Hk.
Qed.
Lemma succeeds_after {A} (p : M Disk unit) (m : M Disk (result A InitError)) :
  succeeds o m → succeeds o (_ ← p; m).
Proof. intros Hm d u. unfold mbind, M_bind. by destruct (p o (d, u)) as [[] [d1 u1]]. Qed.
Lemma succeeds_ret {A} (a : A) : succeeds o (mret (Ok a)).
Proof. intros d u. by exists a. Qed.
Lemma succeeds_dir path : succeeds o (create_dir_all path).
Proof. intros d u. exists tt. unfold create_dir_all, io, mbind, M_bind. by rewrite Hf. Qed.
Lemma succeeds_exec path : succeeds o (set_exec path).
Proof. intros d u. exists tt. unfold set_exec, io, mbind, M_bind. by rewrite Hf. Qed.
Lemma succeeds_canonical locate path : succeeds o (canonicalize locate path).
Proof. intros d u. exists (locate path). unfold canonicalize, io, mbind, M_bind. by rewrite Hf. Qed.
Lemma succeeds_text path body force : succeeds o (write_text path body force).
Proof.
  intros d u. exists tt. unfold write_text, get, io, mbind, M_bind. case_match; [done|]. by rewrite Hf.
Qed.

#[local] Hint Resolve succeeds_ret succeeds_dir succeeds_exec succeeds_canonical succeeds_text : core.

Lemma scaffold_succeeds dir a : ia_lang a ∈ ["python"; "java"; "rust"] → succeeds o (scaffold dir a).
Proof.
  intros Hl. unfold scaffold, scaffold_python, scaffold_java, scaffold_rust.
  rewrite !elem_of_cons, elem_of_nil in Hl.
  destruct Hl as [->|[->|[->|[]]]]; cbn [String.eqb Ascii.eqb Bool.eqb];
    repeat (apply succeeds_bind; [done|intros ?]); done.
Qed.

Lemma service_command_some name lang p :
  lang ∈ ["python"; "java"; "rust"] → 2 ≤ length p → service_command name lang p ≠ None.
Proof.
  intros Hl Hp. rewrite !elem_of_cons, elem_of_nil in Hl. destruct p as [|x [|y p]]; simpl in Hp; [lia..|].
  unfold service_command. destruct Hl as [->|[->|[->|[]]]]; cbn [String.eqb Ascii.eqb Bool.eqb]; done.
Qed.

Lemma init_succeeds locate a :
  ia_lang a ∈ ["python"; "java"; "rust"] → (∀ p, 2 ≤ length (locate p)) →
  succeeds o (init_processor locate a).
Proof.
  intros Hl Hp. unfold init_processor. apply succeeds_bind; [done|]. intros _.
  apply succeeds_after, succeeds_bind; [by apply scaffold_succeeds|]. intros path d u.
  unfold mbind at 1, M_bind at 1, canonicalize. unfold mbind at 1, M_bind at 1, io at 1. rewrite Hf.
  cbn beta iota zeta delta [mret M_ret]. unfold build_service_yaml.
  destruct (service_command _ _ _) as [[exec p]|] eqn:E;
    [|by apply service_command_some in E]. cbn [mbind option_bind].
  apply succeeds_bind; [done|]. intros _. by apply succeeds_after.
Qed.
End succeeds.

(** ** Claims *)

(** [orion init processor].  Whatever operation of the disk fails, only the files of
    the project are touched, and without [--force] no file that was there changes.  When
    it succeeds, every file of the project is there, and those that are new, or all of
    them with [--force], have exactly their text; running it again without [--force]
    then changes no file, whatever fails.  Without faults it succeeds. *)
Theorem init_scaffolds (locate : string → list string) (a : ProcessorArgs) (o : Oracle) (d : Disk)
    (u : Used) :
  let x := init_processor locate a o (d, u) in
  let fs := dk_files d in
  let fs' := dk_files x.2.1 in
  (∀ p, p ∉ (all_files locate a).*1 → fs' !! p = fs !! p) ∧
  (ia_force a = false → ∀ p c, fs !! p = Some c → fs' !! p = Some c) ∧
  (x.1 = Ok tt →
     (∀ p b, (p, b) ∈ all_files locate a →
        is_Some (fs' !! p) ∧ (ia_force a = true ∨ fs !! p = None → fs' !! p = Some b)) ∧
     (ia_force a = false → ∀ o' d' u', dk_files d' = fs' →
        dk_files (init_processor locate a o' (d', u')).2.1 = fs')) ∧
  (fault_free o → ia_lang a ∈ ["python"; "java"; "rust"] → (∀ p, 2 ≤ length (locate p)) →
     x.1 = Ok tt).
Proof.
  cbv zeta. destruct (init_writes locate a o d u) as (k & Hk & Hok).
  set (l := all_files locate a) in *. rewrite Hk. split_and!.
  - intros p Hp. apply writes_other. contradict Hp.
    apply list_elem_of_fmap in Hp as ([q b] & -> & Hin). apply list_elem_of_fmap.
    exists (q, b). split; [done|]. rewrite <- (take_drop k l). apply elem_of_app. by left.
  - intros -> p c Hc. by apply writes_kept.
  - intros Hx. destruct (Hok _ Hx) as [Hl _]. rewrite take_ge by done. split.
    + intros p b Hin. split.
      * apply writes_there. left. apply list_elem_of_fmap. by exists (p, b).
      * intros Hp. apply writes_fresh; [apply all_files_distinct|done|done].
    + intros Hforce o' d' u' Hd. destruct (init_writes locate a o' d' u') as (k' & -> & _).
      rewrite Hd, Hforce. apply writes_again. intros p Hin. apply writes_there. left.
      apply list_elem_of_fmap in Hin as ([q b] & -> & Hin). apply list_elem_of_fmap.
      exists (q, b). split; [done|]. rewrite <- (take_drop k' l). apply elem_of_app. by left.
  - intros Hf Hl Hp. destruct (init_succeeds o Hf locate a Hl Hp d u) as [[] Ha]. done.
Qed.

(** The processor of the documentation's example. *)
Definition demo_init : ProcessorArgs :=
  {| ia_name := "resizer"; ia_dir := None; ia_queue := "images"; ia_lang := "python";
     ia_group := None; ia_replicas := 2; ia_force := false |}.

Lemma init_scaffolds_witness :
  let d := {| dk_files := {["resizer/processor.py" := "mine"]}; dk_dirs := ∅; dk_exec := ∅; dk_out := [] |} in
  dk_files (init_processor (λ p, ["srv"; p]) demo_init quiet_oracle (d, Used_init)).2.1
    !! "resizer/processor.py" = Some "mine".
Proof.
  cbv zeta.
  destruct (init_scaffolds (λ p, ["srv"; p]) demo_init quiet_oracle
    {| dk_files := {["resizer/processor.py" := "mine"]}; dk_dirs := ∅; dk_exec := ∅; dk_out := [] |}
    Used_init) as (_ & H & _).
  apply H; reflexivity.
Defined.

(** The document of that example, for a project in [/srv/resizer]. *)
Example demo_service : build_service_yaml demo_init (group_of demo_init) ["srv"; "resizer"; "processor.py"] =
  Some (quoted "apiVersion: orionmesh.dev/v1
kind: Service
metadata:
  name: resizer
  labels:
    role: processor
    queue: images
    lang: python
spec:
  runtime:
    kind: native
    exec: python
    args:
    - ~/srv/resizer/processor.py~
    env:
      NATS_URL: ~nats://127.0.0.1:4222~
      ORION_QUEUE_NAME: ~images~
      ORION_QUEUE_SUBJECT: ~orion.queue.images~
      ORION_QUEUE_STREAM: ~ORION_QUEUE_IMAGES~
      ORION_QUEUE_TYPE: ~work~
      ORION_QUEUE_GROUP: ~images-workers~
  replicas: 2
  restart_policy: on_failure
").
Proof. vm_compute. reflexivity. Qed.
