(* ===== verification/Up.v ===== *)
(** * A local stack (crates/orion-cli/src/cmd/up.rs)

    [orion up] starts a broker, the controller, an agent and the web interface, waits
    for an interrupt, and stops them.  The host is a table of processes and a list of
    running containers; every spawn, connection attempt and exit status may fail, as
    the oracle says.  The arguments the started programs read are here too: main.rs of
    orion-controller, orion-agent and orion-ui. *)

From Stdlib Require Import ZArith Lia Bool Ascii.
From stdpp Require Import base list gmap strings pretty.
From S2P Require Import Prelude Text Types Effect Parse Auth CliText.

(** ** Arguments *)

Inductive NatsBackend : Type := NatsAuto | NatsNative | NatsDocker | NatsNone.
Inductive ResolvedNats : Type := RsNative | RsDocker | RsNone.
#[export] Instance ResolvedNats_eq_dec : EqDecision ResolvedNats.
Proof. solve_decision. Defined.

Record UpArgs : Type := {
  ua_nats : NatsBackend;
  ua_no_nats : bool;
  ua_no_ui : bool;
  ua_no_agent : bool;
  ua_node_id : string;
  ua_controller_bind : string;
  ua_store : option string;
  ua_auth : bool;
  ua_nats_container : string;
  ua_agent_nats_url : option string
}.

(** ** The host *)

(** A command: program, arguments, and the variables set for it. *)
Record Cmd : Type := {
  cmd_program : string;
  cmd_args : list string;
  cmd_env : list (string * string)
}.

Record UpState : Type := {
  (** Running processes by process id, and the next id. *)
  up_procs : gmap nat Cmd;
  up_next : nat;
  (** The names of the running containers. *)
  up_containers : list string;
  (** What was stopped, in order. *)
  up_stopped : list string
}.

(** [PATH] and the files that exist. *)
Record UpHost : Type := { uh_path : option string; uh_is_file : string → bool }.

(** A child: its name and process id. *)
Notation Child := (string * nat)%type.

Inductive UpError : Type :=
| NatsServerMissing
| BinMissing (name : string)
| SpawnFailed (name : string) (f : Fault)
| DockerRunFailed
| NatsNotReady.

Definition add_proc (c : Cmd) (s : UpState) : UpState :=
  {| up_procs := <[up_next s := c]> (up_procs s); up_next := S (up_next s);
     up_containers := up_containers s; up_stopped := up_stopped s |}.
Definition kill_proc (name : string) (pid : nat) (s : UpState) : UpState :=
  {| up_procs := delete pid (up_procs s); up_next := up_next s;
     up_containers := up_containers s; up_stopped := up_stopped s ++ [name] |}.
Definition set_containers (l : list string) (s : UpState) : UpState :=
  {| up_procs := up_procs s; up_next := up_next s; up_containers := l; up_stopped := up_stopped s |}.

Section up.
Context (host : UpHost).

(** ** Finding programs *)

Definition which (name : string) : option string :=
  List.find (uh_is_file host)
    ((λ dir, path_push dir name) <$> split_on ":" (default "" (uh_path host))).

Definition find_bin_optional (name : string) : option string :=
  match which name with
  | Some p => Some p
  | None => List.find (uh_is_file host)
              ((λ dir, path_push dir name) <$> ["target/release"; "target/debug"])
  end.

Definition find_bin (name : string) : result string UpError :=
  match find_bin_optional name with Some p => Ok p | None => Err (BinMissing name) end.

Definition resolve_nats (args : UpArgs) : ResolvedNats :=
  match (if ua_no_nats args then NatsNone else ua_nats args) with
  | NatsAuto => match which "nats-server" with Some _ => RsNative | None => RsDocker end
  | NatsNative => RsNative
  | NatsDocker => RsDocker
  | NatsNone => RsNone
  end.

(** ** Starting *)

(** [cmd.spawn()], and the child pushed. *)
Definition spawn (name : string) (c : Cmd) (children : list Child)
    : M UpState (result (list Child) UpError) :=
  r ← io;
  match r with
  | Some f => mret (Err (SpawnFailed name f))
  | None =>
      s ← get;
      _ ← modify (add_proc c);
      mret (Ok (children ++ [(name, up_next s)]))
  end.

(** Up to [n] attempts to connect. *)
Fixpoint attempts (n : nat) : M UpState bool :=
  match n with
  | O => mret false
  | S n' => r ← io; match r with None => mret true | Some _ => attempts n' end
  end.

Definition wait_for_nats_ready : M UpState (result unit UpError) :=
  ok ← attempts 40; mret (if (ok : bool) then Ok tt else Err NatsNotReady).

Definition nats_cmd (bin : string) : Cmd :=
  {| cmd_program := bin; cmd_args := ["-js"; "--addr"; "127.0.0.1"; "-p"; "4222"]; cmd_env := [] |}.

Definition start_native_nats (children : list Child) : M UpState (result (list Child) UpError) :=
  match which "nats-server" with
  | None => mret (Err NatsServerMissing)
  | Some bin =>
      let! children := spawn "nats-server" (nats_cmd bin) children in
      let! _ := wait_for_nats_ready in
      mret (Ok children)
  end.

(** [docker ps], then [docker run] and its exit status. *)
Definition ensure_docker_nats (container : string) : M UpState (result unit UpError) :=
  r ← io;
  match r with
  | Some f => mret (Err (SpawnFailed "docker" f))
  | None =>
      s ← get;
      if existsb (λ l, String.eqb (trim l) container) (up_containers s) then wait_for_nats_ready
      else
        r ← io;
        match r with
        | Some f => mret (Err (SpawnFailed "docker" f))
        | None =>
            status ← io;
            match status with
            | Some _ => mret (Err DockerRunFailed)
            | None =>
                _ ← modify (set_containers (up_containers s ++ [container]));
                wait_for_nats_ready
            end
        end
  end.

Definition no_auth_env (args : UpArgs) : list (string * string) :=
  if ua_auth args then [] else [(ENV_DISABLED, "1")].

Definition controller_cmd (args : UpArgs) (bin : string) : Cmd :=
  {| cmd_program := bin; cmd_args := ["--bind"; ua_controller_bind args];
     cmd_env := no_auth_env args
       ++ [("ORION_STORE_PATH", default "sqlite::memory:" (ua_store args))] |}.

Definition agent_cmd (args : UpArgs) (bin : string) : Cmd :=
  {| cmd_program := bin;
     cmd_args := ["--node-id"; ua_node_id args; "--heartbeat-interval"; "2"];
     cmd_env := no_auth_env args
       ++ match ua_agent_nats_url args with Some u => [("NATS_URL", u)] | None => [] end |}.

Definition ui_cmd (ctx : Ctx) (bin : string) : Cmd :=
  {| cmd_program := bin; cmd_args := []; cmd_env := [("ORION_CONTROLLER_URL", ctx_controller ctx)] |}.

Definition start_broker (args : UpArgs) : M UpState (result (list Child) UpError) :=
  match resolve_nats args with
  | RsNative => start_native_nats []
  | RsDocker => let! _ := ensure_docker_nats (ua_nats_container args) in mret (Ok [])
  | RsNone => mret (Ok [])
  end.

(** A program that must be found and must start. *)
Definition start_bin (name bin : string) (cmd : string → Cmd) (children : list Child)
    : M UpState (result (list Child) UpError) :=
  match find_bin bin with
  | Err e => mret (Err e)
  | Ok p => spawn name (cmd p) children
  end.

(** The interface is optional: it may be missing and it may fail to start. *)
Definition start_ui (ctx : Ctx) (children : list Child) : M UpState (list Child) :=
  match find_bin_optional "orion-ui" with
  | None => mret children
  | Some p =>
      r ← spawn "ui" (ui_cmd ctx p) children;
      mret (match r with Ok children' => children' | Err _ => children end)
  end.

(** The controller gets 20 probes of its health, and is used whatever they say. *)
Definition up_start (ctx : Ctx) (args : UpArgs) : M UpState (result (list Child) UpError) :=
  let! children := start_broker args in
  let! children := start_bin "controller" "orion-controller" (controller_cmd args) children in
  _ ← attempts 20;
  let! children := if ua_no_agent args then mret (Ok children)
                   else start_bin "agent" "orion-agent" (agent_cmd args) children in
  children ← if ua_no_ui args then mret children else start_ui ctx children;
  mret (Ok children).

(** ** Stopping *)

Definition stop_children (children : list Child) : M UpState unit :=
  for_each (reverse children) (λ '(name, pid), modify (kill_proc name pid)).

Definition stop_docker (args : UpArgs) : M UpState unit :=
  match resolve_nats args with
  | RsDocker =>
      r ← io;
      match r with
      | Some _ => mret tt
      | None => modify (λ s, set_containers
                  (List.filter (λ c, negb (String.eqb c (ua_nats_container args))) (up_containers s)) s)
      end
  | _ => mret tt
  end.

(** The command: an error while starting returns at once. *)
Definition up_run (ctx : Ctx) (args : UpArgs) : M UpState (result unit UpError) :=
  let! children := up_start ctx args in
  _ ← stop_children children;
  _ ← stop_docker args;
  mret (Ok tt).

End up.

(** ** Forwarding output *)

(** [forward] over the bytes of a stream: a line that is not UTF-8 ends it. *)
Fixpoint forward_pieces (tag : string) (pieces : list string) : list string :=
  match pieces with
  | [] => []
  | p :: rest =>
      match from_utf8 p with
      | Some line => ("[" +:+ tag +:+ "] " +:+ trim_end_matches (Ascii.eqb newline) line)
                     :: forward_pieces tag rest
      | None => []
      end
  end.
Definition forward (prefix stream bytes : string) : list string :=
  forward_pieces (if String.eqb stream "err" then prefix +:+ "!" else prefix)
    (split_inclusive newline bytes).

(** ** What the programs read *)

(** clap: the value of a flag on a command line. *)
Class Clap : Type := { flag_value : list string → string → option string }.
(** On a line of flags with values, each value is found under its flag. *)
Class ClapLaws {C : Clap} : Prop := {
  flag_pairs : ∀ kvs k, NoDup kvs.*1 → Forall (λ kv, starts_with "--" kv.1 = true ∧
      starts_with "-" kv.2 = false) kvs →
    flag_value (kvs ≫= λ kv, [kv.1; kv.2]) k = (list_to_map kvs : gmap string string) !! k
}.

Section program_args.
Context {C : Clap}.

(** [#[arg(long, env = ..., default_value = ...)]]. *)
Definition arg_value (e : Env) (c : Cmd) (flag var dflt : string) : string :=
  match flag_value (cmd_args c) flag with
  | Some v => v
  | None => default dflt (env_var e !! var)
  end.

(** The environment of a child. *)
Definition child_env (e : Env) (c : Cmd) : Env :=
  {| env_var := list_to_map (cmd_env c) ∪ env_var e; env_read := env_read e |}.

Record ControllerArgs : Type := { ca_nats_url : string; ca_bind : string; ca_store_path : string }.

Definition controller_args (e : Env) (c : Cmd) : ControllerArgs :=
  {| ca_nats_url := arg_value e c "--nats-url" "ORION_NATS_URL" "nats://127.0.0.1:4222";
     ca_bind := arg_value e c "--bind" "ORION_HTTP_BIND" "127.0.0.1:7878";
     ca_store_path := arg_value e c "--store-path" "ORION_STORE_PATH" "./orion-state.sqlite" |}.

(** The agent's node id, when neither flag nor variable gives one, is the host's. *)
Record AgentArgs : Type := { aa_nats_url : string; aa_node_id : option string }.

Definition agent_args (e : Env) (c : Cmd) : AgentArgs :=
  {| aa_nats_url := arg_value e c "--nats-url" "ORION_NATS_URL" "nats://127.0.0.1:4222";
     aa_node_id := match flag_value (cmd_args c) "--node-id" with
                   | Some v => Some v | None => env_var e !! "ORION_NODE_ID" end |}.

Definition ui_controller (e : Env) (c : Cmd) : string :=
  arg_value e c "--controller" "ORION_CONTROLLER_URL" "http://127.0.0.1:7878".

End program_args.

(** ** Lemmas: what starting does *)

(** Commands that run as the processes from [n] on. *)
Fixpoint with_procs (n : nat) (cs : list Cmd) (procs : gmap nat Cmd) : gmap nat Cmd :=
  match cs with [] => procs | c :: cs' => with_procs (S n) cs' (<[n := c]> procs) end.

Lemma with_procs_app n a b procs :
  with_procs n (a ++ b) procs = with_procs (n + length a) b (with_procs n a procs).
Proof.
  revert n procs. induction a as [|c a IH]; intros n procs; simpl; [by rewrite Nat.add_0_r|].
  by rewrite IH, Nat.add_succ_r.
Qed.

Lemma with_procs_other n cs procs pid :
  pid < n ∨ n + length cs ≤ pid → with_procs n cs procs !! pid = procs !! pid.
Proof.
  revert n procs. induction cs as [|c cs IH]; intros n procs Hp; simpl in *; [done|].
  rewrite IH by lia. apply lookup_insert_ne. lia.
Qed.

(** Programs: a name and a command.  From [s] to [s'] the programs [new] were started, in
    order, and nothing else happened to the host. *)
Notation Program := (string * Cmd)%type.
Record grown (s s' : UpState) (new : list Program) : Prop := {
  grown_stopped : up_stopped s' = up_stopped s;
  grown_containers : up_containers s' = up_containers s;
  grown_next : up_next s' = up_next s + length new;
  grown_procs : up_procs s' = with_procs (up_next s) new.*2 (up_procs s)
}.

(** The children that come from starting programs. *)
Definition kids (n : nat) (new : list Program) : list Child := zip new.*1 (seq n (length new)).

Lemma grown_same s : grown s s [].
Proof. split; simpl; auto. Qed.

Lemma grown_trans s s1 s2 a b : grown s s1 a → grown s1 s2 b → grown s s2 (a ++ b).
Proof.
  intros [A1 A2 A3 A4] [B1 B2 B3 B4]. split; try congruence.
  - rewrite length_app. lia.
  - by rewrite B4, A4, A3, fmap_app, with_procs_app, length_fmap.
Qed.

Lemma grown_add s c name : grown s (add_proc c s) [(name, c)].
Proof. split; simpl; auto. lia. Qed.

Lemma kids_app n a b : kids n (a ++ b) = kids n a ++ kids (n + length a) b.
Proof.
  unfold kids. rewrite fmap_app, length_app, seq_app. apply zip_with_app.
  by rewrite length_fmap, length_seq.
Qed.
Lemma kids_names n l : (kids n l).*1 = l.*1.
Proof. unfold kids. apply fst_zip. by rewrite length_fmap, length_seq. Qed.
Lemma kids_pids n l : (kids n l).*2 = seq n (length l).
Proof. unfold kids. apply snd_zip. by rewrite length_fmap, length_seq. Qed.

(** A step that starts the programs [l] and appends them to its children; when it fails,
    it has started a first part of them. *)
Definition started (l : list Program) (children : list Child) (s : UpState)
    (x : result (list Child) UpError * (UpState * Used)) : Prop :=
  match x.1 with
  | Ok ch => grown s x.2.1 l ∧ ch = children ++ kids (up_next s) l
  | Err _ => ∃ new, new `prefix_of` l ∧ grown s x.2.1 new
  end.
Definition starts (l : list Program) (children : list Child)
    (m : M UpState (result (list Child) UpError)) : Prop :=
  ∀ o s u, started l children s (m o (s, u)).

(** A step that changes nothing. *)
Definition idle {A} (m : M UpState A) : Prop := ∀ o s u, (m o (s, u)).2.1 = s.

Lemma idle_bind {A B} (m : M UpState A) (f : A → M UpState B) :
  idle m → (∀ a, idle (f a)) → idle (m ≫= f).
Proof.
  intros Hm Hf o s u. unfold mbind, M_bind. specialize (Hm o s u).
  destruct (m o (s, u)) as [a [s1 u1]]. simpl in Hm. subst s1. apply Hf.
Qed.

Lemma idle_attempts n : idle (attempts n).
Proof. induction n as [|n IH]; [done|]. apply idle_bind; [done|]. by intros [f|]. Qed.
Lemma idle_wait : idle wait_for_nats_ready.
Proof. apply idle_bind; [apply idle_attempts|]. by intros a o s u. Qed.

Lemma starts_ok children : starts [] children (mret (Ok children)).
Proof. intros o s u. split; [apply grown_same|]. by rewrite app_nil_r. Qed.

Lemma starts_err l children e : starts l children (mret (Err e)).
Proof. intros o s u. exists []. split; [apply prefix_nil|apply grown_same]. Qed.

Lemma starts_spawn name c children : starts [(name, c)] children (spawn name c children).
Proof.
  intros o s u. unfold started, spawn, io, get, modify, mbind, M_bind, mret, M_ret. cbn.
  destruct (or_fault o (us_io u)); cbn.
  - exists []. split; [apply prefix_nil|by split].
  - split; [apply grown_add|done].
Qed.

(** Steps one after the other. *)
Lemma starts_bind l1 l2 children m k :
  starts l1 children m → (∀ ch, starts l2 ch (k ch)) →
  starts (l1 ++ l2) children (let! ch := m in k ch).
Proof.
  intros Hm Hk o s u. unfold mbind, M_bind. specialize (Hm o s u). unfold started in *.
  destruct (m o (s, u)) as [[ch|e] [s1 u1]]; cbn [fst snd] in *.
  - destruct Hm as [Ga ->]. specialize (Hk (children ++ kids (up_next s) l1) o s1 u1).
    unfold started in Hk. destruct (k _ o (s1, u1)) as [[ch|e] su]; cbn [fst snd] in *.
    + destruct Hk as [Gb ->]. split; [by eapply grown_trans|].
      by rewrite <- app_assoc, kids_app, (grown_next _ _ _ Ga).
    + destruct Hk as (b & Pb & Gb). exists (l1 ++ b). split; [by apply prefix_app|by eapply grown_trans].
  - destruct Hm as (a & Pa & Ga). exists a. split; [by apply prefix_app_r|done].
Qed.

Lemma starts_idle {A} l children (m : M UpState A) (k : A → M UpState (result (list Child) UpError)) :
  idle m → (∀ a, starts l children (k a)) → starts l children (m ≫= k).
Proof.
  intros Hm Hk o s u. unfold mbind, M_bind. specialize (Hm o s u).
  destruct (m o (s, u)) as [a [s1 u1]]. simpl in Hm. subst s1. apply Hk.
Qed.

Section starting.
Context (host : UpHost) (ctx : Ctx) (args : UpArgs).

(** ** What [orion up] starts

    The broker's program, when it is native; the controller; the agent and the interface
    unless they are declined. *)
Definition broker_part : list Program :=
  match resolve_nats host args with
  | RsNative => [("nats-server", nats_cmd (default "" (which host "nats-server")))]
  | RsDocker | RsNone => []
  end.
Definition controller_part : list Program :=
  [("controller", controller_cmd args (default "" (find_bin_optional host "orion-controller")))].
Definition agent_part : list Program :=
  if ua_no_agent args then []
  else [("agent", agent_cmd args (default "" (find_bin_optional host "orion-agent")))].
Definition ui_part : list Program :=
  if ua_no_ui args then []
  else match find_bin_optional host "orion-ui" with Some p => [("ui", ui_cmd ctx p)] | None => [] end.
Definition required : list Program := broker_part ++ controller_part ++ agent_part.

(** The broker: a container when it is Docker's. *)
Definition holds_container (s : UpState) : Prop :=
  ∃ c, c ∈ up_containers s ∧ trim c = ua_nats_container args.

Definition same_others (l l' : list string) : Prop :=
  ∀ c, c ≠ ua_nats_container args → c ∈ l' ↔ c ∈ l.

Lemma docker_broker o s u :
  trim (ua_nats_container args) = ua_nats_container args →
  let x := ensure_docker_nats (ua_nats_container args) o (s, u) in
  ∃ l, x.2.1 = set_containers l s ∧ same_others (up_containers s) l ∧
    (x.1 = Ok tt → holds_container (set_containers l s)).
Proof.
  intros Ht x. unfold x, ensure_docker_nats, io, get, modify, mbind, M_bind, mret, M_ret. cbn.
  assert (∀ t v, (wait_for_nats_ready o (t, v)).2.1 = t) as Hw by (intros t v; apply idle_wait).
  assert (s = set_containers (up_containers s) s) as Hs by by destruct s.
  destruct (or_fault o (us_io u)); cbn; [by exists (up_containers s)|].
  destruct (existsb _ (up_containers s)) eqn:Ex.
  { exists (up_containers s). rewrite Hw. split; [done|]. split; [done|]. intros _.
    apply existsb_exists in Ex as (c & Hc & Ec%String.eqb_eq). exists c. cbn.
    by rewrite <- list_elem_of_In in Hc. }
  destruct (or_fault o _); cbn; [by exists (up_containers s)|].
  destruct (or_fault o _); cbn; [by exists (up_containers s)|].
  exists (up_containers s ++ [ua_nats_container args]). rewrite Hw. split; [done|].
  split; [intros c Hc; rewrite elem_of_app, list_elem_of_singleton; tauto|]. intros _.
  exists (ua_nats_container args). split; [cbn; apply elem_of_app; right; by left|done].
Qed.

Lemma starts_broker :
  resolve_nats host args ≠ RsDocker → starts broker_part [] (start_broker host args).
Proof.
  unfold broker_part, start_broker, start_native_nats. destruct (resolve_nats host args); [|done|].
  - intros _. destruct (which host "nats-server") as [bin|]; [|apply starts_err].
    apply (starts_bind [_] []); [apply starts_spawn|]. intros ch.
    apply starts_idle; [apply idle_wait|]. intros [[]|e]; [apply starts_ok|apply starts_err].
  - intros _. apply starts_ok.
Qed.

Lemma starts_bin name bin cmd ch :
  starts [(name, cmd (default "" (find_bin_optional host bin)))] ch (start_bin host name bin cmd ch).
Proof.
  unfold start_bin, find_bin.
  destruct (find_bin_optional host bin); [apply starts_spawn|apply starts_err].
Qed.

(** The interface never makes the command fail. *)
Definition with_ui (ch : list Child) : M UpState (result (list Child) UpError) :=
  ch' ← (if ua_no_ui args then mret ch else start_ui host ctx ch); mret (Ok ch').
Lemma ui_step ch o s u :
  let x := with_ui ch o (s, u) in
  ∃ ui, (ui = ui_part ∨ ui = []) ∧ (fault_free o → ui = ui_part) ∧ grown s x.2.1 ui ∧
    x.1 = (Ok (ch ++ kids (up_next s) ui) : result (list Child) UpError).
Proof.
  unfold with_ui, ui_part, start_ui. destruct (ua_no_ui args).
  { exists []. cbn. rewrite app_nil_r. split_and!; auto using grown_same. }
  destruct (find_bin_optional host "orion-ui") as [p|].
  2: { exists []. cbn. rewrite app_nil_r. split_and!; auto using grown_same. }
  unfold spawn, io, get, modify, mbind, M_bind, mret, M_ret. cbn.
  destruct (or_fault o (us_io u)) eqn:Ef; cbn.
  - exists []. cbn. rewrite app_nil_r. split_and!; auto; [|by split]. intros Hf. by rewrite Hf in Ef.
  - exists [("ui", ui_cmd ctx p)]. split_and!; auto using grown_add.
Qed.

(** Everything after the broker. *)
Definition after_broker (children : list Child) : M UpState (result (list Child) UpError) :=
  let! children := start_bin host "controller" "orion-controller" (controller_cmd args) children in
  _ ← attempts 20;
  if ua_no_agent args then mret (Ok children)
  else start_bin host "agent" "orion-agent" (agent_cmd args) children.

Lemma starts_after ch : starts (controller_part ++ agent_part) ch (after_broker ch).
Proof.
  unfold after_broker. apply starts_bind; [apply starts_bin|]. intros c.
  apply starts_idle; [apply idle_attempts|]. intros _. unfold agent_part.
  destruct (ua_no_agent args); [apply starts_ok|apply starts_bin].
Qed.

Lemma up_start_steps o su :
  up_start host ctx args o su =
  (let! children := (let! children := start_broker host args in after_broker children) in
   with_ui children) o su.
Proof.
  unfold up_start, after_broker, with_ui, mbind, M_bind.
  destruct (start_broker host args o su) as [[c|e] su1]; [|done].
  destruct (start_bin _ _ _ _ _ o su1) as [[c'|e] su2]; [|done].
  destruct (attempts 20 o su2) as [b su3]. by destruct (_ o su3) as [[c''|e] su4].
Qed.

(** What starting does. *)
Lemma up_start_run o s u :
  trim (ua_nats_container args) = ua_nats_container args →
  let x := up_start host ctx args o (s, u) in
  ∃ l, (resolve_nats host args ≠ RsDocker → l = up_containers s) ∧
  same_others (up_containers s) l ∧
  match x.1 with
  | Ok ch => ∃ ui, (ui = ui_part ∨ ui = []) ∧ (fault_free o → ui = ui_part) ∧
      grown (set_containers l s) x.2.1 (required ++ ui) ∧ ch = kids (up_next s) (required ++ ui) ∧
      (resolve_nats host args = RsDocker → holds_container x.2.1)
  | Err _ => ∃ new, new `prefix_of` required ∧ grown (set_containers l s) x.2.1 new
  end.
Proof.
  intros Ht x. unfold x. rewrite up_start_steps.
  set (m := let! children := start_broker host args in after_broker children).
  assert (∃ l, (resolve_nats host args ≠ RsDocker → l = up_containers s) ∧
    same_others (up_containers s) l ∧ started required [] (set_containers l s) (m o (s, u)) ∧
    (resolve_nats host args = RsDocker → (∃ ch, (m o (s, u)).1 = Ok ch) →
       holds_container (set_containers l s))) as (l & Hl & Ho & Hm & Hd).
  { destruct (decide (resolve_nats host args = RsDocker)) as [E|E].
    - destruct (docker_broker o s u Ht) as (l & El & Ho & Hd). exists l. split; [done|]. split; [done|].
      unfold m, required, broker_part, start_broker. rewrite E. unfold mbind, M_bind, mret, M_ret.
      destruct (ensure_docker_nats _ o (s, u)) as [[[]|e] [s1 u1]]; cbn [fst snd] in *; subst s1.
      + split; [apply (starts_after [] o (set_containers l s) u1)|]. intros _ _. by apply Hd.
      + split; [|by intros _ [? ?]]. exists []. split; [apply prefix_nil|apply grown_same].
    - exists (up_containers s). split; [done|]. split; [done|]. split; [|done].
      assert (set_containers (up_containers s) s = s) as -> by by destruct s.
      apply (starts_bind _ _ [] _ _ (starts_broker E) starts_after). }
  exists l. split; [done|]. split; [done|]. unfold mbind, M_bind, started in *.
  destruct (m o (s, u)) as [[ch|e] [s1 u1]]; cbn [fst snd] in *; [|done].
  destruct Hm as [G ->]. destruct (ui_step (kids (up_next s) required) o s1 u1) as (ui & Hui & Hf & Gu & Hx).
  change (up_next (set_containers l s)) with (up_next s). change ([] ++ ?z) with z. rewrite Hx. exists ui. split_and!; [done|done|by eapply grown_trans| |].
  - rewrite kids_app. do 2 f_equal. apply (grown_next _ _ _ G).
  - intros E. destruct (Hd E) as (c & Hc & Hcn); [by eexists|]. exists c. split; [|done].
    by rewrite (grown_containers _ _ _ Gu), (grown_containers _ _ _ G).
Qed.

(** ** When starting succeeds

    A step that succeeds, with nothing failing, exactly under [P]. *)
Definition succeeds {A} (o : Oracle) (m : M UpState (result A UpError)) (P : Prop) : Prop :=
  ∀ su, (∃ a, (m o su).1 = Ok a) ↔ P.

Lemma starting_ret {A} o (a : A) : succeeds o (mret (Ok a)) True.
Proof. intros su. split; [done|]. intros _. by exists a. Qed.
Lemma starting_err {A} o e (P : Prop) : ¬ P → succeeds o (mret (Err e) : M UpState (result A UpError)) P.
Proof. intros HP su. split; [by intros [? ?]|done]. Qed.
Lemma starting_bind {A B} o (m : M UpState (result A UpError)) (k : A → M UpState (result B UpError)) P Q :
  succeeds o m P → (∀ a, succeeds o (k a) Q) → succeeds o (let! a := m in k a) (P ∧ Q).
Proof.
  intros Hm Hk su. unfold mbind, M_bind. rewrite <- (Hm su).
  destruct (m o su) as [[a|e] su1]; cbn [fst].
  - rewrite (Hk a su1). split; [|tauto]. intros H. split; [by exists a|done].
  - split; [by intros [? ?]|]. by intros [[? ?] _].
Qed.
Lemma starting_after {A B} o (m : M UpState A) (k : A → M UpState (result B UpError)) P :
  (∀ a, succeeds o (k a) P) → succeeds o (m ≫= k) P.
Proof.
  intros Hk su. unfold mbind, M_bind. destruct (m o su) as [a su1]. apply Hk.
Qed.
Lemma starting_iff {A} o (m : M UpState (result A UpError)) P Q :
  succeeds o m P → (P ↔ Q) → succeeds o m Q.
Proof. intros Hm HP su. by rewrite (Hm su). Qed.

Section quiet.
Context (o : Oracle) (Hf : fault_free o).

Lemma starting_spawn name c ch : succeeds o (spawn name c ch) True.
Proof.
  intros [s u]. unfold spawn, io, get, modify, mbind, M_bind, mret, M_ret. cbn. rewrite Hf. cbn.
  split; [done|]. intros _. by eexists.
Qed.

Lemma starting_wait : succeeds o wait_for_nats_ready True.
Proof.
  intros [s u]. unfold wait_for_nats_ready, attempts, io, mbind, M_bind, mret, M_ret. cbn. rewrite Hf.
  cbn. split; [done|]. intros _. by exists tt.
Qed.

Lemma starting_docker container : succeeds o (ensure_docker_nats container) True.
Proof.
  intros [s u]. split; [done|]. intros _. pose proof starting_wait as W.
  unfold ensure_docker_nats, io, get, modify, mbind, M_bind, mret, M_ret. cbn. rewrite Hf.
  destruct (existsb _ _); [by apply W|]. cbn. rewrite Hf. cbn. rewrite Hf. by apply W.
Qed.

Lemma starting_bin name bin cmd ch :
  succeeds o (start_bin host name bin cmd ch) (is_Some (find_bin_optional host bin)).
Proof.
  unfold start_bin, find_bin. destruct (find_bin_optional host bin).
  - eapply starting_iff; [apply starting_spawn|]. split; [by eexists|done].
  - apply starting_err. apply is_Some_None.
Qed.

End quiet.

(** Every program that is needed is on the host. *)
Definition all_found : Prop :=
  (resolve_nats host args = RsNative → is_Some (which host "nats-server")) ∧
  is_Some (find_bin_optional host "orion-controller") ∧
  (ua_no_agent args = false → is_Some (find_bin_optional host "orion-agent")).

Lemma up_start_succeeds o : fault_free o → succeeds o (up_start host ctx args) all_found.
Proof.
  intros Hf. unfold up_start, all_found. apply starting_bind; [|intros c1; apply starting_bind].
  - unfold start_broker, start_native_nats. destruct (resolve_nats host args).
    + destruct (which host "nats-server").
      * eapply starting_iff; [apply starting_bind; [by apply starting_spawn|]|].
        { intros c. apply starting_bind; [by apply starting_wait|]. intros []. apply starting_ret. }
        split; [by eexists|done].
      * apply starting_err. intros H. by destruct (H eq_refl).
    + eapply starting_iff; [apply starting_bind; [by apply starting_docker|]|].
      { intros []. apply starting_ret. }
      by split.
    + eapply starting_iff; [apply starting_ret|]. by split.
  - by apply starting_bin.
  - intros c2. apply starting_after. intros _. eapply starting_iff; [apply starting_bind|].
    + instantiate (1 := ua_no_agent args = false → is_Some (find_bin_optional host "orion-agent")).
      destruct (ua_no_agent args).
      * eapply starting_iff; [apply starting_ret|]. by split.
      * eapply starting_iff; [by apply starting_bin|]. split; [done|]. by intros H; apply H.
    + intros c3. apply starting_after. intros c4. apply starting_ret.
    + tauto.
Qed.

End starting.

(** ** Lemmas: what stopping does *)

Lemma stop_children_snoc children name pid o s u :
  stop_children (children ++ [(name, pid)]) o (s, u) = stop_children children o (kill_proc name pid s, u).
Proof. unfold stop_children. by rewrite reverse_snoc. Qed.

Lemma stop_children_run children o s u :
  let s' := (stop_children children o (s, u)).2.1 in
  up_stopped s' = up_stopped s ++ reverse children.*1 ∧ up_containers s' = up_containers s ∧
  ∀ pid, up_procs s' !! pid = if decide (pid ∈ children.*2) then None else up_procs s !! pid.
Proof.
  cbv zeta. revert s u.
  induction children as [|[name pid] children IH] using rev_ind; intros s u.
  { split_and!; [cbn; by rewrite app_nil_r|done|]. intros pid. done. }
  rewrite stop_children_snoc. destruct (IH (kill_proc name pid s) u) as (H1 & H2 & H3). split_and!.
  - rewrite H1. simpl. by rewrite fmap_app, reverse_app, <- app_assoc.
  - by rewrite H2.
  - intros q. rewrite H3. simpl. rewrite fmap_app. simpl.
    destruct (decide (q = pid)) as [->|Hne].
    + rewrite lookup_delete_eq. repeat destruct (decide _); set_solver.
    + rewrite lookup_delete_ne by done. repeat destruct (decide _); set_solver.
Qed.

(** Processes that were started and then stopped leave the others as they were. *)
Lemma stopped_procs n (l : list Program) (procs procs' : gmap nat Cmd)
    (Hfresh : ∀ pid, n ≤ pid → procs !! pid = None)
    (H : ∀ pid, procs' !! pid = if decide (pid ∈ seq n (length l)) then None
                                else with_procs n l.*2 procs !! pid) :
  procs' = procs.
Proof.
  apply map_eq. intros pid. rewrite H. destruct (decide _) as [Hin|Hin].
  - symmetry. apply Hfresh. apply elem_of_seq in Hin. lia.
  - apply with_procs_other. rewrite elem_of_seq in Hin. rewrite length_fmap. lia.
Qed.

Lemma stop_docker_run host args o s u :
  let s' := (stop_docker host args o (s, u)).2.1 in
  up_procs s' = up_procs s ∧ up_stopped s' = up_stopped s ∧
  (resolve_nats host args ≠ RsDocker → up_containers s' = up_containers s) ∧
  same_others args (up_containers s) (up_containers s') ∧
  (resolve_nats host args = RsDocker → fault_free o →
     ua_nats_container args ∉ up_containers s').
Proof.
  unfold stop_docker, mbind, M_bind, io, modify, mret, M_ret.
  destruct (resolve_nats host args); cbn; [by split_and!| |by split_and!].
  destruct (or_fault o (us_io u)) eqn:Ef; cbn; split_and!; try done.
  - intros _ Hf. by rewrite Hf in Ef.
  - intros c Hc. rewrite !list_elem_of_In, filter_In. destruct (String.eqb_spec c (ua_nats_container args)); tauto.
  - intros _ _ Hin. apply list_elem_of_In, filter_In in Hin as [_ Hn].
    by rewrite String.eqb_refl in Hn.
Qed.

(** ** Claims *)


(** A host with every program in one directory, but for the named ones. *)
Definition host_without (missing : list string) : UpHost :=
  {| uh_path := Some "/opt/orion/bin:/usr/bin";
     uh_is_file := λ p, bool_decide (p ∈ (λ n, "/usr/bin/" +:+ n) <$>
       List.filter (λ n, bool_decide (n ∉ missing))
         ["nats-server"; "orion-controller"; "orion-agent"; "orion-ui"]) |}.
Definition up_defaults : UpArgs :=
  {| ua_nats := NatsAuto; ua_no_nats := false; ua_no_ui := false; ua_no_agent := false;
     ua_node_id := "local-dev"; ua_controller_bind := "127.0.0.1:7878"; ua_store := None;
     ua_auth := false; ua_nats_container := "orion-nats"; ua_agent_nats_url := None |}.
Definition up_idle : UpState :=
  {| up_procs := ∅; up_next := 1; up_containers := []; up_stopped := [] |}.
Definition up_ctx : Ctx :=
  {| ctx_controller := "http://127.0.0.1:7878"; ctx_nats_url := "nats://127.0.0.1:4222";
     ctx_token := None; ctx_output := Table |}.


(** A broker that [orion up] started is left behind when the controller's program is not
    found: with a native broker and nothing failing but that, the command fails and the
    broker keeps running. *)
Theorem up_leaves_broker_running (host : UpHost) (ctx : Ctx) (args : UpArgs) (bin : string)
    (o : Oracle) (s : UpState) (u : Used)
    (Hf : fault_free o) (Hr : resolve_nats host args = RsNative)
    (Hw : which host "nats-server" = Some bin) (Hb : find_bin_optional host "orion-controller" = None) :
  let x := up_run host ctx args o (s, u) in
  x.1 = Err (BinMissing "orion-controller") ∧
  up_procs x.2.1 = <[up_next s := nats_cmd bin]> (up_procs s).
Proof.
  cbv zeta. unfold up_run, up_start, start_broker, start_native_nats. rewrite Hr, Hw.
  unfold spawn, wait_for_nats_ready, io, get, modify, mbind, M_bind, mret, M_ret. cbn.
  rewrite Hf. cbn. unfold io, mbind, M_bind, mret, M_ret. cbn. rewrite Hf. cbn.
  unfold start_bin, find_bin. by rewrite Hb.
Qed.

Lemma child_var e c k :
  env_var (child_env e c) !! k =
  match (list_to_map (cmd_env c) : gmap string string) !! k with
  | Some v => Some v | None => env_var e !! k
  end.
Proof.
  unfold child_env. cbn [env_var]. rewrite lookup_union.
  by destruct ((list_to_map (cmd_env c) : gmap string string) !! k), (env_var e !! k).
Qed.

(** Looking up literal names in literal tables. *)
Ltac vars := cbn [list_to_map foldr app no_auth_env fst snd];
  repeat first [rewrite lookup_insert_eq | rewrite lookup_insert_ne by done | rewrite lookup_empty].

(** The programs of one stack agree, up to two of their addresses.  The controller listens
    where the user said, keeps its state where the user said or in memory, and with no
    [--auth] both it and the agent run without authentication, whatever token is around;
    with [--auth] both use the same mode.  The agent has the node id the user said, but
    connects to the broker of the environment whatever [--agent-nats-url] says: the
    variable it is given is not the one it reads.  The interface asks the controller URL
    of the command line, not the address the controller was told to listen on. *)
Theorem up_stack_configuration {C : Clap} {CL : ClapLaws} (e : Env) (ctx : Ctx) (args : UpArgs)
    (controller agent ui : string)
    (Hbind : starts_with "-" (ua_controller_bind args) = false)
    (Hnode : starts_with "-" (ua_node_id args) = false) :
  let cc := controller_cmd args controller in
  let ac := agent_cmd args agent in
  let ca := controller_args (child_env e cc) cc in
  let aa := agent_args (child_env e ac) ac in
  ca_bind ca = ua_controller_bind args ∧
  ca_store_path ca = default "sqlite::memory:" (ua_store args) ∧
  aa_node_id aa = Some (ua_node_id args) ∧
  from_env (child_env e cc) = from_env (child_env e ac) ∧
  (ua_auth args = false → from_env (child_env e cc) = Ok Disabled) ∧
  aa_nats_url aa = ca_nats_url ca ∧
  ca_nats_url ca = default "nats://127.0.0.1:4222" (env_var e !! "ORION_NATS_URL") ∧
  ui_controller (child_env e (ui_cmd ctx ui)) (ui_cmd ctx ui) = ctx_controller ctx.
Proof.
  assert (∀ k, flag_value ["--bind"; ua_controller_bind args] k =
    (list_to_map [("--bind", ua_controller_bind args)] : gmap string string) !! k) as Hc.
  { intros k. apply (flag_pairs [("--bind", ua_controller_bind args)]); repeat constructor; done || set_solver. }
  assert (∀ k, flag_value ["--node-id"; ua_node_id args; "--heartbeat-interval"; "2"] k =
    (list_to_map [("--node-id", ua_node_id args); ("--heartbeat-interval", "2")]
       : gmap string string) !! k) as Ha.
  { intros k. apply (flag_pairs [("--node-id", ua_node_id args); ("--heartbeat-interval", "2")]);
      repeat constructor; done || set_solver. }
  assert (∀ k, flag_value [] k = (list_to_map [] : gmap string string) !! k) as Hu.
  { intros k. apply (flag_pairs []); constructor. }
  cbv zeta. unfold controller_args, agent_args, ui_controller, arg_value.
  cbn [cmd_args controller_cmd agent_cmd ui_cmd ca_bind ca_store_path ca_nats_url aa_node_id aa_nats_url].
  rewrite !Hc, !Ha, !Hu, !child_var. cbn [cmd_env controller_cmd agent_cmd ui_cmd].
  unfold from_env, is_disabled, token_from_file, token_path. rewrite !child_var.
  cbn [cmd_env controller_cmd agent_cmd ui_cmd env_read child_env].
  unfold no_auth_env. destruct (ua_auth args), (ua_agent_nats_url args); vars; by split_and!.
Qed.

Lemma up_leaves_broker_running_witness :
  let x := up_run (host_without ["orion-controller"]) up_ctx up_defaults quiet_oracle
             (up_idle, Used_init) in
  x.1 = Err (BinMissing "orion-controller") ∧ up_procs x.2.1 = <[1 := nats_cmd "/usr/bin/nats-server"]> ∅.
Proof.
  apply (up_leaves_broker_running (host_without ["orion-controller"]) up_ctx up_defaults
    "/usr/bin/nats-server" quiet_oracle up_idle Used_init); [|vm_compute; reflexivity..].
  apply quiet_fault_free.
Defined.

(** A command line read pair by pair. *)
Fixpoint scan_flags (args : list string) (k : string) : option string :=
  match args with
  | f :: v :: rest => if String.eqb f k then Some v else scan_flags rest k
  | _ => None
  end.
Definition scan_clap : Clap := {| flag_value := scan_flags |}.
Lemma scan_clap_laws : @ClapLaws scan_clap.
Proof.
  split. intros kvs k _ _. change (flag_value ?a k) with (scan_flags a k).
  induction kvs as [|[f v] kvs IH]; [done|]. cbn [mbind list_bind app fst snd scan_flags list_to_map foldr].
  destruct (String.eqb_spec f k) as [->|Hne].
  - by rewrite lookup_insert_eq.
  - rewrite lookup_insert_ne by done. exact IH.
Qed.

Lemma up_stack_configuration_witness :
  let ac := agent_cmd {| ua_nats := NatsNone; ua_no_nats := false; ua_no_ui := false;
    ua_no_agent := false; ua_node_id := "n1"; ua_controller_bind := "127.0.0.1:9000";
    ua_store := None; ua_auth := false; ua_nats_container := "orion-nats";
    ua_agent_nats_url := Some "nats://far:4222" |} "orion-agent" in
  aa_nats_url (agent_args (C := scan_clap) (child_env {| env_var := ∅; env_read := λ _, Err IoNotFound |} ac) ac)
  = "nats://127.0.0.1:4222".
Proof.
  cbv zeta. set (args := {| ua_nats := NatsNone |}).
  destruct (up_stack_configuration (C := scan_clap) (CL := scan_clap_laws)
    {| env_var := ∅; env_read := λ _, Err IoNotFound |} up_ctx args "orion-controller" "orion-agent"
    "orion-ui" eq_refl eq_refl) as (_ & _ & _ & _ & _ & H1 & H2 & _).
  rewrite H1, H2. reflexivity.
Defined.

Lemma trim_line_end l : has_char newline l = false →
  trim_end_matches (Ascii.eqb newline) (l +:+ String newline EmptyString) = l.
Proof.
  intros H. rewrite <- has_char_rev in H. unfold trim_end_matches.
  rewrite string_rev_distr. cbn [string_rev]. change (string_rev _ +:+ ?x) with (String newline x).
  cbn [trim_start_matches]. rewrite Ascii.eqb_refl.
  rewrite <- (string_rev_involutive l) at 2. f_equal.
  destruct (string_rev l) as [|c r]; [done|]. simpl in H. apply orb_false_iff in H as [H _].
  cbn [trim_start_matches]. by rewrite Ascii.eqb_sym, H.
Qed.

(** Forwarding ends at the first line that is not UTF-8: the lines before it are printed
    under their tag, and that line and all that follow are lost, whatever they are. *)
Theorem forward_stops_at_binary (prefix stream bad rest : string) (ls : list string)
    (Hls : Forall (λ l, has_char newline l = false ∧
                        from_utf8 (l +:+ String newline EmptyString) ≠ None) ls)
    (Hbad : has_char newline bad = false ∧ from_utf8 (bad +:+ String newline EmptyString) = None) :
  let tag := if String.eqb stream "err" then prefix +:+ "!" else prefix in
  forward prefix stream (unlines ls) = (λ l, "[" +:+ tag +:+ "] " +:+ l) <$> ls ∧
  forward prefix stream (unlines ls +:+ bad +:+ String newline rest) =
    forward prefix stream (unlines ls).
Proof.
  cbv zeta. unfold forward. set (tag := if String.eqb stream "err" then _ else _).
  induction Hls as [|l ls [Hn Hu] Hls IH].
  - split; [done|]. unfold unlines. cbn [foldr]. rewrite string_app_empty.
    destruct Hbad as [Hb He]. rewrite split_inclusive_app by done. cbn [forward_pieces]. by rewrite He.
  - unfold unlines in *. cbn [foldr].
    destruct (from_utf8 (l +:+ String newline EmptyString)) as [x|] eqn:E; [|done].
    assert (x = l +:+ String newline EmptyString) as -> by (unfold from_utf8 in E; case_match; congruence).
    rewrite string_app_assoc, string_app_cons, !split_inclusive_app by done. cbn [forward_pieces].
    rewrite E, trim_line_end by done. destruct IH as [-> ->]. done.
Qed.
