(* ===== verification/Tui.v ===== *)
(** * The terminal dashboard (crates/orion-cli/src/cmd/tui.rs)

    The loop of [orion tui]: it fetches a snapshot of the controller when the last one is
    old enough, draws it, and handles at most one key.  The widgets are given by
    what they show: titles, widths, rows and the summary, read from the answers the server of
    Server.v gives; their colours and layout are left out. *)

From Stdlib Require Import ZArith Lia Bool Ascii.
From stdpp Require Import base list gmap strings pretty.
From S2P Require Import Prelude Text Types Effect Parse Store Registry Controller Dispatch Api System Auth Docker Mcp Server CliText Cli CliRun.

(** ** Tabs and keys *)

Inductive Tab : Type := TabOverview | TabNodes | TabServices | TabQueues.

Definition tab_next (t : Tab) : Tab :=
  match t with
  | TabOverview => TabNodes | TabNodes => TabServices | TabServices => TabQueues
  | TabQueues => TabOverview
  end.
Definition tab_prev (t : Tab) : Tab :=
  match t with
  | TabOverview => TabQueues | TabNodes => TabOverview | TabServices => TabNodes
  | TabQueues => TabServices
  end.
Definition tab_label (t : Tab) : string :=
  match t with
  | TabOverview => "Overview" | TabNodes => "Nodes" | TabServices => "Services"
  | TabQueues => "Queues"
  end.
(** The title that is highlighted. *)
Definition tab_active (t : Tab) : nat :=
  match t with TabOverview => 0 | TabNodes => 1 | TabServices => 2 | TabQueues => 3 end.

Inductive KeyCode : Type :=
| KChar (c : ascii) | KEsc | KRight | KTab | KLeft | KBackTab | KOther.

(** ** Snapshots *)

Section tui.
Context {J : SerdeJson} {JM : JsonMake} {SL : ServerLib}.

Record TuiSnapshot : Type := {
  sn_nodes : Value;
  sn_services : Value;
  sn_queues : Value;
  sn_instances : Value;
  sn_diag_system : Value;
  sn_last_refresh : option Instant
}.

Definition TuiSnapshot_default : TuiSnapshot :=
  {| sn_nodes := value_null; sn_services := value_null; sn_queues := value_null;
     sn_instances := value_null; sn_diag_system := value_null; sn_last_refresh := None |}.

Record OverviewSummary : Type := {
  ov_agents : nat;
  ov_services : nat;
  ov_queues : nat;
  ov_instances_total : Z;
  ov_log_lines : Z;
  ov_uptime_seconds : Z
}.

Definition array_len (v : Value) : nat :=
  match value_as_array v with Some arr => length arr | None => 0 end.
Definition u64_at2 (v : Value) (a b : string) : Z := default 0%Z (pointer2 v a b ≫= value_as_u64).

Definition overview_summary (snap : TuiSnapshot) : OverviewSummary :=
  {| ov_agents := array_len (sn_nodes snap);
     ov_services := array_len (sn_services snap);
     ov_queues := array_len (sn_queues snap);
     ov_instances_total := u64_at2 (sn_diag_system snap) "instances" "total";
     ov_log_lines := u64_at2 (sn_diag_system snap) "logs" "buffered_lines";
     ov_uptime_seconds := u64_at2 (sn_diag_system snap) "controller" "uptime_seconds" |}.

(** [v.pointer("/a/b/c")]. *)
Definition pointer3 (v : Value) (a b c : string) : option Value :=
  w ← pointer2 v a b; value_get w c.

(** The rows of an array; anything else has none. *)
Definition rows_of (row : Value → list string) (v : Value) : list (list string) :=
  match value_as_array v with Some arr => row <$> arr | None => [] end.

Definition node_rows : Value → list (list string) := rows_of (λ n,
  [ default "?" (str_at n "node_id");
    default "-" (pointer2 n "inventory" "arch" ≫= value_as_str);
    default "-" (pointer2 n "inventory" "os" ≫= value_as_str);
    default "-" (str_at n "last_seen_at") ]).

Definition service_rows : Value → list (list string) := rows_of (λ s,
  [ default "?" (pointer2 s "metadata" "name" ≫= value_as_str);
    default "1" (json_to_string <$> pointer2 s "spec" "replicas");
    default "?" (pointer3 s "spec" "runtime" "kind" ≫= value_as_str);
    default "?" (pointer2 s "spec" "restart_policy" ≫= value_as_str) ]).

Definition queue_rows : Value → list (list string) := rows_of (λ q,
  [ default "?" (pointer2 q "metadata" "name" ≫= value_as_str);
    default "work" (pointer2 q "spec" "type" ≫= value_as_str);
    default "-" (json_to_string <$> pointer2 q "spec" "max_age_seconds") ]).

(** What a tab shows: the summary, or a table with its title, header and widths. *)
Inductive Width : Type := WLength (n : nat) | WMin (n : nat).

Inductive Body : Type :=
| BodySummary (o : OverviewSummary)
| BodyTable (title : string) (header : list string) (widths : list Width)
    (rows : list (list string)).

(** The text of the summary. *)
Definition overview_lines (o : OverviewSummary) : list string :=
  [ "agents:    " +:+ pretty (ov_agents o);
    "services:  " +:+ pretty (ov_services o);
    "queues:    " +:+ pretty (ov_queues o);
    "instances: " +:+ pretty (ov_instances_total o);
    "log buffer: " +:+ pretty (ov_log_lines o) +:+ " lines";
    "uptime:     " +:+ pretty (ov_uptime_seconds o) +:+ "s" ].

Definition draw_overview (snap : TuiSnapshot) : Body := BodySummary (overview_summary snap).
Definition draw_nodes (snap : TuiSnapshot) : Body :=
  BodyTable "Nodes" ["NODE"; "ARCH"; "OS"; "LAST SEEN"]
    [WLength 20; WLength 10; WLength 10; WMin 20] (node_rows (sn_nodes snap)).
Definition draw_services (snap : TuiSnapshot) : Body :=
  BodyTable "Services" ["NAME"; "REPLICAS"; "RUNTIME"; "RESTART"]
    [WLength 30; WLength 10; WLength 15; WLength 15] (service_rows (sn_services snap)).
Definition draw_queues (snap : TuiSnapshot) : Body :=
  BodyTable "Queues" ["NAME"; "TYPE"; "MAX_AGE"]
    [WLength 30; WLength 10; WLength 15] (queue_rows (sn_queues snap)).

(** The line at the bottom; [hms] is the time of the last refresh. *)
Definition status_line (hms : option string) : string :=
  " refresh: " +:+ default "—" hms +:+ "    keys: q quit · r refresh · ←→ tabs · 1-4 jump ".

Definition draw (snap : TuiSnapshot) (tab : Tab) : nat * Body :=
  (tab_active tab,
   match tab with
   | TabOverview => draw_overview snap
   | TabNodes => draw_nodes snap
   | TabServices => draw_services snap
   | TabQueues => draw_queues snap
   end).

(** Every row of a table has a cell for every column: the widths, the header and the rows
    agree. *)
Definition table_fits (b : Body) : Prop :=
  match b with
  | BodySummary _ => True
  | BodyTable _ header widths rows =>
      length widths = length header ∧ Forall (λ r, length r = length header) rows
  end.

(** ** The loop *)

Section loop.
Context {S : Type} (send : Transport S) (ctx : Ctx).

(** [http::get_json(...).await.unwrap_or(Value::Null)]. *)
Definition get_or_null (path : string) : M (World S) Value :=
  r ← fetch_json send ctx path; mret (match r with Ok v => v | Err _ => value_null end).

Definition fetch : M (World S) TuiSnapshot :=
  nodes ← get_or_null "/v1/nodes";
  services ← get_or_null "/v1/resources/Service";
  queues ← get_or_null "/v1/resources/Queue";
  instances ← get_or_null "/v1/instances";
  diag_system ← get_or_null "/v1/diag/system";
  t ← now;
  mret {| sn_nodes := nodes; sn_services := services; sn_queues := queues;
          sn_instances := instances; sn_diag_system := diag_system; sn_last_refresh := Some t |}.

(** The variables of [run_loop]; [last_fetch] is a reading of the monotonic clock. *)
Record LoopState : Type := { lo_snap : TuiSnapshot; lo_tab : Tab; lo_last_fetch : Z }.

Definition second : Z := 1000000000.
Definition refresh_period (refresh_seconds : Z) : Z := (refresh_seconds * second)%Z.
(** A time that makes the next iteration fetch.  [u64] seconds: the sum and the subtraction
    from an [Instant] stay in range below [2^62] seconds; beyond, Rust would panic. *)
Definition long_ago (now_ refresh_seconds : Z) : Z := (now_ - (refresh_seconds + 1) * second)%Z.

(** A key: [None] quits. *)
Definition handle_key (k : KeyCode) (refresh_seconds : Z) (l : LoopState)
    : M (World S) (option LoopState) :=
  let go t := mret (Some {| lo_snap := lo_snap l; lo_tab := t; lo_last_fetch := lo_last_fetch l |}) in
  match k with
  | KEsc => mret None
  | KChar c =>
      if Ascii.eqb c "q" then mret None
      else if Ascii.eqb c "r" then
        t ← now;
        mret (Some {| lo_snap := lo_snap l; lo_tab := lo_tab l;
                      lo_last_fetch := long_ago t refresh_seconds |})
      else if Ascii.eqb c "1" then go TabOverview
      else if Ascii.eqb c "2" then go TabNodes
      else if Ascii.eqb c "3" then go TabServices
      else if Ascii.eqb c "4" then go TabQueues
      else mret (Some l)
  | KRight | KTab => go (tab_next (lo_tab l))
  | KLeft | KBackTab => go (tab_prev (lo_tab l))
  | KOther => mret (Some l)
  end.

(** The refresh at the head of an iteration: two readings of the clock around it. *)
Definition refresh (refresh_seconds : Z) (l : LoopState) : M (World S) LoopState :=
  t ← now;
  if (refresh_period refresh_seconds <=? t - lo_last_fetch l)%Z then
    snap ← fetch;
    t' ← now;
    mret {| lo_snap := snap; lo_tab := lo_tab l; lo_last_fetch := t' |}
  else mret l.

(** The loop over what each poll of the keyboard gives, [None] when it timed out; the
    frames drawn, and whether the user quit. *)
Fixpoint tui_loop (refresh_seconds : Z) (l : LoopState) (polls : list (option KeyCode))
    : M (World S) (list (nat * Body) * bool) :=
  match polls with
  | [] => mret ([], false)
  | poll :: rest =>
      l ← refresh refresh_seconds l;
      let frame := draw (lo_snap l) (lo_tab l) in
      match poll with
      | None => r ← tui_loop refresh_seconds l rest; mret (frame :: r.1, r.2)
      | Some k =>
          l ← handle_key k refresh_seconds l;
          match l with
          | None => mret ([frame], true)
          | Some l => r ← tui_loop refresh_seconds l rest; mret (frame :: r.1, r.2)
          end
      end
  end.

Definition tui_run (refresh_seconds : Z) (polls : list (option KeyCode))
    : M (World S) (list (nat * Body) * bool) :=
  t ← now;
  tui_loop refresh_seconds
    {| lo_snap := TuiSnapshot_default; lo_tab := TabOverview;
       lo_last_fetch := long_ago t refresh_seconds |} polls.

End loop.
End tui.

(** ** Lemmas *)

Lemma tab_next_prev t : tab_prev (tab_next t) = t ∧ tab_next (tab_prev t) = t.
Proof. by destruct t. Qed.

(** The tab after the keys so far, as a position modulo four. *)
Definition key_shift (k : KeyCode) (p : nat) : nat :=
  match k with
  | KRight | KTab => (p + 1) `mod` 4
  | KLeft | KBackTab => (p + 3) `mod` 4
  | KChar c => if Ascii.eqb c "1" then 0 else if Ascii.eqb c "2" then 1
               else if Ascii.eqb c "3" then 2 else if Ascii.eqb c "4" then 3 else p
  | _ => p
  end.
Definition key_quits (k : KeyCode) : bool :=
  match k with KEsc => true | KChar c => Ascii.eqb c "q" | _ => false end.

(** The positions of the frames, and whether a key quits. *)
Fixpoint tab_trace (p : nat) (polls : list (option KeyCode)) : list nat * bool :=
  match polls with
  | [] => ([], false)
  | None :: rest => let r := tab_trace p rest in (p :: r.1, r.2)
  | Some k :: rest =>
      if key_quits k then ([p], true)
      else let r := tab_trace (key_shift k p) rest in (p :: r.1, r.2)
  end.

Section drawing.
Context {J : SerdeJson} {JM : JsonMake} {SL : ServerLib}.
Context {S : Type} (send : Transport S) (ctx : Ctx) (refresh_seconds : Z).

Lemma refresh_tab l o w u : lo_tab (refresh send ctx refresh_seconds l o (w, u)).1 = lo_tab l.
Proof.
  unfold refresh. unfold mbind at 1, M_bind at 1, now. destruct (_ <=? _)%Z; [|done].
  unfold mbind at 1, M_bind at 1. destruct (fetch send ctx o _) as [snap [w' u']]. done.
Qed.

(** A key quits, or moves the tab. *)
Lemma handle_key_tab k l o w u :
  match (handle_key (S := S) k refresh_seconds l o (w, u)).1 with
  | None => key_quits k = true
  | Some l' => key_quits k = false ∧ tab_active (lo_tab l') = key_shift k (tab_active (lo_tab l))
  end.
Proof.
  destruct k as [c| | | | | |]; cbn [handle_key key_quits key_shift]; try done;
    try (by destruct (lo_tab l)).
  destruct (Ascii.eqb_spec c "q"); [done|].
  destruct (Ascii.eqb_spec c "r") as [->|]; [done|].
  destruct (Ascii.eqb c "1"); [done|]. destruct (Ascii.eqb c "2"); [done|].
  destruct (Ascii.eqb c "3"); [done|]. by destruct (Ascii.eqb c "4").
Qed.

Lemma tui_loop_trace l polls o w u :
  let x := (tui_loop send ctx refresh_seconds l polls o (w, u)).1 in
  (x.1.*1, x.2) = tab_trace (tab_active (lo_tab l)) polls.
Proof.
  revert l w u. induction polls as [|poll rest IH]; intros l w u; [done|]. cbv zeta in *.
  cbn [tui_loop tab_trace]. unfold mbind, M_bind.
  pose proof (refresh_tab l o w u) as Ht.
  destruct (refresh send ctx refresh_seconds l o (w, u)) as [l1 [w1 u1]]. cbn [fst] in Ht.
  destruct poll as [k|].
  - pose proof (handle_key_tab k l1 o w1 u1) as Hk.
    destruct (handle_key k refresh_seconds l1 o (w1, u1)) as [[l2|] [w2 u2]]; cbn [fst] in Hk.
    + destruct Hk as [-> Hk]. specialize (IH l2 w2 u2).
      destruct (tui_loop send ctx refresh_seconds l2 rest o (w2, u2)) as [[fs q] su]. cbn [fst snd] in IH |- *.
      rewrite <- Ht, <- Hk, <- IH. done.
    + rewrite Hk, <- Ht. done.
  - specialize (IH l1 w1 u1).
    destruct (tui_loop send ctx refresh_seconds l1 rest o (w1, u1)) as [[fs q] su]. cbn [fst snd] in IH |- *.
    by rewrite <- Ht, <- IH.
Qed.

End drawing.

(** The tables of the dashboard are rectangular, whatever the controller answers. *)
Lemma rows_width {J : SerdeJson} (row : Value → list string) n v :
  (∀ x, length (row x) = n) → Forall (λ r, length r = n) (rows_of row v).
Proof. intros H. unfold rows_of. destruct (value_as_array v); [|done]. by apply Forall_fmap, Forall_true. Qed.

Theorem tables_rectangular {J : SerdeJson} {JM : JsonMake} {SL : ServerLib} snap tab :
  table_fits (draw snap tab).2.
Proof. destruct tab; [done|split; [done|by apply rows_width]..]. Qed.

(** ** Lemmas: what is fetched *)

Section fetching.
Context {J : SerdeJson} {JM : JsonMake} {SL : ServerLib} {SW : ServerLaws} {JL : JsonLaws}
  {UT : UuidText} {RC : ResourceCodec} {TM : Rfc3339} {HO : HashOrder}
  {CL : ControllerLibs} {AL : ApiLibs}.
Context (ctx : Ctx) (to_str : string → option string) (mode : AuthMode) (auth : option string).
Context (Hauth : auth_header ctx = Ok auth) (Hpass : require_bearer to_str mode auth = Pass).
#[local] Notation send := (controller_at (ctx_controller ctx) to_str mode).

Definition or_null {A} (enc : A → Value) (r : result A ApiError) : Value :=
  match r with Ok a => enc a | Err _ => value_null end.

Lemma get_json_respond {A} (enc : A → Value) (r : result A ApiError) :
  match as_cli (get_json (reply_of (Some (respond enc r)))) with Ok v => v | Err _ => value_null end =
  or_null enc r.
Proof.
  destruct r as [a|e]; simpl; [by rewrite parse_printed|]. by destruct (ae_status e).
Qed.

(** A GET whose handler only reads. *)
Lemma get_or_null_run {A} (enc : A → Value) (m : M AppState (result A ApiError)) path h o s out u :
  dispatch_path GET (request_path path) = Handled h [] true →
  (∀ su, run_handler h [] (request_query path) "" o su = answer enc m o su) → readonly m →
  get_or_null send ctx path o ((s, out), u) =
  (or_null enc (m o (s, u)).1, ((s, out), (m o (s, u)).2.2)).
Proof.
  intros Hd Hh Hm. unfold get_or_null, fetch_json, mbind, M_bind, mret, M_ret.
  rewrite (request_run ctx to_str mode auth Hauth Hpass GET path "" h [] true) by (done || constructor).
  rewrite Hh. unfold answer, mbind, M_bind, mret, M_ret. pose proof (Hm o s u) as Hs.
  destruct (m o (s, u)) as [r [s' u']]. cbn [fst snd] in *. subst s'.
  by rewrite get_json_respond.
Qed.

Lemma get_list_run kind o s out u :
  kind = "Service" ∨ kind = "Queue" →
  get_or_null send ctx ("/v1/resources/" +:+ kind) o ((s, out), u) =
  (or_null (λ l, json_array (resource_to_value <$> l)) (list_resources kind o (s, u)).1,
   ((s, out), (list_resources kind o (s, u)).2.2)).
Proof.
  intros Hk. unfold get_or_null, fetch_json, mbind at 1 2, M_bind at 1 2.
  assert (dispatch_path GET (request_path ("/v1/resources/" +:+ kind)) = Handled H_list_resources [kind] true
    ∧ request_query ("/v1/resources/" +:+ kind) = "" ∧ has_char "%" kind = false) as (Hd & _ & Hc)
    by (destruct Hk as [->| ->]; vm_compute; done).
  rewrite (request_run ctx to_str mode auth Hauth Hpass GET _ "" _ _ _ _ _ _ _ Hd) by (by repeat constructor).
  change (run_handler H_list_resources [kind] ?q ?b o ?su) with
    (answer (λ l, json_array (resource_to_value <$> l)) (list_resources kind) o su).
  unfold answer, mbind, M_bind, mret, M_ret.
  assert (readonly (list_resources kind)) as Hm by apply readonly_store_view, readonly_list_by_kind.
  specialize (Hm o s u). destruct (list_resources kind o (s, u)) as [r [s' u']]. cbn [fst snd] in *.
  subst s'. by rewrite get_json_respond.
Qed.

End fetching.

(** ** What the overview says *)

Section overview.
Context {J : SerdeJson} {RC : ResourceCodec} {TM : Rfc3339} {HO : HashOrder}
  {CL : ControllerLibs} {AL : ApiLibs}.

(** How many resources of a kind are listed: one row that does not decode fails the list. *)
Definition countable (kind : string) (d : Db) : nat :=
  match result_collect (λ e : resource_key * ResourceRow, decode_body (row_body e.2))
          (rows_of_kind kind d) with
  | Ok _ => length (rows_of_kind kind d)
  | Err _ => 0
  end.

Lemma result_collect_length {A B E} (f : A → result B E) l ys :
  result_collect f l = Ok ys → length ys = length l.
Proof.
  revert ys. induction l as [|x l IH]; intros ys; [by intros [= <-]|]. simpl.
  destruct (f x); [|done]. destruct (result_collect f l); [|done]. intros [= <-]. simpl. f_equal. by apply IH.
Qed.

Lemma list_resources_count kind o s u :
  fault_free o →
  match (list_resources kind o (s, u)).1 with
  | Ok l => length l = countable kind (app_store s)
  | Err _ => countable kind (app_store s) = 0
  end.
Proof.
  intros Hf. unfold list_resources, countable, mbind, M_bind, mret, M_ret. rewrite on_store_run.
  unfold list_by_kind. unfold mbind, M_bind, mret, M_ret. rewrite query_run, Hf.
  cbn -[result_collect rows_of_kind].
  destruct (result_collect _ _) as [l|e] eqn:Hl; [|done]. cbn. by apply result_collect_length in Hl.
Qed.

Lemma map_each_length {A B} (f : A → M Db B) l o du : length (map_each f l o du).1 = length l.
Proof.
  revert du. induction l as [|x l IH]; intros du; [done|]. simpl. unfold mbind, M_bind, mret, M_ret.
  destruct (f x o du) as [y du']. specialize (IH du'). destruct (map_each f l o du') as [ys du''].
  simpl in *. by rewrite IH.
Qed.

Lemma length_hash_iter `{Countable K} {A} (m : gmap K A) : length (hash_iter m) = size m.
Proof. by rewrite hash_iter_perm, length_map_to_list. Qed.

Lemma list_nodes_count o s u :
  fault_free o →
  ∃ l, (on_store list_nodes o (s, u)).1 = Ok l ∧ length l = size (db_observed_node (app_store s)).
Proof.
  intros Hf. rewrite on_store_run. unfold list_nodes. unfold mbind, M_bind, mret, M_ret.
  rewrite query_run, Hf. cbn -[map_each sort_by].
  pose proof (map_each_length observed_of_row (sort_by (cmp_on fst String.compare)
    (hash_iter (db_observed_node (app_store s)))) o
    (app_store s, {| us_clock := us_clock u; us_uuid := us_uuid u; us_io := us_io u + 1 |})) as Hl.
  destruct (map_each _ _ _ _) as [l du]. eexists. split; [done|]. cbn [fst] in Hl.
  by rewrite Hl, length_sort_by, length_hash_iter.
Qed.

Lemma list_nodes_handler_count o s u :
  fault_free o →
  ∃ l, (list_nodes_handler o (s, u)).1 = Ok l ∧ length l = size (db_observed_node (app_store s)).
Proof.
  intros Hf. destruct (list_nodes_count o s u Hf) as (l & Hl & Hn).
  unfold list_nodes_handler, mbind, M_bind, mret, M_ret. destruct (on_store _ _ _) as [r su].
  cbn [fst] in Hl. subst r. eexists. split; [done|]. by rewrite length_fmap.
Qed.

Lemma diag_system_counts o s u :
  fault_free o →
  ∃ d, (diag_system o (s, u)).1 = Ok d ∧
    ds_instances_total d = size (by_id (app_instances s)) ∧
    ds_buffered_lines d = line_count (app_logs s) ∧
    ds_uptime_seconds d = num_seconds (or_clock o (us_clock u) - app_started_at s).
Proof.
  intros Hf. unfold diag_system. unfold mbind at 1, M_bind at 1, now.
  match goal with |- context [mbind _ (on_store list_nodes) o (s, ?u1)] =>
    destruct (list_nodes_count o s u1 Hf) as (l & Hl & _) end.
  unfold mbind, M_bind, get, mret, M_ret. rewrite on_store_run in Hl |- *. cbn [fst snd] in Hl |- *.
  rewrite Hl. eexists. split; [done|]. cbn. split_and!; try done.
  - unfold snapshot_all, hash_values. by rewrite length_sort_by, length_fmap, length_hash_iter.
Qed.
End overview.

Section served.
Context {J : SerdeJson} {JM : JsonMake} {SL : ServerLib} {SW : ServerLaws} {JL : JsonLaws}
  {UT : UuidText} {RC : ResourceCodec} {TM : Rfc3339} {HO : HashOrder}
  {CL : ControllerLibs} {AL : ApiLibs}.
Context (ctx : Ctx) (to_str : string → option string) (mode : AuthMode) (auth : option string).
Context (Hauth : auth_header ctx = Ok auth) (Hpass : require_bearer to_str mode auth = Pass).
#[local] Notation send := (controller_at (ctx_controller ctx) to_str mode).

(** The instances are only read, and shown nowhere. *)
Lemma get_instances_keep o s out u :
  ∃ v u', get_or_null send ctx "/v1/instances" o ((s, out), u) = (v, ((s, out), u')).
Proof.
  unfold get_or_null, fetch_json, mbind, M_bind, mret, M_ret.
  rewrite (request_run ctx to_str mode auth Hauth Hpass GET "/v1/instances" "" H_list_all_instances [] true)
    by (reflexivity || constructor).
  eexists _, _. reflexivity.
Qed.

Lemma fetch_values o s out u :
  ∃ u0 u1 u2 u3 snap u',
    fetch send ctx o ((s, out), u) = (snap, ((s, out), u')) ∧
    sn_nodes snap = or_null (λ l, json_array (enc_node_view <$> l)) (list_nodes_handler o (s, u0)).1 ∧
    sn_services snap =
      or_null (λ l, json_array (resource_to_value <$> l)) (list_resources "Service" o (s, u1)).1 ∧
    sn_queues snap =
      or_null (λ l, json_array (resource_to_value <$> l)) (list_resources "Queue" o (s, u2)).1 ∧
    sn_diag_system snap = or_null enc_diag_system (diag_system o (s, u3)).1.
Proof.
  unfold fetch. unfold mbind at 1, M_bind at 1.
  assert (readonly list_nodes_handler) as Hn by apply readonly_store_view, readonly_list_nodes.
  rewrite (get_or_null_run ctx to_str mode auth Hauth Hpass _ list_nodes_handler "/v1/nodes" H_list_nodes)
    by (reflexivity || assumption).
  set (u1 := (list_nodes_handler o (s, u)).2.2). unfold mbind at 1, M_bind at 1.
  rewrite (get_list_run ctx to_str mode auth Hauth Hpass "Service") by (by left).
  set (u2 := (list_resources "Service" o (s, u1)).2.2). unfold mbind at 1, M_bind at 1.
  rewrite (get_list_run ctx to_str mode auth Hauth Hpass "Queue") by (by right).
  set (u3 := (list_resources "Queue" o (s, u2)).2.2). unfold mbind at 1, M_bind at 1.
  destruct (get_instances_keep o s out u3) as (v & u4 & ->). unfold mbind at 1, M_bind at 1.
  rewrite (get_or_null_run ctx to_str mode auth Hauth Hpass _ diag_system "/v1/diag/system" H_diag_system)
    by (reflexivity || apply readonly_diag_system).
  exists u, u1, u2, u4. eexists _, _. split; [reflexivity|]. by split_and!.
Qed.

Lemma array_len_list {A} (enc : A → Value) l : array_len (json_array (enc <$> l)) = length l.
Proof. unfold array_len. by rewrite as_array_array, length_fmap. Qed.

Lemma array_len_or_null {A} (enc : A → Value) (r : result (list A) ApiError) n :
  match r with Ok l => length l = n | Err _ => n = 0 end →
  array_len (or_null (λ l, json_array (enc <$> l)) r) = n.
Proof.
  destruct r as [l|e]; simpl; [by rewrite array_len_list|].
  intros ->. unfold array_len. by rewrite null_not_array.
Qed.

Lemma diag_field d a b z v :
  value_get (enc_diag_system d) a = Some v → value_get v b = Some (json_int z) →
  u64_at2 (enc_diag_system d) a b = default 0%Z (value_as_u64 (json_int z)).
Proof. intros Ha Hb. unfold u64_at2, pointer2. rewrite Ha. cbn. by rewrite Hb. Qed.

#[local] Ltac read_diag := unfold enc_diag_system; cbn; rewrite obj_get; reflexivity.

(** The summary of a controller's state, at a reading [t] of the clock. *)
Definition served_overview (s : AppState) (t : Instant) : OverviewSummary :=
  {| ov_agents := size (db_observed_node (app_store s));
     ov_services := countable "Service" (app_store s);
     ov_queues := countable "Queue" (app_store s);
     ov_instances_total := Z.of_nat (size (by_id (app_instances s)));
     ov_log_lines := Z.of_nat (line_count (app_logs s));
     ov_uptime_seconds := default 0%Z (value_as_u64 (json_int (num_seconds (t - app_started_at s)))) |}.

(** The numbers fit the integers of the JSON document. *)
Definition printable (s : AppState) : Prop :=
  is_u64 (Z.of_nat (size (by_id (app_instances s)))) ∧
  is_u64 (Z.of_nat (line_count (app_logs s))).

Lemma overview_served o s out u :
  fault_free o → printable s →
  ∃ snap u' n, fetch send ctx o ((s, out), u) = (snap, ((s, out), u')) ∧
    overview_summary snap = served_overview s (or_clock o n).
Proof.
  intros Hf [Hi Hl].
  destruct (fetch_values o s out u) as (u0 & u1 & u2 & u3 & snap & u' & Hx & Hn & Hs & Hq & Hd).
  exists snap, u', (us_clock u3). split; [done|].
  destruct (diag_system_counts o s u3 Hf) as (d & Hr & Ht & Hb & Hu).
  rewrite Hr in Hd. cbn [or_null] in Hd. unfold overview_summary, served_overview.
  rewrite Hn, Hs, Hq, Hd. destruct (list_nodes_handler_count o s u0 Hf) as (l & Hl' & Hlen).
  f_equal.
  - apply array_len_or_null. by rewrite Hl'.
  - apply array_len_or_null, list_resources_count, Hf.
  - apply array_len_or_null, list_resources_count, Hf.
  - erewrite diag_field; [|read_diag..]. by rewrite as_u64_int, Ht by by rewrite Ht.
  - erewrite diag_field; [|read_diag..]. by rewrite as_u64_int, Hb by by rewrite Hb.
  - erewrite diag_field; [|read_diag..]. by rewrite Hu.
Qed.

(** The first iteration fetches: the clock does not go back. *)
Lemma refresh_first r t0 o s out u :
  (t0 <= or_clock o (us_clock u))%Z → fault_free o → printable s →
  ∃ snap t' u' n,
    refresh send ctx r {| lo_snap := TuiSnapshot_default; lo_tab := TabOverview;
                          lo_last_fetch := long_ago t0 r |} o ((s, out), u) =
    ({| lo_snap := snap; lo_tab := TabOverview; lo_last_fetch := t' |}, ((s, out), u')) ∧
    overview_summary snap = served_overview s (or_clock o n).
Proof.
  intros Ht Hf Hp. unfold refresh. unfold mbind at 1, M_bind at 1, now at 1.
  rewrite (proj2 (Z.leb_le _ _)) by (unfold refresh_period, long_ago, second; cbn [lo_last_fetch]; lia).
  match goal with |- context [mbind _ _ o (_, ?u1)] =>
    destruct (overview_served o s out u1 Hf Hp) as (snap & u2 & n & Hx & Ho) end.
  unfold mbind at 1, M_bind at 1. rewrite Hx. eexists snap, _, _, n. by split; [reflexivity|].
Qed.
End served.

(** C19: [orion tui], for a refresh period below [2^62] seconds.  Whatever the requests and the clock give, every pass draws one frame
    and takes at most one key: the highlighted tab of each frame is the position, modulo
    four, that the keys before it lead to, and the loop ends exactly at the first [q] or
    escape.  With a token the controller accepts, no fault and a clock that does not go
    back, the first frame is the overview of the controller's own state: every node it has
    ever observed counts as an agent, every recorded instance as an instance, with the
    lines that are buffered and the uptime (as the JSON number reads); the services and the queues are all of the
    kind's rows, or none when one of them does not decode. *)
Theorem dashboard_shows_cluster {J : SerdeJson} {JM : JsonMake} {SL : ServerLib}
    {SW : ServerLaws} {JL : JsonLaws} {UT : UuidText} {RC : ResourceCodec} {TM : Rfc3339}
    {HO : HashOrder} {CL : ControllerLibs} {AL : ApiLibs}
    (ctx : Ctx) (to_str : string → option string) (mode : AuthMode) (auth : option string)
    (refresh_seconds : Z) (polls : list (option KeyCode)) (o : Oracle) (s : AppState)
    (out : list Shown) (u : Used)
    (Hauth : auth_header ctx = Ok auth) (Hpass : require_bearer to_str mode auth = Pass)
    (Hrange : (0 <= refresh_seconds < 2 ^ 62)%Z) :
  let send := controller_at (ctx_controller ctx) to_str mode in
  let x := (tui_run send ctx refresh_seconds polls o ((s, out), u)).1 in
  (x.1.*1, x.2) = tab_trace 0 polls ∧
  (polls ≠ [] → fault_free o → printable s →
   (∀ n, or_clock o n <= or_clock o (S n))%Z →
   ∃ n, head x.1 = Some (0, BodySummary (served_overview s (or_clock o n)))).
Proof.
  cbv zeta. split; [unfold tui_run, mbind, M_bind, now; apply tui_loop_trace|].
  intros Hne Hf Hp Hc. destruct polls as [|poll rest]; [done|]. clear Hne.
  unfold tui_run. unfold mbind at 1, M_bind at 1, now at 1. cbn [tui_loop].
  unfold mbind at 1, M_bind at 1.
  match goal with |- context [refresh _ _ ?r _ _ (_, ?u1)] =>
    destruct (refresh_first ctx to_str mode auth Hauth Hpass r (or_clock o (us_clock u)) o s out u1)
      as (snap & t' & u' & n & Hx & Ho) end; [|done..|].
  { simpl. rewrite Nat.add_1_r. apply Hc. }
  rewrite Hx. exists n. cbn [lo_snap lo_tab]. unfold draw, draw_overview. rewrite Ho. unfold mbind, M_bind.
  destruct poll as [k|]; [|by destruct (tui_loop _ _ _ _ _ _ _)].
  destruct (handle_key _ _ _ _ _) as [[l|] su]; [|done]. by destruct (tui_loop _ _ _ _ _ _ _).
Qed.

Lemma dashboard_shows_cluster_witness :
  ∃ t, let shown := served_overview (J := toy_json) (JM := text_make) (RC := demo_api_codec) (HO := canonical_order) demo_state t in
    head (tui_run (JM := text_make) (SL := toy_server) demo_send demo_ctx 5
            [Some KRight; None; Some KEsc] quiet_oracle ((demo_state, []), Used_init)).1.1 =
    Some (0, BodySummary shown) ∧
    ov_agents shown = 0 ∧ ov_instances_total shown = 1%Z.
Proof.
  destruct (dashboard_shows_cluster (JM := text_make) (SL := toy_server) (SW := toy_server_laws)
    (JL := text_laws) (UT := demo_uuid_text) (RC := demo_api_codec) (TM := demo_clock)
    (HO := canonical_order) (CL := demo_libs) (AL := demo_run_libs) demo_ctx Some Disabled None 5
    [Some KRight; None; Some KEsc] quiet_oracle demo_state [] Used_init eq_refl eq_refl ltac:(lia)) as [_ H].
  change (controller_at _ _ _) with demo_send in H.
  destruct H as [n H]; [done|apply quiet_fault_free|split; split; vm_compute; discriminate|intros n; simpl; lia|].
  eexists. split; [exact H|]. by split.
Defined.
