(* ===== verification/Startup.v ===== *)
(** * Starting the two processes, and what connects them
    (crates/orion-controller/src/main.rs, crates/orion-agent/src/main.rs: [main])

    What each [main] does before it serves, in order, with the failures that end it; the
    subscriptions it makes; and the delivery of what one side publishes to the handler
    that waits for it on the other side.  Files, the broker and the listener are answers
    given to the model, the texts of messages are a codec. *)

From Stdlib Require Import ZArith Lia Bool Ascii.
From stdpp Require Import base list gmap strings pretty.
From S2P Require Import Prelude Text Types Parse Effect Runtime Docker Bus Store Registry Controller Dispatch Api System Auth Inventory Agent AgentFacts Cluster Mcp Server Cli CliRun Up.

(** ** What a starting process is told *)

Inductive StartError : Type :=
| LoadingAuth (e : AuthError)
| OpeningStore (e : string)
| ConnectingNats (e : string)
| SubscribeFailed (subject e : string)
| BindFailed (e : string).

Record StartHost : Type := {
  (** [Store::open]: the tables of the file, after the migrations. *)
  st_open : string → result Db string;
  (** Connecting to a broker with a token; subscribing; binding the listener. *)
  st_connect : string → option string → result unit string;
  st_subscribe : string → result unit string;
  st_bind : string → result unit string;
  st_now : Instant
}.

Definition err_map {A E E'} (f : E → E') (r : result A E) : result A E' :=
  match r with Ok a => Ok a | Err e => Err (f e) end.

(** ** The texts of the messages *)

Class Wire {J : SerdeJson} {AL : AgentLibs} : Type := {
  encode_agent : AgentMessage → Payload;
  encode_control : Message → Payload;
  decode_heartbeat : Payload → option (Envelope Heartbeat);
  decode_inventory : Payload → option (Envelope NodeInventory);
  decode_log : Payload → option (Envelope LogLine);
  decode_task_event : Payload → option (Envelope TaskEvent);
  decode_health : Payload → option (Envelope ServiceHealth)
}.

(** An envelope is read back as it was written, by whoever expects its type. *)
Class WireLaws {J : SerdeJson} {AL : AgentLibs} {W : Wire} : Prop := {
  heartbeat_back : ∀ env, decode_heartbeat (encode_agent (AHeartbeat env)) = Some env;
  inventory_back : ∀ env, decode_inventory (encode_agent (AInventory env)) = Some env;
  log_back : ∀ env, decode_log (encode_agent (ALog env)) = Some env;
  task_event_back : ∀ env, decode_task_event (encode_agent (AExit env)) = Some env;
  health_back : ∀ env, decode_health (encode_agent (AHealth env)) = Some env;
  run_back : ∀ env, decode_run (encode_control (MRun env)) = Ok env;
  stop_back : ∀ env, decode_stop (encode_control (MStop env)) = Ok env
}.

(** The connection token of [orion_auth::nats::connect_options]. *)
Definition connect_options (mode : AuthMode) : option string := token mode.

(** ** The controller *)

(** What [main] spawns, in its order. *)
Inductive ControllerTask : Type :=
| SubHeartbeats | SubInventory | SubLogs | SchedulerLoop | SubTaskEvents | SubServiceHealth
| ReconcileLoop | WorkflowLoop.

#[export] Instance ControllerTask_eq_dec : EqDecision ControllerTask.
Proof. solve_decision. Defined.

Definition controller_tasks : list ControllerTask :=
  [SubHeartbeats; SubInventory; SubLogs; SchedulerLoop; SubTaskEvents; SubServiceHealth;
   ReconcileLoop; WorkflowLoop].

(** The subject a task subscribes to; the loops have a timer instead. *)
Definition task_topic (t : ControllerTask) : option Topic :=
  match t with
  | SubHeartbeats => Some THeartbeat
  | SubInventory => Some TNodeInventory
  | SubLogs => Some TLogs
  | SubTaskEvents => Some TTaskEvents
  | SubServiceHealth => Some TServiceHealth
  | SchedulerLoop | ReconcileLoop | WorkflowLoop => None
  end.

Definition task_timer (t : ControllerTask) : option Event :=
  match t with
  | SchedulerLoop => Some EvSchedule
  | ReconcileLoop => Some EvReconcile
  | WorkflowLoop => Some EvWorkflow
  | _ => None
  end.

Record ControllerProcess : Type := {
  cp_state : AppState;
  cp_mode : AuthMode;
  (** The tasks that are still there: a subscriber whose subscription is refused warns
      and ends, and the process goes on without it. *)
  cp_tasks : list ControllerTask
}.

Definition task_runs (h : StartHost) (t : ControllerTask) : bool :=
  match task_topic t with
  | Some topic => match st_subscribe h (as_str topic) with Ok _ => true | Err _ => false end
  | None => true
  end.

Definition controller_main (h : StartHost) (e : Env) (a : ControllerArgs)
    : result ControllerProcess StartError :=
  let? mode := err_map LoadingAuth (from_env e) in
  let? db := err_map OpeningStore (st_open h (ca_store_path a)) in
  let? _ := err_map ConnectingNats (st_connect h (ca_nats_url a) (connect_options mode)) in
  let p := {| cp_state := initial_state db (ca_nats_url a) (mode_is_disabled mode) (st_now h);
              cp_mode := mode; cp_tasks := List.filter (task_runs h) controller_tasks |} in
  let? _ := err_map BindFailed (st_bind h (ca_bind a)) in
  Ok p.

Section controller.
Context {J : SerdeJson} {AL : AgentLibs} {W : Wire}.
(** The broker's matching of a subscription with a subject. *)
Variable nats_matches : string → string → bool.

(** What a subscriber makes of a payload; one it cannot read is an event without an
    envelope. *)
Definition on_message (t : ControllerTask) (p : Payload) : option Event :=
  match t with
  | SubHeartbeats => Some (EvHeartbeat (decode_heartbeat p))
  | SubInventory => Some (EvInventory (decode_inventory p))
  | SubLogs => Some (System.EvLog (decode_log p))
  | SubTaskEvents => Some (EvTaskEvent (decode_task_event p))
  | SubServiceHealth => Some (EvHealth (decode_health p))
  | SchedulerLoop | ReconcileLoop | WorkflowLoop => None
  end.

(** The events a published message causes in a controller. *)
Definition controller_receives (tasks : list ControllerTask) (subject : string) (p : Payload)
    : list Event :=
  omap (λ t, topic ← task_topic t;
             if nats_matches (as_str topic) subject then on_message t p else None) tasks.

End controller.

(** ** The agent *)

Section agent_process.
Context {J : SerdeJson} {HO : HashOrder} {OS : HostOs} {UT : UuidText} {DC : DockerCli}
  {AL : AgentLibs} {HF : HostFacts} {UC : UnicodeCase}.

Definition agent_node_id (a : AgentArgs) : NodeId :=
  match aa_node_id a with
  | Some n => n
  | None => default "unknown-node" hostname
  end.

(** The loop over the control subjects: [?] on each subscription. *)
Fixpoint subscribe_all (h : StartHost) (subjects : list string) : result unit StartError :=
  match subjects with
  | [] => Ok tt
  | x :: rest =>
      let? _ := err_map (SubscribeFailed x) (st_subscribe h x) in
      subscribe_all h rest
  end.

(** Up to the heartbeat loop: the registry of adapters the agent runs with. *)
Definition agent_main (h : StartHost) (e : Env) (a : AgentArgs) (sys : SysInfo)
    : M (AgentState Host) (result (RuntimeRegistry Host) StartError) :=
  let node_id := agent_node_id a in
  match from_env e with
  | Err e => mret (Err (LoadingAuth e))
  | Ok mode =>
      registry ← on_host agent_registry;
      match st_connect h (aa_nats_url a) (connect_options mode) with
      | Err e => mret (Err (ConnectingNats e))
      | Ok _ =>
          _ ← publish_inventory registry node_id sys;
          mret (let? _ := subscribe_all h (control_subjects_for_node node_id) in Ok registry)
      end
  end.

End agent_process.

Section agent_side.
Context {J : SerdeJson} {AL : AgentLibs} {W : Wire}.
Variable nats_matches : string → string → bool.

(** The calls of [dispatch_control] a published message causes in the agent [node]: the
    subject they are given is the one of the subscription. *)
Definition agent_receives (node : NodeId) (subject : string) (p : Payload)
    : list (string * Payload) :=
  (λ pattern, (pattern, p)) <$>
    List.filter (λ pattern, nats_matches pattern subject) (control_subjects_for_node node).

End agent_side.

(** ** Lemmas: subjects *)

(** A node id that is one literal token of a subject. *)
Definition plain_node (n : NodeId) : Prop :=
  n ≠ "" ∧ n ≠ "*" ∧ n ≠ ">" ∧ has_char "." n = false.

(** The last token of a control subject. *)
Definition verb (t : Topic) : string :=
  match t with
  | TControlRun => "run" | TControlStop => "stop" | TControlRestart => "restart"
  | _ => "drain"
  end.
Definition is_control (t : Topic) : bool :=
  match t with
  | TControlRun | TControlStop | TControlRestart | TControlDrain => true | _ => false
  end.

Lemma for_node_control t n :
  is_control t = true →
  for_node t n = "orion" +:+ String "." ("control" +:+ String "." (n +:+ String "." (verb t))).
Proof. by destruct t. Qed.

Lemma tokens_control t n :
  is_control t = true → has_char "." n = false →
  tokens (for_node t n) = ["orion"; "control"; n; verb t].
Proof.
  intros Ht Hn. rewrite for_node_control by done. unfold tokens.
  rewrite !split_on_app by done. by destruct t.
Qed.

Lemma tokens_node_logs n : has_char "." n = false → tokens (for_node TLogs n) = ["orion"; "logs"; n].
Proof. intros Hn. rewrite tokens_logs. unfold tokens. by rewrite split_on_single. Qed.

(** What a broker does with the subscriptions of the two processes. *)
Class NatsMatching (nats_matches : string → string → bool) : Prop := {
  matches_tokens : ∀ pattern subject, ">" ∉ tokens pattern → subject_ok subject →
    nats_matches pattern subject = true ↔ Forall2 token_matches (tokens pattern) (tokens subject)
}.

Section matching.
Context (nats_matches : string → string → bool) {NM : NatsMatching nats_matches}.

Lemma matches_computed pattern subject :
  ">" ∉ tokens pattern → subject_ok subject →
  nats_matches pattern subject = match_tokens (tokens pattern) (tokens subject).
Proof.
  intros Hp Hs. apply eq_true_iff_eq. rewrite matches_tokens by done. symmetry. apply match_tokens_spec.
Qed.

Lemma control_matches t1 (n1 : string) t2 (n2 : string) :
  is_control t1 = true → is_control t2 = true → plain_node n1 → plain_node n2 →
  nats_matches (for_node t1 n1) (for_node t2 n2) = bool_decide (n1 = n2) && bool_decide (t1 = t2).
Proof.
  intros H1 H2 (He1 & Hs1 & Hg1 & Hd1) (He2 & Hs2 & Hg2 & Hd2). rewrite matches_computed.
  - rewrite !tokens_control by done. cbn [match_tokens].
    rewrite (bool_decide_eq_false_2 (n1 = "*")) by done. cbn [orb].
    destruct (bool_decide (n1 = n2)); by destruct t1, t2.
  - rewrite tokens_control by done. destruct t1; try done; cbn [verb]; set_solver.
  - unfold subject_ok. rewrite tokens_control by done. by destruct t2; repeat constructor.
Qed.

(** The controller's subscriptions against the subjects agents publish on. *)
Lemma topic_matches t subject :
  t ∈ [THeartbeat; TNodeInventory; TLogs; TTaskEvents; TServiceHealth] → subject_ok subject →
  nats_matches (as_str t) subject = match_tokens (tokens (as_str t)) (tokens subject).
Proof.
  intros Ht Hs. apply matches_computed; [|done].
  repeat (apply elem_of_cons in Ht as [->|Ht]; [vm_compute; set_solver|]). by apply elem_of_nil in Ht.
Qed.
End matching.

(** ** Lemmas: what an agent publishes *)

Definition subject_for (node : NodeId) (m : AgentMessage) : string :=
  match m with
  | AHeartbeat _ => as_str THeartbeat
  | AInventory _ => as_str TNodeInventory
  | ALog _ => for_node TLogs node
  | AExit _ => as_str TTaskEvents
  | AHealth _ => as_str TServiceHealth
  end.

Definition well_addressed {S} (node : NodeId) (s : AgentState S) : Prop :=
  Forall (λ x, x.1 = subject_for node x.2) (ag_published s).

Section addressed.
Context {UT : UuidText} {HO : HashOrder} {AL : AgentLibs} {S : Type} {J : SerdeJson}
  {HF : HostFacts} {UC : UnicodeCase}.
Context (registry : RuntimeRegistry S) (node : NodeId).
Notation always_addressed := (always (well_addressed (S := S) node)).

Lemma addressed_publish m : always_addressed (agent_publish (subject_for node m) m).
Proof.
  apply always_bind; [apply always_io|]. intros [f|]; [apply always_ret|]. apply always_modify.
  intros s Hs. apply Forall_app. split; [done|]. by apply Forall_singleton.
Qed.

Lemma addressed_envelope {P} (payload : P) (wrap : Envelope P → AgentMessage) subject :
  (∀ env, subject = subject_for node (wrap env)) →
  always_addressed (agent_envelope node payload ≫= λ env, agent_publish subject (wrap env)).
Proof.
  intros H. apply always_bind; [|intros env; rewrite (H env); apply addressed_publish].
  apply always_bind; [apply always_new_v4|intros id]. apply always_bind; [apply always_now|].
  intros t. apply always_ret.
Qed.

(** Changes of the other fields. *)
Lemma addressed_modify f : (∀ s, ag_published (f s) = ag_published s) → always_addressed (modify f).
Proof. intros Hf. apply always_modify. intros s Hs. unfold well_addressed. by rewrite Hf. Qed.
Lemma addressed_host {A} (m : M S A) : always_addressed (on_host m).
Proof. intros o s u Hs. unfold on_host, zoom. by destruct (m o (ag_host s, u)) as [a [h u']]. Qed.
Lemma addressed_get {B} (f : AgentState S → M (AgentState S) B) :
  (∀ s, always_addressed (f s)) → always_addressed (get ≫= f).
Proof. intros Hf. apply always_bind; [apply always_get|done]. Qed.

#[local] Hint Resolve addressed_publish addressed_modify addressed_host addressed_get always_ret
  always_new_v4 always_now always_io : core.

Lemma addressed_slot adapter spec idx : always_addressed (launch_slot adapter spec idx).
Proof.
  apply always_bind; [by destruct (negb _ && _)|]. intros id. apply always_bind; [done|]. intros t.
  apply always_bind; [by apply addressed_modify|]. intros _. apply always_bind; [done|].
  intros [li|e]; [|done]. destruct (run_health_check spec); [|done].
  apply always_bind; [by apply addressed_modify|done].
Qed.

Lemma addressed_slots adapter spec slots : always_addressed (launch_slots adapter spec slots).
Proof.
  induction slots as [|idx slots IH]; [apply always_ret|]. apply always_try; [apply addressed_slot|intros _; exact IH].
Qed.

Lemma addressed_stop spec : always_addressed (handle_stop registry spec).
Proof.
  apply always_bind; [|intros _; by apply addressed_modify]. apply always_for_each. intros name _.
  destruct (RuntimeRegistry_get registry name); [|done]. by apply always_bind.
Qed.

Lemma addressed_control subject p : always_addressed (dispatch_control registry subject p).
Proof.
  unfold dispatch_control. destruct (ends_with ".run" subject).
  - destruct (decode_run p); [|done]. unfold handle_run.
    destruct (RuntimeRegistry_get _ _); [apply addressed_slots|done].
  - destruct (ends_with ".stop" subject); [|done]. destruct (decode_stop p); [|done].
    apply always_bind; [apply addressed_stop|done].
Qed.

Lemma addressed_probe n r : always_addressed (probe_tick node n r).
Proof.
  apply addressed_get. intros s. destruct (ag_probes s !! n) as [p|]; [|done].
  destruct (pb_returned p); [done|]. destruct (instances_get _ _); [|by apply addressed_modify].
  destruct (probe_verdict _ _ _) as [[st msg] fs]. apply always_bind; [by apply addressed_modify|].
  intros _. by apply addressed_envelope.
Qed.

Lemma addressed_inventory sys : always_addressed (publish_inventory registry node sys).
Proof. by apply addressed_envelope. Qed.

Lemma addressed_tick every_n sys : always_addressed (agent_tick registry node every_n sys).
Proof.
  intros o s u Hs. set (c := wrap_u32 (ag_tick_count s + 1)).
  assert (always_addressed (_ ← if inventory_due every_n c then publish_inventory registry node sys else mret tt;
    env ← agent_envelope node {| hb_node_id := node; hb_agent_version := cargo_pkg_version;
       hb_uptime_seconds := sys_uptime_seconds sys; hb_cpu_load_1m := sys_load_one sys;
       hb_mem_used_bytes := sys_used_memory sys; hb_mem_total_bytes := sys_total_memory sys;
       hb_labels := ∅ |};
    agent_publish (as_str THeartbeat) (AHeartbeat env))) as H.
  { apply always_bind; [destruct (inventory_due _ _); [apply addressed_inventory|done]|].
    intros _. by apply addressed_envelope. }
  exact (H o (set_ticks c s) u Hs).
Qed.

Lemma addressed_event e : always_addressed (agent_event registry node e).
Proof.
  destruct e as [subject p|n|id stream line|n r|every_n sys|step]; simpl.
  - apply always_bind; [apply addressed_control|done].
  - apply addressed_get. intros s. destruct (instances_get _ _); [|done].
    apply always_bind; [by apply addressed_modify|]. intros _. by apply addressed_envelope.
  - apply addressed_get. intros s. destruct (instances_get _ _); [|done]. by apply addressed_envelope.
  - apply addressed_probe.
  - apply addressed_tick.
  - done.
Qed.

Lemma addressed_run es : always_addressed (agent_run registry node es).
Proof. apply always_for_each. intros e _. apply addressed_event. Qed.
End addressed.

Lemma addressed_main {J : SerdeJson} {HO : HashOrder} {OS : HostOs} {UT : UuidText} {DC : DockerCli}
    {AL : AgentLibs} {HF : HostFacts} {UC : UnicodeCase} h e a sys :
  always (well_addressed (agent_node_id a)) (agent_main h e a sys).
Proof.
  unfold agent_main. destruct (from_env e); [|apply always_ret].
  apply always_bind; [apply addressed_host|]. intros registry.
  destruct (st_connect h _ _); [|apply always_ret].
  apply always_bind; [apply addressed_inventory|]. intros _. apply always_ret.
Qed.

(** ** Runs of a started controller *)

Section process.
Context {J : SerdeJson} {JM : JsonMake} {SL : ServerLib} {UT : UuidText} {RC : ResourceCodec}
  {TM : Rfc3339} {HO : HashOrder} {CL : ControllerLibs} {AL : ApiLibs} {AG : AgentLibs} {W : Wire}.
Context (nats_matches : string → string → bool) (to_str : string → option string).

(** Everything that reaches the process: a published message, a timer, the write of a
    line to the archive, a request. *)
Inductive process_step (p : ControllerProcess) (s : AppState) : AppState → Prop :=
| step_nats subject payload ev o u :
    ev ∈ controller_receives nats_matches (cp_tasks p) subject payload →
    process_step p s (handle ev o (s, u)).2.1
| step_timer t ev o u :
    t ∈ cp_tasks p → task_timer t = Some ev → process_step p s (handle ev o (s, u)).2.1
| step_archive n o u : process_step p s (handle (EvArchive n) o (s, u)).2.1
| step_http rq o u : process_step p s (serve_http to_str (cp_mode p) rq o (s, u)).2.1.

Lemma process_step_atoms p s s' : process_step p s s' → rtc atom s s'.
Proof. intros []; first [apply handle_atoms|apply serve_atoms]. Qed.

Lemma process_inv p s s' : rtc (process_step p) s s' → app_inv s → app_inv s'.
Proof.
  induction 1 as [|s1 s2 s3 Hs _ IH]; [done|]. intros Hi. apply IH.
  by eapply atoms_inv; [apply (process_step_atoms p)|].
Qed.
End process.

Lemma task_runs_spec h t :
  task_runs h t = true ↔
  match task_topic t with Some topic => st_subscribe h (as_str topic) = Ok tt | None => True end.
Proof.
  unfold task_runs. destruct (task_topic t) as [topic|]; [|done].
  by destruct (st_subscribe h (as_str topic)) as [[]|].
Qed.

Lemma all_tasks t : t ∈ controller_tasks.
Proof. destruct t; unfold controller_tasks; set_solver. Qed.

Lemma controller_main_ok h e a p :
  controller_main h e a = Ok p →
  ∃ db, from_env e = Ok (cp_mode p) ∧ st_open h (ca_store_path a) = Ok db ∧
    st_connect h (ca_nats_url a) (token (cp_mode p)) = Ok tt ∧ st_bind h (ca_bind a) = Ok tt ∧
    cp_state p = initial_state db (ca_nats_url a) (mode_is_disabled (cp_mode p)) (st_now h) ∧
    cp_tasks p = List.filter (task_runs h) controller_tasks.
Proof.
  unfold controller_main, connect_options. destruct (from_env e) as [mode|]; [|done]. cbn.
  destruct (st_open h _) as [db|] eqn:Ho; [|done]. cbn.
  destruct (st_connect h _ _) as [[]|] eqn:Hc; [|done]. cbn.
  destruct (st_bind h _) as [[]|] eqn:Hb; [|done]. cbn. intros [= <-]. by exists db.
Qed.

(** ** Claims *)


(** Files and services for the examples: the store opens, the broker and the listener
    are there. *)
Definition ready_host : StartHost :=
  {| st_open := λ _, Ok Db_empty; st_connect := λ _ _, Ok tt; st_subscribe := λ _, Ok tt;
     st_bind := λ _, Ok tt; st_now := 0%Z |}.
Definition empty_env : Env := {| env_var := ∅; env_read := λ _, Err IoNotFound |}.
Definition demo_args : ControllerArgs :=
  {| ca_nats_url := "nats://127.0.0.1:4222"; ca_bind := "127.0.0.1:7878"; ca_store_path := "db" |}.

(** Payloads as they are. *)
Inductive ToyPayload : Type := ToyControl (m : Message) | ToyAgent (m : AgentMessage).
Definition toy_agent_libs : AgentLibs :=
  {| Payload := ToyPayload;
     decode_run := λ p, match p with ToyControl (MRun env) => Ok env | _ => Err "missing field" end;
     decode_stop := λ p, match p with ToyControl (MStop env) => Ok env | _ => Err "missing field" end;
     Agent.http_get := λ _, Err "refused"; tcp_connect := λ _, Err "refused";
     exec_status := λ _ _, Ok (true, "exit status: 0") |}.
Definition toy_wire : Wire (J := toy_json) (AL := toy_agent_libs) :=
  {| encode_agent := ToyAgent : AgentMessage → Payload (AgentLibs := toy_agent_libs);
     encode_control := ToyControl : Message → Payload (AgentLibs := toy_agent_libs);
     decode_heartbeat := λ p, match p with ToyAgent (AHeartbeat env) => Some env | _ => None end;
     decode_inventory := λ p, match p with ToyAgent (AInventory env) => Some env | _ => None end;
     decode_log := λ p, match p with ToyAgent (ALog env) => Some env | _ => None end;
     decode_task_event := λ p, match p with ToyAgent (AExit env) => Some env | _ => None end;
     decode_health := λ p, match p with ToyAgent (AHealth env) => Some env | _ => None end |}.
Lemma toy_wire_laws : @WireLaws toy_json toy_agent_libs toy_wire.
Proof. by split. Qed.

Definition token_env : Env := {| env_var := {[ENV_TOKEN := "t"]}; env_read := λ _, Err IoNotFound |}.
Definition demo_listing (authorization : option string) : HttpRequest :=
  {| hr_method := GET; hr_target := "/v1/nodes"; hr_authorization := authorization; hr_body := "" |}.


(** The event that each of an agent's messages is for the controller. *)
Definition event_of (m : AgentMessage) : Event :=
  match m with
  | AHeartbeat env => EvHeartbeat (Some env)
  | AInventory env => EvInventory (Some env)
  | ALog env => System.EvLog (Some env)
  | AExit env => EvTaskEvent (Some env)
  | AHealth env => EvHealth (Some env)
  end.

Definition msg_topic (m : Message) : Topic :=
  match m with MRun _ => TControlRun | MStop _ => TControlStop end.

(** What the agent does with each of the controller's messages. *)
Definition control_of {S} `{HashOrder} `{UuidText} `{AgentLibs} (registry : RuntimeRegistry S)
    (m : Message) : M (AgentState S) (result unit AgentError) :=
  match m with
  | MRun env => handle_run registry (env_payload env)
  | MStop env => _ ← handle_stop registry (env_payload env); mret (Ok tt)
  end.

Section delivery.
Context {J : SerdeJson} {AL : AgentLibs} {W : Wire} {WL : WireLaws}.
Context (nats_matches : string → string → bool) {NM : NatsMatching nats_matches}.

Lemma subject_for_ok node m : plain_node node → subject_ok (subject_for node m).
Proof.
  intros (He & _ & _ & Hd).
  destruct m; try (unfold subject_ok; vm_compute; repeat constructor; discriminate).
  unfold subject_ok, subject_for. rewrite tokens_node_logs by done. by repeat constructor.
Qed.

Lemma agent_message_received (node : string) m :
  plain_node node →
  controller_receives nats_matches controller_tasks (subject_for node m) (encode_agent m) = [event_of m].
Proof.
  intros Hn. pose proof (subject_for_ok node m Hn) as Hok.
  unfold controller_receives, controller_tasks. cbn [omap list_omap task_topic mbind option_bind].
  rewrite !topic_matches by (done || set_solver).
  destruct Hn as (_ & _ & _ & Hd).
  destruct m; cbn [subject_for on_message event_of]; rewrite ?tokens_node_logs by done;
    rewrite ?heartbeat_back, ?inventory_back, ?log_back, ?task_event_back, ?health_back;
    reflexivity.
Qed.

Lemma control_message_received (n node : string) t p :
  plain_node n → plain_node node → is_control t = true →
  agent_receives nats_matches n (for_node t node) p =
  if bool_decide (n = node) then [(for_node t node, p)] else [].
Proof.
  intros Hn Hm Ht. unfold agent_receives, control_subjects_for_node. cbn [List.filter].
  rewrite !(control_matches nats_matches) by done.
  destruct (decide (n = node)) as [->|Hne].
  - rewrite !(bool_decide_eq_true_2 (node = node)) by done. by destruct t.
  - rewrite !(bool_decide_eq_false_2 (n = node)) by done. by destruct t.
Qed.

Lemma stop_subject_ends node :
  ends_with ".run" (for_node TControlStop node) = false ∧
  ends_with ".stop" (for_node TControlStop node) = true.
Proof.
  split.
  - apply not_true_is_false. intros (x & Hx)%ends_with_true.
    change (for_node TControlStop node) with ("orion.control." +:+ (node +:+ ".stop")) in Hx.
    rewrite <- string_app_assoc in Hx. apply suffix_conflict in Hx. vm_compute (string_rev ".run") in Hx.
    vm_compute (string_rev ".stop") in Hx. cancel_prefix Hx. discriminate Hx.
  - apply ends_with_true. exists ("orion.control." +:+ node). by rewrite string_app_assoc.
Qed.

Lemma dispatch_message {S} {HO : HashOrder} {UT : UuidText} (registry : RuntimeRegistry S) m node :
  dispatch_control registry (for_node (msg_topic m) node) (encode_control m) = control_of registry m.
Proof.
  unfold dispatch_control. destruct m as [env|env]; cbn [msg_topic control_of].
  - by rewrite run_subject_ends, run_back.
  - destruct (stop_subject_ends node) as [-> ->]. by rewrite stop_back.
Qed.
End delivery.

(** C16: what connects the two sides.  For node ids that are one literal token: every
    message that an agent publishes, from its start through any run of events, is handed
    to exactly one handler of a controller with all its subscriptions, which reads the
    envelope as it was sent; and every control message in a state of the controller is
    addressed to one node, is received once by that node and by no other, and runs that
    node's handling of the very run or stop it is. *)
Theorem bus_wiring {J : SerdeJson} {HO : HashOrder} {OS : HostOs} {UT : UuidText} {DC : DockerCli}
    {AL : AgentLibs} {HF : HostFacts} {UC : UnicodeCase} {W : Wire} {WL : WireLaws}
    (nats_matches : string → string → bool) {NM : NatsMatching nats_matches} (node : NodeId)
    (Hnode : plain_node node) :
  (∀ h e a sys host o u registry su es subject m,
     agent_node_id a = node →
     agent_main h e a sys o (AgentState_new host, u) = (Ok registry, su) →
     (subject, m) ∈ ag_published (agent_run registry node es o su).2.1 →
     controller_receives nats_matches controller_tasks subject (encode_agent m) = [event_of m]) ∧
  (∀ s subject msg, app_inv s → (subject, msg) ∈ app_published s →
     ∃ to, subject = for_node (msg_topic msg) to ∧
       (plain_node to → agent_receives nats_matches node subject (encode_control msg) =
          if bool_decide (node = to) then [(subject, encode_control msg)] else []) ∧
       ∀ registry : RuntimeRegistry Host,
         dispatch_control registry subject (encode_control msg) = control_of registry msg).
Proof.
  split.
  - intros h e a sys host o u registry su es subject m Ha Hm Hin.
    assert (well_addressed node su.1) as Hw.
    { replace su with (agent_main h e a sys o (AgentState_new host, u)).2 by (by rewrite Hm).
      rewrite <- Ha. apply addressed_main. constructor. }
    destruct su as [s1 u1]. apply (addressed_run registry node es o _ u1) in Hw.
    unfold well_addressed in Hw. rewrite Forall_forall in Hw. specialize (Hw _ Hin). simpl in Hw.
    subst subject. by apply agent_message_received.
  - intros s subject msg [_ _ Hmsgs] Hin. rewrite Forall_forall in Hmsgs.
    specialize (Hmsgs _ Hin). unfold message_ok in Hmsgs.
    assert (∃ to, subject = for_node (msg_topic msg) to) as [to ->].
    { destruct msg; simpl in *; [by destruct Hmsgs as [? _]|done]. }
    exists to. split_and!; [done| |].
    + intros Hto. apply control_message_received; [done..|]. by destruct msg.
    + intros registry. apply dispatch_message.
Qed.

Lemma demo_matching : NatsMatching token_matcher.
Proof. split. intros pattern subject _ _. apply match_tokens_spec. Qed.

Lemma bus_wiring_witness :
  let p : Payload (AgentLibs := toy_agent_libs) := ToyControl demo_stop in
  let subject := for_node TControlStop "pi-1" in
  agent_receives (AL := toy_agent_libs) token_matcher "pi-1" subject p = [(subject, p)] ∧
  agent_receives (AL := toy_agent_libs) token_matcher "pi-2" subject p = [].
Proof.
  cbv zeta.
  assert (∀ n, plain_node n →
    agent_receives (AL := toy_agent_libs) token_matcher n (for_node TControlStop "pi-1") (ToyControl demo_stop) =
    if bool_decide (n = "pi-1") then [(for_node TControlStop "pi-1", ToyControl demo_stop)] else []) as H.
  { intros n Hn. set (s := set_published [(for_node TControlStop "pi-1", demo_stop)]
                             (initial_state Db_empty "" false 0%Z)).
    destruct (bus_wiring (HO := canonical_order) (OS := demo_os) (UT := demo_uuid) (DC := no_docker)
      (HF := demo_facts) (UC := ascii_case) (WL := toy_wire_laws) token_matcher (NM := demo_matching) n Hn)
      as [_ Hb].
    destruct (Hb s (for_node TControlStop "pi-1") demo_stop) as (to & Ht & Hr & _).
    - destruct (initial_inv Db_empty "" false 0%Z) as [H1 H2 _]. split; [exact H1|exact H2|].
      apply Forall_singleton. by exists "pi-1".
    - by left.
    - apply for_node_injective in Ht as [_ <-]; [|done]. apply Hr. by repeat split. }
  split; rewrite H by (by repeat split); reflexivity.
Defined.

(** A node id is not checked: an agent named [*] receives what is meant for the others. *)
Theorem wildcard_node_hears_all {AL : AgentLibs} (node : NodeId) (p : Payload) :
  has_char "." node = false →
  agent_receives token_matcher "*" (for_node TControlRun node) p = [("orion.control.*.run", p)].
Proof.
  intros Hd. unfold agent_receives, control_subjects_for_node, token_matcher. cbn [List.filter].
  rewrite (tokens_control TControlRun node) by done. by vm_compute.
Qed.

(** [orion up --auth] where no token is configured: the controller it starts ends at
    once, since its environment has none either; and the command never learns it, with
    every program there it succeeds. *)
Theorem up_auth_needs_token (h : StartHost) (e : Env) (args : UpArgs) (bin : string)
    (a : ControllerArgs) (err : AuthError) :
  ua_auth args = true → from_env e = Err err →
  controller_main h (child_env e (controller_cmd args bin)) a = Err (LoadingAuth err).
Proof.
  intros Ha He. assert (from_env (child_env e (controller_cmd args bin)) = from_env e) as Hc.
  { unfold from_env, is_disabled, token_from_file, token_path. rewrite !child_var.
    cbn [cmd_env controller_cmd env_read child_env]. unfold no_auth_env. rewrite Ha. reflexivity. }
  unfold controller_main. by rewrite Hc, He.
Qed.

Lemma up_auth_needs_token_witness :
  let args := {| ua_nats := NatsAuto; ua_no_nats := false; ua_no_ui := false; ua_no_agent := false;
     ua_node_id := "local-dev"; ua_controller_bind := "127.0.0.1:7878"; ua_store := None;
     ua_auth := true; ua_nats_container := "orion-nats"; ua_agent_nats_url := None |} in
  controller_main ready_host (child_env empty_env (controller_cmd args "orion-controller")) demo_args =
    Err (LoadingAuth MissingToken) ∧
  (up_run (host_without []) up_ctx args quiet_oracle (up_idle, Used_init)).1 = Ok tt.
Proof.
  cbv zeta. split; [|vm_compute; reflexivity].
  apply (up_auth_needs_token ready_host empty_env); reflexivity.
Defined.
