(* ===== verification/Portal.v ===== *)
(** * Around the mesh: the developer portal's client, the web interface and the demo programs
    (crates/orion-devportal/src/lib.rs, crates/orion-ui/src/main.rs,
    crates/orion-demo-bins/src/bin/pub.rs and sub.rs)

    The client of the portal's catalogue with its JSON in camel case; the page the web
    interface serves; and the publisher and subscriber that demonstrate a stream. *)

From Stdlib Require Import ZArith Lia Bool Ascii.
From stdpp Require Import base list gmap strings pretty.
From S2P Require Import Prelude Text Types Parse Effect Bus JetStream Outbox Mcp Server Cli.

(** ** The portal's client *)

Inductive DevPortalError : Type :=
| NotConfigured
| DpHttp (msg : string)
| DpStatus (status : Z) (text : string).

Section portal.
Context {J : SerdeJson} {JM : JsonMake}.

Record PeerRuntimeRecord : Type := {
  pr_name : string;
  pr_kind : string;
  pr_base_url : string;
  pr_admin_ui_url : option string;
  pr_config : Value;
  pr_lifecycle : string
}.

Record RegisterPeerRuntime : Type := {
  rp_name : string;
  rp_kind : string;
  rp_base_url : string;
  rp_admin_ui_url : option string;
  rp_config : Value
}.

(** [#[serde(rename_all = "camelCase")]] and [skip_serializing_if]. *)
Definition encode_register (b : RegisterPeerRuntime) : Value :=
  obj ([("name", json_string (rp_name b)); ("kind", json_string (rp_kind b));
        ("baseUrl", json_string (rp_base_url b))] ++
       (match rp_admin_ui_url b with Some u => [("adminUiUrl", json_string u)] | None => [] end) ++
       (if value_is_null (rp_config b) then [] else [("config", rp_config b)])).

Definition encode_record (r : PeerRuntimeRecord) : Value :=
  obj [("name", json_string (pr_name r)); ("kind", json_string (pr_kind r));
       ("baseUrl", json_string (pr_base_url r));
       ("adminUiUrl", match pr_admin_ui_url r with Some u => json_string u | None => value_null end);
       ("config", pr_config r); ("lifecycle", json_string (pr_lifecycle r))].

(** A string that must be there; one that may be missing; an option. *)
Definition req_string (v : Value) (k : string) : option string := value_get v k ≫= value_as_str.
Definition default_string (v : Value) (k : string) : option string :=
  match value_get v k with None => Some "" | Some w => value_as_str w end.
Definition opt_string (v : Value) (k : string) : option (option string) :=
  match value_get v k with
  | None => Some None
  | Some w => if value_is_null w then Some None else Some <$> value_as_str w
  end.

Definition decode_record (v : Value) : option PeerRuntimeRecord :=
  name ← req_string v "name";
  kind ← req_string v "kind";
  base_url ← req_string v "baseUrl";
  admin ← opt_string v "adminUiUrl";
  lifecycle ← default_string v "lifecycle";
  Some {| pr_name := name; pr_kind := kind; pr_base_url := base_url; pr_admin_ui_url := admin;
          pr_config := default value_null (value_get v "config"); pr_lifecycle := lifecycle |}.

(** A request to the portal: method, URL and JSON body. *)
Variable portal : Method → string → option Value → Reply.
(** [base]: [None] is the stub mode. *)
Variable base : option string.

Definition is_configured : bool := match base with Some _ => true | None => false end.

Definition portal_call {A} (m : Method) (body : option Value) (decode : Value → option A)
    : result A DevPortalError :=
  match base with
  | None => Err NotConfigured
  | Some b =>
      match portal m (b +:+ "/api/peer-runtimes") body with
      | Unreachable e => Err (DpHttp e)
      | Answer status text =>
          if negb (is_success status) then Err (DpStatus status text)
          else match json_from_str text ≫= decode with
               | Some a => Ok a
               | None => Err (DpHttp text)
               end
      end
  end.

Definition list_peer_runtimes : result (list PeerRuntimeRecord) DevPortalError :=
  portal_call GET None (λ v, arr ← value_as_array v; mapM decode_record arr).
Definition register_peer_runtime (body : RegisterPeerRuntime) : result PeerRuntimeRecord DevPortalError :=
  portal_call POST (Some (encode_register body)) decode_record.

End portal.

(** ** The page of the web interface *)

(** [str::replace]: from left to right, without overlap.  The fuel is the length of the
    text: every step consumes a character. *)
Fixpoint replace_fuel (n : nat) (pat by_ s : string) : string :=
  match n with
  | 0 => s
  | S n =>
      match strip_prefix pat s with
      | Some rest => by_ +:+ replace_fuel n pat by_ rest
      | None => match s with
                | EmptyString => EmptyString
                | String c s' => String c (replace_fuel n pat by_ s')
                end
      end
  end.
Definition str_replace (pat by_ s : string) : string := replace_fuel (S (String.length s)) pat by_ s.

Definition placeholder : string := "__CONTROLLER_URL__".

(** The handler of [/]: [template] is src/index.html. *)
Definition index_page (template controller_url : string) : string :=
  str_replace placeholder controller_url template.

(** ** The demo programs *)

Definition demo_label (label replica_index : option string) : string :=
  match label with
  | Some l => l
  | None => match replica_index with Some i => "r" +:+ i | None => "demo" end
  end.

(** The subject of the stream, in both programs. *)
Definition subj_wildcard (subject : string) : string :=
  if has_char ">" subject || has_char "*" subject then subject else subject +:+ ".>".

Definition publish_subj (jetstream : bool) (subject : string) : string :=
  if jetstream then subject +:+ ".tick" else subject.

Definition tick_line (i : Z) (label ts : string) : string :=
  "tick " +:+ pretty i +:+ " from " +:+ label +:+ " at " +:+ ts.

Definition durable_name (durable : option string) (label : string) : string :=
  default ("ephemeral-" +:+ label) durable.

(** What the subscriber sees of its stream: a message, or the error that ends it.  A
    failed acknowledgement ends it too, after the line is printed. *)
Inductive Delivery : Type :=
| Delivered (seq : Z) (subject body : string) (acked : bool)
| DeliveryError.

(** The lines printed, the sequence numbers acknowledged, and whether the stream ended
    without an error. *)
Fixpoint run_jetstream (label : string) (ds : list Delivery) : list string * list Z * bool :=
  match ds with
  | [] => ([], [], true)
  | DeliveryError :: _ => ([], [], false)
  | Delivered seq subject body acked :: rest =>
      let line := "[demo-sub:" +:+ label +:+ "] recv (seq=" +:+ pretty seq +:+ "): " +:+ body +:+
                  " (subject=" +:+ subject +:+ ")" in
      if acked then let '(out, seqs, ok) := run_jetstream label rest in (line :: out, seq :: seqs, ok)
      else ([line], [], false)
  end.

(** *** The programs

    [core_publish] is the client's publication without JetStream, [stream_defaults] the
    configuration that [..Default::default()] fills in. *)
Section programs.
Context {B : Type} {JB : JetStream B}.
Context (core_publish : string → string → M B (result unit Fault)) (stream_defaults : StreamConfig).

(** The broker, and standard output. *)
Notation D := (B * list string)%type.

Definition say (l : list string) : M D unit := modify (λ w, (w.1, w.2 ++ l)).
Definition on_bus {A} (m : M B A) : M D A := zoom fst (λ b w, (b, w.2)) m.

Definition demo_stream (stream subject : string) : StreamConfig :=
  {| sc_name := stream; sc_subjects := [subj_wildcard subject];
     sc_max_age_seconds := sc_max_age_seconds stream_defaults;
     sc_max_messages := sc_max_messages stream_defaults;
     sc_max_bytes := sc_max_bytes stream_defaults;
     sc_num_replicas := sc_num_replicas stream_defaults |}.

Definition pub_tag (label : string) : string := "[demo-pub:" +:+ label +:+ "] ".

(** One turn of the publisher's loop. *)
Definition demo_tick (jetstream : bool) (label subject : string) (i : Z) (ts : string)
    : M D (result unit Fault) :=
  let line := tick_line i label ts in
  let subj := publish_subj jetstream subject in
  if jetstream then
    r ← on_bus (js_publish_ack subj line);
    match r with
    | Ok (Ok seq) =>
        _ ← say [pub_tag label +:+ "sent (js seq=" +:+ pretty seq +:+ "): " +:+ line]; mret (Ok tt)
    | Ok (Err e) | Err e => mret (Err e)
    end
  else
    r ← on_bus (core_publish subj line);
    match r with
    | Ok _ => _ ← say [pub_tag label +:+ "sent: " +:+ line]; mret (Ok tt)
    | Err e => mret (Err e)
    end.

(** The loop, for as many turns as there are readings of the clock. *)
Fixpoint demo_ticks (jetstream : bool) (label subject : string) (i : Z) (clock : list string)
    : M D (result unit Fault) :=
  match clock with
  | [] => mret (Ok tt)
  | ts :: clock' =>
      let! _ := demo_tick jetstream label subject i ts in
      demo_ticks jetstream label subject (i + 1)%Z clock'
  end.

Definition demo_pub (nats_url subject label stream : string) (jetstream : bool)
    (clock : list string) : M D (result unit Fault) :=
  let mode := if jetstream then "JetStream" else "core NATS" in
  _ ← say [pub_tag label +:+ "connecting to " +:+ nats_url +:+ " -> " +:+ subject +:+ " (" +:+ mode +:+ ")"];
  let! _ := on_bus (nats_connect nats_url None) in
  _ ← say [pub_tag label +:+ "connected"];
  let! _ :=
    (if jetstream then
       let! _ := on_bus (get_or_create_stream (demo_stream stream subject)) in
       _ ← say [pub_tag label +:+ "stream " +:+ stream +:+ " ready (subjects: " +:+
                subj_wildcard subject +:+ ")"];
       mret (Ok tt)
     else mret (Ok tt)) in
  demo_ticks jetstream label subject 1 clock.

End programs.

(** The subscriber without JetStream: which subscription it makes, and the lines it prints
    for the messages it receives. *)
Definition sub_mode (jetstream : bool) (stream : string) (durable queue_group : option string)
    : string :=
  if jetstream then "JetStream stream=" +:+ stream +:+ " durable=" +:+ default "(ephemeral)" durable
  else match queue_group with
       | Some g => "core queue-group '" +:+ g +:+ "'"
       | None => "core fan-out (no queue group)"
       end.

Inductive Subscription : Type :=
| QueueSubscribe (subject group : string)
| Subscribe (subject : string).

Definition core_subscription (subject : string) (queue_group : option string) : Subscription :=
  match queue_group with Some g => QueueSubscribe subject g | None => Subscribe subject end.

Definition run_core (label : string) (messages : list (string * string)) : list string :=
  let tag := "[demo-sub:" +:+ label +:+ "] " in
  (tag +:+ "subscribed") ::
  ((λ m, tag +:+ "recv: " +:+ from_utf8_lossy m.2 +:+ " (subject=" +:+ m.1 +:+ ")") <$> messages).

(** ** Lemmas *)

Section portal_facts.
Context {J : SerdeJson} {JM : JsonMake} {SL : ServerLib} {SW : ServerLaws} {JL : JsonLaws}.

(** What [is_null] says of the values the client builds. *)
Class NullLaws : Prop := {
  null_is_null : value_is_null value_null = true;
  string_not_null : ∀ s, value_is_null (json_string s) = false
}.
Context {NL : NullLaws}.

Lemma record_roundtrip r : decode_record (encode_record r) = Some r.
Proof.
  unfold decode_record, req_string, opt_string, default_string, encode_record. rewrite !obj_get. cbn.
  rewrite !as_str_string. cbn. destruct r as [n k b [a|] c l]; cbn.
  - by rewrite string_not_null, as_str_string.
  - by rewrite null_is_null.
Qed.

Lemma mapM_records rs : mapM decode_record (encode_record <$> rs) = Some rs.
Proof.
  induction rs as [|r rs IH]; [done|]. rewrite fmap_cons. cbn [mapM]. rewrite record_roundtrip.
  cbn [mbind option_bind]. by rewrite IH.
Qed.

(** The catalogue client.  Without a URL every call is refused, and nothing is sent; with
    one, an answer that is not a success is an error with its status and text, and the
    records that a portal prints are read as they are, whichever fields are absent. *)
Theorem portal_client (portal : Method → string → option Value → Reply) (b : string)
    (body : RegisterPeerRuntime) (rs : list PeerRuntimeRecord) (r : PeerRuntimeRecord) :
  (list_peer_runtimes portal None = Err NotConfigured ∧
   register_peer_runtime portal None body = Err NotConfigured) ∧
  (∀ st text, is_success st = false → portal GET (b +:+ "/api/peer-runtimes") None = Answer st text →
     list_peer_runtimes portal (Some b) = Err (DpStatus st text)) ∧
  (∀ st, is_success st = true →
     portal GET (b +:+ "/api/peer-runtimes") None =
       Answer st (json_to_string (json_array (encode_record <$> rs))) →
     list_peer_runtimes portal (Some b) = Ok rs) ∧
  (∀ st, is_success st = true →
     portal POST (b +:+ "/api/peer-runtimes") (Some (encode_register body)) =
       Answer st (json_to_string (encode_record r)) →
     register_peer_runtime portal (Some b) body = Ok r).
Proof.
  unfold list_peer_runtimes, register_peer_runtime, portal_call. split_and!; try done.
  - intros st text Hst ->. by rewrite Hst.
  - intros st Hst ->. rewrite Hst, parse_printed. cbn [negb mbind option_bind].
    rewrite as_array_array. cbn [mbind option_bind]. by rewrite mapM_records.
  - intros st Hst ->. rewrite Hst, parse_printed. cbn. by rewrite record_roundtrip.
Qed.
End portal_facts.

(** *** The page *)

Lemma strip_prefix_shorter pat s rest :
  pat ≠ "" → strip_prefix pat s = Some rest → String.length rest < String.length s.
Proof.
  intros Hp H%strip_prefix_Some. subst s. rewrite string_length_app.
  destruct pat; [done|]. simpl. lia.
Qed.

(** More fuel than characters is enough. *)
Lemma replace_fuel_enough pat by_ n m s :
  pat ≠ "" → String.length s < n → String.length s < m →
  replace_fuel n pat by_ s = replace_fuel m pat by_ s.
Proof.
  intros Hp. revert m s. induction n as [|n IH]; intros m s Hn Hm; [lia|]. destruct m as [|m]; [lia|].
  cbn [replace_fuel]. destruct (strip_prefix pat s) as [rest|] eqn:E.
  - apply strip_prefix_shorter in E; [|done]. f_equal. apply IH; lia.
  - destruct s as [|c s]; [done|]. simpl in Hn, Hm. f_equal. apply IH; lia.
Qed.

Lemma str_replace_step pat by_ c s :
  pat ≠ "" → strip_prefix pat (String c s) = None →
  str_replace pat by_ (String c s) = String c (str_replace pat by_ s).
Proof. intros Hp H. unfold str_replace. cbn [String.length replace_fuel]. by rewrite H. Qed.

Lemma str_replace_hit pat by_ s :
  pat ≠ "" → str_replace pat by_ (pat +:+ s) = by_ +:+ str_replace pat by_ s.
Proof.
  intros Hp. unfold str_replace at 1. cbn [replace_fuel].
  assert (strip_prefix pat (pat +:+ s) = Some s) as -> by (by apply strip_prefix_Some).
  f_equal. apply replace_fuel_enough; [done| |lia]. rewrite string_length_app. destruct pat; [done|]. simpl. lia.
Qed.

(** The page: what precedes a placeholder is kept, the placeholder becomes the URL as it
    is, and the rest is treated in the same way; so a page without underscores but in its
    placeholders is filled in completely.  Nothing in the URL is escaped, although the
    placeholder stands in a string of a script. *)
Theorem index_page_filled (url t rest : string) :
  has_char "_" t = false →
  index_page (t +:+ placeholder +:+ rest) url = t +:+ url +:+ index_page rest url ∧
  index_page t url = t.
Proof.
  unfold index_page. intros Ht. induction t as [|c t IH].
  - split; [|reflexivity]. rewrite !string_app_empty. by apply str_replace_hit.
  - simpl in Ht. apply orb_false_iff in Ht as [Hc Ht]. destruct (IH Ht) as [IH1 IH2].
    assert (∀ s, strip_prefix placeholder (String c s) = None) as Hn.
    { intros s. unfold placeholder. cbn [strip_prefix]. by rewrite Ascii.eqb_sym, Hc. }
    split.
    + rewrite !string_app_cons, str_replace_step by done. by rewrite IH1.
    + rewrite str_replace_step by done. by rewrite IH2.
Qed.

Lemma index_page_filled_witness :
  index_page ("const CTRL = '" +:+ placeholder +:+ "';") "http://c:7878" = "const CTRL = 'http://c:7878';".
Proof.
  rewrite (proj1 (index_page_filled "http://c:7878" "const CTRL = '" "';" eq_refl)). reflexivity.
Defined.

(** *** The demo programs *)

(** The stream takes what the publisher sends: the last token of the pattern stands for
    one or more tokens.  A plain subject itself is not in the stream, so what the
    publisher sends without [--jetstream] is not kept. *)
Section demo.
Variable nats_matches : string → string → bool.
Hypothesis nats_tail : ∀ base subject, has_char "*" base = false → has_char ">" base = false →
  nats_matches (base +:+ ".>") subject = true ↔ ∃ rest, rest ≠ [] ∧ tokens subject = tokens base ++ rest.

Theorem demo_stream_captures (subject : string) :
  has_char "*" subject = false → has_char ">" subject = false →
  nats_matches (subj_wildcard subject) (publish_subj true subject) = true ∧
  nats_matches (subj_wildcard subject) (publish_subj false subject) = false.
Proof.
  intros H1 H2. unfold subj_wildcard, publish_subj. rewrite H1, H2. cbn [orb]. split.
  - apply nats_tail; [done..|]. exists ["tick"]. split; [done|]. unfold tokens.
    change (subject +:+ ".tick") with (subject +:+ String "." "tick"). by rewrite split_on_app_last.
  - apply not_true_is_false. intros (rest & Hr & E)%nats_tail; [|done..].
    apply (f_equal length) in E. rewrite length_app in E. destruct rest; [done|simpl in E; lia].
Qed.
End demo.

(** Every message is printed once, and acknowledged unless it is the last one printed and
    its acknowledgement failed. *)
Theorem demo_subscriber_acks (label : string) (ds : list Delivery) :
  let '(out, seqs, ok) := run_jetstream label ds in
  (ok = true → length out = length ds ∧ length seqs = length ds) ∧
  length seqs ≤ length out ≤ S (length seqs) ∧
  seqs = take (length seqs) (omap (λ d, match d with Delivered n _ _ _ => Some n | _ => None end) ds).
Proof.
  induction ds as [|[n subject body acked|] ds IH]; [by split_and!; cbn; try lia| |by split_and!; cbn; try lia].
  cbn [run_jetstream]. destruct acked.
  - destruct (run_jetstream label ds) as [[out seqs] ok]. destruct IH as (H1 & H2 & H3). cbn.
    split_and!; [intros Hok; destruct (H1 Hok); lia|lia..|by f_equal].
  - cbn. split_and!; [done|lia..|done].
Qed.

(** *** The publisher with JetStream *)

Section publisher.
Context {B : Type} {JB : JetStream B} (nats_matches : string → string → bool).
Context (streams : B → Streams) {JL : JetStreamLaws nats_matches streams} (o : Oracle).
Context (core_publish : string → string → M B (result unit Fault)).
Context (label subject stream : string) (S : gmap string (list string)).
Hypothesis own_stream : ∀ n, takes nats_matches S (publish_subj true subject) n → n = stream.

(** The messages of the readings of the clock, from number [i] on. *)
Fixpoint tick_rows (i : Z) (clock : list string) : list (string * string) :=
  match clock with
  | [] => []
  | ts :: clock' =>
      (publish_subj true subject, tick_line i label ts) :: tick_rows (i + 1)%Z clock'
  end.

Lemma demo_tick_run i ts b out u :
  demo_tick core_publish true label subject i ts o ((b, out), u) =
  let '(r, (b', u')) := js_publish_ack (publish_subj true subject) (tick_line i label ts) o (b, u) in
  match r with
  | Ok (Ok seq) =>
      (Ok tt, ((b', out ++ [pub_tag label +:+ "sent (js seq=" +:+ pretty seq +:+ "): " +:+
                            tick_line i label ts]), u'))
  | Ok (Err e) | Err e => (Err e, ((b', out), u'))
  end.
Proof.
  unfold demo_tick, mbind, M_bind, on_bus, zoom. cbn [fst snd].
  by destruct (js_publish_ack _ _ o (b, u)) as [[[k|e]|e] [b' u']].
Qed.

(** With JetStream the publisher's stream stores its ticks, numbered from one, in order and
    without a gap: a prefix of them whatever fails, all of them while nothing does; and a
    line is printed for each that was acknowledged. *)
Theorem demo_ticks_in_order i clock (w : B * list string) u :
  subjects (streams w.1) = S →
  let x := demo_ticks core_publish true label subject i clock o (w, u) in
  ∃ l, l `prefix_of` tick_rows i clock ∧
    histories (streams x.2.1.1) = appended stream l (histories (streams w.1)) ∧
    (x.1 = Ok tt → l = tick_rows i clock ∧ length x.2.1.2 = length w.2 + length clock) ∧
    length x.2.1.2 ≤ length w.2 + length l.
Proof.
  revert i w u. induction clock as [|ts clock IH]; intros i w u HS; cbv zeta.
  { exists []. rewrite appended_nil. cbn. split_and!; [done|done|intros _; split; [done|lia]|lia]. }
  cbn [demo_ticks tick_rows]. destruct w as [b out]. rewrite try_run, demo_tick_run. cbn [fst snd] in *.
  pose proof (publish_run nats_matches streams o (publish_subj true subject)
    (tick_line i label ts) b u) as [Hs Hp].
  destruct (js_publish_ack _ _ o (b, u)) as [r [b' u']]. cbn [fst snd] in *. rewrite HS in *.
  assert (∃ l, l `prefix_of` [(publish_subj true subject, tick_line i label ts)] ∧
    histories (streams b') = appended stream l (histories (streams b)) ∧
    (∀ k, r = Ok (Ok k) → l = [(publish_subj true subject, tick_line i label ts)])) as (l1 & H1 & H2 & H3).
  { destruct Hp as [(n & Hn & Hh)|[Hh Hr]].
    - apply own_stream in Hn as ->. eexists. split_and!; [reflexivity|done|done].
    - exists []. rewrite appended_nil. split_and!; [apply prefix_nil|done|].
      intros k ->. by destruct (Hr k). }
  assert (l1 `prefix_of` (publish_subj true subject, tick_line i label ts) :: tick_rows (i + 1) clock) as Hpre.
  { etrans; [exact H1|]. apply prefix_cons, prefix_nil. }
  destruct r as [[k|e]|e].
  2, 3: exists l1; split_and!; [exact Hpre|exact H2|by intros [=]|cbn; lia].
  rewrite (H3 k eq_refl) in *.
  set (out' := out ++ _).
  destruct (IH (i + 1)%Z (b', out') u' Hs) as (l & Hl & Hh & Hok & Hlen).
  assert (length out' = length out + 1) as Ho by (unfold out'; by rewrite length_app).
  eexists (_ :: l). cbn [fst snd] in *. rewrite Hh, H2, appended_app. rewrite Ho in Hlen, Hok.
  cbn [length] in *. split_and!; [by apply prefix_cons|done| |lia].
  intros Hx. destruct (Hok Hx) as [-> Hn]. split; [done|lia].
Qed.
End publisher.
