(* ===== verification/Queue.v ===== *)
(** * Named queues from the command line (crates/orion-cli/src/cmd/queue.rs)

    [orion queue pub], [sub], [ls], [describe] and [purge], whole: what they ask the
    controller, what they do to the broker (JetStream.v), and what they print. *)

From Stdlib Require Import ZArith Lia Bool Ascii.
From stdpp Require Import base list gmap strings pretty.
From S2P Require Import Prelude Text Types Parse Effect Scrape Docker Bus Store Outbox Mcp Server Api CliText Cli CliRun CliTools JetStream.

(** Errors in the terms of the caller. *)
Definition map_err {S A E E'} (f : E → E') (m : M S (result A E)) : M S (result A E') :=
  r ← m; mret (match r with Ok a => Ok a | Err e => Err (f e) end).

Inductive QueueError : Type :=
| QHttp (e : CliError)
| QBus (e : BusError)
| QStream (e : Fault)
| QueueNotFound (name : string)
| AutoCreateFailed
| NotAQueue (name : string)
| EnsuringStream (name : string) (e : BusError)
| ReadingStdin (e : string)
| InvalidJson (excerpt : string)
| ExcerptPanic
| CreatingConsumer (durable : string) (e : Fault)
| OpeningMessages (e : Fault)
| ConfirmationMismatch.

Record PubArgs : Type := {
  pub_name : string;
  pub_subject_from : option string;
  pub_allow_missing : bool
}.

Record SubArgs : Type := {
  sub_name : string;
  sub_group : option string;
  sub_forever : bool;
  sub_limit : nat;
  sub_no_ack : bool
}.

(** What a process knows of itself. *)
Record Process : Type := { proc_env : gmap string string; proc_id : Z }.

Definition queue_path (name : string) : string := "/v1/resources/Queue/" +:+ name.

(** The resource [--allow-missing] applies. *)
Definition default_queue_yaml (name : string) : string :=
  "apiVersion: orionmesh.dev/v1" +:+ nl +:+ "kind: Queue" +:+ nl +:+ "metadata:" +:+ nl +:+
  "  name: " +:+ name +:+ nl +:+ "spec:" +:+ nl +:+ "  type: work" +:+ nl.

Section pure.
Context {J : SerdeJson} {JM : JsonMake}.

(** Where a row goes: [--subject-from field] appends the field, when it is a string. *)
Definition publish_subject (subject : string) (subject_from : option string) (parsed : Value)
    : string :=
  match subject_from with
  | Some field =>
      match value_get parsed field ≫= value_as_str with
      | Some suffix => subject +:+ "." +:+ suffix
      | None => subject
      end
  | None => subject
  end.

(** The error of a line that is not JSON: the excerpt is cut at byte 80. *)
Definition invalid_line (line : string) : QueueError :=
  match slice_str 0 (Nat.min (String.length line) 80) line with
  | Some s => InvalidJson s
  | None => ExcerptPanic
  end.

(** The durable a subscriber joins. *)
Definition sub_durable (name : string) (ty : QueueType) (group : option string)
    (host : string) (pid : Z) : string :=
  match ty with
  | QWork => default (name +:+ "-workers") group
  | QTopic => default (name +:+ "-" +:+ host +:+ "-" +:+ pretty pid) group
  end.

(** [hostname]: other characters become underscores, one per character. *)
Definition host_char (c : ascii) : string :=
  if is_ascii_alphanumeric c || Ascii.eqb c "-" || Ascii.eqb c "_" then String c EmptyString
  else if is_utf8_continuation c then EmptyString else "_".
Fixpoint host_chars (s : string) : string :=
  match s with EmptyString => EmptyString | String c s' => host_char c +:+ host_chars s' end.
Definition sub_hostname (env : gmap string string) : string :=
  host_chars (default (default "host" (env !! "HOST")) (env !! "HOSTNAME")).

(** [{:?}] of the type, and the word [ls] prints. *)
Definition debug_type (t : QueueType) : string :=
  match t with QTopic => "Topic" | QWork => "Work" end.
Definition type_word (t : QueueType) : string :=
  match t with QTopic => "topic" | QWork => "work" end.

Definition tab : ascii := "009"%char.

(** What the next wait of the consumer gives. *)
Inductive SubEvent : Type :=
| SubMessage (seq : option Z) (subject payload : string)
| SubError (e : string)
| SubIdle
| SubClosed.

Definition payload_text (payload : string) : string :=
  default ("<" +:+ pretty (String.length payload) +:+ " bytes>") (from_utf8 payload).

Definition message_line (seq : option Z) (subject payload : string) : string :=
  pretty (default 0%Z seq) +:+ String tab (subject +:+ String tab (payload_text payload)).

(** The question of [purge], answered. *)
Definition purge_confirmed (name line : string) : bool := String.eqb (trim line) name.

End pure.

Section commands.
Context {J : SerdeJson} {JM : JsonMake} {SL : ServerLib} {PR : Printers} {AL : ApiLibs}
  {UC : UpperCase} {RC : ResourceCodec}.
Context {C B : Type} {JB : JetStream B}.
Context (send : Transport C) (ctx : Ctx).

(** The world of these commands: the controller's side, the broker, the terminal. *)
Notation W := (World (C * B)).

Definition net : Transport (C * B) := λ m url auth body,
  zoom fst (λ c w, (c, w.2)) (send m url auth body).
Definition bus {A} (m : M B A) : M W A := zoom (λ w, w.1.2) (λ b w, ((w.1.1, b), w.2)) m.

(** [nats::connect]. *)
Definition nats_client : M W (result unit QueueError) :=
  map_err QBus (bus (connect (ctx_nats_url ctx) (ctx_token ctx))).

(** *** Finding the queue *)

Definition read_resource (r : Reply) : result (option Resource) QueueError :=
  match r with
  | Unreachable e => Err (QHttp (Http (SendFailed e)))
  | Answer status text =>
      if (status =? 404)%Z then Ok None
      else if (400 <=? status)%Z && (status <=? 599)%Z
           then Err (QHttp (Http (BadStatus status text)))
      else match resource_from_json text with
           | Ok r => Ok (Some r)
           | Err _ => Err (QHttp (Http (BadBody text)))
           end
  end.

Definition fetch_queue_resource (name : string) : M W (result (option Resource) QueueError) :=
  let! r := map_err QHttp (request net ctx GET (queue_path name) "") in mret (read_resource r).

Definition fetch_queue (name : string) : M W (result (option QueueSpec) QueueError) :=
  let! r := fetch_queue_resource name in
  mret (Ok (match r with
            | Some r => match body r with BQueue spec _ => Some spec | _ => None end
            | None => None
            end)).

(** *** pub *)

(** The queue to publish to: one that is not there is an error, or is made. *)
Definition pub_queue (a : PubArgs) : M W (result QueueSpec QueueError) :=
  let! q := fetch_queue (pub_name a) in
  match q with
  | Some q => mret (Ok q)
  | None =>
      if pub_allow_missing a then
        let! _ := map_err QHttp (post_yaml net ctx "/v1/resources/apply" (default_queue_yaml (pub_name a))) in
        let! q := fetch_queue (pub_name a) in
        mret (match q with Some q => Ok q | None => Err AutoCreateFailed end)
      else mret (Err (QueueNotFound (pub_name a)))
  end.

(** The loop over standard input: how many were published. *)
Fixpoint pub_lines (subject : string) (subject_from : option string)
    (stdin : list (result string string)) (n : Z) : M W (result Z QueueError) :=
  match stdin with
  | [] => mret (Ok n)
  | Err e :: _ => mret (Err (ReadingStdin e))
  | Ok line :: stdin' =>
      if String.eqb (trim line) "" then pub_lines subject subject_from stdin' n
      else match json_from_str line with
           | None => mret (Err (invalid_line line))
           | Some parsed =>
               let! _ := map_err QBus (bus (publish_bytes (publish_subject subject subject_from parsed) line)) in
               pub_lines subject subject_from stdin' (n + 1)%Z
           end
  end.

(** The rest of [run_pub]: [queue] is known. *)
Definition pub_to (a : PubArgs) (queue : QueueSpec) (stdin : list (result string string))
    : M W (result unit QueueError) :=
  let! _ := nats_client in
  let '(subject, cfg) := queue_stream_config (pub_name a) queue in
  let! _ := map_err (EnsuringStream (pub_name a)) (bus (ensure_stream cfg)) in
  let! n := pub_lines subject (pub_subject_from a) stdin 0%Z in
  _ ← show [ErrLine ("published " +:+ pretty n +:+ " messages to " +:+ subject)];
  mret (Ok tt).

Definition run_pub (a : PubArgs) (stdin : list (result string string))
    : M W (result unit QueueError) :=
  let! queue := pub_queue a in pub_to a queue stdin.

(** *** sub *)

(** The loop over what the consumer delivers: the count, when it ends by itself;
    [None] is a consumer still waiting. *)
Fixpoint sub_loop (stream durable : string) (a : SubArgs) (n : nat) (events : list SubEvent)
    : M W (option nat) :=
  match events with
  | [] => mret None
  | SubMessage seq subject payload :: events' =>
      _ ← println (message_line seq subject payload);
      _ ← (if sub_no_ack a then mret tt
           else r ← bus (ack_message stream durable (default 0%Z seq));
                match r with Ok _ => mret tt | Err e => show [ErrLine ("(ack failed: " +:+ e +:+ ")")] end);
      if negb (sub_forever a) && (0 <? sub_limit a) && (sub_limit a <=? S n) then mret (Some (S n))
      else sub_loop stream durable a (S n) events'
  | SubError e :: events' =>
      _ ← show [ErrLine ("(consumer error: " +:+ e +:+ ")")]; sub_loop stream durable a n events'
  | SubIdle :: events' => sub_loop stream durable a n events'
  | SubClosed :: _ => mret (Some n)
  end.

Definition group_warning (group : string) : string :=
  "warning: --group " +:+ group +:+
  " on a topic queue causes load-balancing across processes that share it. For broadcast, omit --group.".

Definition sub_banner (name : string) (ty : QueueType) (subject durable : string) : string :=
  "[orion queue sub] queue=" +:+ name +:+ " type=" +:+ debug_type ty +:+ " subject=" +:+ subject +:+
  " durable=" +:+ durable.

Definition sub_config (a : SubArgs) (subject durable : string) : PullConfig :=
  {| pc_durable_name := durable; pc_filter_subject := subject;
     pc_ack_policy := if sub_no_ack a then AckNone else AckExplicit |}.

(** What is said before the subscription starts. *)
Definition sub_notices (a : SubArgs) (ty : QueueType) (subject durable : string) : list Shown :=
  match ty, sub_group a with QTopic, Some g => [ErrLine (group_warning g)] | _, _ => [] end ++
  [ErrLine (sub_banner (sub_name a) ty subject durable)].

(** From the creation of the consumer on; [Ok false]: still waiting for messages. *)
Definition sub_messages (stream subject durable : string) (a : SubArgs) (events : list SubEvent)
    : M W (result bool QueueError) :=
  let! _ := map_err (CreatingConsumer durable)
              (bus (get_or_create_consumer stream (sub_config a subject durable))) in
  let! _ := map_err OpeningMessages (bus (consumer_messages stream durable)) in
  r ← sub_loop stream durable a 0 events;
  match r with
  | Some n => _ ← show [ErrLine ("consumed " +:+ pretty n +:+ " messages")]; mret (Ok true)
  | None => mret (Ok false)
  end.

Definition run_sub (a : SubArgs) (p : Process) (events : list SubEvent)
    : M W (result bool QueueError) :=
  let name := sub_name a in
  let! q := fetch_queue name in
  match q with
  | None => mret (Err (QueueNotFound name))
  | Some queue =>
      let! _ := nats_client in
      let '(subject, cfg) := queue_stream_config name queue in
      let! _ := map_err QBus (bus (ensure_stream cfg)) in
      let durable := sub_durable name (q_type queue) (sub_group a) (sub_hostname (proc_env p)) (proc_id p) in
      _ ← show (sub_notices a (q_type queue) subject durable);
      sub_messages (sc_name cfg) subject durable a events
  end.

(** *** ls *)

Definition decode_resources (v : Value) : option (list Resource) :=
  arr ← value_as_array v;
  mapM (λ w, match resource_from_json (json_to_string w) with Ok r => Some r | Err _ => None end) arr.

(** The two counts of a stream, when it can be asked. *)
Definition live_counts (connected : bool) (stream : string) : M W (string * string) :=
  if connected then
    g ← bus (get_stream stream);
    match g with
    | Ok _ =>
        i ← bus (stream_info stream);
        mret (match i with
              | Ok i => (pretty (si_messages i), pretty (si_consumer_count i))
              | Err _ => ("-", "-")
              end)
    | Err _ => mret ("-", "-")
    end
  else mret ("-", "-").

Fixpoint ls_rows (connected : bool) (resources : list Resource) : M W (list (list string)) :=
  match resources with
  | [] => mret []
  | r :: resources' =>
      match body r with
      | BQueue spec _ =>
          let name := md_name (metadata r) in
          let '(subject, cfg) := queue_stream_config name spec in
          c ← live_counts connected (sc_name cfg);
          rows ← ls_rows connected resources';
          mret ([name; type_word (q_type spec); subject; c.1; c.2] :: rows)
      | _ => ls_rows connected resources'
      end
  end.

Definition run_ls : M W (result unit QueueError) :=
  let! v := map_err QHttp (fetch_json net ctx "/v1/resources/Queue") in
  match decode_resources v with
  | None => mret (Err (QHttp (Http (BadBody (json_to_string v)))))
  | Some resources =>
      nc ← nats_client;
      match ctx_output ctx with
      | JsonFormat => _ ← print_json (json_array (resource_to_value <$> resources)); mret (Ok tt)
      | _ =>
          rows ← ls_rows (match nc with Ok _ => true | Err _ => false end) resources;
          _ ← print_table ["name"; "type"; "subject"; "messages"; "consumers"] rows;
          mret (Ok tt)
      end
  end.

(** *** describe *)

Definition info_lines (i : StreamInfo) : list Shown :=
  OutLine <$> ["messages: " +:+ pretty (si_messages i); "bytes:    " +:+ pretty (si_bytes i);
               "first_seq: " +:+ pretty (si_first_sequence i);
               "last_seq:  " +:+ pretty (si_last_sequence i);
               "consumers: " +:+ pretty (si_consumer_count i)].

Definition consumer_line (c : result ConsumerInfo Fault) : Shown :=
  match c with
  | Ok i => OutLine ("  " +:+ ci_name i +:+ " pending_acks=" +:+ pretty (ci_num_ack_pending i) +:+
                     " delivered=" +:+ pretty (ci_delivered i) +:+ " ack_floor=" +:+ pretty (ci_ack_floor i))
  | Err e => ErrLine ("  (consumer info error: " +:+ e +:+ ")")
  end.

Definition describe_stream (stream : string) : M W unit :=
  g ← bus (get_stream stream);
  match g with
  | Ok _ =>
      i ← bus (stream_info stream);
      _ ← show (match i with Ok i => info_lines i | Err _ => [] end);
      _ ← println (nl +:+ "-- consumers --");
      cs ← bus (stream_consumers stream);
      show (consumer_line <$> cs)
  | Err _ => println "stream not yet created — publish a message first"
  end.

Definition run_describe (name : string) : M W (result unit QueueError) :=
  let! r := fetch_queue_resource name in
  match r with
  | None => mret (Err (QueueNotFound name))
  | Some r =>
      match body r with
      | BQueue spec _ =>
          let '(subject, cfg) := queue_stream_config name spec in
          _ ← show (OutLine <$> ["name:    " +:+ name; "type:    " +:+ debug_type (q_type spec);
                                 "subject: " +:+ subject; "stream:  " +:+ sc_name cfg]);
          nc ← nats_client;
          _ ← match nc with Ok _ => describe_stream (sc_name cfg) | Err _ => mret tt end;
          mret (Ok tt)
      | _ => mret (Err (NotAQueue name))
      end
  end.

(** *** purge *)

Definition purge_prompt (name : string) : string :=
  "This will delete all messages from queue " +:+ name +:+ ". Type the name to confirm: ".

(** The question, unless [--yes]; [answer] is the line read. *)
Definition confirm (yes : bool) (name : string) (answer : result string string)
    : M W (result unit QueueError) :=
  if yes then mret (Ok tt)
  else
    _ ← show [ErrLine (purge_prompt name)];
    mret (match answer with
          | Err e => Err (ReadingStdin e)
          | Ok line => if purge_confirmed name line then Ok tt else Err ConfirmationMismatch
          end).

Definition run_purge (yes : bool) (name : string) (answer : result string string)
    : M W (result unit QueueError) :=
  let! _ := confirm yes name answer in
  let! q := fetch_queue name in
  match q with
  | None => mret (Err (QueueNotFound name))
  | Some queue =>
      let! _ := nats_client in
      let '(_, cfg) := queue_stream_config name queue in
      let! _ := map_err QStream (bus (get_stream (sc_name cfg))) in
      let! n := map_err QStream (bus (stream_purge (sc_name cfg))) in
      _ ← println ("purged " +:+ pretty n +:+ " messages from " +:+ name);
      mret (Ok tt)
  end.

End commands.

(** ** Lemmas: runs *)

Section runs.
Context {C B : Type}.
Notation W := (World (C * B)).

(** How a run changes the broker, [R] over what is seen of it by [v]. *)
Definition moves {V A} (v : B → V) (o : Oracle) (R : V → V → Prop) (m : M W A) : Prop :=
  ∀ w u, R (v w.1.2) (v (m o (w, u)).2.1.1.2).

Context {V : Type} (v : B → V) (o : Oracle) (R : V → V → Prop).

Lemma moves_bind `{!Transitive R} {A A'} (m : M W A) (k : A → M W A') :
  moves v o R m → (∀ a, moves v o R (k a)) → moves v o R (m ≫= k).
Proof.
  intros Hm Hk w u. specialize (Hm w u). unfold mbind, M_bind.
  destruct (m o (w, u)) as [a [w' u']]. etrans; [exact Hm|apply Hk].
Qed.

Lemma moves_ret `{!Reflexive R} {A} (a : A) : moves v o R (mret a).
Proof. by intros w u. Qed.

Lemma moves_show `{!Reflexive R} l : moves v o R (show l).
Proof. by intros w u. Qed.

Lemma moves_map_err `{!Reflexive R, !Transitive R} {A E E'} (f : E → E') (m : M W (result A E)) :
  moves v o R m → moves v o R (map_err f m).
Proof. intros Hm. apply moves_bind; [done|]. intros [a|e]; apply moves_ret. Qed.

Lemma moves_try `{!Reflexive R, !Transitive R} {A A' E} (m : M W (result A E))
    (k : A → M W (result A' E)) :
  moves v o R m → (∀ a, moves v o R (k a)) → moves v o R (let! x := m in k x).
Proof. intros Hm Hk. apply moves_bind; [done|]. intros [a|e]; [apply Hk|apply moves_ret]. Qed.

Lemma moves_bus {A} (m : M B A) :
  (∀ b u, R (v b) (v (m o (b, u)).2.1)) → moves v o R (bus m).
Proof.
  intros H [[c b] out] u. unfold bus, zoom. cbn [fst snd]. specialize (H b u).
  by destruct (m o (b, u)) as [a [b' u']].
Qed.
End runs.

(** Walk through a computation; what is left are its calls on the broker. *)
Ltac moves :=
  repeat first [ match goal with |- Reflexive _ => exact _ | |- Transitive _ => exact _ end
               | apply moves_ret | apply moves_show | solve [auto with orion nocore]
               | apply moves_map_err | apply moves_try | apply moves_bind
               | match goal with |- ∀ _, _ => intros ? end | case_match ].

Lemma map_err_run {S A E E'} (f : E → E') (m : M S (result A E)) o su :
  map_err f m o su = let '(r, su') := m o su in
    (match r with Ok a => Ok a | Err e => Err (f e) end, su').
Proof. unfold map_err, mbind, M_bind. by destruct (m o su) as [r su']. Qed.

Lemma bus_run {C B A} (m : M B A) o (c : C) (b : B) (out : list Shown) u :
  bus m o (((c, b), out), u) = let '(a, (b', u')) := m o (b, u) in (a, (((c, b'), out), u')).
Proof. unfold bus, zoom. cbn [fst snd]. by destruct (m o (b, u)) as [a [b' u']]. Qed.

(** ** Lemmas: the controller's side leaves the broker alone *)

Section requests.
Context {J : SerdeJson} {JM : JsonMake} {SL : ServerLib} {PR : Printers} {AL : ApiLibs}
  {UC : UpperCase} {RC : ResourceCodec}.
Context {C B : Type}.
Context (send : Transport C) (ctx : Ctx) (o : Oracle).

Lemma request_broker m path body : moves (C := C) id o eq (request (net (B := B) send) ctx m path body).
Proof.
  intros [[c b] out] u. unfold request, mbind, M_bind, mret, M_ret, net, zoom.
  destruct (auth_header ctx); [|done]. cbn [fst snd].
  by destruct (send m (url ctx path) _ body o (c, u)) as [r [c' u']].
Qed.
Hint Resolve request_broker : orion.

Lemma post_yaml_broker path body : moves (C := C) id o eq (post_yaml (net (B := B) send) ctx path body).
Proof. unfold post_yaml. moves. Qed.

Lemma fetch_json_broker path : moves (C := C) id o eq (fetch_json (net (B := B) send) ctx path).
Proof. unfold fetch_json. moves. Qed.

Lemma fetch_resource_broker name : moves (C := C) (B := B) id o eq (fetch_queue_resource send ctx name).
Proof. unfold fetch_queue_resource. moves. Qed.
Hint Resolve post_yaml_broker fetch_resource_broker : orion.

Lemma fetch_queue_broker name : moves (C := C) (B := B) id o eq (fetch_queue send ctx name).
Proof. unfold fetch_queue. moves. Qed.
Hint Resolve fetch_queue_broker : orion.

Lemma pub_queue_broker a : moves (C := C) (B := B) id o eq (pub_queue send ctx a).
Proof. unfold pub_queue. moves. Qed.
End requests.

(** ** Lemmas: what the commands do to the streams *)

Section effects.
Context {J : SerdeJson} {JM : JsonMake} {SL : ServerLib} {PR : Printers} {AL : ApiLibs}
  {UC : UpperCase} {RC : ResourceCodec}.
Context {C B : Type} {JB : JetStream B}.
Context (nats_matches : string → string → bool) (streams : B → Streams).
Context {JL : JetStreamLaws nats_matches streams}.
Context (send : Transport C) (ctx : Ctx) (o : Oracle).
Notation W := (World (C * B)).

Lemma moves_eq {A} (R : Streams → Streams → Prop) `{!Reflexive R} (m : M W A) :
  moves id o eq m → moves streams o R m.
Proof. intros H w u. specialize (H w u). unfold id in H. by rewrite <- H. Qed.

Lemma connect_ages : moves (C := C) streams o aged (nats_client ctx).
Proof.
  unfold nats_client, connect. moves. apply moves_bus. intros b u.
  pose proof (law_connect (ctx_nats_url ctx) (connect_token (ctx_token ctx)) o b u) as H.
  unfold mbind, M_bind. by destruct (nats_connect _ _ o (b, u)) as [[] [b' u']].
Qed.

Lemma get_stream_ages n : moves (C := C) streams o aged (bus (get_stream n)).
Proof. apply moves_bus. intros b u. apply (law_get n o b u). Qed.
Lemma info_ages n : moves (C := C) streams o aged (bus (stream_info n)).
Proof. apply moves_bus. intros b u. apply (law_info n o b u). Qed.
Lemma consumers_ages n : moves (C := C) streams o aged (bus (stream_consumers n)).
Proof. apply moves_bus. intros b u. apply (law_consumers n o b u). Qed.
Lemma messages_ages n d : moves (C := C) streams o aged (bus (consumer_messages n d)).
Proof. apply moves_bus. intros b u. apply (law_messages n d o b u). Qed.
Lemma fetch_ages name : moves (B := B) (C := C) streams o aged (fetch_queue send ctx name).
Proof. apply moves_eq; [exact _|]. apply fetch_queue_broker. Qed.
Lemma fetch_resource_ages name :
  moves (B := B) (C := C) streams o aged (fetch_queue_resource send ctx name).
Proof. apply moves_eq; [exact _|]. apply fetch_resource_broker. Qed.
Lemma fetch_json_ages path : moves (B := B) (C := C) streams o aged (fetch_json (net send) ctx path).
Proof. apply moves_eq; [exact _|]. apply fetch_json_broker. Qed.
Hint Resolve connect_ages get_stream_ages info_ages consumers_ages messages_ages fetch_ages
  fetch_resource_ages fetch_json_ages : orion.

Lemma live_counts_ages k n : moves (C := C) streams o aged (live_counts k n).
Proof. unfold live_counts. moves. Qed.
Hint Resolve live_counts_ages : orion.

Lemma ls_rows_ages k rs : moves (C := C) streams o aged (ls_rows k rs).
Proof.
  induction rs as [|r rs IH]; cbn [ls_rows]; [moves|].
  destruct (body r); try exact IH. destruct (queue_stream_config _ _) as [subject cfg]. moves.
Qed.
Hint Resolve ls_rows_ages : orion.

Lemma run_ls_ages : moves (C := C) streams o aged (run_ls send ctx).
Proof. unfold run_ls, print_json, print_table, println. moves. Qed.

Lemma run_describe_ages name : moves (C := C) streams o aged (run_describe send ctx name).
Proof. unfold run_describe, describe_stream, println. moves. Qed.

Lemma aged_changed n f σ ρ τ : aged σ ρ → changed n f ρ τ → changed n f σ τ.
Proof. intros H (ρ' & sv & Ha & Hl & ->). exists ρ', sv. split_and!; [by etrans|done|done]. Qed.

Lemma aged_kept σ ρ n sv :
  aged σ ρ → σ !! n = Some sv → ∃ sv', ρ !! n = Some sv' ∧ length (sv_kept sv') ≤ length (sv_kept sv).
Proof.
  intros Ha Hl. apply (aged_lookup _ _ n) in Ha. rewrite Hl in Ha.
  destruct (ρ !! n) as [sv'|]; [|done]. destruct Ha as [_ Hs%suffix_length]. eauto.
Qed.

(** The part of a purge that follows the confirmation. *)
Definition purge_steps (name : string) : M W (result unit QueueError) :=
  let! q := fetch_queue send ctx name in
  match q with
  | None => mret (Err (QueueNotFound name))
  | Some queue =>
      let! _ := nats_client ctx in
      let '(_, cfg) := queue_stream_config name queue in
      let! _ := map_err QStream (bus (get_stream (sc_name cfg))) in
      let! n := map_err QStream (bus (stream_purge (sc_name cfg))) in
      _ ← println ("purged " +:+ pretty n +:+ " messages from " +:+ name);
      mret (Ok tt)
  end.

Definition purged_line (name : string) (k : Z) : Shown :=
  OutLine ("purged " +:+ pretty k +:+ " messages from " +:+ name).

Lemma purge_steps_run name w u :
  let x := purge_steps name o (w, u) in
  let σ := streams w.1.2 in let τ := streams x.2.1.1.2 in
  (aged σ τ ∧ x.1 ≠ Ok tt) ∨
  ∃ queue, (fetch_queue send ctx name o (w, u)).1 = Ok (Some queue) ∧
    let stream := sc_name (queue_stream_config name queue).2 in
    changed stream (set_kept []) σ τ ∧
    (x.1 = Ok tt → ∃ k, last x.2.1.2 = Some (purged_line name k) ∧
      ∀ sv, σ !! stream = Some sv → (0 <= k <= Z.of_nat (length (sv_kept sv)))%Z).
Proof.
  cbv zeta. unfold purge_steps. rewrite try_run.
  pose proof (fetch_ages name w u) as Hf.
  destruct (fetch_queue send ctx name o (w, u)) as [[[queue|]|e] [w1 u1]]; [|by left|by left].
  rewrite try_run. pose proof (connect_ages w1 u1) as Hc.
  destruct (nats_client ctx o (w1, u1)) as [[[]|e] [w2 u2]]; [|left; split; [by etrans|done]].
  unfold queue_stream_config. cbn [fst snd] in *. set (stream := default _ (q_stream queue)).
  cbn [sc_name]. rewrite try_run, map_err_run. pose proof (get_stream_ages stream w2 u2) as Hg.
  assert (aged (streams w.1.2) (streams (bus (get_stream stream) o (w2, u2)).2.1.1.2)) as Ha
    by (do 2 (etrans; [eassumption|]); done).
  destruct (bus (get_stream stream) o (w2, u2)) as [[[]|e] [w3 u3]]; [|by left]. cbn [fst snd] in Ha.
  rewrite try_run, map_err_run. destruct w3 as [[c b] out]. rewrite bus_run. cbn [fst snd] in Ha.
  pose proof (law_purge stream o b u3) as Hp. cbv zeta in Hp.
  destruct (stream_purge stream o (b, u3)) as [[k|e] [b' u4]]; cbn [fst snd] in *.
  - right. exists queue. split; [done|]. destruct Hp as [Hp Hk]. split; [by eapply aged_changed|].
    intros _. exists k. split; [apply last_snoc|]. intros sv Hl.
    destruct (aged_kept _ _ _ _ Ha Hl) as (sv' & Hl' & Hle). specialize (Hk _ Hl'). lia.
  - destruct Hp as [Hp|Hp]; [left; split; [by etrans|done]|right].
    exists queue. split; [done|]. split; [by eapply aged_changed|done].
Qed.

End effects.

(** ** Purging *)

(** The name was typed, or the question waived. *)
Definition confirmed (yes : bool) (name : string) (answer : result string string) : Prop :=
  yes = true ∨ ∃ line, answer = Ok line ∧ trim line = name.

(** [orion queue purge] empties the stream of the queue it was told to, and only when
    that was confirmed.  Unless [--yes] is given or the queue's name is typed, the command
    fails before it asks the controller or the broker for anything.  Otherwise either the
    streams are as they were, but for messages that their limits let go, and the command
    does not report success; or the messages kept by one stream, the one that the
    controller's resource names, are gone, and no other stream and nothing else of that
    stream is touched.  The number it prints is at most the number of messages there
    were. *)
Theorem queue_purge_confirmed {J : SerdeJson} {JM : JsonMake} {RC : ResourceCodec} {C B : Type}
    {JB : JetStream B} (nats_matches : string → string → bool) (streams : B → Streams)
    {JL : JetStreamLaws nats_matches streams} (send : Transport C) (ctx : Ctx) (o : Oracle)
    (yes : bool) (name : string) (answer : result string string) (w : World (C * B)) (u : Used) :
  let x := run_purge send ctx yes name answer o (w, u) in
  let σ := streams w.1.2 in let τ := streams x.2.1.1.2 in
  (¬ confirmed yes name answer → x.1 ≠ Ok tt ∧ x.2.1.1 = w.1 ∧ x.2.2 = u) ∧
  ((aged σ τ ∧ x.1 ≠ Ok tt) ∨
   confirmed yes name answer ∧ ∃ queue out,
     (fetch_queue send ctx name o ((w.1, out), u)).1 = Ok (Some queue) ∧
     let stream := sc_name (queue_stream_config name queue).2 in
     changed stream (set_kept []) σ τ ∧
     (∀ n, n ≠ stream → option_relation stream_aged (λ _, False) (λ _, False) (σ !! n) (τ !! n)) ∧
     (x.1 = Ok tt → ∃ k, last x.2.1.2 = Some (purged_line name k) ∧
        ∀ sv, σ !! stream = Some sv → (0 <= k <= Z.of_nat (length (sv_kept sv)))%Z)).
Proof.
  destruct w as [cb out0]. cbv zeta. change (run_purge send ctx yes name answer) with
    (let! _ := confirm (C := C) (B := B) yes name answer in purge_steps send ctx name).
  rewrite try_run. unfold confirm.
  pose proof (λ out, purge_steps_run nats_matches streams send ctx o name (cb, out) u) as Hs.
  cbv zeta in Hs. cbn [fst snd] in *.
  assert (∀ out, confirmed yes name answer →
    let x := purge_steps send ctx name o ((cb, out), u) in
    (¬ confirmed yes name answer → x.1 ≠ Ok tt ∧ x.2.1.1 = cb ∧ x.2.2 = u) ∧
    ((aged (streams cb.2) (streams x.2.1.1.2) ∧ x.1 ≠ Ok tt) ∨
     confirmed yes name answer ∧ ∃ queue out,
      (fetch_queue send ctx name o ((cb, out), u)).1 = Ok (Some queue) ∧
      let stream := sc_name (queue_stream_config name queue).2 in
      changed stream (set_kept []) (streams cb.2) (streams x.2.1.1.2) ∧
      (∀ n, n ≠ stream → option_relation stream_aged (λ _, False) (λ _, False)
        (streams cb.2 !! n) (streams x.2.1.1.2 !! n)) ∧
      (x.1 = Ok tt → ∃ k, last x.2.1.2 = Some (purged_line name k) ∧
        ∀ sv, streams cb.2 !! stream = Some sv → (0 <= k <= Z.of_nat (length (sv_kept sv)))%Z)))
    as Hyes.
  { intros out Hc. cbv zeta. split; [done|].
    destruct (Hs out) as [H|(queue & Hf & Hch & Hk)]; [by left|right]. split; [done|].
    exists queue, out. split_and!; try done. intros n. by eapply changed_others. }
  clear Hs. destruct yes; [apply Hyes; by left|].
  unfold show, modify, mbind, M_bind, mret, M_ret, purge_confirmed. cbn [fst snd].
  destruct answer as [line|e]; [|by split; [|left]].
  destruct (String.eqb_spec (trim line) name); [apply Hyes; right; eauto|by split; [|left]].
Qed.

(** ** Lemmas: publishing *)

Section rows.
Context {J : SerdeJson} {JM : JsonMake}.

Definition nonblank (line : string) : bool := negb (String.eqb (trim line) "").

(** The rows of some lines: the subject each goes to, and the line itself. *)
Definition row_of (subject : string) (subject_from : option string) (line : string)
    : option (string * string) :=
  v ← json_from_str line; Some (publish_subject subject subject_from v, line).
Definition rows_of (subject : string) (subject_from : option string) (lines : list string)
    : list (string * string) :=
  omap (row_of subject subject_from) (List.filter nonblank lines).

(** A line the loop passes: blank, or JSON. *)
Definition readable (line : string) : Prop := nonblank line = true → json_from_str line ≠ None.

(** How the loop over standard input ends: the lines [done_], each blank or JSON, were
    worked off, and [stored] is what reached the broker.  On success that is the whole
    input and all its rows; otherwise the next line is the cause: it cannot be read, it is
    not JSON, or the broker did not acknowledge its row (which may have been stored all the
    same). *)
Definition pub_end (subject : string) (subject_from : option string)
    (stdin : list (result string string)) (stored : list (string * string))
    (r : result Z QueueError) : Prop :=
  ∃ done_ rest, stdin = (Ok <$> done_) ++ rest ∧ Forall readable done_ ∧
  let rows := rows_of subject subject_from done_ in
  match r with
  | Ok n => rest = [] ∧ stored = rows ∧ n = Z.of_nat (length rows)
  | Err e =>
      (∃ e' rest', rest = Err e' :: rest' ∧ e = ReadingStdin e' ∧ stored = rows) ∨
      (∃ line rest', rest = Ok line :: rest' ∧ ¬ readable line ∧ e = invalid_line line ∧
         stored = rows) ∨
      (∃ line rest' row be, rest = Ok line :: rest' ∧ nonblank line = true ∧
         row_of subject subject_from line = Some row ∧ e = QBus be ∧
         (stored = rows ∨ stored = rows ++ [row]))
  end.

(** One more line before. *)
Lemma pub_end_cons subject sf line stdin stored r (k : Z) :
  readable line →
  let row := if nonblank line then option_list (row_of subject sf line) else [] in
  pub_end subject sf stdin stored r →
  pub_end subject sf (Ok line :: stdin) (row ++ stored)
    (match r with Ok n => Ok (n + Z.of_nat (length row))%Z | Err e => Err e end).
Proof.
  intros Hl row (d & rest & -> & Hd & H). exists (line :: d), rest. split; [done|].
  split; [by constructor|].
  assert (rows_of subject sf (line :: d) = row ++ rows_of subject sf d) as ->.
  { unfold rows_of, row. cbn [List.filter]. destruct (nonblank line); [|done].
    csimpl. by destruct (row_of subject sf line). }
  destruct r as [n|e].
  - destruct H as (-> & -> & ->). split_and!; [done|done|]. rewrite length_app. lia.
  - destruct H as [(e' & r' & -> & -> & ->)|[(l & r' & -> & ? & -> & ->)|
      (l & r' & x & be & -> & ? & ? & -> & Hs)]].
    + left. by exists e', r'.
    + right. left. by exists l, r'.
    + do 2 right. exists l, r', x, be. split_and!; try done.
      destruct Hs as [->| ->]; [by left|right; by rewrite app_assoc].
Qed.
End rows.

Section publishing.
Context {J : SerdeJson} {JM : JsonMake}.
Context {C B : Type} {JB : JetStream B}.
Context (nats_matches : string → string → bool) (streams : B → Streams).
Context {JL : JetStreamLaws nats_matches streams} (o : Oracle).
Notation W := (World (C * B)).

(** One publication: stored by a stream that takes its subject, or not at all. *)
Lemma publish_bytes_run s p (w : W) u :
  let x := bus (C := C) (publish_bytes s p) o (w, u) in
  let σ := streams w.1.2 in let τ := streams x.2.1.1.2 in
  subjects τ = subjects σ ∧ x.2.1.2 = w.2 ∧
  ((∃ n, takes nats_matches (subjects σ) s n ∧ histories τ = appended n [(s, p)] (histories σ)) ∨
   histories τ = histories σ ∧ ∃ e, x.1 = Err e).
Proof.
  destruct w as [[c b] out]. cbv zeta. rewrite bus_run.
  unfold publish_bytes, mbind, M_bind, mret, M_ret.
  pose proof (publish_run nats_matches streams o s p b u) as [Hs Hp].
  destruct (js_publish_ack s p o (b, u)) as [r [b' u']]. cbn [fst snd] in *.
  split_and!; [done|done|]. destruct Hp as [Hp|[Hp Hr]]; [by left|right]. split; [done|].
  destruct r as [[k|e]|e]; [by destruct (Hr k)|by eexists..].
Qed.

Context (S : gmap string (list string)).

Lemma pub_lines_run subject sf stdin k (w : W) u :
  subjects (streams w.1.2) = S →
  let x := pub_lines (C := C) subject sf stdin k o (w, u) in
  let σ := streams w.1.2 in let τ := streams x.2.1.1.2 in
  ∃ l, Forall (λ e, takes nats_matches S e.2.1 e.1) l ∧ histories τ = delivered l (histories σ) ∧
    pub_end subject sf stdin l.*2
      (match x.1 with Ok k' => Ok (k' - k)%Z | Err e => Err e end).
Proof.
  revert k w u. induction stdin as [|[line|e] stdin IH]; intros k w u HS; cbv zeta; cbn [pub_lines].
  - exists []. split_and!; [done|done|]. exists [], []. cbn. split_and!; [done|done|done|done|lia].
  - destruct (String.eqb (trim line) "") eqn:Eb.
    { destruct (IH k w u HS) as (l & Ht & Hh & He). exists l. split_and!; [done|done|].
      assert (nonblank line = false) as En by (unfold nonblank; by rewrite Eb).
      pose proof (pub_end_cons subject sf line stdin l.*2 _ k ltac:(unfold readable; by rewrite En) He) as H.
      rewrite En in H. cbn [app length] in H.
      destruct (pub_lines subject sf stdin k o (w, u)) as [[k'|e] su]; cbn [fst] in *; [|done].
      by replace (k' - k)%Z with (k' - k + 0)%Z by lia. }
    assert (nonblank line = true) as En by (unfold nonblank; by rewrite Eb).
    destruct (json_from_str line) as [v|] eqn:Ev.
    2: { exists []. split_and!; [done|done|]. exists [], (Ok line :: stdin). split_and!; [done|done|].
         right. left. exists line, stdin. split_and!; try done. intros H. by apply H. }
    rewrite try_run, map_err_run.
    pose proof (publish_bytes_run (publish_subject subject sf v) line w u) as (HS' & _ & Hh).
    destruct (bus _ o (w, u)) as [r [w' u']]. cbn [fst snd] in *.
    assert (row_of subject sf line = Some (publish_subject subject sf v, line)) as Erow
      by (unfold row_of; by rewrite Ev).
    destruct Hh as [(n & Hn & Hh)|[Hh [e ->]]].
    2: { exists []. split_and!; [done|done|]. exists [], (Ok line :: stdin). split_and!; [done|done|].
         do 2 right. exists line, stdin, (publish_subject subject sf v, line), e.
         split_and!; try done. by left. }
    rewrite HS in Hn. destruct r as [sq|e].
    2: { exists [(n, (publish_subject subject sf v, line))]. split_and!; [by constructor|done|].
         exists [], (Ok line :: stdin). split_and!; [done|done|]. do 2 right.
         exists line, stdin, (publish_subject subject sf v, line), e. split_and!; try done. by right. }
    destruct (IH (k + 1)%Z w' u' ltac:(congruence)) as (l & Ht & Hh' & He).
    exists ((n, (publish_subject subject sf v, line)) :: l). split_and!; [by constructor| |].
    { by rewrite Hh', Hh. }
    pose proof (pub_end_cons subject sf line stdin l.*2 _ k ltac:(intros _; by rewrite Ev) He) as H.
    rewrite En, Erow in H. cbn [option_list app length] in H.
    destruct (pub_lines subject sf stdin (k + 1) o (w', u')) as [[k'|e] su]; cbn [fst] in *; [|done].
    cbn in H. by replace (k' - k)%Z with (k' - (k + 1) + 1)%Z by lia.
  - exists []. split_and!; [done|done|]. exists [], (Err e :: stdin). split_and!; [done|done|].
    left. by exists e, stdin.
Qed.

End publishing.

(** ** Lemmas: what a computation leaves alone *)

(** A part of the world that a run does not change: the terminal, the controller's side. *)
Definition fixes {C B A P} (π : World (C * B) → P) (o : Oracle) (m : M (World (C * B)) A) : Prop :=
  ∀ w u, π (m o (w, u)).2.1 = π w.

Section fixed.
Context {C B P : Type} (π : World (C * B) → P) (o : Oracle).
Notation W := (World (C * B)).

Lemma fixes_ret {A} (a : A) : fixes π o (mret a).
Proof. by intros w u. Qed.

Lemma fixes_bind {A A'} (m : M W A) (k : A → M W A') :
  fixes π o m → (∀ a, fixes π o (k a)) → fixes π o (m ≫= k).
Proof.
  intros Hm Hk w u. specialize (Hm w u). unfold mbind, M_bind.
  destruct (m o (w, u)) as [a [w' u']]. cbn in Hm. rewrite <- Hm. apply Hk.
Qed.

Lemma fixes_try {A A' E} (m : M W (result A E)) (k : A → M W (result A' E)) :
  fixes π o m → (∀ a, fixes π o (k a)) → fixes π o (let! x := m in k x).
Proof. intros Hm Hk. apply fixes_bind; [done|]. intros [a|e]; [apply Hk|apply fixes_ret]. Qed.

Lemma fixes_map_err {A E E'} (f : E → E') (m : M W (result A E)) :
  fixes π o m → fixes π o (map_err f m).
Proof. intros Hm. apply fixes_bind; [done|]. intros []; apply fixes_ret. Qed.
End fixed.

(** The terminal; the controller's side. *)
Notation silent := (fixes snd).
Notation broker_only := (fixes (λ w, w.1.1)).

Section silence.
Context {C B : Type} (o : Oracle).
Notation W := (World (C * B)).

Lemma silent_bus {A} (m : M B A) : silent o (bus (C := C) m).
Proof. intros [[c b] out] u. rewrite bus_run. by destruct (m o (b, u)) as [a [b' u']]. Qed.

Lemma broker_bus {A} (m : M B A) : broker_only o (bus (C := C) m).
Proof. intros [[c b] out] u. rewrite bus_run. by destruct (m o (b, u)) as [a [b' u']]. Qed.

Lemma broker_show l : broker_only o (show (S := C * B) l).
Proof. by intros w u. Qed.

Lemma silent_request {J : SerdeJson} (send : Transport C) ctx m path body :
  silent o (request (net (B := B) send) ctx m path body).
Proof.
  intros [[c b] out] u. unfold request, mbind, M_bind, mret, M_ret, net, zoom.
  destruct (auth_header ctx); [|done]. cbn [fst snd].
  by destruct (send m (url ctx path) _ body o (c, u)) as [r [c' u']].
Qed.

Lemma silent_fetch_queue {J : SerdeJson} {RC : ResourceCodec} (send : Transport C) ctx name :
  silent o (fetch_queue (B := B) send ctx name).
Proof.
  unfold fetch_queue, fetch_queue_resource. apply fixes_try.
  - apply fixes_try; [apply fixes_map_err, silent_request|]. intros r. by intros w u.
  - intros r w u. done.
Qed.

Lemma silent_connect {JB : JetStream B} ctx : silent o (nats_client (C := C) ctx).
Proof. apply fixes_map_err, silent_bus. Qed.

(** Publishing is between the command and the broker. *)
Lemma pub_lines_broker {J : SerdeJson} {JM : JsonMake} {JB : JetStream B} subject sf stdin n :
  broker_only o (pub_lines (C := C) subject sf stdin n).
Proof.
  revert n. induction stdin as [|[line|e] stdin IH]; intros n; cbn [pub_lines];
    [apply fixes_ret| |apply fixes_ret].
  destruct (String.eqb (trim line) ""); [apply IH|]. destruct (json_from_str line); [|apply fixes_ret].
  apply fixes_try; [apply fixes_map_err, broker_bus|]. intros _. apply IH.
Qed.

Lemma pub_to_broker {J : SerdeJson} {JM : JsonMake} {JB : JetStream B} ctx a queue stdin :
  broker_only o (pub_to (C := C) ctx a queue stdin).
Proof.
  unfold pub_to. apply fixes_try; [apply fixes_map_err, broker_bus|]. intros _.
  destruct (queue_stream_config (pub_name a) queue) as [subject cfg].
  apply fixes_try; [apply fixes_map_err, broker_bus|]. intros _.
  apply fixes_try; [apply pub_lines_broker|]. intros n.
  apply fixes_bind; [apply broker_show|]. intros _. apply fixes_ret.
Qed.
End silence.

(** What the streams of the broker have once the queue's stream is there. *)
Lemma created_effects {C B : Type} {JB : JetStream B} (nats_matches : string → string → bool)
    (streams : B → Streams) {JL : JetStreamLaws nats_matches streams} (o : Oracle)
    (cfg : StreamConfig) {E} (f : BusError → E) (w : World (C * B)) u :
  let x := map_err f (bus (C := C) (ensure_stream cfg)) o (w, u) in
  let σ := streams w.1.2 in let τ := streams x.2.1.1.2 in
  x.2.1.2 = w.2 ∧
  (aged (created cfg σ) τ ∨ aged σ τ ∧ x.1 ≠ Ok tt).
Proof.
  destruct w as [[c b] out]. cbv zeta. rewrite map_err_run, bus_run.
  unfold ensure_stream, mbind, M_bind, mret, M_ret.
  pose proof (law_create cfg o b u) as H. cbv zeta in H.
  destruct (get_or_create_stream cfg o (b, u)) as [r [b' u']]. cbn [fst snd] in *.
  split; [by destruct r as [[]|]|]. destruct H as [H|[[e ->] H]].
  - left. by destruct r as [[]|].
  - right. by split.
Qed.

Lemma created_histories cfg σ : histories (created cfg σ) = histories σ ∨
  histories (created cfg σ) = <[sc_name cfg := []]> (histories σ) ∧ σ !! sc_name cfg = None.
Proof.
  unfold created. destruct (σ !! sc_name cfg) eqn:E; [by left|right].
  split; [|done]. unfold histories. by rewrite fmap_insert.
Qed.

Lemma created_aged cfg σ τ : aged σ τ → aged (created cfg σ) (created cfg τ).
Proof.
  intros H n. unfold created. pose proof (aged_lookup _ _ (sc_name cfg) H) as Hc.
  destruct (σ !! sc_name cfg), (τ !! sc_name cfg); try done; try apply H.
  destruct (decide (n = sc_name cfg)) as [->|Hn].
  - rewrite !lookup_insert_eq. simpl. done.
  - rewrite !lookup_insert_ne by done. apply H.
Qed.

(** What became of the rows: [x] is the outcome of [pub_to], from the streams [σ] to the
    streams [τ].  Either the queue's stream was not made sure of, or rows were published. *)
Definition pub_outcome {J : SerdeJson} {JM : JsonMake} (nats_matches : string → string → bool)
    (a : PubArgs) (queue : QueueSpec) (stdin : list (result string string))
    (x : result unit QueueError) (shown : list Shown) (σ τ : Streams) : Prop :=
  let '(subject, cfg) := queue_stream_config (pub_name a) queue in
  ((histories τ = histories σ ∨ histories τ = histories (created cfg σ)) ∧
   ∃ be, x = Err (QBus be) ∨ x = Err (EnsuringStream (pub_name a) be)) ∨
  ∃ l r, Forall (λ e, takes nats_matches (subjects (created cfg σ)) e.2.1 e.1) l ∧
    histories τ = delivered l (histories (created cfg σ)) ∧
    pub_end subject (pub_subject_from a) stdin l.*2 r ∧
    match x with
    | Ok _ => ∃ n, r = Ok n ∧
        last shown = Some (ErrLine ("published " +:+ pretty n +:+ " messages to " +:+ subject))
    | Err e => r = Err e
    end.

Lemma pub_to_run {J : SerdeJson} {JM : JsonMake} {C B : Type}
    {JB : JetStream B} (nats_matches : string → string → bool) (streams : B → Streams)
    {JL : JetStreamLaws nats_matches streams} (ctx : Ctx) (o : Oracle)
    (a : PubArgs) (queue : QueueSpec) (stdin : list (result string string)) (w : World (C * B)) u :
  let x := pub_to ctx a queue stdin o (w, u) in
  pub_outcome nats_matches a queue stdin x.1 x.2.1.2 (streams w.1.2) (streams x.2.1.1.2).
Proof.
  cbv zeta. unfold pub_outcome, pub_to.
  destruct (queue_stream_config (pub_name a) queue) as [subject cfg] eqn:Eq.
  rewrite try_run. pose proof (connect_ages nats_matches streams ctx o w u) as Hc.
  destruct (nats_client ctx o (w, u)) as [[[]|e] [w2 u2]] eqn:Ec; cbn [fst snd] in *.
  2: { left. unfold nats_client in Ec. split; [left; by apply aged_histories|]. rewrite map_err_run in Ec.
       destruct (bus _ o (w, u)) as [[[]|be] ?]; [done|]. injection Ec as <- _. exists be. by left. }
  rewrite try_run. pose proof (created_effects nats_matches streams o cfg
    (EnsuringStream (pub_name a)) w2 u2) as [_ He].
  destruct (map_err _ _ o (w2, u2)) as [r [w3 u3]] eqn:Er; cbn [fst snd] in *.
  assert (∀ e, r = Err e → ∃ be, e = EnsuringStream (pub_name a) be) as Hbe.
  { intros e ->. rewrite map_err_run in Er.
    destruct (bus _ o (w2, u2)) as [[[]|be] ?]; [done|]. injection Er as <- _. by exists be. }
  destruct He as [He|[He Hr]].
  2: { left. destruct r as [[]|e]; [done|]. destruct (Hbe e eq_refl) as [be ->].
       split; [left|exists be; by right]. cbn [fst snd].
       by rewrite (aged_histories _ _ He), (aged_histories _ _ Hc). }
  assert (aged (created cfg (streams w.1.2)) (streams w3.1.2)) as Ha
    by (etrans; [by apply created_aged|done]).
  destruct r as [[]|e].
  2: { left. destruct (Hbe e eq_refl) as [be ->]. split; [right; by apply aged_histories|].
       exists be. by right. }
  right. rewrite try_run. destruct (pub_lines_run nats_matches streams o _ subject
    (pub_subject_from a) stdin 0 w3 u3 (aged_subjects _ _ Ha)) as (l & Ht & Hh & Hr).
  rewrite (aged_histories _ _ Ha) in Hh.
  destruct (pub_lines subject _ stdin 0 o (w3, u3)) as [[k|e] [w4 u4]]; cbn [fst snd] in *;
    exists l; eexists; (split_and!; [done|done|exact Hr|]); [|done].
  exists k. rewrite Z.sub_0_r. split; [done|]. apply last_snoc.
Qed.

(** A row that no stream takes ends the command. *)
Lemma pub_outcome_untaken {J : SerdeJson} {JM : JsonMake} nats_matches a queue stdin x shown σ τ line row :
  let '(subject, cfg) := queue_stream_config (pub_name a) queue in
  pub_outcome nats_matches a queue stdin x shown σ τ →
  Ok line ∈ stdin → nonblank line = true → row_of subject (pub_subject_from a) line = Some row →
  (∀ n, ¬ takes nats_matches (subjects (created cfg σ)) row.1 n) → x ≠ Ok tt.
Proof.
  unfold pub_outcome. destruct (queue_stream_config (pub_name a) queue) as [subject cfg].
  intros [[_ [be [->| ->]]]|(l & r & Ht & _ & He & Hx)] Hl Hn Hrow Hno; [done..|]. intros ->.
  destruct Hx as (n & -> & _). destruct He as (d & rest & Hst & _ & -> & Hr & _).
  rewrite app_nil_r in Hst. subst stdin. apply list_elem_of_fmap in Hl as (? & [= <-] & Hl).
  assert (row ∈ l.*2) as Hin.
  { rewrite Hr. unfold rows_of. apply list_elem_of_omap. exists line. split; [|done].
    apply list_elem_of_In, filter_In. by rewrite <- list_elem_of_In. }
  apply list_elem_of_fmap in Hin as ([m row'] & -> & Hin). rewrite Forall_forall in Ht.
  by apply (Hno m), (Ht _ Hin).
Qed.

(** Rows that only the queue's stream takes are what it has stored since. *)
Lemma delivered_own nats_matches S own (l : list (string * (string * string))) H :
  Forall (λ e, takes nats_matches S e.2.1 e.1) l →
  Forall (λ row, ∀ n, takes nats_matches S row.1 n → n = own) l.*2 →
  delivered l H = appended own l.*2 H.
Proof.
  intros Ht. revert H. induction Ht as [|[n row] l Hn Ht IH]; intros H Ho; csimpl.
  - by rewrite appended_nil.
  - apply Forall_cons in Ho as [Ho1 Ho]. cbn [snd] in *. specialize (Ho1 n Hn) as ->.
    unfold delivered. cbn [foldl]. change (foldl _ ?b l) with (delivered l b).
    rewrite (IH _ Ho). by rewrite appended_app.
Qed.

(** C38: [orion queue pub] stores the rows of its input, in order.  When the queue is not
    found nothing is stored, and without [--allow-missing] that is the error.  Otherwise
    the non-blank lines go, in order and unchanged, each to its subject: the queue's, or,
    with [--subject-from] and a string in that field, the queue's with a dot and that
    string appended; whichever stream stores one takes that subject.  On success every
    line was blank or JSON, all rows are stored and their number is printed.  Otherwise the
    rows before the line that failed are stored, and the error says why: the line cannot be
    read, it is not JSON, or the broker refused (or did not acknowledge) its row; before
    the first line, that the broker or the stream is not there, with nothing stored.  So a
    row whose subject no stream takes ends the command, and rows that only the queue's
    stream takes are exactly what it has stored since, with nothing stored elsewhere. *)
Theorem queue_pub_in_order {J : SerdeJson} {JM : JsonMake} {RC : ResourceCodec} {C B : Type}
    {JB : JetStream B} (nats_matches : string → string → bool) (streams : B → Streams)
    {JL : JetStreamLaws nats_matches streams} (send : Transport C) (ctx : Ctx) (o : Oracle)
    (a : PubArgs) (stdin : list (result string string)) (w : World (C * B)) (u : Used) :
  let x := run_pub send ctx a stdin o (w, u) in
  let q := pub_queue send ctx a o (w, u) in
  let σ := streams w.1.2 in let τ := streams x.2.1.1.2 in
  ((fetch_queue send ctx (pub_name a) o (w, u)).1 = Ok None → pub_allow_missing a = false →
     q.1 = Err (QueueNotFound (pub_name a))) ∧
  match q.1 with
  | Err e => x = (Err e, q.2) ∧ x.2.1.1.2 = w.1.2
  | Ok queue =>
      let '(subject, cfg) := queue_stream_config (pub_name a) queue in
      let S := subjects (created cfg σ) in
      pub_outcome nats_matches a queue stdin x.1 x.2.1.2 σ τ ∧
      (∀ line row, Ok line ∈ stdin → nonblank line = true →
         row_of subject (pub_subject_from a) line = Some row →
         (∀ n, ¬ takes nats_matches S row.1 n) → x.1 ≠ Ok tt) ∧
      (∀ lines, stdin = Ok <$> lines → x.1 = Ok tt →
         let rows := rows_of subject (pub_subject_from a) lines in
         Forall (λ row, ∀ n, takes nats_matches S row.1 n → n = sc_name cfg) rows →
         histories τ = appended (sc_name cfg) rows (histories (created cfg σ)))
  end.
Proof.
  cbv zeta. split.
  { intros Hn Hm. unfold pub_queue. rewrite try_run.
    destruct (fetch_queue send ctx (pub_name a) o (w, u)) as [r [w' u']]. cbn [fst] in Hn. subst r.
    by rewrite Hm. }
  unfold run_pub. rewrite try_run. pose proof (pub_queue_broker (B := B) send ctx o a w u) as Hb.
  unfold id in Hb. destruct (pub_queue send ctx a o (w, u)) as [[queue|e] [w1 u1]]; cbn [fst snd] in *;
    [|by split].
  pose proof (pub_to_run nats_matches streams ctx o a queue stdin w1 u1) as Ho. rewrite <- Hb in Ho.
  destruct (pub_to ctx a queue stdin o (w1, u1)) as [x [w2 u2]]. cbn [fst snd] in *.
  pose proof (pub_outcome_untaken nats_matches a queue stdin x w2.2 (streams w.1.2) (streams w2.1.2)) as Hu.
  pose proof Ho as Ho'. unfold pub_outcome in Ho'.
  destruct (queue_stream_config (pub_name a) queue) as [subject cfg].
  split; [done|]. split; [intros line row; by apply Hu|]. intros lines -> ->. cbv zeta.
  destruct Ho' as [[_ [be [[=]|[=]]]]|(l & r & Ht & -> & He & n & -> & _)].
  destruct He as (d & rest & Hst & _ & -> & Hrows & _). rewrite app_nil_r in Hst.
  assert (Inj (=) (=) (@Ok string string)) by (by intros ?? [= ->]).
  apply (inj (fmap Ok)) in Hst as ->. rewrite <- Hrows. by eapply delivered_own.
Qed.

(** A queue whose subject is the wildcard docs/queues.md gives for [--subject-from]: the
    stream filters by it, and the rows are published to it as it stands, wildcard included,
    or to that followed by a dot and the field. *)
Theorem wildcard_subject_published {J : SerdeJson} {JM : JsonMake} (name field line suffix : string)
    (queue : QueueSpec) (v : Value) (Hs : q_subject queue = Some ("orion.queue." +:+ name +:+ ".>"))
    (Hv : json_from_str line = Some v) (Hf : value_get v field ≫= value_as_str = Some suffix) :
  let '(subject, cfg) := queue_stream_config name queue in
  sc_subjects cfg = ["orion.queue." +:+ name +:+ ".>"] ∧
  row_of subject None line = Some ("orion.queue." +:+ name +:+ ".>", line) ∧
  row_of subject (Some field) line = Some (("orion.queue." +:+ name +:+ ".>") +:+ "." +:+ suffix, line).
Proof.
  unfold queue_stream_config, row_of, publish_subject. rewrite Hs, Hv. cbn. by rewrite Hf.
Qed.

(** ** Lemmas: subscribing *)

(** What standard output shows. *)
Definition out_lines (shown : list Shown) : list string :=
  omap (λ s, match s with OutLine l => Some l | ErrLine _ => None end) shown.

Lemma out_lines_app l l' : out_lines (l ++ l') = out_lines l ++ out_lines l'.
Proof. apply omap_app. Qed.

(** The messages a consumer delivers before it closes. *)
Fixpoint messages_of (events : list SubEvent) : list (option Z * string * string) :=
  match events with
  | [] => []
  | SubMessage seq subject payload :: events' => (seq, subject, payload) :: messages_of events'
  | SubClosed :: _ => []
  | _ :: events' => messages_of events'
  end.

(** Those a subscription reads, after it has read [n]. *)
Definition taken (a : SubArgs) (n : nat) (events : list SubEvent) : list (option Z * string * string) :=
  if sub_forever a || (sub_limit a =? 0) then messages_of events
  else take (sub_limit a - n) (messages_of events).

Definition printed (m : option Z * string * string) : string := message_line m.1.1 m.1.2 m.2.
Definition ack_of (durable : string) (m : option Z * string * string) : string * Z :=
  (durable, default 0%Z m.1.1).

Lemma taken_message a n seq s p events :
  (sub_forever a = false → sub_limit a = 0 ∨ n < sub_limit a) →
  taken a n (SubMessage seq s p :: events) = (seq, s, p) ::
    if negb (sub_forever a) && (0 <? sub_limit a) && (sub_limit a <=? S n) then []
    else taken a (S n) events.
Proof.
  intros Hn. unfold taken. cbn [messages_of]. destruct (sub_forever a); [done|]. cbn [orb negb andb].
  destruct (Nat.eqb_spec (sub_limit a) 0) as [->|H0]; [done|].
  assert (n < sub_limit a) as Hlt by (destruct Hn; [done|lia|done]).
  rewrite (proj2 (Nat.ltb_lt 0 _)) by lia. cbn [andb].
  destruct (sub_limit a - n) as [|k] eqn:E; [lia|]. cbn [take]. destruct (Nat.leb_spec (sub_limit a) (S n)).
  - by replace k with 0 by lia.
  - by replace (sub_limit a - S n) with k by lia.
Qed.

Section subscribing.
Context {C B : Type} {JB : JetStream B}.
Context (nats_matches : string → string → bool) (streams : B → Streams).
Context {JL : JetStreamLaws nats_matches streams} (o : Oracle).
Notation W := (World (C * B)).

(** What a subscription does to the streams: acknowledgements, and nothing else. *)
Definition acked_only (stream : string) (l : list (string * Z)) (σ τ : Streams) : Prop :=
  subjects τ = subjects σ ∧ histories τ = histories σ ∧ consumers τ = consumers σ ∧
  acks τ = appended stream l (acks σ).

Lemma acked_none n σ τ : aged σ τ → acked_only n [] σ τ.
Proof.
  intros H. unfold acked_only. rewrite appended_nil.
  split_and!; [by apply aged_subjects|by apply aged_histories|by apply aged_consumers|by apply aged_acks].
Qed.

Lemma acked_trans n l l' σ ρ τ :
  acked_only n l σ ρ → acked_only n l' ρ τ → acked_only n (l ++ l') σ τ.
Proof.
  intros (H1 & H2 & H3 & H4) (K1 & K2 & K3 & K4). unfold acked_only.
  rewrite K1, K2, K3, K4, H4, appended_app. done.
Qed.

(** The acknowledgement of one message. *)
Definition ack_step (stream durable : string) (no_ack : bool) (k : Z) : M W unit :=
  if no_ack then mret tt
  else r ← bus (ack_message stream durable k);
       match r with Ok _ => mret tt | Err e => show [ErrLine ("(ack failed: " +:+ e +:+ ")")] end.

Lemma ack_step_run stream durable no_ack k (w : W) u :
  let x := ack_step stream durable no_ack k o (w, u) in
  out_lines x.2.1.2 = out_lines w.2 ∧
  ∃ l, l `sublist_of` [(durable, k)] ∧ (no_ack = true → l = []) ∧
    acked_only stream l (streams w.1.2) (streams x.2.1.1.2).
Proof.
  cbv zeta. unfold ack_step. destruct no_ack.
  { split; [done|]. exists []. split_and!; [apply sublist_nil_l|done|by apply acked_none]. }
  destruct w as [[c b] out]. unfold mbind, M_bind. rewrite bus_run.
  pose proof (law_ack stream durable k o b u) as H. cbv zeta in H.
  destruct (ack_message stream durable k o (b, u)) as [r [b' u']]. cbn [fst snd] in *.
  assert (∃ l, l `sublist_of` [(durable, k)] ∧ (false = true → l = []) ∧
    acked_only stream l (streams b) (streams b')) as Hl.
  { destruct H as [H|[_ H]].
    - exists [(durable, k)]. split_and!; [done|done|]. unfold acked_only. split_and!.
      1: by eapply (changed_fmap_same sv_subjects); [| |exact H].
      1: by eapply (changed_fmap_same sv_stored); [| |exact H].
      1: by eapply (changed_fmap_same sv_consumers); [| |exact H].
      apply (changed_fmap sv_acked) in H as (sv & Hl & Ht); [|done]. unfold acks. rewrite Ht.
      unfold appended. apply map_eq. intros m. destruct (decide (m = stream)) as [->|].
      + by rewrite lookup_insert_eq, lookup_alter_eq, Hl.
      + by rewrite lookup_insert_ne, lookup_alter_ne.
    - exists []. split_and!; [apply sublist_nil_l|done|by apply acked_none]. }
  destruct r as [[]|e]; (split; [|exact Hl]); [done|].
  unfold show, modify. cbn. by rewrite out_lines_app, app_nil_r.
Qed.

Definition last_read (a : SubArgs) (n : nat) : bool :=
  negb (sub_forever a) && (0 <? sub_limit a) && (sub_limit a <=? S n).

Lemma sub_loop_message stream durable a n seq s p events (w : W) u :
  sub_loop stream durable a n (SubMessage seq s p :: events) o (w, u) =
  let '(_, su) := ack_step stream durable (sub_no_ack a) (default 0%Z seq) o
    ((w.1, w.2 ++ [OutLine (message_line seq s p)]), u) in
  if last_read a n then (Some (S n), su) else sub_loop stream durable a (S n) events o su.
Proof.
  cbn [sub_loop]. fold (last_read a n).
  change (if sub_no_ack a then _ else _) with
    (ack_step stream durable (sub_no_ack a) (default 0%Z seq)).
  unfold mbind at 1, M_bind at 1. unfold println, show, modify. cbn [fst snd].
  unfold mbind at 1, M_bind at 1. destruct (ack_step _ _ _ _ o _) as [[] su].
  by destruct (last_read a n).
Qed.

Lemma sub_loop_error stream durable a n e events (w : W) u :
  sub_loop stream durable a n (SubError e :: events) o (w, u) =
  sub_loop stream durable a n events o
    ((w.1, w.2 ++ [ErrLine ("(consumer error: " +:+ e +:+ ")")]), u).
Proof. done. Qed.

Lemma sub_loop_run stream durable a n events (w : W) u :
  (sub_forever a = false → sub_limit a = 0 ∨ n < sub_limit a) →
  let x := sub_loop stream durable a n events o (w, u) in
  let ms := taken a n events in
  out_lines x.2.1.2 = out_lines w.2 ++ (printed <$> ms) ∧
  (∃ l, l `sublist_of` (ack_of durable <$> ms) ∧ (sub_no_ack a = true → l = []) ∧
     acked_only stream l (streams w.1.2) (streams x.2.1.1.2)) ∧
  match x.1 with Some k => k = n + length ms | None => ms = messages_of events end.
Proof.
  revert n w u. induction events as [|[seq s p|e| |] events IH]; intros n w u Hn; cbv zeta.
  - assert (taken a n [] = []) as -> by (unfold taken; cbn; by rewrite take_nil; case_match).
    split_and!; [by rewrite app_nil_r|exists []|done].
    split_and!; [apply sublist_nil_l|done|by apply acked_none].
  - rewrite taken_message, sub_loop_message by done. fold (last_read a n).
    pose proof (ack_step_run stream durable (sub_no_ack a) (default 0%Z seq)
      (w.1, w.2 ++ [OutLine (message_line seq s p)]) u) as [Ho (l & Hl & Hna & Ha)].
    destruct (ack_step _ _ _ _ o _) as [[] [w' u']]. cbn [fst snd] in *.
    rewrite out_lines_app in Ho. cbn in Ho. destruct (last_read a n) eqn:Ec.
    + split; [done|]. split; [by exists l|simpl; lia].
    + assert (sub_forever a = false → sub_limit a = 0 ∨ S n < sub_limit a) as Hn'.
      { intros Hf. unfold last_read in Ec. rewrite Hf in Ec. destruct (Hn Hf) as [|Hlt]; [by left|right].
        rewrite (proj2 (Nat.ltb_lt 0 _)) in Ec by lia. apply Nat.leb_gt in Ec. lia. }
      destruct (IH (S n) w' u' Hn') as (Ho' & (l' & Hl' & Hna' & Ha') & Hr). split_and!.
      * rewrite Ho', Ho, <- app_assoc. done.
      * exists (l ++ l'). split_and!; [|intros H; by rewrite Hna, Hna'|by eapply acked_trans].
        csimpl. change (ack_of durable (seq, s, p) :: ?r) with ([(durable, default 0%Z seq)] ++ r).
        by apply sublist_app.
      * destruct (sub_loop _ _ _ _ _ o _) as [[k|] su]; cbn [fst] in *; [simpl; lia|].
        cbn [messages_of]. by rewrite Hr.
  - rewrite sub_loop_error.
    destruct (IH n (w.1, w.2 ++ [ErrLine ("(consumer error: " +:+ e +:+ ")")]) u Hn) as (Ho & Hl & Hr).
    cbn [fst snd] in *. rewrite out_lines_app, app_nil_r in Ho. by split_and!.
  - by apply IH.
  - assert (taken a n (SubClosed :: events) = []) as -> by (unfold taken; cbn; by rewrite take_nil; case_match).
    split_and!; [by rewrite app_nil_r|exists []|simpl; lia].
    split_and!; [apply sublist_nil_l|done|by apply acked_none].
Qed.

(** The durable is a consumer of the stream. *)
Lemma consumer_effects {E} stream c (f : Fault → E) (w : W) u :
  let x := map_err f (bus (C := C) (get_or_create_consumer stream c)) o (w, u) in
  let σ := streams w.1.2 in let τ := streams x.2.1.1.2 in
  subjects τ = subjects σ ∧ histories τ = histories σ ∧ acks τ = acks σ ∧
  (x.1 = Ok tt → ∃ cs, consumers τ !! stream = Some cs ∧ is_Some (cs !! pc_durable_name c)).
Proof.
  destruct w as [[cl b] out]. cbv zeta. rewrite map_err_run, bus_run.
  pose proof (law_consumer stream c o b u) as H. cbv zeta in H.
  destruct (get_or_create_consumer stream c o (b, u)) as [r [b' u']]. cbn [fst snd] in *.
  destruct H as [H|[[e ->] H]].
  - assert (∃ cs, consumers (streams b') !! stream = Some cs ∧ is_Some (cs !! pc_durable_name c)) as Hc.
    { destruct H as (ρ & sv & _ & Hl & ->). unfold consumers. rewrite lookup_fmap, lookup_insert_eq.
      eexists. split; [done|]. cbn. destruct (sv_consumers sv !! _) eqn:Ec; [by rewrite Ec|].
      by rewrite lookup_insert_eq. }
    split_and!; [| | |by destruct r as [[]|]].
    1: destruct r; by eapply (changed_fmap_same sv_subjects); [| |exact H].
    1: destruct r; by eapply (changed_fmap_same sv_stored); [| |exact H].
    destruct r; by eapply (changed_fmap_same sv_acked); [| |exact H].
  - cbn [fst snd]. split_and!; [by apply aged_subjects|by apply aged_histories|by apply aged_acks|done].
Qed.

Lemma messages_call stream durable {E} (f : Fault → E) (w : W) u :
  let x := map_err f (bus (C := C) (consumer_messages stream durable)) o (w, u) in
  x.2.1.2 = w.2 ∧ aged (streams w.1.2) (streams x.2.1.1.2).
Proof.
  destruct w as [[c b] out]. cbv zeta. rewrite map_err_run, bus_run.
  pose proof (law_messages stream durable o b u) as H.
  by destruct (consumer_messages stream durable o (b, u)) as [r [b' u']].
Qed.

Lemma sub_messages_run stream subject durable a events (w : W) u :
  let x := sub_messages stream subject durable a events o (w, u) in
  let σ := streams w.1.2 in let τ := streams x.2.1.1.2 in
  histories τ = histories σ ∧
  match x.1 with
  | Err _ => out_lines x.2.1.2 = out_lines w.2 ∧ acks τ = acks σ
  | Ok returned =>
      let ms := taken a 0 events in
      out_lines x.2.1.2 = out_lines w.2 ++ (printed <$> ms) ∧
      (∃ l, l `sublist_of` (ack_of durable <$> ms) ∧ (sub_no_ack a = true → l = []) ∧
         acks τ = appended stream l (acks σ)) ∧
      (∃ cs, consumers τ !! stream = Some cs ∧ is_Some (cs !! durable)) ∧
      if returned
      then last x.2.1.2 = Some (ErrLine ("consumed " +:+ pretty (length ms) +:+ " messages"))
      else ms = messages_of events
  end.
Proof.
  cbv zeta. unfold sub_messages. rewrite try_run.
  pose proof (consumer_effects stream (sub_config a subject durable) (CreatingConsumer durable) w u)
    as (_ & Hh & Ha & Hc).
  pose proof (fixes_map_err snd o (CreatingConsumer durable) _
    (silent_bus (C := C) o (get_or_create_consumer stream (sub_config a subject durable))) w u) as Hq.
  destruct (map_err (CreatingConsumer durable) _ o (w, u)) as [[[]|e] [w1 u1]]; cbn [fst snd] in *.
  2: { by rewrite Hq. }
  specialize (Hc eq_refl). rewrite try_run.
  pose proof (messages_call stream durable OpeningMessages w1 u1) as [Hq1 Hm].
  destruct (map_err OpeningMessages _ o (w1, u1)) as [[[]|e] [w2 u2]]; cbn [fst snd] in *.
  2: { rewrite Hq1, Hq, (aged_histories _ _ Hm), (aged_acks _ _ Hm), Hh, Ha. by split. }
  unfold mbind, M_bind.
  assert (sub_forever a = false → sub_limit a = 0 ∨ 0 < sub_limit a) as Hn by lia.
  destruct (sub_loop_run stream durable a 0 events w2 u2 Hn)
    as (Ho & (l & Hl & Hna & _ & Hh2 & Hc2 & Ha2) & Hr).
  rewrite (aged_histories _ _ Hm), Hh in Hh2. rewrite (aged_consumers _ _ Hm) in Hc2.
  rewrite (aged_acks _ _ Hm), Ha in Ha2. rewrite Hq1, Hq in Ho. rewrite <- Hc2 in Hc.
  destruct (sub_loop stream durable a 0 events o (w2, u2)) as [[k|] [w3 u3]];
    unfold show, modify, mret, M_ret; cbn [fst snd] in *; (split; [done|]).
  - split_and!; [by rewrite out_lines_app, app_nil_r|by exists l|done|].
    rewrite last_snoc. subst k. done.
  - split_and!; [done|by exists l|done|done].
Qed.
End subscribing.

Lemma out_notices a ty subject durable out :
  out_lines (out ++ sub_notices a ty subject durable) = out_lines out.
Proof.
  rewrite out_lines_app. unfold sub_notices.
  destruct ty, (sub_group a); cbn; by rewrite app_nil_r.
Qed.

(** [orion queue sub] reads the queue it names.  A queue that is not found, or cannot be
    asked for, ends the command before the broker is touched.  Otherwise no stream stores
    or forgets a message because of it; standard output shows exactly the messages that
    the consumer delivers, in order, up to [--limit] when there is one without
    [--forever]; the messages acknowledged are among the ones shown, in order, and none is
    with [--no-ack]; and the durable it joined is a consumer of the queue's stream.  When it
    returns, it has said how many it read; when the consumer stays open it is still
    waiting, with every message shown. *)
Theorem queue_sub_reads {J : SerdeJson} {RC : ResourceCodec} {C B : Type}
    {JB : JetStream B} (nats_matches : string → string → bool) (streams : B → Streams)
    {JL : JetStreamLaws nats_matches streams} (send : Transport C) (ctx : Ctx) (o : Oracle)
    (a : SubArgs) (p : Process) (events : list SubEvent) (w : World (C * B)) (u : Used) :
  let x := run_sub send ctx a p events o (w, u) in
  let f := fetch_queue send ctx (sub_name a) o (w, u) in
  let σ := streams w.1.2 in let τ := streams x.2.1.1.2 in
  match f.1 with
  | Err e => x = (Err e, f.2) ∧ x.2.1.1.2 = w.1.2
  | Ok None => x = (Err (QueueNotFound (sub_name a)), f.2) ∧ x.2.1.1.2 = w.1.2
  | Ok (Some queue) =>
      let cfg := (queue_stream_config (sub_name a) queue).2 in
      let durable := sub_durable (sub_name a) (q_type queue) (sub_group a)
                       (sub_hostname (proc_env p)) (proc_id p) in
      (histories τ = histories σ ∨ histories τ = histories (created cfg σ)) ∧
      match x.1 with
      | Err _ => out_lines x.2.1.2 = out_lines w.2 ∧ (acks τ = acks σ ∨ acks τ = acks (created cfg σ))
      | Ok returned =>
          let ms := taken a 0 events in
          out_lines x.2.1.2 = out_lines w.2 ++ (printed <$> ms) ∧
          (∃ l, l `sublist_of` (ack_of durable <$> ms) ∧ (sub_no_ack a = true → l = []) ∧
             acks τ = appended (sc_name cfg) l (acks (created cfg σ))) ∧
          (∃ cs, consumers τ !! sc_name cfg = Some cs ∧ is_Some (cs !! durable)) ∧
          if returned
          then last x.2.1.2 = Some (ErrLine ("consumed " +:+ pretty (length ms) +:+ " messages"))
          else ms = messages_of events
      end
  end.
Proof.
  cbv zeta. unfold run_sub. rewrite try_run.
  pose proof (fetch_queue_broker (B := B) send ctx o (sub_name a) w u) as Hb. unfold id in Hb.
  pose proof (silent_fetch_queue (B := B) o send ctx (sub_name a) w u) as Hq.
  destruct (fetch_queue send ctx (sub_name a) o (w, u)) as [[[queue|]|e] [w1 u1]]; cbn [fst snd] in *;
    [|by split|by split].
  set (durable := sub_durable _ _ _ _ _). rewrite try_run.
  pose proof (connect_ages nats_matches streams ctx o w1 u1) as Hc.
  pose proof (silent_connect o ctx w1 u1) as Hq2. rewrite <- Hb in Hc. rewrite Hq in Hq2.
  destruct (nats_client ctx o (w1, u1)) as [[[]|e] [w2 u2]]; cbn [fst snd] in *.
  2: { split; [left; by apply aged_histories|]. rewrite Hq2. split; [done|]. left. by apply aged_acks. }
  destruct (queue_stream_config (sub_name a) queue) as [subject cfg]. cbn [snd].
  rewrite try_run. pose proof (created_effects nats_matches streams o cfg QBus w2 u2) as [Hq3 He].
  rewrite Hq2 in Hq3. destruct (map_err QBus _ o (w2, u2)) as [r [w3 u3]]. cbn [fst snd] in *.
  destruct He as [He|[He Hr]].
  2: { destruct r as [[]|e]; [done|]. cbn [fst snd]. rewrite Hq3.
       rewrite (aged_histories _ _ He), (aged_histories _ _ Hc), (aged_acks _ _ He), (aged_acks _ _ Hc).
       split; [by left|]. split; [done|by left]. }
  assert (aged (created cfg (streams w.1.2)) (streams w3.1.2)) as Ha
    by (etrans; [by apply created_aged|done]).
  clear He Hc. destruct r as [[]|e].
  2: { cbn [fst snd]. rewrite Hq3, (aged_histories _ _ Ha), (aged_acks _ _ Ha).
       split; [by right|]. split; [done|by right]. }
  unfold mbind, M_bind, show, modify.
  pose proof (sub_messages_run nats_matches streams o (sc_name cfg) subject durable a events
    (w3.1, w3.2 ++ sub_notices a (q_type queue) subject durable) u3) as [Hh Hr].
  cbn [fst snd] in *. rewrite out_notices, Hq3 in Hr.
  rewrite (aged_histories _ _ Ha) in Hh. rewrite (aged_acks _ _ Ha) in Hr.
  rewrite Hq3 in *. split; [by right|].
  destruct (sub_messages _ _ _ _ _ o _) as [[b|e] [w4 u4]]; cbn [fst snd] in *; [exact Hr|].
  destruct Hr as [Hr1 Hr2]. split; [done|by right].
Qed.

(** ** The names of consumers *)

Lemma nat_pid_inj (p q : N) : pretty (Z.of_N p) = pretty (Z.of_N q) → p = q.
Proof. by intros H%(inj _)%N2Z.inj. Qed.

Lemma pretty_pid_chars (p : N) : has_char "-" (pretty (Z.of_N p)) = false.
Proof.
  assert (∀ x : N, all_chars is_ascii_digit (pretty x) = true) as Hd by apply pretty_digits.
  apply not_true_is_false. intros H. assert (all_chars is_ascii_digit (pretty (Z.of_N p)) = true) as Hp.
  { destruct p as [|p]; [done|]. apply (Hd (N.pos p)). }
  induction (pretty (Z.of_N p)) as [|c s IH]; [done|]. simpl in *.
  apply andb_true_iff in Hp as [Hc Hs]. apply orb_true_iff in H as [->%Ascii.eqb_eq|H]; [done|auto].
Qed.

(** What follows the last separator. *)
Lemma last_separator c a1 a2 b1 b2 :
  has_char c a2 = false → has_char c b2 = false →
  a1 +:+ String c a2 = b1 +:+ String c b2 → a1 = b1 ∧ a2 = b2.
Proof.
  intros Ha Hb H%(f_equal string_rev). rewrite !string_rev_distr, !string_rev_cons in H.
  rewrite !string_app_assoc in H. rewrite !string_app_cons, !string_app_empty in H.
  apply (f_equal (split_once (String c EmptyString))) in H.
  rewrite !split_once_char in H by by rewrite has_char_rev.
  injection H as H1 H2. split; [rewrite <- (string_rev_involutive a1), <- (string_rev_involutive b1)|
    rewrite <- (string_rev_involutive a2), <- (string_rev_involutive b2)]; by f_equal.
Qed.

(** Who shares the messages of a queue.  Without [--group], two subscribers of a work queue
    join the same durable, wherever they run, so its messages are spread over them; two
    subscribers of a topic queue join the same durable only if they run under the same host
    name, as the command writes it, with the same process id, so each has all messages.
    With [--group] the durable is the group's name in both. *)
Theorem queue_durables (name h1 h2 group : string) (p1 p2 : N) :
  sub_durable name QWork None h1 (Z.of_N p1) = sub_durable name QWork None h2 (Z.of_N p2) ∧
  (sub_durable name QTopic None h1 (Z.of_N p1) = sub_durable name QTopic None h2 (Z.of_N p2) ↔
   h1 = h2 ∧ p1 = p2) ∧
  ∀ ty, sub_durable name ty (Some group) h1 (Z.of_N p1) = group.
Proof.
  split_and!; [done| |by intros []]. split; [|by intros [-> ->]].
  cbn [sub_durable default from_option id]. intros H.
  assert ((name +:+ "-" +:+ h1) +:+ String "-" (pretty (Z.of_N p1)) =
          (name +:+ "-" +:+ h2) +:+ String "-" (pretty (Z.of_N p2))) as Hs
    by (by rewrite !string_app_assoc).
  apply last_separator in Hs as [Hh Hp]; [|apply pretty_pid_chars..].
  split; [|by apply nat_pid_inj]. by do 2 apply (inj (String.append _)) in Hh.
Qed.

(** ** Listing *)

(** The columns of [ls] that come from the resource. *)
Definition queue_columns {J : SerdeJson} (r : Resource) : option (list string) :=
  match body r with
  | BQueue spec _ =>
      Some [md_name (metadata r); type_word (q_type spec);
            (queue_stream_config (md_name (metadata r)) spec).1]
  | _ => None
  end.

Lemma ls_rows_columns {J : SerdeJson} {C B : Type} {JB : JetStream B} k rs o
    (w : World (C * B)) u :
  let rows := (ls_rows (C := C) k rs o (w, u)).1 in
  take 3 <$> rows = omap queue_columns rs ∧
  Forall (λ row, length row = 5) rows ∧
  (k = false → Forall (λ row, drop 3 row = ["-"; "-"]) rows).
Proof.
  cbv zeta. revert w u. induction rs as [|r rs IH]; intros w u; [done|].
  cbn [ls_rows omap list_omap]. unfold queue_columns at 1.
  destruct (body r); try apply IH.
  destruct (queue_stream_config _ _) as [subject cfg]. cbn [fst]. unfold mbind, M_bind, mret, M_ret.
  destruct (live_counts k (sc_name cfg) o (w, u)) as [[m n] [w1 u1]] eqn:Ec.
  specialize (IH w1 u1). destruct (ls_rows k rs o (w1, u1)) as [rows su]. cbn [fst snd] in *.
  destruct IH as (H1 & H2 & H3). csimpl. split_and!.
  - by rewrite H1.
  - by constructor.
  - intros ->. constructor; [|by apply H3]. unfold live_counts in Ec. cbn in Ec. by injection Ec as <- <-.
Qed.

(** [orion queue ls] and [orion queue describe] only look.  No stream stores or loses a
    message, a consumer or an acknowledgement because of them, whatever the broker answers;
    and the table of [ls] has one row per Queue resource, in the controller's order, with
    its name, its type and its subject, whether or not the broker can be reached. *)
Theorem queue_inspection_only {J : SerdeJson} {JM : JsonMake} {SL : ServerLib} {PR : Printers}
    {UC : UpperCase} {RC : ResourceCodec} {C B : Type} {JB : JetStream B}
    (nats_matches : string → string → bool) (streams : B → Streams)
    {JL : JetStreamLaws nats_matches streams} (send : Transport C) (ctx : Ctx) (o : Oracle)
    (name : string) (connected : bool) (rs : list Resource) :
  moves streams o aged (run_ls send ctx) ∧
  moves streams o aged (run_describe send ctx name) ∧
  ∀ (w : World (C * B)) u,
    let rows := (ls_rows connected rs o (w, u)).1 in
    take 3 <$> rows = omap queue_columns rs ∧ Forall (λ row, length row = 5) rows ∧
    (connected = false → Forall (λ row, drop 3 row = ["-"; "-"]) rows).
Proof.
  split_and!; [by eapply run_ls_ages|by eapply run_describe_ages|]. intros w u. apply ls_rows_columns.
Qed.

(** ** A queue on a broker in memory *)

Definition demo_make : JsonMake (J := toy_json) :=
  @Build_JsonMake toy_json (λ b, TNum (Z.b2z b)) TNum (λ _, TNull) TStr TArr
    (λ m, TObj (map_to_list m)) (λ s, Some (TStr s)).

Definition demo_codec : ResourceCodec (J := toy_json) :=
  {| resource_to_json _ := Ok "";
     resource_from_json _ := Ok (demo_resource (J := toy_json) "rows" (BQueue (J := toy_json) demo_queue None)) |}.

(** A controller that has the queue. *)
Definition demo_send : Transport unit := λ _ _ _ _, mret (Answer 200 "a queue").

Definition demo_ctx : Ctx := {| ctx_controller := "http://c"; ctx_nats_url := "nats://h";
                                ctx_token := None; ctx_output := Table |}.

Notation demo_broker := (mem_broker String.eqb).

Lemma demo_takes S s n :
  S = {["ORION_QUEUE_ROWS" := ["orion.queue.rows"]]} →
  takes String.eqb S s n ↔ s = "orion.queue.rows" ∧ n = "ORION_QUEUE_ROWS".
Proof.
  intros ->. unfold takes. split.
  - intros (ps & Hl & He). apply lookup_singleton_Some in Hl as [<- <-]. cbn [existsb] in He.
    rewrite orb_false_r in He. apply String.eqb_eq in He. by subst.
  - intros [-> ->]. exists ["orion.queue.rows"]. by rewrite lookup_singleton_eq.
Qed.

Lemma queue_pub_in_order_witness :
  let x := run_pub (JM := demo_make) (RC := demo_codec) (JB := demo_broker) demo_send demo_ctx
    {| pub_name := "rows"; pub_subject_from := None; pub_allow_missing := false |}
    [Ok "1"; Ok ""; Ok "2"] quiet_oracle (((tt, ∅), []), Used_init) in
  histories x.2.1.1.2 !! "ORION_QUEUE_ROWS" =
    Some [("orion.queue.rows", "1"); ("orion.queue.rows", "2")].
Proof.
  cbv zeta.
  pose proof (queue_pub_in_order (JM := demo_make) (RC := demo_codec) (JB := demo_broker)
    (JL := mem_broker_laws String.eqb) String.eqb id demo_send demo_ctx quiet_oracle
    {| pub_name := "rows"; pub_subject_from := None; pub_allow_missing := false |}
    [Ok "1"; Ok ""; Ok "2"] ((tt, ∅), []) Used_init) as [_ H].
  cbv zeta in H.
  assert ((pub_queue (JM := demo_make) (RC := demo_codec) (B := Streams) demo_send demo_ctx
    {| pub_name := "rows"; pub_subject_from := None; pub_allow_missing := false |}
    quiet_oracle (((tt, ∅), []), Used_init)).1 = Ok demo_queue) as Hq by (vm_compute; reflexivity).
  rewrite Hq in H. clear Hq.
  destruct (queue_stream_config _ demo_queue) as [subject cfg] eqn:Ec.
  vm_compute in Ec. injection Ec as <- <-. destruct H as (_ & _ & H).
  unfold id in H. rewrite (H ["1"; ""; "2"]); [vm_compute; reflexivity|reflexivity|vm_compute; reflexivity|].
  repeat constructor; intros n Hn; by apply (demo_takes _ _ _ eq_refl) in Hn as [_ Hn].
Defined.
