(* ===== verification/QueueRun.v ===== *)
(** * Queues from the command line, against the controller

    The commands of Queue.v with the server of Server.v at the other end and a broker of
    JetStream.v: what [orion queue] finds is what the store holds, and what
    [--allow-missing] makes. *)

From Stdlib Require Import ZArith Lia Bool Ascii.
From stdpp Require Import base list gmap strings pretty.
From S2P Require Import Prelude Text Types Effect Parse Bus Store Registry Controller Dispatch Api System Auth Docker Mcp Server CliText Cli CliRun JetStream Queue.

Section served.
Context {J : SerdeJson} {JM : JsonMake} {SL : ServerLib} {SW : ServerLaws} {JL : JsonLaws}
  {UT : UuidText} {RC : ResourceCodec} {TM : Rfc3339} {HO : HashOrder}
  {CL : ControllerLibs} {AL : ApiLibs}.
Context (ctx : Ctx) (to_str : string → option string) (mode : AuthMode) (auth : option string).
Context (Hauth : auth_header ctx = Ok auth) (Hpass : require_bearer to_str mode auth = Pass).
(** The text of a resource in an answer reads back. *)
Context (Hcodec : ∀ r, resource_from_json (json_to_string (resource_to_value r)) = Ok r).
Context {B : Type}.

#[local] Notation send := (controller_at (ctx_controller ctx) to_str mode).

(** A request goes past the broker. *)
Lemma request_net m path body o (s : AppState) (b : B) out u :
  request (net send) ctx m path body o (((s, b), out), u) =
  let '(r, ((s', out'), u')) := request send ctx m path body o ((s, out), u) in
  (r, (((s', b), out'), u')).
Proof.
  unfold request. destruct (auth_header ctx) as [a|e]; [|done].
  unfold mbind, M_bind, mret, M_ret, zoom, net, zoom. cbn [fst snd].
  by destruct (send m (url ctx path) a body o (s, u)) as [r [s' u']].
Qed.

Lemma post_yaml_net path body o (s : AppState) (b : B) out u :
  post_yaml (net send) ctx path body o (((s, b), out), u) =
  let '(r, ((s', out'), u')) := post_yaml send ctx path body o ((s, out), u) in
  (r, (((s', b), out'), u')).
Proof.
  unfold post_yaml. rewrite !try_run, request_net.
  by destruct (request send ctx POST path body o ((s, out), u)) as [[r|e] [[s' out'] u']].
Qed.

(** What the command makes of the answer of the controller. *)
Definition queue_answer (r : result Resource ApiError) : result (option QueueSpec) QueueError :=
  match r with
  | Ok r => Ok (match body r with BQueue spec _ => Some spec | _ => None end)
  | Err e => match ae_status e with
             | NOT_FOUND => Ok None
             | c => Err (QHttp (Http (BadStatus (status_code c) (ae_message e))))
             end
  end.

Lemma fetch_queue_served name o (s : AppState) (b : B) out u :
  url_segment name → fault_free o →
  ∃ u', fetch_queue send ctx name o (((s, b), out), u) =
    (queue_answer (get_reply (app_store s) "Queue" name), (((s, b), out), u')).
Proof.
  intros [Hn Hn']%url_segment_plain Hf. unfold fetch_queue, fetch_queue_resource.
  rewrite !try_run, map_err_run, request_net.
  pose proof (commands_reach_handlers (GetKind "Queue" (Some name))) as Hd.
  cbn [command_plain command_request command_target fst snd] in Hd.
  change (resource_path "Queue" name) with (queue_path name) in Hd.
  assert (plain (canonical_kind "Queue")) as Hq by (by repeat split).
  rewrite (request_run ctx to_str mode auth Hauth Hpass _ _ _ _ _ _ _ _ _ _ (Hd (conj Hq Hn)));
    [|by repeat constructor].
  change (run_handler H_get_resource [canonical_kind "Queue"; name] ?q ?b ?o ?su) with
    (answer resource_to_value (get_resource_handler "Queue" name) o su).
  unfold answer, mbind, M_bind, mret, M_ret.
  pose proof (get_handler_run "Queue" name o s u Hf) as Hr.
  assert ((get_resource_handler "Queue" name o (s, u)).2.1 = s) as Hs
    by apply readonly_store_view, readonly_get_resource.
  destruct (get_resource_handler "Queue" name o (s, u)) as [r [s' u']]. cbn [fst snd] in *. subst s' r.
  exists u'. destruct (get_reply (app_store s) "Queue" name) as [r|e]; cbn.
  - by rewrite Hcodec.
  - by destruct e as [[] msg].
Qed.

(** [--allow-missing] against the controller: the queue is there afterwards. *)
Lemma pub_queue_created (a : PubArgs) r spec st o (s : AppState) (b : B) out u :
  url_segment (pub_name a) → fault_free o → pub_allow_missing a = true →
  db_resource (app_store s) !! ("Queue", "_", pub_name a) = None →
  from_yaml (default_queue_yaml (pub_name a)) = Ok r → validate r = Ok tt → storable r →
  body r = BQueue spec st → md_name (metadata r) = pub_name a → namespace_of r = "_" →
  ∃ s' u', pub_queue send ctx a o (((s, b), out), u) = (Ok spec, (((s', b), out), u')) ∧
    get_reply (app_store s') "Queue" (pub_name a) = Ok r.
Proof.
  intros Hn Hf Hallow Hnone Hy Hv (txt & Hb & Hd) Hbody Hname Hns. unfold pub_queue.
  destruct (fetch_queue_served (pub_name a) o s b out u Hn Hf) as [u1 Hfetch].
  assert (queue_answer (get_reply (app_store s) "Queue" (pub_name a)) = Ok None) as Hq
    by (unfold get_reply; by rewrite Hnone).
  rewrite try_run, Hfetch, Hq, Hallow. cbv beta iota. rewrite try_run, map_err_run, post_yaml_net.
  rewrite (run_apply_request ctx to_str mode auth Hauth Hpass).
  destruct (apply_store None (default_queue_yaml (pub_name a)) r txt o s u1 Hf Hy Hv eq_refl Hb)
    as (g & row & u2 & -> & Hrow). cbn [client_result].
  set (s' := set_store _ s).
  assert (get_reply (app_store s') "Queue" (pub_name a) = Ok r) as Hg.
  { unfold get_reply, s'. simpl. assert (key_of r = ("Queue", "_", pub_name a)) as ->.
    { unfold key_of. rewrite Hns, Hname. unfold kind_str. by rewrite Hbody. }
    rewrite lookup_insert_eq. unfold decode_body. by rewrite Hrow, Hd. }
  destruct (fetch_queue_served (pub_name a) o s' b out u2 Hn Hf) as [u3 Hfetch'].
  rewrite try_run, Hfetch', Hg. cbn [queue_answer]. rewrite Hbody. by exists s', u3.
Qed.
End served.

(** [orion queue pub], from standard input to the store and the streams.  With a token the
    controller accepts and a name that a URL carries: a queue the store holds is left as it
    is, and the rows go out as [pub_outcome] says; a queue that is missing ends
    the command with both sides untouched, unless [--allow-missing] is given: then the
    store holds the resource of the default document afterwards, and the rows go to the
    stream of that one the same way. *)
Theorem queue_pub_end_to_end {J : SerdeJson} {JM : JsonMake} {SL : ServerLib} {SW : ServerLaws}
    {JL : JsonLaws} {UT : UuidText} {RC : ResourceCodec} {TM : Rfc3339} {HO : HashOrder}
    {CL : ControllerLibs} {AL : ApiLibs} {B : Type} {JB : JetStream B}
    (nats_matches : string → string → bool) (streams : B → Streams)
    {BL : JetStreamLaws nats_matches streams}
    (ctx : Ctx) (to_str : string → option string) (mode : AuthMode) (auth : option string)
    (a : PubArgs) (stdin : list (result string string)) (o : Oracle) (s : AppState) (b : B)
    (out : list Shown) (u : Used) (r : Resource) (spec : QueueSpec) (st : option Status)
    (Hauth : auth_header ctx = Ok auth) (Hpass : require_bearer to_str mode auth = Pass)
    (Hcodec : ∀ r, resource_from_json (json_to_string (resource_to_value r)) = Ok r)
    (Hname : url_segment (pub_name a)) (Hf : fault_free o) (Hbody : body r = BQueue spec st) :
  let x := run_pub (controller_at (ctx_controller ctx) to_str mode) ctx a stdin o (((s, b), out), u) in
  let outcome := pub_outcome nats_matches a spec stdin x.1 x.2.1.2 (streams b) (streams x.2.1.1.2) in
  (get_reply (app_store s) "Queue" (pub_name a) = Ok r → x.2.1.1.1 = s ∧ outcome) ∧
  (db_resource (app_store s) !! ("Queue", "_", pub_name a) = None →
     (pub_allow_missing a = false → x.1 = Err (QueueNotFound (pub_name a)) ∧ x.2.1.1 = (s, b)) ∧
     (pub_allow_missing a = true → from_yaml (default_queue_yaml (pub_name a)) = Ok r →
        validate r = Ok tt → storable r → md_name (metadata r) = pub_name a → namespace_of r = "_" →
        get_reply (app_store x.2.1.1.1) "Queue" (pub_name a) = Ok r ∧ outcome)).
Proof.
  cbv zeta. set (send := controller_at _ _ _). unfold run_pub. rewrite try_run.
  assert (∀ (s' : AppState) u', let x := pub_to ctx a spec stdin o (((s', b), out), u') in
    x.2.1.1.1 = s' ∧ pub_outcome nats_matches a spec stdin x.1 x.2.1.2 (streams b) (streams x.2.1.1.2)) as Hto.
  { intros s' u'. cbv zeta. split.
    - apply (pub_to_broker (C := AppState) o ctx a spec stdin ((s', b), out) u').
    - apply (pub_to_run nats_matches streams ctx o a spec stdin ((s', b), out) u'). }
  destruct (fetch_queue_served ctx to_str mode auth Hauth Hpass Hcodec (pub_name a) o s b out u Hname Hf)
    as [u1 Hfetch]. fold send in Hfetch. split.
  - intros Hg. assert (pub_queue send ctx a o (((s, b), out), u) = (Ok spec, (((s, b), out), u1))) as ->.
    { unfold pub_queue. rewrite try_run, Hfetch, Hg. cbn [queue_answer]. by rewrite Hbody. }
    apply Hto.
  - intros Hnone. split.
    + intros Hm. assert (queue_answer (get_reply (app_store s) "Queue" (pub_name a)) = Ok None) as Hq
        by (unfold get_reply; by rewrite Hnone).
      unfold pub_queue. by rewrite try_run, Hfetch, Hq, Hm.
    + intros Hm Hy Hv Hst Hmd Hns.
      destruct (pub_queue_created ctx to_str mode auth Hauth Hpass Hcodec a r spec st o s b out u
        Hname Hf Hm Hnone Hy Hv Hst Hbody Hmd Hns) as (s' & u' & Hp & Hg).
      fold send in Hp. rewrite Hp. cbn beta iota. destruct (Hto s' u') as [-> Ho]. by split.
Qed.
