(* ===== verification/Bench.v ===== *)
(** * The benchmark of a queue (crates/orion-cli/src/cmd/bench.rs)

    [orion bench queue]: publishers that share a number of messages, run in any
    interleaving; a consumer that measures the age of what it receives; and the report. *)

From Stdlib Require Import ZArith Lia Bool Ascii.
From stdpp Require Import base list gmap strings pretty.
From S2P Require Import Prelude Text Types Parse Effect Bus Store Mcp Server Api CliText Cli CliRun JetStream Queue.

(** ** The arithmetic of the report *)

(** How many messages each publisher sends; [None] is the division by zero. *)
Definition publisher_counts (n publishers : nat) : option (list nat) :=
  match publishers with
  | O => None
  | _ =>
      let per_pub := n / publishers in
      let leftover := n - per_pub * publishers in
      Some ((λ p, per_pub + (if p =? 0 then leftover else 0)) <$> seq 0 publishers)
  end.

(** [((lat.len() as f64) * q) as usize]. *)
Definition f64_trunc (x : f64) : Z :=
  match x with
  | SpecFloat.S754_finite false m e =>
      if (0 <=? e)%Z then (Zpos m * 2 ^ e)%Z else (Zpos m / 2 ^ (- e))%Z
  | _ => 0%Z
  end.

Definition q50 : f64 := f64_of_decimal 5 (-1).
Definition q95 : f64 := f64_of_decimal 95 (-2).
Definition q99 : f64 := f64_of_decimal 99 (-2).

Definition percentile_index (len : nat) (q : f64) : Z :=
  (f64_trunc (SpecFloat.SFmul 53 1024 (f64_of_Z (Z.of_nat len)) q) - 1)%Z.

(** [None] is an index out of bounds; [0] for no samples. *)
Definition percentile (sorted : list Z) (q : f64) : option Z :=
  match sorted with
  | [] => Some 0%Z
  | _ => let i := percentile_index (length sorted) q in
         if (i <? 0)%Z then None else sorted !! Z.to_nat i
  end.

(** ** Publishing *)

Record ProducerStats : Type := { ps_n : Z; ps_bytes : Z }.

(** A publisher's task: its number, what is left to send, the index of the next message,
    the bytes so far, and whether an [unwrap] ended it. *)
Record Publisher : Type := {
  pb_p : nat;
  pb_left : nat;
  pb_i : nat;
  pb_bytes : Z;
  pb_panicked : bool
}.

Definition micros (t : Instant) : Z := (t / 1000)%Z.

Section producing.
Context {J : SerdeJson} {JM : JsonMake} {SL : ServerLib}.

Definition filler (payload_size : nat) : string :=
  from_utf8_lossy (String.string_of_list_ascii (replicate payload_size "x"%char)).

Definition bench_payload (ts : Z) (i p : nat) (fill : string) : string :=
  json_to_string (json_object (list_to_map
    [("_ts_us", json_int ts); ("_i", json_int (Z.of_nat i)); ("_p", json_int (Z.of_nat p));
     ("_filler", json_string fill)])).

Context {B : Type} {JB : JetStream B}.

(** One turn of the loop of a publisher.  What the acknowledgement says is dropped. *)
Definition publish_one (subject fill : string) (pb : Publisher) : M B Publisher :=
  t ← now;
  let payload := bench_payload (micros t) (pb_i pb) (pb_p pb) fill in
  r ← js_publish_ack subject payload;
  mret {| pb_p := pb_p pb; pb_left := pred (pb_left pb); pb_i := S (pb_i pb);
          pb_bytes := pb_bytes pb + Z.of_nat (String.length payload);
          pb_panicked := match r with Ok _ => false | Err _ => true end |}.

Definition runnable (pb : Publisher) : bool := negb (pb_panicked pb) && (0 <? pb_left pb).

(** The publisher that the schedule names takes a turn, if it has one. *)
Definition turn (subject fill : string) (k : nat) (pubs : list Publisher) : M B (list Publisher) :=
  match pubs !! k with
  | Some pb =>
      if runnable pb then pb' ← publish_one subject fill pb; mret (<[k := pb']> pubs)
      else mret pubs
  | None => mret pubs
  end.

Fixpoint turns (subject fill : string) (schedule : list nat) (pubs : list Publisher)
    : M B (list Publisher) :=
  match schedule with
  | [] => mret pubs
  | k :: schedule' => pubs' ← turn subject fill k pubs; turns subject fill schedule' pubs'
  end.

Definition start_publishers (counts : list nat) : list Publisher :=
  imap (λ p n_here, {| pb_p := p; pb_left := n_here; pb_i := 0; pb_bytes := 0;
                       pb_panicked := false |}) counts.

(** [h.await.unwrap_or(0)]. *)
Definition task_bytes (pb : Publisher) : Z := if pb_panicked pb then 0 else pb_bytes pb.

Inductive Producing : Type :=
| DivisionByZero
| Producing_on
| Produced (s : ProducerStats).

Definition producer_run (subject : string) (n payload_size publishers : nat) (schedule : list nat)
    : M B Producing :=
  match publisher_counts n publishers with
  | None => mret DivisionByZero
  | Some counts =>
      pubs ← turns subject (filler payload_size) schedule (start_publishers counts);
      mret (if existsb runnable pubs then Producing_on
            else Produced {| ps_n := Z.of_nat n; ps_bytes := foldr Z.add 0%Z (task_bytes <$> pubs) |})
  end.

End producing.

(** ** Consuming *)

(** What a wait of at most sixty seconds gives; the sequence number is the message's. *)
Inductive BenchEvent : Type :=
| BenchMessage (seq : Z) (payload : string)
| BenchAgain
| BenchTimeout.

(** [i64] subtraction. *)
Definition wrap_i64 (x : Z) : Z := ((x + 2 ^ 63) mod 2 ^ 64 - 2 ^ 63)%Z.

Section consuming.
Context {J : SerdeJson} {JM : JsonMake}.
(** [Value::as_i64]. *)
Context (value_as_i64 : Value → option Z).
Context {B : Type} {JB : JetStream B}.

(** The stamp of a message; text that is not JSON is null. *)
Definition stamp (payload : string) : option Z :=
  value_get (default value_null (json_from_str payload)) "_ts_us" ≫= value_as_i64.

(** [None]: still waiting. *)
Fixpoint consumer_loop (stream durable : string) (want : nat) (lat : list Z)
    (events : list BenchEvent) : M B (option (list Z)) :=
  if want <=? length lat then mret (Some lat)
  else match events with
       | [] => mret None
       | BenchTimeout :: _ => mret (Some lat)
       | BenchAgain :: events' => consumer_loop stream durable want lat events'
       | BenchMessage seq payload :: events' =>
           lat' ← match stamp payload with
                  | Some ts => t ← now; mret (lat ++ [wrap_i64 (micros t - ts)])
                  | None => mret lat
                  end;
           _ ← ack_message stream durable seq;
           consumer_loop stream durable want lat' events'
       end.

Definition bench_config (subject durable : string) : PullConfig :=
  {| pc_durable_name := durable; pc_filter_subject := subject; pc_ack_policy := AckExplicit |}.

(** [consumer_run] up to its loop. *)
Definition consumer_bind (stream durable subject : string) : M B (result unit Fault) :=
  let! _ := get_stream stream in
  let! _ := get_or_create_consumer stream (bench_config subject durable) in
  consumer_messages stream durable.

Definition consumer_run (stream durable subject : string) (want : nat) (events : list BenchEvent)
    : M B (result (option (list Z)) Fault) :=
  let! _ := consumer_bind stream durable subject in
  lat ← consumer_loop stream durable want [] events; mret (Ok lat).

End consuming.

(** ** The report *)

Record ConsumerReport : Type := {
  cr_n : nat;
  cr_mean : Z;
  cr_p50 : Z;
  cr_p95 : Z;
  cr_p99 : Z
}.

(** [print_consumer_stats]; [None] is an index out of bounds. *)
Definition consumer_report (latencies_us : list Z) : option ConsumerReport :=
  let lat := sort_by Z.compare latencies_us in
  p50 ← percentile lat q50; p95 ← percentile lat q95; p99 ← percentile lat q99;
  let mean := match lat with
              | [] => 0%Z
              | _ => Z.quot (foldr Z.add 0%Z lat) (Z.of_nat (length lat))
              end in
  Some {| cr_n := length lat; cr_mean := mean; cr_p50 := p50; cr_p95 := p95; cr_p99 := p99 |}.

(** ** Finding the queue *)

Section lookup.
Context {J : SerdeJson} {RC : ResourceCodec}.

Inductive LookupError : Type := LookupHttp (e : ClientError) | LookupNotAQueue (name : string).

(** The tail of [lookup_queue]: unlike [orion queue], a 404 is an error like the others. *)
Definition lookup_queue (name : string) (r : Reply) : result QueueSpec LookupError :=
  match r with
  | Unreachable e => Err (LookupHttp (SendFailed e))
  | Answer status text =>
      if (400 <=? status)%Z && (status <=? 599)%Z then Err (LookupHttp (BadStatus status text))
      else match resource_from_json text with
           | Err _ => Err (LookupHttp (BadBody text))
           | Ok r => match body r with BQueue spec _ => Ok spec | _ => Err (LookupNotAQueue name) end
           end
  end.
End lookup.

(** ** The command *)

Record BenchArgs : Type := {
  bench_name : string;
  bench_count : nat;
  bench_size : nat;
  bench_publishers : nat;
  bench_pub_only : bool;
  bench_sub_only : bool;
  bench_durable : option string
}.

(** What it prints; times and rates are left out. *)
Inductive BenchLine : Type :=
| BenchBanner (name subject : string) (n size publishers : nat)
| PubLine (s : ProducerStats)
| SubLine (r : ConsumerReport)
| ConsumerErrorLine (e : Fault)
| ConsumerTimedOut (want : nat).

Inductive BenchError : Type :=
| BenchLookup (e : LookupError)
| BenchRequest (e : CliError)
| BenchBus (e : BusError)
| BenchEnsuring (name : string) (e : BusError).

(** How it ends: by itself, in a panic, or not yet. *)
Inductive BenchEnd : Type := BenchReturned | BenchPanicked | BenchPending.

Section command.
Context {J : SerdeJson} {JM : JsonMake} {SL : ServerLib} {RC : ResourceCodec}.
Context (value_as_i64 : Value → option Z).
Context {C B : Type} {JB : JetStream B}.
Context (send : Transport C) (ctx : Ctx).
Notation W := (World (C * B)).

Definition bench_queue (name : string) : M W (result QueueSpec BenchError) :=
  let! r := map_err BenchRequest (request (net send) ctx GET (queue_path name) "") in
  mret (match lookup_queue name r with Ok q => Ok q | Err e => Err (BenchLookup e) end).

(** The consumer's task, bound before the first publication; [None] with [--pub-only]. *)
Definition bench_bind (a : BenchArgs) (stream durable subject : string)
    : M W (option (result unit Fault)) :=
  if bench_pub_only a then mret None
  else r ← bus (consumer_bind stream durable subject); mret (Some r).

(** The publishers, unless [--sub-only]. *)
Definition bench_produce (a : BenchArgs) (subject : string) (schedule : list nat)
    : M W (option Producing) :=
  if bench_sub_only a then mret None
  else r ← bus (producer_run subject (bench_count a) (bench_size a) (bench_publishers a) schedule);
       mret (Some r).

(** Waiting for the consumer: its lines, and whether its report panicked. *)
Definition bench_consume (a : BenchArgs) (stream durable : string) (bound : option (result unit Fault))
    (events : list BenchEvent) : M W (list BenchLine * bool) :=
  match bound with
  | None => mret ([], false)
  | Some (Err e) => mret ([ConsumerErrorLine e], false)
  | Some (Ok _) =>
      lat ← bus (consumer_loop value_as_i64 stream durable (bench_count a) [] events);
      mret (match lat with
            | None => ([ConsumerTimedOut (bench_count a)], false)
            | Some lat => match consumer_report lat with
                          | Some r => ([SubLine r], false)
                          | None => ([], true)
                          end
            end)
  end.

(** [pid] is the process id; the messages the consumer's task reads while the publishers
    still run are read after them here. *)
Definition run_queue (a : BenchArgs) (pid : Z) (schedule : list nat) (events : list BenchEvent)
    : M W (result (list BenchLine * BenchEnd) BenchError) :=
  let name := bench_name a in
  let! queue := bench_queue name in
  let! _ := map_err BenchBus (bus (connect (ctx_nats_url ctx) (ctx_token ctx))) in
  let '(subject, cfg) := queue_stream_config name queue in
  let! _ := map_err (BenchEnsuring name) (bus (ensure_stream cfg)) in
  let durable := default ("bench-" +:+ pretty pid) (bench_durable a) in
  let banner := BenchBanner name subject (bench_count a) (bench_size a) (bench_publishers a) in
  bound ← bench_bind a (sc_name cfg) durable subject;
  produced ← bench_produce a subject schedule;
  match produced with
  | Some DivisionByZero => mret (Ok ([banner], BenchPanicked))
  | Some Producing_on => mret (Ok ([banner], BenchPending))
  | _ =>
      let pub := match produced with Some (Produced s) => [PubLine s] | _ => [] end in
      r ← bench_consume a (sc_name cfg) durable bound events;
      mret (Ok (banner :: pub ++ r.1, if r.2 : bool then BenchPanicked else BenchReturned))
  end.
End command.

(** ** Theorems: the arithmetic *)

(** The publishers of the benchmark send [n] messages between them. *)
Theorem bench_sends_all (n publishers : nat) (counts : list nat) :
  publisher_counts n publishers = Some counts → length counts = publishers ∧ sum_list counts = n.
Proof.
  unfold publisher_counts. destruct publishers as [|p]; [done|]. intros H%(inj Some). subst counts.
  rewrite length_fmap, length_seq. split; [done|]. set (q := n / S p).
  assert (n = S p * q + n mod S p) as Hn by apply Nat.div_mod_eq.
  cbn [seq fmap list_fmap sum_list_with]. cbn [Nat.eqb].
  assert (∀ k s, 0 < s → sum_list ((λ i, q + (if i =? 0 then n - q * S p else 0)) <$> seq s k) = k * q) as Hs.
  { induction k as [|k IH]; intros s Hs; [done|]. cbn [seq]. csimpl.
    rewrite (proj2 (Nat.eqb_neq s 0)) by lia. rewrite IH by lia. lia. }
  rewrite Hs by lia. unfold id. lia.
Qed.

(** Computed for every count. *)
Lemma percentile_indices :
  forallb (λ q, forallb (λ n, let i := percentile_index n q in
    (0 <=? i)%Z && (i <? Z.of_nat n)%Z) (seq 2 1999)) [q50; q95; q99] = true.
Proof. vm_compute. reflexivity. Qed.

(** The percentiles of the benchmark are samples, but for a single one.  For every
    count of samples up to two thousand, in double precision, the 50th, 95th and 99th
    percentile are taken inside the sorted samples; with exactly one sample the index is
    below zero and the command panics. *)
Theorem bench_percentiles (sorted : list Z) (q : f64)
    (Hq : q ∈ [q50; q95; q99]) (Hlen : length sorted ≤ 2000) :
  percentile sorted q = None ↔ length sorted = 1.
Proof.
  unfold percentile. destruct sorted as [|x [|y l]]; [done| |].
  - split; [done|]. intros _. rewrite !elem_of_cons, elem_of_nil in Hq.
    by destruct Hq as [->|[->|[->|[]]]].
  - split; [|simpl; lia]. set (l' := x :: y :: l) in *. intros Hn. exfalso.
    assert (2 ≤ length l') as Hmin by (unfold l'; simpl; lia).
    pose proof percentile_indices as Hall. apply forallb_forall with (x := q) in Hall; [|by apply list_elem_of_In].
    apply forallb_forall with (x := length l') in Hall; [|apply in_seq; lia].
    cbv zeta in Hall. apply andb_true_iff in Hall as [H0%Z.leb_le H1%Z.ltb_lt].
    rewrite (proj2 (Z.ltb_ge _ _)) in Hn by done. apply lookup_ge_None in Hn. lia.
Qed.

Lemma bench_percentiles_witness : percentile [7%Z] q99 = None.
Proof.
  apply (bench_percentiles [7%Z] q99).
  - rewrite !elem_of_cons. right. right. left. reflexivity.
  - simpl. lia.
  - reflexivity.
Defined.


(** ** Theorems: the publishers *)

Section publishers.
Context {J : SerdeJson} {JM : JsonMake} {SL : ServerLib}.
Context {B : Type} {JB : JetStream B}.
Context (nats_matches : string → string → bool) (streams : B → Streams).
Context {JL : JetStreamLaws nats_matches streams} (o : Oracle).

(** A message that was stored: its stamp, its index and its publisher. *)
Record Sent : Type := { sent_ts : Z; sent_i : nat; sent_p : nat }.

Definition sent_row (subject fill : string) (s : Sent) : string * string :=
  (subject, bench_payload (sent_ts s) (sent_i s) (sent_p s) fill).

(** The indices of one publisher. *)
Definition indices (k : nat) (l : list Sent) : list nat := sent_i <$> filter (λ s, sent_p s = k) l.

Lemma indices_app k l l' : indices k (l ++ l') = indices k l ++ indices k l'.
Proof. unfold indices. by rewrite filter_app, fmap_app. Qed.

Context (subject stream fill : string) (S : gmap string (list string)).
Hypothesis own_stream : ∀ n, takes nats_matches S subject n → n = stream.

(** Nothing is refused, and every message is acknowledged. *)
Definition never_refused : Prop :=
  ∀ p b u, ∃ k, (js_publish_ack subject p o (b, u)).1 = Ok (Ok k).

Lemma publish_one_run pb b u :
  subjects (streams b) = S →
  let x := publish_one subject fill pb o (b, u) in
  subjects (streams x.2.1) = S ∧
  pb_p x.1 = pb_p pb ∧ pb_i x.1 = Datatypes.S (pb_i pb) ∧ pb_left x.1 = pred (pb_left pb) ∧
  (never_refused → pb_panicked x.1 = false) ∧
  ∃ l, histories (streams x.2.1) = appended stream (sent_row subject fill <$> l) (histories (streams b)) ∧
    ((l = [] ∧ ¬ never_refused) ∨
     ∃ s, l = [s] ∧ sent_i s = pb_i pb ∧ sent_p s = pb_p pb).
Proof.
  intros HS. cbv zeta. unfold publish_one, now, mbind, M_bind, mret, M_ret. cbn [fst snd].
  set (ts := micros _). set (u1 := {| us_clock := _; us_uuid := _; us_io := _ |}).
  set (payload := bench_payload _ _ _ _).
  pose proof (publish_run nats_matches streams o subject payload b u1) as [Hs Hp].
  assert (never_refused → ∃ k, (js_publish_ack subject payload o (b, u1)).1 = Ok (Ok k)) as Hnr
    by (intros H; apply H).
  destruct (js_publish_ack subject payload o (b, u1)) as [r [b' u']]. cbn [fst snd] in *.
  assert (never_refused → match r with Ok _ => false | Err _ => true end = false) as Hpan
    by (intros H; by destruct (Hnr H) as [k ->]).
  split_and!; [congruence|done..|]. destruct Hp as [(n & Hn & Ht)|[Ht Hr]].
  - rewrite HS in Hn. apply own_stream in Hn as ->.
    exists [{| sent_ts := ts; sent_i := pb_i pb; sent_p := pb_p pb |}].
    split; [done|right; by eexists].
  - exists []. rewrite fmap_nil, appended_nil. split; [done|].
    left. split; [done|]. intros H. destruct (Hnr H) as [k ->]. by apply (Hr k).
Qed.

(** What the publishers have stored, [counts] being their shares. *)
Definition progress (counts : list nat) (pubs : list Publisher) (l : list Sent) : Prop :=
  length pubs = length counts ∧
  Forall (λ s, sent_p s < length counts) l ∧
  ∀ k pb c, pubs !! k = Some pb → counts !! k = Some c →
    pb_p pb = k ∧ pb_i pb + pb_left pb = c ∧
    indices k l `sublist_of` seq 0 (pb_i pb) ∧
    (never_refused → pb_panicked pb = false ∧ indices k l = seq 0 (pb_i pb)).

Lemma progress_start counts : progress counts (start_publishers counts) [].
Proof.
  unfold progress, start_publishers. split_and!; [apply length_imap|done|].
  intros k pb c Hk Hc. rewrite list_lookup_imap, Hc in Hk. injection Hk as <-. cbn.
  split_and!; [done|lia|done|done].
Qed.

Lemma indices_other k s l : sent_p s ≠ k → indices k (l ++ [s]) = indices k l.
Proof.
  intros H. rewrite indices_app. unfold indices at 2. rewrite filter_cons_False by done.
  by rewrite filter_nil, app_nil_r.
Qed.

Lemma indices_own s l : indices (sent_p s) (l ++ [s]) = indices (sent_p s) l ++ [sent_i s].
Proof. rewrite indices_app. unfold indices at 2. by rewrite filter_cons_True, filter_nil. Qed.

Lemma turn_run counts k pubs l b u :
  subjects (streams b) = S → progress counts pubs l →
  let x := turn subject fill k pubs o (b, u) in
  subjects (streams x.2.1) = S ∧
  ∃ l', progress counts x.1 (l ++ l') ∧
    histories (streams x.2.1) = appended stream (sent_row subject fill <$> l') (histories (streams b)).
Proof.
  intros HS Hpr. cbv zeta. unfold turn.
  assert (subjects (streams b) = S ∧ ∃ l', progress counts pubs (l ++ l') ∧
    histories (streams b) = appended stream (sent_row subject fill <$> l') (histories (streams b))) as Hskip.
  { split; [done|]. exists []. by rewrite app_nil_r, fmap_nil, appended_nil. }
  destruct (pubs !! k) as [pb|] eqn:Hk; [|exact Hskip].
  destruct (runnable pb) eqn:Hrun; [|exact Hskip]. clear Hskip.
  unfold mbind, M_bind. destruct (publish_one_run pb b u HS) as (HS' & Hp & Hi & Hl & Hpan & l' & Hh & Hl').
  destruct (publish_one subject fill pb o (b, u)) as [pb' [b' u']]. cbn [fst snd mret M_ret] in *.
  split; [done|]. exists l'. split; [|done].
  destruct Hpr as (Hlen & Hps & Hpr). apply andb_true_iff in Hrun as [Hnp%negb_true_iff Hleft%Nat.ltb_lt].
  destruct (lookup_lt_is_Some_2 counts k) as [c Hc]; [rewrite <- Hlen; by eapply lookup_lt_Some|].
  destruct (Hpr k pb c Hk Hc) as (Hpk & Hsum & Hsub & Hex).
  assert (∀ s, sent_p s = pb_p pb → sent_p s < length counts) as Hlt
    by (intros s ->; rewrite Hpk, <- Hlen; by eapply lookup_lt_Some).
  split_and!; [by rewrite length_insert| |].
  - apply Forall_app. split; [done|]. destruct Hl' as [[-> _]|(s & -> & _ & Hs)]; [done|].
    constructor; [by apply Hlt|done].
  - intros m q c' Hm Hc'. apply list_lookup_insert_Some in Hm as [(<- & <- & _)|[Hne Hm]].
    + rewrite Hc in Hc'. injection Hc' as <-. rewrite Hp, Hi, Hl, seq_S.
      split_and!; [done|lia| |].
      * destruct Hl' as [[-> _]|(s & -> & Hsi & Hsp)].
        { rewrite app_nil_r. by apply sublist_inserts_r. }
        rewrite <- Hpk, <- Hsp, indices_own, Hsi, Hsp, Hpk. by apply sublist_app.
      * intros Hnr. split; [by apply Hpan|]. destruct Hl' as [[_ Hc']|(s & -> & Hsi & Hsp)]; [done|].
        rewrite <- Hpk, <- Hsp, indices_own, Hsi, Hsp, Hpk. by rewrite (proj2 (Hex Hnr)).
    + assert (indices m (l ++ l') = indices m l) as ->.
      { destruct Hl' as [[-> _]|(s & -> & _ & Hsp)]; [by rewrite app_nil_r|].
        apply indices_other. rewrite Hsp, Hpk. done. }
      by apply Hpr.
Qed.

Lemma turns_run counts schedule pubs l b u :
  subjects (streams b) = S → progress counts pubs l →
  let x := turns subject fill schedule pubs o (b, u) in
  ∃ l', progress counts x.1 (l ++ l') ∧
    histories (streams x.2.1) = appended stream (sent_row subject fill <$> l') (histories (streams b)).
Proof.
  revert pubs l b u. induction schedule as [|k schedule IH]; intros pubs l b u HS Hpr; cbv zeta.
  { exists []. by rewrite app_nil_r, fmap_nil, appended_nil. }
  cbn [turns]. unfold mbind, M_bind.
  destruct (turn_run counts k pubs l b u HS Hpr) as (HS' & l1 & Hpr1 & Hh1).
  destruct (turn subject fill k pubs o (b, u)) as [pubs' [b' u']]. cbn [fst snd] in *.
  destruct (IH pubs' (l ++ l1) b' u' HS' Hpr1) as (l2 & Hpr2 & Hh2).
  exists (l1 ++ l2). rewrite app_assoc. split; [done|].
  by rewrite Hh2, Hh1, appended_app, fmap_app.
Qed.
End publishers.

(** What [orion bench queue] publishes.  With no publisher the command divides by zero.
    Otherwise, however the publishers' tasks are interleaved and whatever the broker
    refuses: the queue's stream has stored only messages of theirs, each publisher's in the
    order of their indices and each at most once, and within its share.  When the broker
    refuses nothing and all tasks have ended, each publisher has stored exactly its share,
    and the shares add up to [n].  The report says [n] messages in every case, refused or
    not. *)
Theorem bench_publishes {J : SerdeJson} {JM : JsonMake} {SL : ServerLib} {B : Type}
    {JB : JetStream B} (nats_matches : string → string → bool) (streams : B → Streams)
    {JL : JetStreamLaws nats_matches streams} (o : Oracle) (subject stream : string)
    (n size publishers : nat) (schedule : list nat) (b : B) (u : Used)
    (Hown : ∀ m, takes nats_matches (subjects (streams b)) subject m → m = stream) :
  let x := producer_run subject n size publishers schedule o (b, u) in
  match publisher_counts n publishers with
  | None => publishers = 0 ∧ x.1 = DivisionByZero ∧ x.2.1 = b
  | Some counts =>
      length counts = publishers ∧ sum_list counts = n ∧
      ∃ l, histories (streams x.2.1) =
             appended stream (sent_row subject (filler size) <$> l) (histories (streams b)) ∧
        Forall (λ s, sent_p s < publishers) l ∧
        (∀ k c, counts !! k = Some c → indices k l `sublist_of` seq 0 c) ∧
        match x.1 with
        | DivisionByZero => False
        | Producing_on => True
        | Produced st => ps_n st = Z.of_nat n ∧
            (never_refused o subject → ∀ k c, counts !! k = Some c → indices k l = seq 0 c)
        end
  end.
Proof.
  cbv zeta. unfold producer_run. destruct (publisher_counts n publishers) as [counts|] eqn:Ec.
  2: { destruct publishers; [done|]. discriminate Ec. }
  destruct (bench_sends_all n publishers counts Ec) as [Hlen Hsum]. split_and!; [done|done|].
  unfold mbind, M_bind.
  destruct (turns_run nats_matches streams o subject stream (filler size) _ Hown counts schedule
    (start_publishers counts) [] b u eq_refl (progress_start o subject counts))
    as (l & (Hn & Hps & Hpr) & Hh).
  destruct (turns subject (filler size) schedule (start_publishers counts) o (b, u)) as [pubs [b' u']].
  cbn [fst snd app] in *. exists l. rewrite <- Hlen.
  assert (∀ k c, counts !! k = Some c → ∃ pb, pubs !! k = Some pb) as Hall.
  { intros k c Hc. apply lookup_lt_is_Some_2. rewrite Hn. by eapply lookup_lt_Some. }
  split_and!; [by destruct (existsb runnable pubs)|done| |].
  - intros k c Hc. destruct (Hall k c Hc) as [pb Hk]. destruct (Hpr k pb c Hk Hc) as (_ & Hs & Hsub & _).
    etrans; [exact Hsub|]. replace c with (pb_i pb + pb_left pb) by lia. rewrite seq_app.
    by apply sublist_inserts_r.
  - destruct (existsb runnable pubs) eqn:Er; [done|]. split; [done|]. intros Hnr k c Hc.
    destruct (Hall k c Hc) as [pb Hk]. destruct (Hpr k pb c Hk Hc) as (_ & Hs & _ & Hex).
    destruct (Hex Hnr) as [Hnp ->]. f_equal.
    assert (runnable pb = false) as Hr.
    { apply not_true_is_false. intros Hr. apply not_true_iff_false in Er. apply Er.
      apply existsb_exists. exists pb. split; [|done]. apply list_elem_of_In. by eapply list_elem_of_lookup_2. }
    unfold runnable in Hr. rewrite Hnp in Hr. apply Nat.ltb_ge in Hr. lia.
Qed.

(** ** Theorems: the consumer *)

Section consumer.
Context {J : SerdeJson} {JM : JsonMake} (value_as_i64 : Value → option Z).

(** The stamps of the messages before the first timeout. *)
Fixpoint samples (events : list BenchEvent) : list Z :=
  match events with
  | [] => []
  | BenchMessage _ payload :: events' =>
      match stamp value_as_i64 payload with
      | Some ts => ts :: samples events'
      | None => samples events'
      end
  | BenchAgain :: events' => samples events'
  | BenchTimeout :: _ => []
  end.

Context {B : Type} {JB : JetStream B}.

Lemma consumer_loop_run stream durable want lat events o (b : B) u :
  length lat ≤ want →
  match (consumer_loop value_as_i64 stream durable want lat events o (b, u)).1 with
  | Some lat' => length lat' = Nat.min want (length lat + length (samples events)) ∧
      (length lat + length (samples events) < want → BenchTimeout ∈ events)
  | None => length lat + length (samples events) < want ∧ BenchTimeout ∉ events
  end.
Proof.
  revert lat b u. induction events as [|[seq payload| |] events IH]; intros lat b u Hle;
    cbn [consumer_loop samples]; destruct (Nat.leb_spec want (length lat)) as [Hw|Hw];
    try (cbn; lia).
  - cbn. split; [lia|]. apply not_elem_of_nil.
  - set (n := samples events) in *.
    destruct (stamp value_as_i64 payload) as [ts|].
    + unfold mbind, M_bind, now. cbn [fst snd mret M_ret].
      set (lat' := lat ++ [_]). set (u1 := {| us_clock := _; us_uuid := _; us_io := _ |}).
      destruct (ack_message stream durable seq o (b, u1)) as [r [b' u']].
      assert (length lat' = S (length lat)) as Hl' by (unfold lat'; rewrite length_app; simpl; lia).
      specialize (IH lat' b' u' ltac:(lia)). rewrite Hl' in IH.
      destruct (consumer_loop _ stream durable want lat' events o (b', u')).1; simpl;
        destruct IH as [H1 H2]; split; try lia.
      * intros H. right. apply H2. lia.
      * intros [Hc|Hc]%elem_of_cons; [done|by apply H2].
    + unfold mbind, M_bind. cbn [mret M_ret].
      destruct (ack_message stream durable seq o (b, u)) as [r [b' u']].
      specialize (IH lat b' u' Hle).
      destruct (consumer_loop _ stream durable want lat events o (b', u')).1; destruct IH as [H1 H2];
        split; try done.
      * intros H. right. by apply H2.
      * intros [Hc|Hc]%elem_of_cons; [done|by apply H2].
  - specialize (IH lat b u Hle).
    destruct (consumer_loop _ stream durable want lat events o (b, u)).1; destruct IH as [H1 H2];
      split; try done.
    + intros H. right. by apply H2.
    + intros [Hc|Hc]%elem_of_cons; [done|by apply H2].
  - cbn. rewrite Nat.add_0_r. split; [lia|]. intros _. by left.
Qed.

(** The consumer of the benchmark ends when it has the wanted number of stamped messages, or
    at the first wait that times out; a message without a stamp is not counted.  It
    measures as many messages as there were, at most the wanted number.  A consumer whose
    stream has closed is asked again without end: neither number is ever reached. *)
Theorem bench_consumes (stream durable : string) (want : nat) (events : list BenchEvent)
    (o : Oracle) (b : B) (u : Used) :
  match (consumer_loop value_as_i64 stream durable want [] events o (b, u)).1 with
  | Some lat => length lat = Nat.min want (length (samples events)) ∧
      (length (samples events) < want → BenchTimeout ∈ events)
  | None => length (samples events) < want ∧ BenchTimeout ∉ events
  end ∧
  ∀ k, 0 < want →
    (consumer_loop value_as_i64 stream durable want [] (replicate k BenchAgain) o (b, u)).1 = None.
Proof.
  split; [apply (consumer_loop_run stream durable want []); simpl; lia|].
  intros k Hw. pose proof (consumer_loop_run stream durable want [] (replicate k BenchAgain) o b u) as H.
  assert (samples (replicate k BenchAgain) = []) as Hs by (clear; by induction k).
  rewrite Hs in H. simpl in H. specialize (H ltac:(lia)).
  destruct (consumer_loop _ stream durable want [] _ o (b, u)).1; [|done].
  destruct H as [_ H]. specialize (H Hw). apply elem_of_replicate in H. by destruct H.
Qed.
End consumer.

(** A run on the broker in memory: two publishers share three messages. *)
Definition demo_server : ServerLib (J := toy_json) :=
  @Build_ServerLib toy_json (λ _, "message") (λ _, None) (λ _, TNull) (λ _, TNull) (λ _, [])
    id Some (λ _, "").

Definition demo_args : BenchArgs :=
  {| bench_name := "rows"; bench_count := 3; bench_size := 4; bench_publishers := 2;
     bench_pub_only := true; bench_sub_only := false; bench_durable := None |}.

Example bench_demo :
  let x := run_queue (JM := demo_make) (SL := demo_server) (RC := demo_codec) (JB := demo_broker)
    (λ _, None) demo_send demo_ctx demo_args 7 [1; 0; 0] [] quiet_oracle (((tt, ∅), []), Used_init) in
  x.1 = Ok ([BenchBanner "rows" "orion.queue.rows" 3 4 2; PubLine {| ps_n := 3; ps_bytes := 21 |}],
            BenchReturned) ∧
  length <$> histories x.2.1.1.2 !! "ORION_QUEUE_ROWS" = Some 3.
Proof. by vm_compute. Qed.
